(* ===== verification/_CoqProject ===== *)
-Q . S2P
Prelude.v
Bytes.v
GoStrings.v
Paths.v
Encoding.v
NetAddr.v
Conn.v
Bufio.v
Proxy.v
Socks.v
HttpConnect.v
Tcp.v
Dial.v
Tunnel.v
NetworkStream.v
StreamEvents.v
WsFrame.v
WsClient.v
Http1.v
HttpBody.v
HttpClient.v
WsHandshake.v
Aes.v
Json.v
WsListen.v
EndToEnd.v
WsReconnect.v
Sessions.v
Console.v
NetExamples.v
Storage.v
StorageRefine.v
Migrations.v
MigrateShared.v
PgOpen.v
Sql.v
Engine.v
Database.v
DbExamples.v
Emitter.v
Termcolor.v
Logger.v
Debouncer.v
