(* ===== verification/Prelude.v ===== *)
(** * The DesKaOne SDK, verified

    This library models the Go SDK under [src/] and proves what makes its
    parts correct.  Definitions keep the names of the source where they can;
    where two methods share a name the receiver is put in front
    ([TCP_Close], [WS_Close], [Storage_Delete]).

    ** The program

    The SDK is a stack.  A [proxy.ProxyConfig] names a proxy and a picker
    chooses one per connection.  [network/dialler.go] dials directly or through
    the proxy, running one of the handlers of [network/handler] on the raw
    connection; [tls_client.go] puts TLS on top; [TCPClient] owns the result.
    The HTTP client and the WebSocket client speak their protocols over a
    [TCPClient] through a [bufio.Reader].  [NetworkStream] is a growable byte
    buffer with typed reads and writes.  Beside the stack are an encrypted
    key-value file ([storage]), SQL helpers ([database]), an event emitter, a
    debouncer, and a logger that draws on the terminal ([logger], [termcolor]).

    ** How code is modelled

    A method of a mutable object is a state-passing function
    [GoM S A := S -> outcome A * S] (below); an [outcome] is a result, a Go
    error, a panic, or [Diverge] when a loop has not ended.  Errors keep their
    format string and arguments.  Goroutines that interleave are step
    relations ([Tcp.listen_step], [StreamEvents.ev_step], [Emitter.step],
    [WsListen.wl_step] and [ping_step], [WsReconnect.run_step],
    [Database.maint_step], [Debouncer.debounce_step],
    [Logger.watch_step]), and so are programs that share a server
    ([MigrateShared.shared_step]); methods that hold a lock for their whole
    body are single steps.  Machine integers are [Z] with their
    wrap-around written out, bytes are [Byte.byte], Go maps are [gmap] and are
    visited in any order ([Http1.MapOrder]).

    The language's library is modelled as far as it is used: [strings],
    [strconv] and UTF-8 in [GoStrings], big- and little-endian words in
    [Bytes], base64, SHA-1 and SHA-256 in [Encoding] and AES and CBC in [Aes],
    all executable and checked on published vectors, [bufio] and [io] in
    [Bufio], [net.Conn] in [Conn].  What is outside the process is a
    parameter: the peer is a script of reads and writes of any segmentation
    and with any errors ([Conn.conn]), the network and [crypto/tls] are
    [Dial.Net], [net/url]'s reader is [NetAddr.NetURL] (for connection strings
    [PgOpen] writes it out), randomness is [Bytes.Rand],
    decompression is [HttpClient.Inflate], JSON text is [Json.JSON], databases
    are [Migrations.Postgres], [PgOpen.PgCluster] and [Engine.SqlServer], and
    the registry of drivers is [Database.SqlRuntime].  Each has an instance that
    is used by the witnesses.

    ** Files

    - [Prelude]: errors, outcomes, the monad, integers, tactics and hints.
    - [Bytes], [GoStrings], [Paths], [Encoding], [NetAddr], [Aes], [Json]: data
      and the Go library.  [Aes] proves that decryption inverts encryption; [Json]
      that integers below 2^53 survive as [float64].
    - [Conn], [Bufio]: connections and buffered readers, and the interface
      [Bufio.Reader] with its laws [ReaderLaws], which both implement and
      against which the frame parser is proved.
    - [Proxy] ([proxy/*.go]): configurations, parsing, printing, pickers.
    - [Socks], [HttpConnect] ([network/handler/*.go]): the four handlers.
    - [Tcp] ([tcp_client.go]), [Dial] ([dialler.go], [tls_client.go]).
    - [Tunnel]: the interface between the transport and the protocols.
      [Tunnel.online] says that a destination can be reached, directly or
      through a SOCKS5 or CONNECT proxy, plainly or over TLS, and what it sends;
      [online_connects] discharges it once for all routes.
    - [NetworkStream], [StreamEvents] ([network_stream.go]).
    - [WsFrame], [WsClient], [WsHandshake], [WsListen]
      ([websocket_client.go]), [WsReconnect] ([websocket_reconnect.go]): frames,
      single calls, the upgrade, the listener, pinger and JSON messages, and the
      client that reconnects, each over the one before.
    - [Http1], [HttpBody], [HttpClient] ([http_client.go]).
    - [EndToEnd]: a WebSocket session from its address to the callbacks;
      [Sessions]: all sessions of a reconnecting client.
    - [Storage] ([storage/storage.go], [token_store.go]); [StorageRefine]: its
      specification as a persistent map with one undo, and the refinement.
    - [Migrations] and [PgOpen] ([database/postgres/postgres.go]), [Sql]
      ([dialect.go], [sqlite.go], [postgres.go]), [Engine] ([base_engine.go],
      [migration.go]), [Database] ([engine.go], [scheduler.go], [config.go]).
      [MigrateShared]: [Migrate] call by call, in several programs at once.
    - [Emitter] ([emitter/emitter.go]), [Debouncer] ([debouncer/debouncer.go]).
    - [Termcolor] ([termcolor/termcolor.go]), [Logger] ([logger/logger.go]).
    - [Console], [NetExamples], [DbExamples] ([cmd/*/main.go],
      [examples/postgres_auto_migrate/main.go]): the example programs, as
      clients of the packages and with the lines they print.

    ** What is proved

    - Streams: writing typed values and reading them back gives the same values
      exactly when no string or byte slice is longer than a frame, and every
      sequence of operations refines operations on a plain file
      ([NetworkStream.stream_roundtrip], [stream_refines_file]); a listener gets
      what was added in order ([StreamEvents.events_in_order]).
    - Proxies: what configurations are accepted, field by field; that printing
      hides the password and parsing inverts printing; that the SOCKS5 and
      CONNECT handshakes succeed exactly on an accepting answer, send exactly
      their transcript and leave the tunnel at its first byte, however the
      answer is cut; that a chosen proxy is never bypassed and a failed
      connection attempt leaves nothing open; that a round-robin picker visits
      every proxy.
    - HTTP: header blocks and all three body framings are read back as they
      were sent; directly and through a SOCKS5 or CONNECT proxy a request gives
      the status, headers and body of a server that neither redirects nor
      compresses, cut to the size limit ([HttpClient.Do_end_to_end]), and so
      does a streamed one ([DoStream_end_to_end]); for every server, proxy,
      failing write and retry configuration [Do] returns, and leaves no
      connection open on which no write has failed ([Do_safe]).
    - WebSocket: frames round-trip, fragmented messages with interleaved pings
      are assembled, reading returns whatever the peer sends, and the handshake
      sends the opening request and succeeds exactly on status 101 with the
      three headers of RFC 6455 ([handshake_correct]); opening a client returns
      on every network ([NewWebSocketClient_safe]).  Every run of the listener
      ends and calls [onDone] once and last, and it hands over exactly what a
      peer sends ([WsListen_correct], [WsListen_delivers]); from opening to the
      last callback a session delivers exactly the server's messages, if the
      server sends no pong between the fragments of one ([WebSocket_end_to_end]);
      JSON values survive the way from one end to the other.  A reconnecting
      client opens at most its limit of connections, stops when its context is
      cancelled and calls back in order ([Reconnect_terminates],
      [Reconnect_cancelled], [Reconnect_calls_ordered]); undisturbed, it delivers
      every message of every session once and in order ([Reconnect_delivers]).
    - Storage: padding is exact; every sequence of operations and restarts, from
      any files the key can read or none, also in a directory that has to be
      made first and with values that have no JSON text, refines a persistent
      map with one undo ([storage_refines]); one failing write never costs both
      files ([Set_one_fault]); an export can be imported again.
    - Databases: migrations are read in version order and applied in that
      order, each completely or not at all and none left out, whatever calls
      fail, and [Migrate] waits only while the lock is held; a second run changes
      nothing.  Of several programs that migrate one database at the same time
      at most one is at work, no migration is applied twice, and with one
      connection each all of them return ([shared_migrations_safe],
      [shared_migrations_return]).  Batches are atomic; an upsert's statement
      mentions exactly the valid names it was given.  Opening a database, with
      either package, gives a ready one or leaves nothing open
      ([Database.Open_safe], [PgOpen_safe]); making sure of one creates it and
      touches no other ([EnsureDatabase_correct]); what [net/url] reads in a
      connection string is what was configured, whatever bytes the fields
      consist of ([connString_roundtrip]); maintenance keeps away from recent
      writes, and after a close it sends nothing ([maintain_quiet],
      [Close_silences]).
    - Emitter: an emission calls each handler once; the table's invariant holds
      in every interleaving.  The debouncer refines its specification.
    - Terminal: colours do not change the text ([colours_invisible],
      [log_visible]); a panel shows the last lines, cut and padded to its width
      ([AppendLine_window]); headers are centred and layouts do not overlap.
    - Defects, as theorems about the code as it is: growing an empty stream
      hangs, a string longer than a frame can be written and not read back
      ([long_string_unreadable]), a value without a JSON text stays in memory and
      fails every later save ([unencodable_sticks]), a pong drops message fragments, a closed flag keeps transports and
      failed connections open, so that every reconnection leaks one
      ([Reconnect_leaks]), closing a reconnecting client by hand reconnects, a
      pong makes [ReadJSON] fail, truncated bodies are accepted, a cut data file
      destroys its backup, and so does one that cannot be read, closing a stream can lose data, importing null breaks
      the storage, the migration lock leaks and does not keep apart two
      calls that one connection serves, two programs race to create a
      database, closing an engine twice panics, a once-handler can run twice,
      the PostgreSQL example never opens its database, [autoPing] panics at the
      end of a stream, the watcher of the terminal's size never sees it change,
      errors are logged in the wrong colour, a coloured line is cut in its
      escape sequence, and [Style] prints its codes as text.

    ** Fuel

    Loops of the source run with fuel that is enough by construction and is
    proved so: a loop that reads is given the number of bytes that can still
    come (every round consumes one, or the loop stops), loops that write the
    length of the data, redirects and retries their own bounds.  The theorems
    that end in [_returns], [_safe] or [_correct] state that the result is not
    [Diverge]; where the source really loops for ever, as in growing an empty
    buffer, [Diverge] is proved for every amount of fuel.

    ** Not modelled

    Contexts beyond their effect at the points where the code waits; elapsed
    times; nil receivers, but for the getters of a client; socket options
    ([unwrapTCPConn]); the size of the real terminal and whether there is one;
    the Windows console switch, which is two calls of the system.  Values put
    into the storage are copied, not shared with the caller.  Every call of the
    network returns: a peer that is silent for ever, where no time-out is set,
    is not modelled.  A session of the PostgreSQL server stays open while it
    holds the lock.

    All packages and programs are modelled.  What is left of the source are
    imports, comments and the lines named above. *)

From Stdlib Require Export ZArith Lia.
From Stdlib Require Strings.Byte.
From Stdlib Require Export Sorting.Sorted.
From stdpp Require Export base tactics numbers list gmap strings.

#[global] Set Default Goal Selector "!".

(** ** Bytes

    A Go [byte] is a [Byte.byte]; a Go [string] and a [[]byte] are both
    sequences of bytes. *)

Abbreviation byte := Byte.byte.
Abbreviation bytes := (list Byte.byte).

#[global] Instance byte_eq_dec : EqDecision byte := Byte.byte_eq_dec.
#[global] Program Instance byte_countable : Countable byte :=
  inj_countable Byte.to_N Byte.of_N _.
Next Obligation. intros x. apply Byte.of_to_N. Qed.
#[global] Instance byte_inhabited : Inhabited byte := populate Byte.x00.

(** A Go string literal as bytes. *)
Definition str (s : string) : bytes := String.list_byte_of_string s.

(** ** Errors

    Go [error] values.  Package-level sentinels ([io.EOF],
    [ErrTCPClientClosed], ...) are compared by identity in the source and
    are told apart by their text here.  [Errorf] keeps the format string and
    the arguments of [fmt.Errorf]/[errors.New]; [Wrapf] is a format with a
    [%w] in it. *)
Inductive fmtarg :=
| AInt (z : Z)
| AStr (s : bytes)
| AQuote (s : bytes).

Inductive error :=
| Sentinel (msg : string)
| Errorf (format : string) (args : list fmtarg)
| Wrapf (format : string) (args : list fmtarg) (inner : error)
| NetError (timeout : bool) (msg : bytes)
| CloseError (code : Z) (reason : bytes).

Definition EOF : error := Sentinel "EOF".
Definition ErrUnexpectedEOF : error := Sentinel "unexpected EOF".
Definition ErrShortWrite : error := Sentinel "short write".

#[global] Instance fmtarg_eq_dec : EqDecision fmtarg.
Proof. solve_decision. Defined.
#[global] Instance error_eq_dec : EqDecision error.
Proof. solve_decision. Defined.

(** ** Outcomes and the state monad of the source's methods

    A method of a mutable object is a function from the object's state to an
    outcome and a new state.  The state survives an error return.  [Panic] is
    a Go run-time panic (index out of range, nil dereference); [Diverge] says
    that a loop did not finish within the fuel it was given. *)
Inductive outcome (A : Type) :=
| Ok (a : A)
| Err (e : error)
| Panic
| Diverge.
Arguments Ok {A} a.
Arguments Err {A} e.
Arguments Panic {A}.
Arguments Diverge {A}.

Definition GoM (S A : Type) : Type := S -> outcome A * S.

Definition ret {S A} (a : A) : GoM S A := fun s => (Ok a, s).
Definition fail {S A} (e : error) : GoM S A := fun s => (Err e, s).
Definition panic {S A} : GoM S A := fun s => (Panic, s).
Definition get {S} : GoM S S := fun s => (Ok s, s).
Definition put {S} (s' : S) : GoM S unit := fun _ => (Ok tt, s').
Definition modify {S} (f : S -> S) : GoM S unit := fun s => (Ok tt, f s).

Definition bind {S A B} (m : GoM S A) (k : A -> GoM S B) : GoM S B :=
  fun s =>
    match m s with
    | (Ok a, s') => k a s'
    | (Err e, s') => (Err e, s')
    | (Panic, s') => (Panic, s')
    | (Diverge, s') => (Diverge, s')
    end.

(** Run [m] and hand its error, if any, to [h] instead of returning it. *)
Definition catch {S A} (m : GoM S A) (h : error -> GoM S A) : GoM S A :=
  fun s =>
    match m s with
    | (Err e, s') => h e s'
    | r => r
    end.

(** [_ = m()]: an error is dropped, a panic is not. *)
Definition ignore {S A} (m : GoM S A) : GoM S unit :=
  catch (bind m (fun _ => ret tt)) (fun _ => ret tt).

(** [defer d()] around the rest [m] of a function: [d] runs on every exit. *)
Definition deferred {S A} (d : GoM S unit) (m : GoM S A) : GoM S A :=
  fun s => let '(r, s') := m s in (r, snd (d s')).

Declare Scope go_scope.
Delimit Scope go_scope with go.
Notation "'do' x <- m ; k" := (bind m (fun x => k))
  (at level 100, x name, m at next level, k at level 200, right associativity) : go_scope.
Notation "'do' ' p <- m ; k" := (bind m (fun p => k))
  (at level 100, p pattern, m at next level, k at level 200, right associativity) : go_scope.
Notation "m ;; k" := (bind m (fun _ => k))
  (at level 100, k at level 200, right associativity) : go_scope.
Notation "'guard' b 'else' e ; k" :=
  (if (b : bool) then k else fail e)
  (at level 100, b at next level, e at next level, k at level 200, right associativity) : go_scope.
Open Scope go_scope.

(** ** Machine integers *)

(** Unsigned and signed wrap-around at width [w]. *)
Definition uwrap (w z : Z) : Z := (z mod 2 ^ w)%Z.
Definition swrap (w z : Z) : Z := ((z + 2 ^ (w - 1)) mod 2 ^ w - 2 ^ (w - 1))%Z.

(** Go's [int] on the 64-bit platforms the SDK targets. *)
Definition int64 (z : Z) : Z := swrap 64 z.

Definition in_int64 (z : Z) : Prop := (- 2 ^ 63 <= z < 2 ^ 63)%Z.

(** [len] as a Go [int]. *)
Definition zlen {A} (l : list A) : Z := Z.of_nat (length l).

(** ** Tactics and hint databases *)
Create HintDb go discriminated.
Create Rewrite HintDb golen.


(** Case analysis on the booleans the source tests, with the arithmetic
    facts they decide put in the context. *)
Ltac bools :=
  repeat match goal with
  | H : (_ && _)%bool = true |- _ => apply andb_prop in H; destruct H
  | H : (_ || _)%bool = false |- _ => apply orb_false_elim in H; destruct H
  | H : negb _ = true |- _ => apply negb_true_iff in H
  | H : negb _ = false |- _ => apply negb_false_iff in H
  | H : (_ <? _)%Z = true |- _ => apply Z.ltb_lt in H
  | H : (_ <? _)%Z = false |- _ => apply Z.ltb_ge in H
  | H : (_ <=? _)%Z = true |- _ => apply Z.leb_le in H
  | H : (_ <=? _)%Z = false |- _ => apply Z.leb_gt in H
  | H : (_ =? _)%Z = true |- _ => apply Z.eqb_eq in H
  | H : (_ =? _)%Z = false |- _ => apply Z.eqb_neq in H
  | H : bool_decide _ = true |- _ => apply bool_decide_eq_true in H
  | H : bool_decide _ = false |- _ => apply bool_decide_eq_false in H
  end.

(** Split on the first [if] of the goal. *)
Ltac case_if :=
  match goal with
  | |- context [if ?b then _ else _] =>
      lazymatch type of b with
      | bool => destruct b eqn:?; bools
      | _ => destruct b
      end
  end.

(** Decide the equalities between constants that the goal tests. *)
Ltac decide_consts :=
  repeat match goal with
  | |- context [bool_decide (?a = ?b)] =>
      first [rewrite (bool_decide_eq_true_2 (a = b)) by reflexivity
            |rewrite (bool_decide_eq_false_2 (a = b)) by discriminate]
  end; cbn [negb andb orb].

Ltac case_if_in H :=
  match type of H with
  | context [if ?b then _ else _] =>
      lazymatch type of b with
      | bool => destruct b eqn:?; bools
      | _ => destruct b
      end
  end.

(** ** Laws of the monad *)

Lemma bind_Ok {S A B} (m : GoM S A) (k : A -> GoM S B) s a s' :
  m s = (Ok a, s') -> bind m k s = k a s'.
Proof. intros H. unfold bind. by rewrite H. Qed.

Lemma bind_Err {S A B} (m : GoM S A) (k : A -> GoM S B) s e s' :
  m s = (Err e, s') -> bind m k s = (Err e, s').
Proof. intros H. unfold bind. by rewrite H. Qed.

Lemma bind_inv_Ok {S A B} (m : GoM S A) (k : A -> GoM S B) s b s' :
  bind m k s = (Ok b, s') -> exists a s1, m s = (Ok a, s1) /\ k a s1 = (Ok b, s').
Proof.
  unfold bind. destruct (m s) as [[a|e| |] s1]; intros H; try discriminate. eauto.
Qed.

Lemma bind_assoc {S A B C} (m : GoM S A) (k : A -> GoM S B) (h : B -> GoM S C) s :
  bind (bind m k) h s = bind m (fun a => bind (k a) h) s.
Proof. unfold bind. by destruct (m s) as [[]]. Qed.

(** A computation returns when it neither panics nor loops. *)
Definition returned {A} (r : outcome A) : Prop :=
  match r with Ok _ | Err _ => True | Panic | Diverge => False end.

Definition returns {S A} (m : GoM S A) : Prop := forall s, returned (fst (m s)).

Lemma returns_ret {S A} (a : A) : returns (ret a : GoM S A).
Proof. by intros s. Qed.

Lemma returns_fail {S A} e : returns (fail e : GoM S A).
Proof. by intros s. Qed.

Lemma returns_modify {S} (f : S -> S) : returns (modify f).
Proof. by intros s. Qed.

Lemma returns_get {S} : returns (get : GoM S S).
Proof. by intros s. Qed.

Lemma returns_bind {S A B} (m : GoM S A) (k : A -> GoM S B) :
  returns m -> (forall a, returns (k a)) -> returns (bind m k).
Proof.
  intros Hm Hk s. specialize (Hm s). unfold bind.
  destruct (m s) as [[a|e| |] s']; try done. apply Hk.
Qed.

(** As above, with a fact about the results of [m]. *)
Lemma returns_bind_post {S A B} (P : A -> Prop) (m : GoM S A) (k : A -> GoM S B) :
  returns m -> (forall s a s', m s = (Ok a, s') -> P a) ->
  (forall a, P a -> returns (k a)) -> returns (bind m k).
Proof.
  intros Hm HP Hk s. specialize (Hm s). unfold bind.
  destruct (m s) as [[a|e| |] s'] eqn:E; try done. apply Hk. by eapply HP.
Qed.

Lemma returns_if {S A} (b : bool) (m1 m2 : GoM S A) :
  returns m1 -> returns m2 -> returns (if b then m1 else m2).
Proof. by destruct b. Qed.

#[export] Hint Resolve returns_ret returns_fail returns_modify returns_get returns_bind returns_if : go.

(** ** Integer lemmas *)

Lemma uwrap_range w z : (0 <= w)%Z -> (0 <= uwrap w z < 2 ^ w)%Z.
Proof. intros Hw. unfold uwrap. apply Z.mod_pos_bound. lia. Qed.

Lemma uwrap_id w z : (0 <= z < 2 ^ w)%Z -> uwrap w z = z.
Proof. apply Z.mod_small. Qed.

Lemma swrap_id w z : (0 < w -> - 2 ^ (w - 1) <= z < 2 ^ (w - 1) -> swrap w z = z)%Z.
Proof.
  intros Hw Hz. unfold swrap.
  assert (2 ^ w = 2 * 2 ^ (w - 1))%Z as E.
  { replace w with (Z.succ (w - 1)) at 1 by lia. apply Z.pow_succ_r. lia. }
  rewrite Z.mod_small; lia.
Qed.

Lemma swrap_range w z : (0 < w -> - 2 ^ (w - 1) <= swrap w z < 2 ^ (w - 1))%Z.
Proof.
  intros Hw. unfold swrap.
  assert (2 ^ w = 2 * 2 ^ (w - 1))%Z as E.
  { replace w with (Z.succ (w - 1)) at 1 by lia. apply Z.pow_succ_r. lia. }
  pose proof (Z.mod_pos_bound (z + 2 ^ (w - 1)) (2 ^ w)). lia.
Qed.

(** Reading a [w]-bit pattern as signed undoes writing a signed value. *)
Lemma swrap_uwrap w z : (0 < w)%Z -> swrap w (uwrap w z) = swrap w z.
Proof.
  intros Hw. unfold swrap, uwrap. f_equal. apply Z.add_mod_idemp_l. lia.
Qed.

Lemma int64_id z : in_int64 z -> int64 z = z.
Proof. intros Hz. apply swrap_id; [lia|]. unfold in_int64 in Hz. simpl in *. lia. Qed.

Lemma zlen_nonneg {A} (l : list A) : (0 <= zlen l)%Z.
Proof. unfold zlen. lia. Qed.

Lemma zlen_app {A} (l k : list A) : zlen (l ++ k) = (zlen l + zlen k)%Z.
Proof. unfold zlen. rewrite length_app. lia. Qed.

#[export] Hint Resolve zlen_nonneg : go.

(** ** List lemmas *)

Lemma StronglySorted_snoc {A} (R : A -> A -> Prop) l x :
  StronglySorted R l -> Forall (fun y => R y x) l -> StronglySorted R (l ++ [x]).
Proof.
  induction 1 as [|a l Hl IH Ha]; intros Hf; [by repeat constructor|]. apply Forall_cons in Hf as [Hax Hf].
  cbn. constructor; [by apply IH|]. apply Forall_app. by repeat constructor.
Qed.

Lemma take_drop_app {A} (n : nat) (l k : list A) :
  length l = n -> take n (l ++ k) = l /\ drop n (l ++ k) = k.
Proof. intros <-. by rewrite take_app_length, drop_app_length. Qed.
