(* ===== verification/Bytes.v ===== *)
(** * Bytes: [encoding/binary], slices and [copy]

    The conversions between bytes and integers that the wire formats of the
    SDK use (little endian in [network_stream.go], big endian in the SOCKS
    and WebSocket code), and [copy] into a slice of a buffer.  The lemmas
    are the round trips of the fixed-width encodings and the frame
    properties of [copy]. *)

From Stdlib Require Strings.Byte.
From S2P Require Import Prelude.

Local Open Scope Z_scope.

(** ** Byte and integer *)

Definition b2z (b : byte) : Z := Z.of_N (Byte.to_N b).
(** Go's [byte(z)]: the low eight bits. *)
Definition z2b (z : Z) : byte := default Byte.x00 (Byte.of_N (Z.to_N (z mod 256))).

Definition byte_and (a b : byte) : byte := z2b (Z.land (b2z a) (b2z b)).
Definition byte_or (a b : byte) : byte := z2b (Z.lor (b2z a) (b2z b)).
Definition byte_xor (a b : byte) : byte := z2b (Z.lxor (b2z a) (b2z b)).

(** ** Fixed-width integers *)

(** [binary.LittleEndian.PutUint16/32/64] of the low [8n] bits of [v]. *)
Fixpoint le_put (n : nat) (v : Z) : bytes :=
  match n with
  | O => []
  | S n => z2b v :: le_put n (Z.shiftr v 8)
  end.

(** [binary.LittleEndian.Uint16/32/64]. *)
Fixpoint le_get (l : bytes) : Z :=
  match l with
  | [] => 0
  | b :: l => Z.lor (b2z b) (Z.shiftl (le_get l) 8)
  end.

(** [binary.BigEndian.PutUint16/64] and [binary.BigEndian.Uint16/64]. *)
Definition be_put (n : nat) (v : Z) : bytes := reverse (le_put n v).
Definition be_get (l : bytes) : Z := le_get (reverse l).

(** ** Slices *)

(** [copy(buf[pos:], data)]: as many bytes of [data] as fit. *)
Definition blit (pos : nat) (data buf : bytes) : bytes :=
  let k := Nat.min (length data) (length buf - pos) in
  take pos buf ++ take k data ++ drop (pos + k) buf.

(** ** Lemmas on bytes *)

Lemma b2z_range b : 0 <= b2z b < 256.
Proof.
  unfold b2z. pose proof (Byte.to_N_bounded b). lia.
Qed.

Lemma b2z_z2b z : b2z (z2b z) = z mod 256.
Proof.
  unfold b2z, z2b. pose proof (Z.mod_pos_bound z 256).
  destruct (Byte.of_N (Z.to_N (z mod 256))) as [b|] eqn:E; simpl.
  - apply Byte.to_of_N in E. rewrite E. lia.
  - apply Byte.of_N_None_iff in E. lia.
Qed.

Lemma b2z_inj a b : b2z a = b2z b -> a = b.
Proof.
  unfold b2z. intros H. apply N2Z.inj in H.
  pose proof (Byte.of_to_N a) as Ha. pose proof (Byte.of_to_N b) as Hb. congruence.
Qed.

#[global] Instance b2z_Inj : Inj (=) (=) b2z.
Proof. intros a b. apply b2z_inj. Qed.

Lemma z2b_b2z b : z2b (b2z b) = b.
Proof.
  apply b2z_inj. rewrite b2z_z2b. apply Z.mod_small, b2z_range.
Qed.

Lemma b2z_small z : 0 <= z < 256 -> b2z (z2b z) = z.
Proof. intros Hz. rewrite b2z_z2b. by apply Z.mod_small. Qed.

Lemma z2b_mod z : z2b (z mod 256) = z2b z.
Proof. apply b2z_inj. rewrite !b2z_z2b. by rewrite Z.mod_mod. Qed.

(** Bytes are closed under the bit operations, so no bit is lost. *)
Lemma byte_bitop_small (f : Z -> Z -> Z) a b :
  (forall n, 8 <= n -> Z.testbit (f (b2z a) (b2z b)) n = false) ->
  0 <= f (b2z a) (b2z b) ->
  b2z (z2b (f (b2z a) (b2z b))) = f (b2z a) (b2z b).
Proof.
  intros Hbits Hpos. rewrite b2z_z2b. change 256 with (2 ^ 8).
  rewrite <- Z.land_ones by lia. apply Z.bits_inj'. intros n Hn.
  rewrite Z.land_spec, Z.testbit_ones_nonneg by lia.
  destruct (n <? 8) eqn:E; bools; [by rewrite andb_true_r|].
  rewrite andb_false_r. symmetry. by apply Hbits.
Qed.

Lemma b2z_testbit_high b n : 8 <= n -> Z.testbit (b2z b) n = false.
Proof.
  intros Hn. rewrite <- (Z.mod_small (b2z b) (2 ^ 8)) by apply b2z_range.
  apply Z.mod_pow2_bits_high. lia.
Qed.

Lemma b2z_and a b : b2z (byte_and a b) = Z.land (b2z a) (b2z b).
Proof.
  apply byte_bitop_small.
  - intros n Hn. by rewrite Z.land_spec, !b2z_testbit_high.
  - apply Z.land_nonneg. left. apply b2z_range.
Qed.

Lemma b2z_or a b : b2z (byte_or a b) = Z.lor (b2z a) (b2z b).
Proof.
  apply byte_bitop_small.
  - intros n Hn. by rewrite Z.lor_spec, !b2z_testbit_high.
  - apply Z.lor_nonneg. split; apply b2z_range.
Qed.

Lemma b2z_xor a b : b2z (byte_xor a b) = Z.lxor (b2z a) (b2z b).
Proof.
  apply byte_bitop_small.
  - intros n Hn. by rewrite Z.lxor_spec, !b2z_testbit_high.
  - apply Z.lxor_nonneg. split; intros _; apply b2z_range.
Qed.

(** Masking twice with the same key byte gives the byte back. *)
Lemma byte_xor_involutive k b : byte_xor (byte_xor b k) k = b.
Proof.
  apply b2z_inj. by rewrite !b2z_xor, Z.lxor_assoc, Z.lxor_nilpotent, Z.lxor_0_r.
Qed.

(** ** Lemmas on the encodings *)

Lemma length_le_put n v : length (le_put n v) = n.
Proof. revert v. induction n; intros v; simpl; auto. Qed.

Lemma length_be_put n v : length (be_put n v) = n.
Proof. unfold be_put. by rewrite length_reverse, length_le_put. Qed.

Lemma lor_shiftl8 b z : Z.lor (b2z b) (Z.shiftl z 8) = b2z b + 256 * z.
Proof.
  assert (Z.land (b2z b) (Z.shiftl z 8) = 0) as Hdisj.
  { apply Z.bits_inj'. intros n Hn. rewrite Z.land_spec, Z.bits_0.
    destruct (decide (n < 8)).
    - by rewrite (Z.shiftl_spec_low _ _ n), andb_false_r by lia.
    - by rewrite b2z_testbit_high by lia. }
  pose proof (Z.add_lor_land (b2z b) (Z.shiftl z 8)) as E.
  rewrite Hdisj, Z.shiftl_mul_pow2 in * by lia. change (2 ^ 8) with 256 in *. lia.
Qed.

Lemma shiftr8 z : Z.shiftr z 8 = z / 256.
Proof. by rewrite Z.shiftr_div_pow2 by lia. Qed.

Lemma le_get_cons b l : le_get (b :: l) = b2z b + 256 * le_get l.
Proof. apply lor_shiftl8. Qed.

Lemma pow256_S n : 2 ^ (8 * Z.of_nat (S n)) = 256 * 2 ^ (8 * Z.of_nat n).
Proof.
  replace (8 * Z.of_nat (S n)) with (8 + 8 * Z.of_nat n) by lia.
  by rewrite Z.pow_add_r by lia.
Qed.

(** Decoding what was encoded gives the value at the width of the field. *)
Lemma le_get_put n v : le_get (le_put n v) = uwrap (8 * Z.of_nat n) v.
Proof.
  unfold uwrap. revert v. induction n as [|n IH]; intros v.
  - by rewrite Z.mod_1_r.
  - cbn [le_put]. rewrite le_get_cons, IH, b2z_z2b, shiftr8, pow256_S.
    rewrite Z.rem_mul_r by lia. lia.
Qed.

Lemma le_get_range l : 0 <= le_get l < 2 ^ (8 * zlen l).
Proof.
  unfold zlen. induction l as [|b l IH]; [simpl; lia|].
  rewrite le_get_cons. cbn [length]. rewrite pow256_S. pose proof (b2z_range b). lia.
Qed.

(** Encoding what was decoded gives the bytes back. *)
Lemma le_put_get l : le_put (length l) (le_get l) = l.
Proof.
  induction l as [|b l IH]; [done|]. rewrite le_get_cons. cbn [length le_put].
  pose proof (b2z_range b).
  rewrite shiftr8. f_equal.
  - rewrite <- z2b_mod. replace ((b2z b + 256 * le_get l) mod 256) with (b2z b).
    + apply z2b_b2z.
    + rewrite (Z.mul_comm 256), Z.mod_add by lia. by rewrite Z.mod_small.
  - replace ((b2z b + 256 * le_get l) / 256) with (le_get l); [done|].
    rewrite (Z.mul_comm 256), Z.div_add by lia. rewrite Z.div_small by lia. lia.
Qed.

Lemma be_get_put n v : be_get (be_put n v) = uwrap (8 * Z.of_nat n) v.
Proof. unfold be_get, be_put. by rewrite reverse_involutive, le_get_put. Qed.

Lemma be_get_range l : 0 <= be_get l < 2 ^ (8 * zlen l).
Proof.
  unfold be_get. pose proof (le_get_range (reverse l)) as H.
  unfold zlen in *. by rewrite length_reverse in H.
Qed.

Lemma be_put_get l : be_put (length l) (be_get l) = l.
Proof.
  unfold be_get, be_put. rewrite <- (length_reverse l), le_put_get.
  apply reverse_involutive.
Qed.

(** ** Lemmas on [copy] *)

Lemma length_blit pos data buf : length (blit pos data buf) = length buf.
Proof.
  unfold blit. rewrite !length_app, !length_take, length_drop. lia.
Qed.

(** A copy that fits replaces exactly the bytes it covers. *)
Lemma blit_fits pos data buf :
  (pos + length data <= length buf)%nat ->
  blit pos data buf = take pos buf ++ data ++ drop (pos + length data) buf.
Proof.
  intros H. unfold blit. rewrite Nat.min_l by lia. by rewrite (take_ge data) by lia.
Qed.

Lemma take_blit_before n pos data buf :
  (n <= pos)%nat -> (pos <= length buf)%nat -> take n (blit pos data buf) = take n buf.
Proof.
  intros Hn Hp. unfold blit. rewrite take_app_le.
  - rewrite take_take. f_equal. lia.
  - rewrite length_take. lia.
Qed.

Lemma blit_read pos data buf :
  (pos + length data <= length buf)%nat ->
  take (length data) (drop pos (blit pos data buf)) = data.
Proof.
  intros H. rewrite blit_fits by done.
  rewrite drop_app_length' by (rewrite length_take; lia).
  by rewrite take_app_length.
Qed.

Lemma drop_blit_after n pos data buf :
  (pos + length data <= n)%nat -> (pos + length data <= length buf)%nat ->
  drop n (blit pos data buf) = drop n buf.
Proof.
  intros Hn H. rewrite blit_fits by done. rewrite app_assoc, drop_app_ge.
  - rewrite length_app, length_take, drop_drop. f_equal. lia.
  - rewrite length_app, length_take. lia.
Qed.

#[export] Hint Rewrite @length_app @length_take @length_drop @length_reverse
  length_le_put length_be_put length_blit @length_replicate : golen.

(** Solve a goal on list lengths. *)
Ltac len := cbn [length] in *; autorewrite with golen in *; cbn [length] in *; lia.

(** ** Randomness *)

(** [crypto/rand.Read] into [n] bytes, at the [i]-th draw. *)
Class Rand := {
  rand_Read : nat -> nat -> bytes + error;
  rand_Read_len i n b : rand_Read i n = inl b -> length b = n;
}.

#[export] Program Instance rand_counter : Rand := {|
  rand_Read i n := inl (replicate n (z2b (Z.of_nat i)))
|}.
Next Obligation. intros i n b [= <-]. apply length_replicate. Qed.
