(* ===== verification/GoStrings.v ===== *)
(** * GoStrings: the parts of [strings], [strconv] and [unicode/utf8] in use

    Go strings are byte sequences; the functions that look at characters
    decode UTF-8 first.  The Unicode case and category tables are a type
    class: the code relies only on their ASCII part, which the laws of
    [Unicode] state, so every definition that folds case or classifies
    characters takes the tables as an argument. *)

From S2P Require Import Prelude Bytes.

Local Open Scope Z_scope.

(** ** Runes *)

Definition RuneError : Z := 65533.

Definition rune_in (lo hi : Z) (b : byte) : bool := (lo <=? b2z b) && (b2z b <=? hi).
Definition cont_bits (b : byte) : Z := Z.land (b2z b) 63.

(** Bounds of the byte after a lead byte, as in the table of [unicode/utf8]. *)
Definition lead3_lo (x : Z) : Z := if x =? 224 then 160 else 128.
Definition lead3_hi (x : Z) : Z := if x =? 237 then 159 else 191.
Definition lead4_lo (x : Z) : Z := if x =? 240 then 144 else 128.
Definition lead4_hi (x : Z) : Z := if x =? 244 then 143 else 191.

(** [for _, r := range s]: an invalid byte is one [RuneError]. *)
Fixpoint runes (l : bytes) : list Z :=
  match l with
  | [] => []
  | b0 :: t0 =>
      let x := b2z b0 in
      if x <? 128 then x :: runes t0
      else
        match t0 with
        | b1 :: t1 =>
            if (194 <=? x) && (x <=? 223) && rune_in 128 191 b1
            then Z.lor (Z.shiftl (Z.land x 31) 6) (cont_bits b1) :: runes t1
            else
              match t1 with
              | b2 :: t2 =>
                  if (224 <=? x) && (x <=? 239) && rune_in (lead3_lo x) (lead3_hi x) b1
                     && rune_in 128 191 b2
                  then Z.lor (Z.shiftl (Z.land x 15) 12)
                         (Z.lor (Z.shiftl (cont_bits b1) 6) (cont_bits b2)) :: runes t2
                  else
                    match t2 with
                    | b3 :: t3 =>
                        if (240 <=? x) && (x <=? 244) && rune_in (lead4_lo x) (lead4_hi x) b1
                           && rune_in 128 191 b2 && rune_in 128 191 b3
                        then Z.lor (Z.shiftl (Z.land x 7) 18)
                               (Z.lor (Z.shiftl (cont_bits b1) 12)
                                 (Z.lor (Z.shiftl (cont_bits b2) 6) (cont_bits b3))) :: runes t3
                        else RuneError :: runes t0
                    | [] => RuneError :: runes t0
                    end
              | [] => RuneError :: runes t0
              end
        | [] => RuneError :: runes t0
        end
  end.

(** [utf8.AppendRune]. *)
Definition encode_rune (r : Z) : bytes :=
  if (0 <=? r) && (r <=? 127) then [z2b r]
  else if (128 <=? r) && (r <=? 2047) then
    [z2b (Z.lor 192 (Z.shiftr r 6)); z2b (Z.lor 128 (Z.land r 63))]
  else if (r <? 0) || (1114111 <? r) || ((55296 <=? r) && (r <=? 57343)) then
    [Byte.xef; Byte.xbf; Byte.xbd]
  else if r <=? 65535 then
    [z2b (Z.lor 224 (Z.shiftr r 12)); z2b (Z.lor 128 (Z.land (Z.shiftr r 6) 63));
     z2b (Z.lor 128 (Z.land r 63))]
  else
    [z2b (Z.lor 240 (Z.shiftr r 18)); z2b (Z.lor 128 (Z.land (Z.shiftr r 12) 63));
     z2b (Z.lor 128 (Z.land (Z.shiftr r 6) 63)); z2b (Z.lor 128 (Z.land r 63))].

(** ** The Unicode tables *)

Definition is_upper (r : Z) : bool := (65 <=? r) && (r <=? 90).
Definition is_lower (r : Z) : bool := (97 <=? r) && (r <=? 122).
Definition is_digit (r : Z) : bool := (48 <=? r) && (r <=? 57).
Definition ascii_lower (r : Z) : Z := if is_upper r then r + 32 else r.
Definition ascii_upper (r : Z) : Z := if is_lower r then r - 32 else r.

Class Unicode := {
  uni_lower : Z -> Z;
  uni_upper : Z -> Z;
  (** The representative of the case-folding orbit of a rune. *)
  uni_fold : Z -> Z;
  uni_letter : Z -> bool;
  uni_digit : Z -> bool;
  (** [strconv.Quote], used in error texts only. *)
  quote : bytes -> bytes;
  uni_lower_ascii r : 0 <= r < 128 -> uni_lower r = ascii_lower r;
  uni_upper_ascii r : 0 <= r < 128 -> uni_upper r = ascii_upper r;
  uni_fold_ascii r r' : 0 <= r < 128 -> 0 <= r' < 128 ->
    uni_fold r = uni_fold r' <-> ascii_lower r = ascii_lower r';
  uni_letter_ascii r : 0 <= r < 128 -> uni_letter r = is_upper r || is_lower r;
  uni_digit_ascii r : 0 <= r < 128 -> uni_digit r = is_digit r;
}.

(** Tables that know ASCII only. *)
#[export] Program Instance unicode_ascii : Unicode := {|
  uni_lower := ascii_lower;
  uni_upper := ascii_upper;
  uni_fold := ascii_lower;
  uni_letter r := is_upper r || is_lower r;
  uni_digit := is_digit;
  quote s := Byte.x22 :: s ++ [Byte.x22];
|}.
Solve Obligations with done.

(** ** [strings] *)

Definition ToLower `{Unicode} (s : bytes) : bytes :=
  concat ((fun r => encode_rune (uni_lower r)) <$> runes s).
Definition ToUpper `{Unicode} (s : bytes) : bytes :=
  concat ((fun r => encode_rune (uni_upper r)) <$> runes s).
Definition EqualFold `{Unicode} (s t : bytes) : bool :=
  bool_decide (uni_fold <$> runes s = uni_fold <$> runes t).

(** White space as [unicode.IsSpace] has it, on the UTF-8 encodings. *)
Definition space1 (b : byte) : bool :=
  let x := b2z b in ((9 <=? x) && (x <=? 13)) || (x =? 32).
Definition space2 (b0 b1 : byte) : bool :=
  (b2z b0 =? 194) && ((b2z b1 =? 133) || (b2z b1 =? 160)).
Definition space3 (b0 b1 b2 : byte) : bool :=
  let x := b2z b0 in let y := b2z b1 in let z := b2z b2 in
  ((x =? 225) && (y =? 154) && (z =? 128))
  || ((x =? 226) && (y =? 128) && (((128 <=? z) && (z <=? 138)) || (z =? 168) || (z =? 169) || (z =? 175)))
  || ((x =? 226) && (y =? 129) && (z =? 159))
  || ((x =? 227) && (y =? 128) && (z =? 128)).

Section trim.
Context (sp2 : byte -> byte -> bool) (sp3 : byte -> byte -> byte -> bool).

(** Drop leading white space, given the two- and three-byte encodings in the
    order in which they are met. *)
Fixpoint trim_front (l : bytes) : bytes :=
  match l with
  | [] => []
  | b0 :: t0 =>
      if space1 b0 then trim_front t0
      else
        match t0 with
        | [] => l
        | b1 :: t1 =>
            if sp2 b0 b1 then trim_front t1
            else
              match t1 with
              | [] => l
              | b2 :: t2 => if sp3 b0 b1 b2 then trim_front t2 else l
              end
        end
  end.
End trim.

Definition TrimLeftSpace : bytes -> bytes := trim_front space2 space3.
Definition TrimRightSpace (s : bytes) : bytes :=
  reverse (trim_front (fun b1 b0 => space2 b0 b1) (fun b2 b1 b0 => space3 b0 b1 b2) (reverse s)).
Definition TrimSpace (s : bytes) : bytes := TrimRightSpace (TrimLeftSpace s).

(** [strings.TrimRight(s, cutset)] for an ASCII cutset. *)
Fixpoint drop_while (p : byte -> bool) (l : bytes) : bytes :=
  match l with
  | [] => []
  | b :: l' => if p b then drop_while p l' else l
  end.
Definition TrimRight (cutset s : bytes) : bytes :=
  reverse (drop_while (fun b => bool_decide (b ∈ cutset)) (reverse s)).

Definition HasPrefix (s p : bytes) : bool := bool_decide (take (length p) s = p).
Definition HasSuffix (s p : bytes) : bool :=
  bool_decide (length p <= length s)%nat && bool_decide (drop (length s - length p) s = p).
Definition TrimSuffix (s p : bytes) : bytes :=
  if HasSuffix s p then take (length s - length p) s else s.

(** [strings.Index] and [bytes.Index]; [None] is -1. *)
Fixpoint Index (s sub : bytes) : option nat :=
  if HasPrefix s sub then Some 0%nat
  else match s with
       | [] => None
       | _ :: s => S <$> Index s sub
       end.
Definition Contains (s sub : bytes) : bool := bool_decide (is_Some (Index s sub)).

(** [strings.Cut]. *)
Definition Cut (s sep : bytes) : option (bytes * bytes) :=
  match Index s sep with
  | Some i => Some (take i s, drop (i + length sep) s)
  | None => None
  end.

(** [strings.Split] for a non-empty separator; every piece consumes at least
    one byte, so the length of the string is enough fuel. *)
Fixpoint split_fuel (fuel : nat) (s sep : bytes) : list bytes :=
  match fuel with
  | O => [s]
  | S fuel =>
      match Cut s sep with
      | Some (a, b) => a :: split_fuel fuel b sep
      | None => [s]
      end
  end.
Definition Split (s sep : bytes) : list bytes := split_fuel (length s) s sep.

Fixpoint Join (l : list bytes) (sep : bytes) : bytes :=
  match l with
  | [] => []
  | [x] => x
  | x :: l => x ++ sep ++ Join l sep
  end.

(** [strings.Fields]; [cur] is the field being read, reversed. *)
Definition flush (cur : bytes) : list bytes :=
  match cur with [] => [] | _ => [reverse cur] end.
Fixpoint fields_from (cur l : bytes) : list bytes :=
  match l with
  | [] => flush cur
  | b0 :: t0 =>
      if space1 b0 then flush cur ++ fields_from [] t0
      else
        match t0 with
        | [] => flush (b0 :: cur)
        | b1 :: t1 =>
            if space2 b0 b1 then flush cur ++ fields_from [] t1
            else
              match t1 with
              | [] => fields_from (b0 :: cur) t0
              | b2 :: t2 =>
                  if space3 b0 b1 b2 then flush cur ++ fields_from [] t2
                  else fields_from (b0 :: cur) t0
              end
        end
  end.
Definition Fields (s : bytes) : list bytes := fields_from [] s.

(** [strings.ReplaceAll] of a single byte. *)
Definition ReplaceByte (s : bytes) (b : byte) (new : bytes) : bytes :=
  concat ((fun x => if bool_decide (x = b) then new else [x]) <$> s).

(** [strings.Repeat]. *)
Definition Repeat (s : bytes) (n : nat) : bytes := concat (replicate n s).

(** ** [strconv] *)

(** The value of a digit in bases up to 16. *)
Definition digit_val (b : byte) : option Z :=
  let x := b2z b in
  if is_digit x then Some (x - 48)
  else if (97 <=? x) && (x <=? 102) then Some (x - 87)
  else if (65 <=? x) && (x <=? 70) then Some (x - 55)
  else None.

Fixpoint parse_digits (base acc : Z) (l : bytes) : option Z :=
  match l with
  | [] => Some acc
  | b :: l =>
      match digit_val b with
      | Some d => if d <? base then parse_digits base (base * acc + d) l else None
      | None => None
      end
  end.

Definition parse_nonempty (base : Z) (l : bytes) : option Z :=
  match l with [] => None | _ => parse_digits base 0 l end.

(** [strconv.ParseInt(s, base, 64)] for an explicit base; [None] stands for
    both the syntax and the range error. *)
Definition ParseInt (s : bytes) (base : Z) : option Z :=
  let r := match s with
           | Byte.x2d :: l => Z.opp <$> parse_nonempty base l
           | Byte.x2b :: l => parse_nonempty base l
           | l => parse_nonempty base l
           end in
  match r with
  | Some z => if (- 2 ^ 63 <=? z) && (z <? 2 ^ 63) then Some z else None
  | None => None
  end.

Definition Atoi (s : bytes) : option Z := ParseInt s 10.

(** Decimal digits, least significant first; a 64-bit number has at most 20. *)
Fixpoint digits_rev (fuel : nat) (n : Z) : bytes :=
  match fuel with
  | O => []
  | S fuel => z2b (48 + n mod 10) :: (if n <? 10 then [] else digits_rev fuel (n / 10))
  end.
Definition print_nat (n : Z) : bytes := reverse (digits_rev (S (Z.to_nat (Z.log2 n))) n).
Definition Itoa (z : Z) : bytes :=
  if z <? 0 then Byte.x2d :: print_nat (- z) else print_nat z.

(** ** Lemmas on searching *)

Lemma HasPrefix_true s p : HasPrefix s p = true <-> exists r, s = p ++ r.
Proof.
  unfold HasPrefix. rewrite bool_decide_eq_true. split.
  - intros H. exists (drop (length p) s). rewrite <- H at 1. by rewrite take_drop.
  - intros [r ->]. by rewrite take_app_length.
Qed.

Lemma HasPrefix_app p r : HasPrefix (p ++ r) p = true.
Proof. apply HasPrefix_true. eauto. Qed.

(** [Index] is the first position at which the substring starts. *)
Lemma Index_Some s sub i :
  Index s sub = Some i ->
  HasPrefix (drop i s) sub = true /\ (i + length sub <= length s)%nat /\
  forall j, (j < i)%nat -> HasPrefix (drop j s) sub = false.
Proof.
  revert i. induction s as [|b s IH]; intros i; cbn [Index].
  - destruct (HasPrefix [] sub) eqn:E; intros H; simplify_eq. split_and!; try done; [|lia].
    apply HasPrefix_true in E as [r E]. symmetry in E. apply app_nil in E as [-> _]. simpl. lia.
  - destruct (HasPrefix (b :: s) sub) eqn:E; intros H.
    + simplify_eq. split_and!; [done| |lia].
      apply HasPrefix_true in E as [r E]. rewrite E, length_app. lia.
    + apply fmap_Some in H as (k & Hk & ->). apply IH in Hk as (H1 & H2 & H3).
      split_and!; [done|simpl; lia|]. intros [|j] Hj; [done|]. apply H3. lia.
Qed.

Lemma Index_split s sub i :
  Index s sub = Some i -> s = take i s ++ sub ++ drop (i + length sub) s.
Proof.
  intros H. apply Index_Some in H as (H & _ & _). apply HasPrefix_true in H as [r Hr].
  rewrite <- drop_drop, Hr, drop_app_length, <- Hr. by rewrite take_drop.
Qed.

Lemma Index_None s sub j : Index s sub = None -> HasPrefix (drop j s) sub = false.
Proof.
  revert j. induction s as [|b s IH]; intros j; cbn [Index].
  - destruct (HasPrefix [] sub) eqn:E; [done|]. intros _. by rewrite drop_nil.
  - destruct (HasPrefix (b :: s) sub) eqn:E; [done|]. intros H%fmap_None.
    destruct j; [done|]. by apply IH.
Qed.

Lemma Index_None_app s sub p q : Index s sub = None -> s <> p ++ sub ++ q.
Proof.
  intros H ->. apply (Index_None _ _ (length p)) in H.
  by rewrite drop_app_length, HasPrefix_app in H.
Qed.

(** A single byte that does not occur before it is found at its place. *)
Lemma Index_byte p b q :
  b ∉ p -> Index (p ++ b :: q) [b] = Some (length p).
Proof.
  induction p as [|c p IH]; intros Hb; cbn [Index app].
  - replace (HasPrefix (b :: q) [b]) with true; [done|]. symmetry. apply (HasPrefix_app [b]).
  - apply not_elem_of_cons in Hb as [Hcb Hb].
    replace (HasPrefix (c :: p ++ b :: q) [b]) with false.
    + by rewrite IH.
    + symmetry. apply bool_decide_eq_false. simpl. congruence.
Qed.

Lemma Index_byte_None s b : Index s [b] = None <-> b ∉ s.
Proof.
  split.
  - intros H Hin. apply list_elem_of_split in Hin as (p & q & ->).
    by eapply Index_None_app.
  - induction s as [|c s IH]; [done|]. intros [Hcb Hb]%not_elem_of_cons. cbn [Index].
    replace (HasPrefix (c :: s) [b]) with false; [by rewrite IH|].
    symmetry. apply bool_decide_eq_false. simpl. congruence.
Qed.

Lemma Cut_byte a b c : (b ∉ a) -> Cut (a ++ b :: c) [b] = Some (a, c).
Proof.
  intros Hb. unfold Cut. rewrite Index_byte by done. rewrite take_app_length.
  do 2 f_equal. change (b :: c) with ([b] ++ c). rewrite app_assoc. apply drop_app_length'. len.
Qed.

(** ** Lemmas on trimming *)

Lemma trim_front_suffix sp2 sp3 s : exists p, s = p ++ trim_front sp2 sp3 s.
Proof.
  remember (length s) as n eqn:Hn. revert s Hn.
  induction (lt_wf n) as [n _ IH]. intros s ->.
  destruct s as [|b0 t0]; [by exists []|]. cbn [trim_front].
  case_if.
  { destruct (IH (length t0)) with (s := t0) as [p Hp]; [simpl; lia|done|].
    exists (b0 :: p). simpl. by rewrite <- Hp. }
  destruct t0 as [|b1 t1]; [by exists []|]. case_if.
  { destruct (IH (length t1)) with (s := t1) as [p Hp]; [simpl; lia|done|].
    exists (b0 :: b1 :: p). simpl. by rewrite <- Hp. }
  destruct t1 as [|b2 t2]; [by exists []|]. case_if; [|by exists []].
  destruct (IH (length t2)) with (s := t2) as [p Hp]; [simpl; lia|done|].
  exists (b0 :: b1 :: b2 :: p). simpl. by rewrite <- Hp.
Qed.

Lemma trim_front_length sp2 sp3 s : (length (trim_front sp2 sp3 s) <= length s)%nat.
Proof.
  destruct (trim_front_suffix sp2 sp3 s) as [p Hp]. rewrite Hp at 2. len.
Qed.

(** No white space is left at the front. *)
Definition front_ok (sp2 : byte -> byte -> bool) (sp3 : byte -> byte -> byte -> bool) (s : bytes) : bool :=
  match s with
  | [] => true
  | [b0] => negb (space1 b0)
  | [b0; b1] => negb (space1 b0) && negb (sp2 b0 b1)
  | b0 :: b1 :: b2 :: _ => negb (space1 b0) && negb (sp2 b0 b1) && negb (sp3 b0 b1 b2)
  end.

Lemma front_ok_trim sp2 sp3 s : front_ok sp2 sp3 s = true -> trim_front sp2 sp3 s = s.
Proof.
  destruct s as [|b0 [|b1 [|b2 t]]]; simpl; intros H; bools.
  - done.
  - by rewrite H.
  - by rewrite H, H0.
  - by rewrite H, H1, H0.
Qed.

Lemma trim_front_ok sp2 sp3 s : front_ok sp2 sp3 (trim_front sp2 sp3 s) = true.
Proof.
  remember (length s) as n eqn:Hn. revert s Hn.
  induction (lt_wf n) as [n _ IH]. intros s ->.
  destruct s as [|b0 t0]; [done|]. cbn [trim_front].
  destruct (space1 b0) eqn:E0; [apply (IH (length t0)); simpl; auto; lia|].
  destruct t0 as [|b1 t1]; [simpl; by rewrite E0|].
  destruct (sp2 b0 b1) eqn:E1; [apply (IH (length t1)); simpl; auto; lia|].
  destruct t1 as [|b2 t2]; [simpl; by rewrite E0, E1|].
  destruct (sp3 b0 b1 b2) eqn:E2; [apply (IH (length t2)); simpl; auto; lia|].
  simpl. by rewrite E0, E1, E2.
Qed.

(** A prefix of a string without leading white space has none either. *)
Lemma front_ok_prefix sp2 sp3 p r : front_ok sp2 sp3 (p ++ r) = true -> front_ok sp2 sp3 p = true.
Proof.
  destruct p as [|b0 [|b1 [|b2 t]]], r as [|c0 [|c1 [|c2 r]]]; simpl; intros H; bools;
    repeat match goal with E : _ = false |- _ => rewrite E; clear E end; done.
Qed.

Definition revsp2 (b1 b0 : byte) : bool := space2 b0 b1.
Definition revsp3 (b2 b1 b0 : byte) : bool := space3 b0 b1 b2.

Lemma TrimRightSpace_prefix s : exists r, s = TrimRightSpace s ++ r.
Proof.
  unfold TrimRightSpace.
  destruct (trim_front_suffix revsp2 revsp3 (reverse s)) as [p Hp].
  exists (reverse p). rewrite <- reverse_app.
  by rewrite <- (reverse_involutive s) at 1; rewrite Hp at 1.
Qed.

(** A string is trimmed when it has no white space at either end. *)
Definition trimmed (s : bytes) : Prop :=
  front_ok space2 space3 s = true /\ front_ok revsp2 revsp3 (reverse s) = true.

Lemma TrimSpace_trimmed s : trimmed (TrimSpace s).
Proof.
  unfold TrimSpace. split.
  - destruct (TrimRightSpace_prefix (TrimLeftSpace s)) as [r Hr].
    eapply front_ok_prefix. rewrite <- Hr. apply trim_front_ok.
  - unfold TrimRightSpace. rewrite reverse_involutive. apply (trim_front_ok revsp2 revsp3).
Qed.

Lemma trimmed_TrimSpace s : trimmed s -> TrimSpace s = s.
Proof.
  intros [H1 H2]. unfold TrimSpace, TrimLeftSpace. rewrite front_ok_trim by done.
  unfold TrimRightSpace. change (fun b1 b0 : byte => space2 b0 b1) with revsp2.
  change (fun b2 b1 b0 : byte => space3 b0 b1 b2) with revsp3.
  rewrite front_ok_trim by done. apply reverse_involutive.
Qed.

Lemma TrimSpace_idem s : TrimSpace (TrimSpace s) = TrimSpace s.
Proof. apply trimmed_TrimSpace, TrimSpace_trimmed. Qed.

Lemma TrimSpace_infix s : exists p q, s = p ++ TrimSpace s ++ q.
Proof.
  destruct (trim_front_suffix space2 space3 s) as [p Hp].
  destruct (TrimRightSpace_prefix (TrimLeftSpace s)) as [q Hq].
  exists p, q. unfold TrimSpace. rewrite <- Hq. exact Hp.
Qed.

Lemma TrimSpace_length s : (length (TrimSpace s) <= length s)%nat.
Proof. destruct (TrimSpace_infix s) as (p & q & E). rewrite E at 2. len. Qed.

(** ** ASCII strings *)

Definition ascii (s : bytes) : Prop := Forall (fun b => b2z b < 128) s.

#[global] Instance ascii_dec s : Decision (ascii s).
Proof. unfold ascii. apply _. Defined.

Lemma runes_ascii s : ascii s -> runes s = b2z <$> s.
Proof.
  induction s as [|b s IH]; [done|]. intros [Hb Hs]%Forall_cons. cbn [runes].
  rewrite (proj2 (Z.ltb_lt (b2z b) 128)) by done. by rewrite IH.
Qed.

Lemma encode_rune_ascii r : 0 <= r < 128 -> encode_rune r = [z2b r].
Proof.
  intros H. unfold encode_rune.
  by rewrite (proj2 (Z.leb_le 0 r)), (proj2 (Z.leb_le r 127)) by lia.
Qed.

Lemma ascii_lower_range r : 0 <= r < 128 -> 0 <= ascii_lower r < 128.
Proof. unfold ascii_lower, is_upper. intros. case_if; lia. Qed.

Lemma ToLower_ascii `{Unicode} s :
  ascii s -> ToLower s = (fun b => z2b (ascii_lower (b2z b))) <$> s.
Proof.
  intros Hs. unfold ToLower. rewrite runes_ascii by done.
  induction Hs as [|b s Hb Hs IH]; [done|]. cbn [fmap list_fmap concat].
  pose proof (b2z_range b). rewrite uni_lower_ascii by lia.
  rewrite encode_rune_ascii by (apply ascii_lower_range; lia).
  cbn [app]. f_equal. exact IH.
Qed.

(** [EqualFold] on ASCII strings compares them with case ignored. *)
Lemma EqualFold_ascii `{Unicode} s t :
  ascii s -> ascii t -> EqualFold s t = bool_decide (ToLower s = ToLower t).
Proof.
  intros Hs Ht. unfold EqualFold. apply bool_decide_ext.
  rewrite !ToLower_ascii, !runes_ascii by done.
  revert t Ht. induction Hs as [|b s Hb Hs IH]; intros t Ht; inv Ht as [|c t' Hc Ht'].
  - done.
  - done.
  - done.
  - cbn [fmap list_fmap]. pose proof (b2z_range b). pose proof (b2z_range c).
    pose proof (uni_fold_ascii (b2z b) (b2z c)) as Hfold.
    pose proof (ascii_lower_range (b2z b)). pose proof (ascii_lower_range (b2z c)).
    specialize (IH t' Ht'). split; intros E; injection E as E1 E2.
    + f_equal; [|by apply IH]. f_equal. apply Hfold; [lia..|done].
    + f_equal; [|by apply IH]. apply Hfold; [lia..|].
      apply (f_equal b2z) in E1. rewrite !b2z_small in E1 by lia. done.
Qed.

(** ** Numbers *)

Lemma parse_digits_app base acc l k :
  parse_digits base acc (l ++ k) = parse_digits base acc l ≫= fun a => parse_digits base a k.
Proof.
  revert acc. induction l as [|b l IH]; intros acc; [done|]. cbn [app parse_digits].
  destruct (digit_val b); [|done]. case_if; [apply IH|done].
Qed.

Lemma digit_val_print d : 0 <= d < 10 -> digit_val (z2b (48 + d)) = Some d.
Proof.
  intros H. unfold digit_val. rewrite b2z_small by lia. unfold is_digit.
  rewrite (proj2 (Z.leb_le 48 (48 + d))), (proj2 (Z.leb_le (48 + d) 57)) by lia.
  cbn [andb]. f_equal. lia.
Qed.

Lemma digits_rev_parse fuel n :
  0 <= n < 2 ^ Z.of_nat fuel -> parse_digits 10 0 (reverse (digits_rev fuel n)) = Some n.
Proof.
  revert n. induction fuel as [|fuel IH]; intros n Hn.
  - simpl in *. by replace n with 0 by lia.
  - cbn [digits_rev]. rewrite reverse_cons, parse_digits_app.
    pose proof (Z.mod_pos_bound n 10). pose proof (Z.div_mod n 10).
    assert (parse_digits 10 0 (reverse (if n <? 10 then [] else digits_rev fuel (n / 10)))
      = Some (n / 10)) as ->.
    { case_if; [by rewrite Z.div_small by lia|]. apply IH.
      rewrite Nat2Z.inj_succ, Z.pow_succ_r in Hn by lia.
      pose proof (Z.pow_pos_nonneg 2 (Z.of_nat fuel)). nia. }
    cbn [mbind option_bind parse_digits].
    rewrite digit_val_print by lia. rewrite (proj2 (Z.ltb_lt (n mod 10) 10)) by lia.
    f_equal. lia.
Qed.

Lemma print_nat_parse n : 0 <= n -> parse_digits 10 0 (print_nat n) = Some n.
Proof.
  intros Hn. apply digits_rev_parse. split; [done|].
  destruct (decide (n = 0)) as [->|]; [simpl; lia|].
  pose proof (Z.log2_spec n). pose proof (Z.log2_nonneg n).
  rewrite Nat2Z.inj_succ, Z2Nat.id by lia. lia.
Qed.

Lemma digits_rev_digits fuel n : 0 <= n -> Forall (fun b => is_digit (b2z b) = true) (digits_rev fuel n).
Proof.
  revert n. induction fuel as [|fuel IH]; intros n Hn; [constructor|].
  cbn [digits_rev]. pose proof (Z.mod_pos_bound n 10). constructor.
  - rewrite b2z_small by lia. unfold is_digit. apply andb_true_intro. split; apply Z.leb_le; lia.
  - case_if; [constructor|]. apply IH. apply Z.div_pos; lia.
Qed.

Lemma print_nat_digits n : 0 <= n -> Forall (fun b => is_digit (b2z b) = true) (print_nat n).
Proof. intros. unfold print_nat. apply Forall_reverse. by apply digits_rev_digits. Qed.

Lemma print_nat_nonempty n : print_nat n <> [].
Proof.
  unfold print_nat. cbn [digits_rev]. rewrite reverse_cons. by intros [_ ?]%app_nil.
Qed.

(** Parsing a printed 64-bit integer gives it back. *)
Lemma Atoi_Itoa z : in_int64 z -> Atoi (Itoa z) = Some z.
Proof.
  intros Hz. unfold in_int64 in Hz.
  assert (forall n, 0 <= n -> exists b l, print_nat n = b :: l /\ b <> Byte.x2d /\ b <> Byte.x2b
    /\ parse_nonempty 10 (b :: l) = Some n) as Hp.
  { intros n Hn. pose proof (print_nat_parse n Hn) as P. pose proof (print_nat_digits n Hn) as D.
    pose proof (print_nat_nonempty n). destruct (print_nat n) as [|b l]; [done|].
    exists b, l. inv D. split_and!; try done; by intros ->. }
  unfold Itoa, Atoi, ParseInt. case_if.
  - destruct (Hp (- z)) as (b & l & -> & _ & _ & ->); [lia|]. cbn [fmap option_fmap option_map].
    rewrite Z.opp_involutive. by rewrite (proj2 (Z.leb_le (- 2 ^ 63) z)), (proj2 (Z.ltb_lt z (2 ^ 63))) by lia.
  - destruct (Hp z) as (b & l & -> & Hb1 & Hb2 & E); [lia|].
    destruct b; try done; rewrite E;
      by rewrite (proj2 (Z.leb_le (- 2 ^ 63) z)), (proj2 (Z.ltb_lt z (2 ^ 63))) by lia.
Qed.
