(* ===== verification/Paths.v ===== *)
(** * Paths: Go's [path] and [path/filepath] for slash-separated names

    What [database/postgres/postgres.go], [database/engine.go] and
    [storage/storage.go] use of them: [Join], [Clean], [Dir] and the
    directories above a path. *)

From S2P Require Import Prelude Bytes GoStrings.

Local Open Scope Z_scope.

(** ** [path] *)

(** One element of a path, given the elements before, last first. *)
Definition clean_step (rooted : bool) (acc : list bytes) (part : bytes) : list bytes :=
  if bool_decide (part = [] \/ part = str ".") then acc
  else if bool_decide (part = str "..") then
    match acc with
    | p :: acc' => if bool_decide (p = str "..") then part :: acc else acc'
    | [] => if rooted then [] else [part]
    end
  else part :: acc.

Definition path_Clean (p : bytes) : bytes :=
  let rooted := HasPrefix p (str "/") in
  let parts := reverse (foldl (clean_step rooted) [] (Split p (str "/"))) in
  let body := Join parts (str "/") in
  if rooted then str "/" ++ body else if bool_decide (body = []) then str "." else body.

(** [path.Join] of two elements. *)
Definition path_Join (a b : bytes) : bytes :=
  match filter (fun e => e <> []) [a; b] with
  | [] => []
  | es => path_Clean (Join es (str "/"))
  end.

Example path_Join_examples :
  path_Join (str "migrations") (str "1_a.sql") = str "migrations/1_a.sql" /\
  path_Join (str "a/../b//.") (str "x") = str "b/x" /\ path_Join (str "") (str "x") = str "x" /\
  path_Join (str "/..") (str "x") = str "/x" /\ path_Join (str "../a") (str "..") = str "..".
Proof. vm_compute. done. Qed.

(** ** [path/filepath] *)

(** [filepath.Dir]: what is before the last slash, cleaned. *)
Definition filepath_Dir (p : bytes) : bytes :=
  path_Clean (reverse (drop_while (fun b => negb (bool_decide (b = Byte.x2f))) (reverse p))).

Example filepath_Dir_examples :
  filepath_Dir (str "data/app.db") = str "data" /\ filepath_Dir (str "app.db") = str "." /\
  filepath_Dir (str "/app.db") = str "/" /\ filepath_Dir (str "a/b/") = str "a/b".
Proof. vm_compute. done. Qed.

(** The directories on the way to [dir], the shortest first, and [dir]. *)
Definition ancestors (dir : bytes) : list bytes :=
  let parts := Split dir (str "/") in
  filter (fun a => a <> []) ((fun i => Join (take i parts) (str "/")) <$> seq 1 (length parts - 1)) ++ [dir].

Example ancestors_examples :
  ancestors (str "a/b/c") = [str "a"; str "a/b"; str "a/b/c"] /\
  ancestors (str "/var/lib") = [str "/var"; str "/var/lib"] /\ ancestors (str "data") = [str "data"].
Proof. vm_compute. done. Qed.

(** [filepath.Dir] depends only on what is before the last slash. *)
Lemma drop_until_skip (a r : bytes) : Byte.x2f ∉ a ->
  drop_while (fun b => negb (bool_decide (b = Byte.x2f))) (a ++ r) =
  drop_while (fun b => negb (bool_decide (b = Byte.x2f))) r.
Proof.
  induction a as [|x a IH]; intros Hx; [done|]. cbn. rewrite bool_decide_eq_false_2 by set_solver. cbn.
  apply IH. set_solver.
Qed.

Lemma filepath_Dir_app p q : Byte.x2f ∉ q -> filepath_Dir (p ++ q) = filepath_Dir p.
Proof.
  intros Hq. unfold filepath_Dir. rewrite reverse_app, drop_until_skip; [done|]. by rewrite elem_of_reverse.
Qed.
