(* ===== verification/Encoding.v ===== *)
(** * Encoding: base64, hexadecimal, SHA-1 and SHA-256

    The encodings the handshakes use: [encoding/base64] with the standard
    alphabet and padding, [encoding/hex], and [crypto/sha1] and
    [crypto/sha256] as FIPS 180-4 defines them, executable so that a handshake can be evaluated. *)

From S2P Require Import Prelude Bytes.

Local Open Scope Z_scope.

(** ** base64 *)

Definition b64_alphabet : bytes :=
  str "ABCDEFGHIJKLMNOPQRSTUVWXYZabcdefghijklmnopqrstuvwxyz0123456789+/".
Definition b64_char (z : Z) : byte := nth (Z.to_nat z) b64_alphabet Byte.x00.

Fixpoint base64 (l : bytes) : bytes :=
  match l with
  | [] => []
  | [a] =>
      let v := Z.shiftl (b2z a) 16 in
      [b64_char (Z.shiftr v 18); b64_char (Z.land (Z.shiftr v 12) 63); Byte.x3d; Byte.x3d]
  | [a; b] =>
      let v := Z.lor (Z.shiftl (b2z a) 16) (Z.shiftl (b2z b) 8) in
      [b64_char (Z.shiftr v 18); b64_char (Z.land (Z.shiftr v 12) 63);
       b64_char (Z.land (Z.shiftr v 6) 63); Byte.x3d]
  | a :: b :: c :: l =>
      let v := Z.lor (Z.lor (Z.shiftl (b2z a) 16) (Z.shiftl (b2z b) 8)) (b2z c) in
      [b64_char (Z.shiftr v 18); b64_char (Z.land (Z.shiftr v 12) 63);
       b64_char (Z.land (Z.shiftr v 6) 63); b64_char (Z.land v 63)] ++ base64 l
  end.

Example base64_vectors :
  base64 (str "f") = str "Zg==" /\ base64 (str "fo") = str "Zm8=" /\
  base64 (str "foobar") = str "Zm9vYmFy" /\ base64 (str "user:pass") = str "dXNlcjpwYXNz".
Proof. vm_compute. done. Qed.

(** ** Hexadecimal *)

Definition hex_digits : bytes := str "0123456789abcdef".
Definition hex (l : bytes) : bytes :=
  concat ((fun b => [nth (Z.to_nat (Z.shiftr (b2z b) 4)) hex_digits Byte.x00;
                     nth (Z.to_nat (Z.land (b2z b) 15)) hex_digits Byte.x00]) <$> l).

(** ** SHA-1 *)

Definition rotl32 (n x : Z) : Z :=
  Z.lor (uwrap 32 (Z.shiftl x n)) (Z.shiftr x (32 - n)).
Definition add32 (x y : Z) : Z := uwrap 32 (x + y).

Definition sha1_pad (m : bytes) : bytes :=
  let zeros := Z.to_nat ((55 - zlen m) mod 64) in
  m ++ [Byte.x80] ++ replicate zeros Byte.x00 ++ be_put 8 (uwrap 64 (8 * zlen m)).

(** The big-endian words of a block. *)
Fixpoint words32 (n : nat) (l : bytes) : list Z :=
  match n with
  | O => []
  | S n => be_get (take 4 l) :: words32 n (drop 4 l)
  end.

(** The message schedule, most recent word first. *)
Fixpoint sha1_extend (n : nat) (w : list Z) : list Z :=
  match n with
  | O => w
  | S n =>
      let x := Z.lxor (Z.lxor (nth 2 w 0) (nth 7 w 0)) (Z.lxor (nth 13 w 0) (nth 15 w 0)) in
      sha1_extend n (rotl32 1 x :: w)
  end.

Definition sha1_f (t : nat) (b c d : Z) : Z * Z :=
  if (t <? 20)%nat then (Z.lor (Z.land b c) (Z.land (Z.lxor b (2 ^ 32 - 1)) d), 1518500249)
  else if (t <? 40)%nat then (Z.lxor (Z.lxor b c) d, 1859775393)
  else if (t <? 60)%nat then (Z.lor (Z.lor (Z.land b c) (Z.land b d)) (Z.land c d), 2400959708)
  else (Z.lxor (Z.lxor b c) d, 3395469782).

Fixpoint sha1_rounds (t : nat) (ws : list Z) (s : Z * Z * Z * Z * Z) : Z * Z * Z * Z * Z :=
  match ws with
  | [] => s
  | w :: ws =>
      let '(a, b, c, d, e) := s in
      let '(f, k) := sha1_f t b c d in
      let tmp := add32 (add32 (add32 (rotl32 5 a) f) (add32 e k)) w in
      sha1_rounds (S t) ws (tmp, a, rotl32 30 b, c, d)
  end.

Definition sha1_block (s : Z * Z * Z * Z * Z) (block : bytes) : Z * Z * Z * Z * Z :=
  let ws := reverse (sha1_extend 64 (reverse (words32 16 block))) in
  let '(a, b, c, d, e) := s in
  let '(a', b', c', d', e') := sha1_rounds 0 ws s in
  (add32 a a', add32 b b', add32 c c', add32 d d', add32 e e').

Fixpoint sha1_blocks (n : nat) (m : bytes) (s : Z * Z * Z * Z * Z) : Z * Z * Z * Z * Z :=
  match n with
  | O => s
  | S n => sha1_blocks n (drop 64 m) (sha1_block s (take 64 m))
  end.

Definition sha1 (m : bytes) : bytes :=
  let p := sha1_pad m in
  let '(a, b, c, d, e) := sha1_blocks (Nat.div (length p) 64) p
    (1732584193, 4023233417, 2562383102, 271733878, 3285377520) in
  be_put 4 a ++ be_put 4 b ++ be_put 4 c ++ be_put 4 d ++ be_put 4 e.

Example sha1_vectors :
  hex (sha1 (str "abc")) = str "a9993e364706816aba3e25717850c26c9cd0d89d" /\
  hex (sha1 []) = str "da39a3ee5e6b4b0d3255bfef95601890afd80709".
Proof. vm_compute. done. Qed.

(** ** SHA-256 *)

Definition rotr32 (n x : Z) : Z := rotl32 (32 - n) x.

Definition sha256_k : list Z := [
  1116352408; 1899447441; 3049323471; 3921009573; 961987163; 1508970993; 2453635748; 2870763221;
  3624381080; 310598401; 607225278; 1426881987; 1925078388; 2162078206; 2614888103; 3248222580; 3835390401;
  4022224774; 264347078; 604807628; 770255983; 1249150122; 1555081692; 1996064986; 2554220882; 2821834349;
  2952996808; 3210313671; 3336571891; 3584528711; 113926993; 338241895; 666307205; 773529912; 1294757372;
  1396182291; 1695183700; 1986661051; 2177026350; 2456956037; 2730485921; 2820302411; 3259730800;
  3345764771; 3516065817; 3600352804; 4094571909; 275423344; 430227734; 506948616; 659060556; 883997877;
  958139571; 1322822218; 1537002063; 1747873779; 1955562222; 2024104815; 2227730452; 2361852424;
  2428436474; 2756734187; 3204031479; 3329325298].

Definition sha256_h : list Z := [
  1779033703; 3144134277; 1013904242; 2773480762; 1359893119; 2600822924; 528734635; 1541459225].

(** The message schedule, most recent word first. *)
Fixpoint sha256_extend (n : nat) (w : list Z) : list Z :=
  match n with
  | O => w
  | S n =>
      let x := nth 14 w 0 in let y := nth 1 w 0 in
      let s0 := Z.lxor (Z.lxor (rotr32 7 x) (rotr32 18 x)) (Z.shiftr x 3) in
      let s1 := Z.lxor (Z.lxor (rotr32 17 y) (rotr32 19 y)) (Z.shiftr y 10) in
      sha256_extend n (add32 (add32 (nth 15 w 0) s0) (add32 (nth 6 w 0) s1) :: w)
  end.

(** One round on the eight working variables. *)
Definition sha256_round (s : list Z) (kw : Z * Z) : list Z :=
  match s with
  | [a; b; c; d; e; f; g; h] =>
      let s1 := Z.lxor (Z.lxor (rotr32 6 e) (rotr32 11 e)) (rotr32 25 e) in
      let ch := Z.lxor (Z.land e f) (Z.land (Z.lxor e (2 ^ 32 - 1)) g) in
      let t1 := add32 (add32 (add32 h s1) (add32 ch (fst kw))) (snd kw) in
      let s0 := Z.lxor (Z.lxor (rotr32 2 a) (rotr32 13 a)) (rotr32 22 a) in
      let maj := Z.lxor (Z.lxor (Z.land a b) (Z.land a c)) (Z.land b c) in
      [add32 t1 (add32 s0 maj); a; b; c; add32 d t1; e; f; g]
  | _ => s
  end.

Definition sha256_block (s : list Z) (block : bytes) : list Z :=
  let ws := reverse (sha256_extend 48 (reverse (words32 16 block))) in
  zip_with add32 s (foldl sha256_round s (zip sha256_k ws)).

Fixpoint sha256_blocks (n : nat) (m : bytes) (s : list Z) : list Z :=
  match n with
  | O => s
  | S n => sha256_blocks n (drop 64 m) (sha256_block s (take 64 m))
  end.

(** The padding is that of SHA-1. *)
Definition sha256 (m : bytes) : bytes :=
  let p := sha1_pad m in
  concat (be_put 4 <$> sha256_blocks (Nat.div (length p) 64) p sha256_h).

Example sha256_vectors :
  hex (sha256 (str "abc")) = str "ba7816bf8f01cfea414140de5dae2223b00361a396177a9cb410ff61f20015ad" /\
  hex (sha256 []) = str "e3b0c44298fc1c149afbf4c8996fb92427ae41e4649b934ca495991b7852b855".
Proof. vm_compute. done. Qed.
