(* ===== verification/NetAddr.v ===== *)
(** * NetAddr: the functions of [net] and [net/url] the SDK calls

    [net.JoinHostPort] and [net.SplitHostPort], the host and port of a URL,
    and the interface of the URL parser.  The parser itself is a parameter:
    a type class gives the observations the SDK makes of a parsed URL. *)

From S2P Require Import Prelude Bytes GoStrings.

Local Open Scope Z_scope.

Definition colon : byte := Byte.x3a.
Definition lbracket : byte := Byte.x5b.
Definition rbracket : byte := Byte.x5d.

(** [strings.LastIndexByte]. *)
Definition LastIndexByte (s : bytes) (b : byte) : option nat :=
  (fun i => (length s - 1 - i)%nat) <$> Index (reverse s) [b].

(** [net.JoinHostPort]: a host with a colon is an IPv6 literal. *)
Definition JoinHostPort (host port : bytes) : bytes :=
  if bool_decide (colon ∈ host)
  then lbracket :: host ++ rbracket :: colon :: port
  else host ++ colon :: port.

(** [net.SplitHostPort]; [None] is any of its errors. *)
Definition SplitHostPort (hostport : bytes) : option (bytes * bytes) :=
  match LastIndexByte hostport colon with
  | None => None
  | Some i =>
      let finish (host : bytes) (j k : nat) :=
        if bool_decide (lbracket ∈ drop j hostport) then None
        else if bool_decide (rbracket ∈ drop k hostport) then None
        else Some (host, drop (S i) hostport) in
      if HasPrefix hostport [lbracket] then
        match Index hostport [rbracket] with
        | None => None
        | Some e =>
            if (S e =? length hostport)%nat then None
            else if (S e =? i)%nat then finish (take (e - 1) (drop 1 hostport)) 1%nat (S e)
            else None
        end
      else
        let host := take i hostport in
        if bool_decide (colon ∈ host) then None else finish host 0%nat 0%nat
  end.

(** [url.URL.Hostname] and [url.URL.Port], from the [Host] field. *)
Definition validOptionalPort (p : bytes) : bool :=
  match p with
  | [] => true
  | b :: d => bool_decide (b = colon) && forallb (fun b => is_digit (b2z b)) d
  end.

Definition url_splitHostPort (hostPort : bytes) : bytes * bytes :=
  let '(host, port) :=
    match LastIndexByte hostPort colon with
    | Some i =>
        if validOptionalPort (drop i hostPort) then (take i hostPort, drop (S i) hostPort)
        else (hostPort, [])
    | None => (hostPort, [])
    end in
  if HasPrefix host [lbracket] && HasSuffix host [rbracket]
  then (take (length host - 2) (drop 1 host), port)
  else (host, port).

(** What the SDK observes of [net/url]. *)
Class NetURL := {
  URL : Type;
  url_Parse : bytes -> URL + error;
  u_Scheme : URL -> bytes;
  (** User name and, when one was given, password. *)
  u_User : URL -> option (bytes * option bytes);
  u_Host : URL -> bytes;
  u_RequestURI : URL -> bytes;
  (** [base.ResolveReference(ref).String()]. *)
  u_Resolve : URL -> URL -> bytes;
}.

Section methods.
Context `{NetURL}.
Definition u_Hostname (u : URL) : bytes := fst (url_splitHostPort (u_Host u)).
Definition u_Port (u : URL) : bytes := snd (url_splitHostPort (u_Host u)).
End methods.

(** ** Lemmas *)

Lemma LastIndexByte_app p b q : (b ∉ q) -> LastIndexByte (p ++ b :: q) b = Some (length p).
Proof.
  intros Hq. unfold LastIndexByte. rewrite reverse_app, reverse_cons, <- app_assoc. cbn [app].
  rewrite Index_byte by (by rewrite elem_of_reverse). cbn [fmap option_fmap option_map].
  f_equal. rewrite length_reverse, length_app. simpl. lia.
Qed.

Lemma is_digit_not b c : is_digit (b2z b) = true -> is_digit (b2z c) = false -> b <> c.
Proof. congruence. Qed.

Lemma digits_no b s :
  is_digit (b2z b) = false -> Forall (fun c => is_digit (b2z c) = true) s -> (b ∉ s).
Proof.
  intros Hb Hs Hin. rewrite Forall_forall in Hs. apply Hs in Hin. congruence.
Qed.

(** Splitting a joined address gives the host and the port back, for a host
    without brackets and a decimal port. *)
Lemma SplitHostPort_Join host port :
  (lbracket ∉ host) -> (rbracket ∉ host) -> Forall (fun c => is_digit (b2z c) = true) port ->
  SplitHostPort (JoinHostPort host port) = Some (host, port).
Proof.
  intros Hl Hr Hp.
  assert ((colon ∉ port) /\ (lbracket ∉ port) /\ (rbracket ∉ port)) as (Hp1 & Hp2 & Hp3)
    by (by split_and!; apply digits_no).
  unfold JoinHostPort. case_bool_decide as Hc.
  - set (a := lbracket :: host ++ rbracket :: colon :: port).
    assert (a = (lbracket :: host ++ [rbracket]) ++ colon :: port) as Ea
      by (unfold a; simpl; by rewrite <- app_assoc).
    assert (a = (lbracket :: host) ++ rbracket :: colon :: port) as Eb by done.
    assert (LastIndexByte a colon = Some (S (S (length host)))) as E1.
    { rewrite Ea, LastIndexByte_app by done. f_equal. simpl. len. }
    assert (Index a [rbracket] = Some (S (length host))) as E2.
    { rewrite Eb, Index_byte; [done|]. by apply not_elem_of_cons. }
    assert (length a = S (S (S (length host + length port)))) as E3 by (unfold a; simpl; len).
    unfold SplitHostPort. rewrite E1.
    replace (HasPrefix a [lbracket]) with true by (symmetry; apply (HasPrefix_app [lbracket])).
    rewrite E2, E3. rewrite (proj2 (Nat.eqb_neq _ _)), Nat.eqb_refl by lia.
    rewrite bool_decide_eq_false_2 by (unfold a; cbn [drop]; set_solver).
    rewrite bool_decide_eq_false_2.
    + do 2 f_equal.
      * replace (S (length host) - 1)%nat with (length host) by lia.
        unfold a. cbn [drop]. by rewrite drop_0, take_app_length.
      * rewrite Ea. replace (S (S (S (length host))))
          with (length ((lbracket :: host ++ [rbracket]) ++ [colon])) by (simpl; len).
        change (colon :: port) with ([colon] ++ port). by rewrite app_assoc, drop_app_length.
    + rewrite Ea. replace (S (S (length host)))
        with (length (lbracket :: host ++ [rbracket])) by (simpl; len).
      rewrite drop_app_length. set_solver.
  - set (a := host ++ colon :: port). unfold SplitHostPort.
    assert (LastIndexByte a colon = Some (length host)) as -> by (by apply LastIndexByte_app).
    replace (HasPrefix a [lbracket]) with false.
    + unfold a. rewrite take_app_length, bool_decide_eq_false_2 by done. cbn [drop].
      rewrite !bool_decide_eq_false_2 by set_solver. do 2 f_equal.
      change (colon :: port) with ([colon] ++ port). rewrite app_assoc.
      apply drop_app_length'. len.
    + symmetry. apply not_true_iff_false. intros [r E]%HasPrefix_true. unfold a in E.
      destruct host as [|h host]; [done|]. injection E as -> _. set_solver.
Qed.

Lemma Itoa_digits z : 0 <= z -> Forall (fun c => is_digit (b2z c) = true) (Itoa z).
Proof.
  intros Hz. unfold Itoa. rewrite (proj2 (Z.ltb_ge z 0)) by done. by apply print_nat_digits.
Qed.
