(* ===== verification/Conn.v ===== *)
(** * Conn: [net.Conn], [io.ReadFull] and what a peer can do

    A connection is the list of results its next [Read] calls will give, the
    list of results its next [Write] calls will give, and what the client has
    done to it: the bytes the peer has accepted, the deadlines set and whether
    it was closed.  A theorem about every connection is a theorem about every
    behaviour of the peer and of the network: segmentation, short writes,
    errors and time-outs are all in the two lists. *)

From S2P Require Import Prelude Bytes.

Local Open Scope Z_scope.

(** One [Read] result: data and, possibly together with it, an error. *)
Record rd_event := mkRd { rd_data : bytes; rd_err : option error }.

(** One [Write] result: how many bytes are accepted at most, and an error. *)
Record wr_event := mkWr { wr_max : nat; wr_err : option error }.

(** A deadline is the time-out it was computed from; [None] is none.
    [c_wfail] is a history variable that no code reads: a [Write] has failed. *)
Record conn := mkConn {
  c_in : list rd_event;
  c_wr : list wr_event;
  c_sent : bytes;
  c_rdl : option Z;
  c_wdl : option Z;
  c_closed : bool;
  c_wfail : bool;
}.

Definition ErrNetClosed : error := Sentinel "use of closed network connection".

Definition set_in (l : list rd_event) (c : conn) : conn :=
  mkConn l (c_wr c) (c_sent c) (c_rdl c) (c_wdl c) (c_closed c) (c_wfail c).
Definition set_wr (l : list wr_event) (c : conn) : conn :=
  mkConn (c_in c) l (c_sent c) (c_rdl c) (c_wdl c) (c_closed c) (c_wfail c).
Definition add_sent (b : bytes) (c : conn) : conn :=
  mkConn (c_in c) (c_wr c) (c_sent c ++ b) (c_rdl c) (c_wdl c) (c_closed c) (c_wfail c).
Definition set_closed (b : bool) (c : conn) : conn :=
  mkConn (c_in c) (c_wr c) (c_sent c) (c_rdl c) (c_wdl c) b (c_wfail c).

Definition note_fail (e : option error) (c : conn) : conn :=
  mkConn (c_in c) (c_wr c) (c_sent c) (c_rdl c) (c_wdl c) (c_closed c)
    (match e with Some _ => true | None => c_wfail c end).

Definition SetReadDeadline (d : option Z) : GoM conn unit :=
  modify (fun c => mkConn (c_in c) (c_wr c) (c_sent c) d (c_wdl c) (c_closed c) (c_wfail c)).
Definition SetWriteDeadline (d : option Z) : GoM conn unit :=
  modify (fun c => mkConn (c_in c) (c_wr c) (c_sent c) (c_rdl c) d (c_closed c) (c_wfail c)).
Definition SetDeadline (d : option Z) : GoM conn unit :=
  SetReadDeadline d ;; SetWriteDeadline d.
(** [conn.Close()]; its error is discarded everywhere in the SDK but in
    [TCPClient.Close], where it is nil on the first close. *)
Definition CloseConn : GoM conn unit := modify (set_closed true).

(** ** Reading *)

(** The result of a [Read] into [cap] bytes, and the events left. *)
Definition read_event (cap : nat) (l : list rd_event) : (bytes * option error) * list rd_event :=
  match l with
  | [] => (([], Some EOF), [])
  | ev :: l =>
      if (length (rd_data ev) <=? cap)%nat then ((rd_data ev, rd_err ev), l)
      else ((take cap (rd_data ev), None), mkRd (drop cap (rd_data ev)) (rd_err ev) :: l)
  end.

Definition conn_Read (cap : nat) : GoM conn (bytes * option error) := fun c =>
  if c_closed c then (Ok ([], Some ErrNetClosed), c)
  else let '(r, l) := read_event cap (c_in c) in (Ok r, set_in l c).

(** [io.ReadFull] for [need] more bytes after [got]: the bytes read and the
    error.  An error that comes with the last byte is dropped, and EOF after a
    part of the data is [ErrUnexpectedEOF]. *)
Fixpoint read_full (need : nat) (got : bytes) (l : list rd_event)
    : (bytes * option error) * list rd_event :=
  match need with
  | O => ((got, None), l)
  | _ =>
      match l with
      | [] => ((got, Some (match got with [] => EOF | _ => ErrUnexpectedEOF end)), [])
      | ev :: l =>
          let d := rd_data ev in
          if (need <? length d)%nat
          then ((got ++ take need d, None), mkRd (drop need d) (rd_err ev) :: l)
          else
            match (need - length d)%nat with
            | O => ((got ++ d, None), l)
            | need' =>
                match rd_err ev with
                | None => read_full need' (got ++ d) l
                | Some e =>
                    let e' := match got ++ d with
                              | [] => e
                              | _ => if bool_decide (e = EOF) then ErrUnexpectedEOF else e
                              end in
                    ((got ++ d, Some e'), l)
                end
            end
      end
  end.

(** [io.ReadFull(conn, buf)] where only a full buffer is used. *)
Definition ReadFull (n : nat) : GoM conn bytes := fun c =>
  match n with
  | O => (Ok [], c)
  | _ =>
      if c_closed c then (Err ErrNetClosed, c)
      else
        let '((b, e), l) := read_full n [] (c_in c) in
        match e with
        | None => (Ok b, set_in l c)
        | Some e => (Err e, set_in l c)
        end
  end.

(** ** Writing *)

(** [conn.Write(b)]: the number of bytes accepted and the error. *)
Definition conn_Write (b : bytes) : GoM conn (nat * option error) := fun c =>
  if c_closed c then (Ok (0%nat, Some ErrNetClosed), c)
  else
    match c_wr c with
    | [] => (Ok (length b, None), add_sent b c)
    | w :: ws =>
        let n := Nat.min (wr_max w) (length b) in
        (Ok (n, wr_err w), note_fail (wr_err w) (set_wr ws (add_sent (take n b) c)))
    end.

(** [if _, err := conn.Write(b); err != nil { return err }]. *)
Definition write_or_fail (b : bytes) : GoM conn unit :=
  do '(n, e) <- conn_Write b;
  match e with
  | None => ret tt
  | Some e => fail e
  end.

(** ** The byte stream behind the events *)

Definition flat (l : list rd_event) : bytes := concat (rd_data <$> l).
(** Data only: the peer sends and then closes. *)
Definition clean (l : list rd_event) : Prop := Forall (fun ev => rd_err ev = None) l.

#[global] Instance clean_dec l : Decision (clean l).
Proof. unfold clean. apply _. Defined.

Lemma flat_cons ev l : flat (ev :: l) = rd_data ev ++ flat l.
Proof. done. Qed.

(** [io.ReadFull] depends on the byte stream only, not on how it is cut. *)
Lemma read_full_flat need got l :
  clean l -> (need <= length (flat l))%nat ->
  exists l', read_full need got l = ((got ++ take need (flat l), None), l') /\
    clean l' /\ flat l' = drop need (flat l).
Proof.
  revert need got. induction l as [|ev l IH]; intros need got Hc Hn.
  - destruct need; simpl in *; [|lia]. exists []. by rewrite app_nil_r.
  - apply Forall_cons in Hc as [He Hc]. rewrite flat_cons in *.
    destruct need as [|need]; [exists (ev :: l); rewrite app_nil_r; split_and!; by constructor|].
    cbn [read_full]. set (d := rd_data ev) in *.
    destruct (S need <? length d)%nat eqn:E.
    + apply Nat.ltb_lt in E. eexists. rewrite (take_app_le d), (drop_app_le d) by lia.
      split_and!; [done|by constructor|done].
    + apply Nat.ltb_ge in E. destruct (S need - length d)%nat as [|k] eqn:Ek.
      * exists l. rewrite (take_app_ge d), (drop_app_ge d), Ek by lia.
        by rewrite take_0, drop_0, app_nil_r.
      * rewrite He. destruct (IH (S k) (got ++ d)) as (l' & -> & Hc' & Hf); [done|len|].
        exists l'. rewrite (take_app_ge d), (drop_app_ge d), Ek by lia.
        rewrite <- app_assoc. done.
Qed.

Lemma read_full_short need got l :
  clean l -> (length (flat l) < need)%nat ->
  read_full need got l =
    ((got ++ flat l, Some (match got ++ flat l with [] => EOF | _ => ErrUnexpectedEOF end)), []).
Proof.
  revert need got. induction l as [|ev l IH]; intros need got Hc Hn.
  - destruct need; simpl in *; [lia|]. by rewrite app_nil_r.
  - apply Forall_cons in Hc as [He Hc]. rewrite flat_cons in *. rewrite length_app in Hn.
    destruct need as [|need]; [lia|]. cbn [read_full].
    destruct (S need <? length (rd_data ev))%nat eqn:E; [apply Nat.ltb_lt in E; lia|].
    destruct (S need - length (rd_data ev))%nat as [|k] eqn:Ek; [lia|].
    rewrite He, IH by (done || lia). by rewrite <- app_assoc.
Qed.

(** Events left after a read are events of the list, so errors do not appear
    from nowhere. *)
Lemma read_full_clean need got l :
  clean l -> clean (snd (read_full need got l)).
Proof.
  intros Hc. destruct (decide (need <= length (flat l))%nat) as [Hn|Hn].
  - destruct (read_full_flat need got l Hc Hn) as (l' & -> & ? & _). done.
  - rewrite read_full_short by (done || lia). constructor.
Qed.

(** ** Connections that differ in segmentation only *)

Definition conn_equiv (c1 c2 : conn) : Prop :=
  clean (c_in c1) /\ clean (c_in c2) /\ flat (c_in c1) = flat (c_in c2) /\
  c_wr c1 = c_wr c2 /\ c_sent c1 = c_sent c2 /\ c_rdl c1 = c_rdl c2 /\ c_wdl c1 = c_wdl c2 /\
  c_closed c1 = c_closed c2 /\ c_wfail c1 = c_wfail c2.

(** A computation that cannot tell two such connections apart. *)
Definition segment_free {A} (m : GoM conn A) : Prop :=
  forall c1 c2, conn_equiv c1 c2 ->
    fst (m c1) = fst (m c2) /\ conn_equiv (snd (m c1)) (snd (m c2)).

Lemma segment_free_ret {A} (a : A) : segment_free (ret a).
Proof. intros c1 c2 H. done. Qed.

Lemma segment_free_fail {A} e : segment_free (fail e : GoM conn A).
Proof. intros c1 c2 H. done. Qed.

Lemma segment_free_bind {A B} (m : GoM conn A) (k : A -> GoM conn B) :
  segment_free m -> (forall a, segment_free (k a)) -> segment_free (bind m k).
Proof.
  intros Hm Hk c1 c2 H. destruct (Hm c1 c2 H) as [E Hc]. unfold bind.
  destruct (m c1) as [r1 c1'], (m c2) as [r2 c2']. simpl in E, Hc. subst r2.
  destruct r1; simpl; auto. by apply Hk.
Qed.

Lemma segment_free_if {A} (b : bool) (m1 m2 : GoM conn A) :
  segment_free m1 -> segment_free m2 -> segment_free (if b then m1 else m2).
Proof. by destruct b. Qed.

Lemma segment_free_write b : segment_free (write_or_fail b).
Proof.
  intros c1 c2 H. pose proof H as (H1 & H2 & Hf & Hw & Hs & Hr & Hd & Hx & Hwf).
  unfold write_or_fail, conn_Write, bind. rewrite Hx, Hw.
  destruct (c_closed c2) eqn:Ex; [by split|].
  destruct (c_wr c2) as [|w ws] eqn:Ew; [|destruct (wr_err w)]; split; try done;
    repeat split; simpl; done || congruence.
Qed.

Lemma segment_free_ReadFull n : segment_free (ReadFull n).
Proof.
  intros c1 c2 H. pose proof H as (H1 & H2 & Hf & Hw & Hs & Hr & Hd & Hx & Hwf).
  unfold ReadFull. destruct n as [|n]; [by split|]. rewrite Hx.
  destruct (c_closed c2) eqn:Ex; [by split|].
  destruct (decide (S n <= length (flat (c_in c1)))%nat) as [Hn|Hn].
  - destruct (read_full_flat (S n) [] (c_in c1) H1 Hn) as (l1 & -> & Hc1 & Hf1).
    rewrite Hf in Hn, Hf1 |- *.
    destruct (read_full_flat (S n) [] (c_in c2) H2 Hn) as (l2 & -> & Hc2 & Hf2).
    split; [done|]. repeat split; simpl; done || congruence.
  - rewrite read_full_short by (done || lia). rewrite Hf in Hn |- *.
    rewrite read_full_short by (done || lia).
    split; [done|]. repeat split; simpl; try apply Forall_nil_2; done || congruence.
Qed.

#[export] Hint Resolve segment_free_ret segment_free_fail segment_free_bind segment_free_if
  segment_free_write segment_free_ReadFull : go.

(** ** Stepping through a handshake *)

(** An open connection that accepts every write and on which [inp] is still
    to be read and [sent] has been sent. *)
Definition live (c : conn) (inp sent : bytes) : Prop :=
  c_closed c = false /\ c_wr c = [] /\ clean (c_in c) /\ flat (c_in c) = inp /\ c_sent c = sent.

Lemma live_write b c inp sent :
  live c inp sent -> exists c', write_or_fail b c = (Ok tt, c') /\ live c' inp (sent ++ b).
Proof.
  intros (Hc & Hw & Hcl & Hf & Hs). unfold write_or_fail, conn_Write, bind. rewrite Hc, Hw.
  eexists. split; [done|]. repeat split; simpl; congruence || done.
Qed.

Lemma live_read n c inp sent :
  live c inp sent -> (n <= length inp)%nat ->
  exists c', ReadFull n c = (Ok (take n inp), c') /\ live c' (drop n inp) sent.
Proof.
  intros (Hc & Hw & Hcl & Hf & Hs) Hn. unfold ReadFull. destruct n as [|n].
  - exists c. split; [done|]. by repeat split.
  - rewrite Hc. subst inp.
    destruct (read_full_flat (S n) [] (c_in c) Hcl Hn) as (l' & -> & Hcl' & Hf').
    eexists. split; [done|]. repeat split; simpl; congruence || done.
Qed.

Lemma live_read_app a rest n c sent :
  live c (a ++ rest) sent -> length a = n ->
  exists c', ReadFull n c = (Ok a, c') /\ live c' rest sent.
Proof.
  intros Hl <-. destruct (live_read (length a) c _ sent Hl) as (c' & E & Hl'); [len|].
  rewrite take_app_length in E. rewrite drop_app_length in Hl'. eauto.
Qed.

(** A successful read returned the next bytes of the stream. *)
Lemma live_read_inv n c inp sent b c' :
  live c inp sent -> ReadFull n c = (Ok b, c') ->
  length b = n /\ exists rest, inp = b ++ rest /\ live c' rest sent.
Proof.
  intros Hl H. destruct (decide (n <= length inp)%nat) as [Hn|Hn].
  - destruct (live_read n c inp sent Hl Hn) as (c2 & E & Hl2). rewrite E in H. simplify_eq.
    split; [len|]. exists (drop n inp). by rewrite take_drop.
  - destruct Hl as (Hc & Hw & Hcl & Hf & Hs). subst inp. unfold ReadFull in H.
    destruct n; [lia|]. rewrite Hc, read_full_short in H by (done || lia). done.
Qed.

(** A read never panics, and fails when the stream is too short. *)
Lemma ReadFull_returns n c : exists r c', ReadFull n c = (r, c') /\
  match r with Ok b => length b = n | Err _ => True | _ => False end.
Proof.
  unfold ReadFull. destruct n as [|n]; [by eexists _, _|].
  destruct (c_closed c); [by eexists _, _|].
  assert (forall need got l b l', read_full need got l = ((b, None), l') ->
    length b = length got + need)%nat as Hlen.
  { clear. intros need got l. revert need got.
    induction l as [|ev l IH]; intros need got b l' H; destruct need as [|need]; simpl in H;
      try (simplify_eq; lia).
    case_match; [simplify_eq; apply Nat.leb_le in H0; len|]. apply Nat.leb_gt in H0.
    repeat case_match; simplify_eq; [len|]. apply IH in H. len. }
  destruct (read_full (S n) [] (c_in c)) as [[b [e|]] l] eqn:E; [by eexists _, _|].
  eexists _, _. split; [done|]. by apply Hlen in E.
Qed.

Lemma returns_ReadFull n : returns (ReadFull n).
Proof.
  intros c. destruct (ReadFull_returns n c) as (r & c' & -> & H). by destruct r.
Qed.

Lemma ReadFull_length n c b c' : ReadFull n c = (Ok b, c') -> length b = n.
Proof.
  intros E. destruct (ReadFull_returns n c) as (r & c2 & E2 & H). rewrite E2 in E. by simplify_eq.
Qed.

Lemma returns_read_bind {A} n (k : bytes -> GoM conn A) :
  (forall b, length b = n -> returns (k b)) -> returns (bind (ReadFull n) k).
Proof.
  intros Hk. apply (returns_bind_post (fun b => length b = n)); [apply returns_ReadFull| |done].
  intros c b c' E. by apply ReadFull_length in E.
Qed.

Lemma returns_write b : returns (write_or_fail b).
Proof.
  intros c. unfold write_or_fail, conn_Write, bind.
  destruct (c_closed c); [done|]. destruct (c_wr c) as [|w ws]; [done|]. by destruct (wr_err w).
Qed.

#[export] Hint Resolve returns_ReadFull returns_write : go.

(** Walk through a computation, leaving the calls no lemma covers. *)
Ltac returns_tac :=
  repeat match goal with
  | |- returns (if _ then _ else _) => apply returns_if
  | |- returns (bind (ReadFull _) _) => apply returns_read_bind; intros ? ?
  | |- returns (bind _ _) => apply returns_bind; [|intros ?]
  | H : context [length ?l] |- returns (match ?l with _ => _ end) =>
      destruct l; simpl in H; try lia
  | |- returns (match ?x with _ => _ end) => destruct x
  | |- returns _ => solve [auto with go]
  end.
