(* ===== verification/Bufio.v ===== *)
(** * Bufio: [bufio.Reader] over a connection, and the reader interface

    The HTTP and WebSocket clients read through a [bufio.Reader] of the default
    size.  This file models the part of it they use ([Read], [ReadString] and
    [io.ReadFull] on it) over the scripted connections of [Conn], and states
    the interface [Reader]/[ReaderLaws] that the frame parser is verified
    against; connections and buffered readers are its two instances. *)

From S2P Require Import Prelude Bytes GoStrings Conn.

Local Open Scope nat_scope.

(** ** The buffered reader *)

(** The unread part of the buffer, the pending error, the source. *)
Record bufio := mkBufio {
  b_buf : bytes;
  b_err : option error;
  b_conn : conn;
}.

Definition NewReader (c : conn) : bufio := mkBufio [] None c.

Definition bufsize : nat := Z.to_nat 4096.
Definition ErrNoProgress : error :=
  Sentinel "multiple Read calls return no data or error".

Definition set_buf (d : bytes) : GoM bufio unit :=
  modify (fun s => mkBufio d (b_err s) (b_conn s)).
Definition set_err (e : option error) : GoM bufio unit :=
  modify (fun s => mkBufio (b_buf s) e (b_conn s)).

(** Run an operation of the connection under the reader. *)
Definition under {A} (m : GoM conn A) : GoM bufio A := fun s =>
  let '(r, c) := m (b_conn s) in (r, mkBufio (b_buf s) (b_err s) c).

(** Take the pending error. *)
Definition readErr : GoM bufio (option error) :=
  do s <- get; set_err None ;; ret (b_err s).

(** Hand out at most [cap] buffered bytes. *)
Definition copy_out (cap : nat) : GoM bufio (bytes * option error) :=
  do s <- get; set_buf (drop cap (b_buf s)) ;; ret (take cap (b_buf s), None).

(** [Read(p)] with [len(p) = cap]. *)
Definition br_Read (cap : nat) : GoM bufio (bytes * option error) :=
  do s <- get;
  match cap, b_buf s with
  | O, _ :: _ => ret ([], None)
  | O, [] => do e <- readErr; ret ([], e)
  | _, _ :: _ => copy_out cap
  | _, [] =>
      match b_err s with
      | Some _ => do e <- readErr; ret ([], e)
      | None =>
          if bufsize <=? cap then under (conn_Read cap)
          else
            do '(d, e) <- under (conn_Read bufsize);
            set_err e ;;
            match d with
            | [] => do e <- readErr; ret ([], e)
            | _ => set_buf d ;; copy_out cap
            end
      end
  end.

(** [fill]: at most a hundred reads that give neither data nor an error. *)
Fixpoint fill_loop (i : nat) : GoM bufio unit :=
  match i with
  | O => set_err (Some ErrNoProgress)
  | S i =>
      do s <- get;
      do '(d, e) <- under (conn_Read (bufsize - length (b_buf s)));
      set_buf (b_buf s ++ d) ;;
      match e, d with
      | Some e, _ => set_err (Some e)
      | None, [] => fill_loop i
      | None, _ => ret tt
      end
  end.

(** [ReadString(delim)]: what was read and the error.  A full buffer is moved
    to [acc]. *)
Fixpoint read_string (fuel : nat) (acc : bytes) (delim : byte) : GoM bufio (bytes * option error) :=
  match fuel with
  | O => fun s => (Diverge, s)
  | S fuel =>
      do s <- get;
      match Index (b_buf s) [delim] with
      | Some i => set_buf (drop (S i) (b_buf s)) ;; ret (acc ++ take (S i) (b_buf s), None)
      | None =>
          match b_err s with
          | Some e => set_err None ;; set_buf [] ;; ret (acc ++ b_buf s, Some e)
          | None =>
              if bufsize <=? length (b_buf s)
              then set_buf [] ;; read_string fuel (acc ++ b_buf s) delim
              else fill_loop 100 ;; read_string fuel acc delim
          end
      end
  end.

Definition string_fuel (s : bufio) : nat := 2 * length (flat (c_in (b_conn s))) + 4.

Definition ReadString (delim : byte) : GoM bufio (bytes * option error) :=
  do s <- get; read_string (string_fuel s) [] delim.

(** [io.ReadFull] on the buffered reader. *)
Fixpoint br_full (fuel need : nat) (got : bytes) : GoM bufio bytes :=
  match need, fuel with
  | O, _ => ret got
  | _, O => fun s => (Diverge, s)
  | _, S fuel =>
      do '(d, e) <- br_Read need;
      match need - length d, e with
      | O, _ => ret (got ++ d)
      | need', None => br_full fuel need' (got ++ d)
      | _, Some e =>
          fail (match got ++ d with
                | [] => e
                | _ => if bool_decide (e = EOF) then ErrUnexpectedEOF else e
                end)
      end
  end.

Definition br_ReadFull (n : nat) : GoM bufio bytes :=
  do s <- get; br_full (S (n + length (c_in (b_conn s)))) n [].

(** ** Properties of one read of the connection *)

Lemma read_event_flat cap l :
  let '((d, e), l') := read_event cap l in
  flat l = d ++ flat l' /\ length l' <= length l /\ length d <= cap /\
  (e = None -> d = [] -> 0 < cap -> length l' < length l).
Proof.
  destruct l as [|ev l]; simpl; [split_and!; try done; lia|].
  case_if; simpl.
  - apply Nat.leb_le in Heqb. split_and!; try done; lia.
  - apply Nat.leb_gt in Heqb. rewrite !flat_cons. simpl.
    rewrite app_assoc, take_drop, length_take. split_and!; try done; try lia.
    intros _ Hd ?. apply (f_equal length) in Hd. rewrite length_take in Hd. simpl in Hd. lia.
Qed.

(** The part of a connection that reading leaves alone. *)
Definition wside (c : conn) := (c_wr c, c_sent c, c_rdl c, c_wdl c, c_closed c, c_wfail c).

Lemma conn_Read_spec cap c :
  exists d e c', conn_Read cap c = (Ok (d, e), c') /\ wside c' = wside c /\
    flat (c_in c) = d ++ flat (c_in c') /\ length (c_in c') <= length (c_in c) /\ length d <= cap /\
    (e = None -> d = [] -> 0 < cap -> length (c_in c') < length (c_in c)).
Proof.
  unfold conn_Read. destruct (c_closed c) eqn:E.
  - eexists _, _, _. split; [done|]. split_and!; try done; simpl; lia.
  - pose proof (read_event_flat cap (c_in c)) as H.
    destruct (read_event cap (c_in c)) as [[d e] l]. eexists _, _, _. split; [done|].
    split; [done|]. exact H.
Qed.

(** ** Reading to a delimiter terminates *)

Definition pot (s : bufio) : nat :=
  2 * length (flat (c_in (b_conn s))) + (match b_err s with None => 2 | Some _ => 0 end) +
  (if bufsize <=? length (b_buf s) then 1 else 0).

Lemma bufsize_pos : 0 < bufsize.
Proof. unfold bufsize. lia. Qed.

Lemma fill_loop_spec i s :
  b_err s = None -> length (b_buf s) < bufsize ->
  exists s' d, fill_loop i s = (Ok tt, s') /\ wside (b_conn s') = wside (b_conn s) /\
    b_buf s' = b_buf s ++ d /\ flat (c_in (b_conn s)) = d ++ flat (c_in (b_conn s')) /\
    (d <> [] \/ b_err s' <> None).
Proof.
  revert s. induction i as [|i IH]; intros s He Hb.
  - eexists _, []. split; [done|]. rewrite app_nil_r. split_and!; try done. by right.
  - destruct (conn_Read_spec (bufsize - length (b_buf s)) (b_conn s))
      as (d & e & c' & E & Hw & Hf & _ & _ & _).
    cbn [fill_loop]. unfold get, under, set_buf, set_err, modify, bind. rewrite E. cbn.
    destruct e as [e|].
    { eexists _, d. split; [done|]. split_and!; try done. by right. }
    destruct d as [|x d].
    + rewrite He. destruct (IH (mkBufio (b_buf s ++ []) None c')) as (s' & d & E' & Hw' & Hb' & Hf' & Hd);
        [done|simpl; by rewrite app_nil_r|].
      exists s', d. rewrite app_nil_r in *. simpl in *. split_and!; try done; congruence.
    + eexists _, (x :: d). split; [done|]. split_and!; try done. by left.
Qed.

Lemma fill_loop_pot i s s' :
  b_err s = None -> length (b_buf s) < bufsize -> fill_loop i s = (Ok tt, s') -> pot s' < pot s.
Proof.
  intros He Hb E. destruct (fill_loop_spec i s He Hb) as (s2 & d & E2 & _ & _ & Hf & Hd).
  rewrite E2 in E. simplify_eq. unfold pot. rewrite Hf, length_app, He.
  rewrite (proj2 (Nat.leb_gt _ _) Hb).
  assert (d <> [] -> 0 < length d) by (by destruct d; simpl; [|lia]).
  destruct (b_err s'), (bufsize <=? length (b_buf s')); destruct Hd as [Hd|Hd]; try done;
    try specialize (H Hd); lia.
Qed.

Lemma read_string_returns fuel acc delim s :
  pot s < fuel -> exists d e s', read_string fuel acc delim s = (Ok (d, e), s') /\
    wside (b_conn s') = wside (b_conn s).
Proof.
  revert acc s. induction fuel as [|fuel IH]; intros acc s Hf; [lia|].
  cbn [read_string]. unfold get, bind at 1. cbv beta iota.
  destruct (Index _ _) as [i|]; [by eexists _, _, _|].
  destruct (b_err s) as [e|] eqn:He; [by eexists _, _, _|].
  case_if.
  - apply (IH _ (mkBufio [] (b_err s) (b_conn s))). unfold pot in *. cbn [b_buf b_err b_conn]. rewrite Heqb in Hf.
    destruct (bufsize <=? length []) eqn:E0; [|lia].
    apply Nat.leb_le in E0. pose proof bufsize_pos. simpl in E0. lia.
  - apply Nat.leb_gt in Heqb.
    destruct (fill_loop_spec 100 s He Heqb) as (s' & d & E & Hw & _).
    rewrite (bind_Ok _ _ _ _ _ E). rewrite <- Hw. apply IH.
    pose proof (fill_loop_pot _ _ _ He Heqb E). lia.
Qed.

(** Everything still to come from the reader. *)
Definition br_stream (s : bufio) : bytes := b_buf s ++ flat (c_in (b_conn s)).

(** No byte is lost or invented, and a line is never empty. *)
Lemma read_string_stream fuel acc delim s d e s' :
  read_string fuel acc delim s = (Ok (d, e), s') ->
  acc ++ br_stream s = d ++ br_stream s' /\ (e = None -> delim ∈ d).
Proof.
  revert acc s. induction fuel as [|fuel IH]; intros acc s; [done|].
  cbn [read_string]. unfold get, bind at 1. cbv beta iota. unfold br_stream.
  destruct (Index (b_buf s) [delim]) as [i|] eqn:Ei.
  - intros [= <- <- <-]. cbn [b_buf b_conn]. rewrite <- app_assoc, (app_assoc (take _ _)), take_drop.
    split; [done|]. intros _. apply Index_Some in Ei as (Hp & Hi & _). simpl in Hi.
    apply HasPrefix_true in Hp as [r Hr]. apply elem_of_app. right.
    apply list_elem_of_lookup. exists i. rewrite lookup_take_lt by lia.
    rewrite <- (Nat.add_0_r i), <- lookup_drop, Hr. done.
  - destruct (b_err s) as [e0|] eqn:He; [intros [= <- <- <-]; cbn; by rewrite <- app_assoc|].
    case_if.
    + intros H. apply (IH _ (mkBufio [] (b_err s) (b_conn s))) in H as [H Hd]. split; [|done].
      unfold br_stream in H. rewrite <- H. cbn. by rewrite <- app_assoc.
    + apply Nat.leb_gt in Heqb.
      destruct (fill_loop_spec 100 s He Heqb) as (s1 & d1 & E & _ & Hb & Hf & _).
      rewrite (bind_Ok _ _ _ _ _ E). intros H. apply IH in H as [H Hd]. split; [|done].
      unfold br_stream in H. by rewrite <- H, Hb, Hf, <- app_assoc.
Qed.

(** The script only gets shorter. *)
Lemma fill_loop_events i s s' :
  fill_loop i s = (Ok tt, s') -> (length (c_in (b_conn s')) <= length (c_in (b_conn s)))%nat.
Proof.
  revert s. induction i as [|i IH]; intros s; [by intros [= <-]|]. cbn [fill_loop].
  destruct (conn_Read_spec (bufsize - length (b_buf s)) (b_conn s)) as (d & e & c' & E & _ & _ & Hl & _).
  unfold get, under, set_buf, set_err, modify, bind. rewrite E. cbn. destruct e as [e|]; [by intros [= <-]|].
  destruct d; [|by intros [= <-]]. intros H. apply IH in H. cbn in H. lia.
Qed.

Lemma read_string_events fuel acc delim s r s' :
  read_string fuel acc delim s = (Ok r, s') -> (length (c_in (b_conn s')) <= length (c_in (b_conn s)))%nat.
Proof.
  revert acc s. induction fuel as [|fuel IH]; intros acc s; [done|].
  cbn [read_string]. unfold get, bind at 1. cbv beta iota.
  destruct (Index _ _); [by intros [= _ <-]|]. destruct (b_err s); [by intros [= _ <-]|]. case_if.
  - intros H. by apply (IH _ (mkBufio [] (b_err s) (b_conn s))) in H.
  - intros H. apply bind_inv_Ok in H as ([] & s1 & E & H). apply fill_loop_events in E. apply IH in H. lia.
Qed.

Lemma pot_fuel s : pot s < string_fuel s.
Proof. unfold pot, string_fuel. destruct (b_err s), (bufsize <=? _); lia. Qed.

Lemma ReadString_returns delim s :
  exists d e s', ReadString delim s = (Ok (d, e), s') /\ wside (b_conn s') = wside (b_conn s).
Proof. apply read_string_returns, pot_fuel. Qed.

(** ** Reading a full buffer terminates *)

Lemma br_Read_spec cap s :
  0 < cap -> exists d e s', br_Read cap s = (Ok (d, e), s') /\
    wside (b_conn s') = wside (b_conn s) /\ length d <= cap /\
    length (c_in (b_conn s')) <= length (c_in (b_conn s)) /\
    (e = None -> d = [] -> length (c_in (b_conn s')) < length (c_in (b_conn s))).
Proof.
  intros Hcap. unfold br_Read. unfold get, bind at 1. cbv beta iota.
  destruct cap as [|cap]; [lia|]. destruct (b_buf s) as [|x buf] eqn:Eb.
  - destruct (b_err s) as [e|] eqn:Ee.
    { eexists _, _, _. split; [reflexivity|]. cbn. rewrite Ee. split_and!; try done; lia. }
    case_if.
    + destruct (conn_Read_spec (S cap) (b_conn s)) as (d & e & c' & E & Hw & Hf & Hl & Hd & Hz).
      unfold under. rewrite E. eexists _, _, _. split; [reflexivity|]. split_and!; try done.
      intros. apply Hz; done || lia.
    + destruct (conn_Read_spec bufsize (b_conn s)) as (d & e & c' & E & Hw & Hf & Hl & Hd & Hz).
      unfold under, bind at 1. rewrite E. destruct d as [|y d].
      * eexists _, _, _. split; [reflexivity|]. cbn. split_and!; try done; try lia.
        intros. apply Hz; done || apply bufsize_pos.
      * eexists _, _, _. split; [reflexivity|]. cbn. split_and!; try done.
        rewrite length_take. lia.
  - eexists _, _, _. split; [reflexivity|]. cbn. rewrite Eb. cbn. rewrite length_take. split_and!; try done. lia.
Qed.

Lemma br_full_returns fuel need got s :
  need + length (c_in (b_conn s)) < fuel ->
  exists r s', br_full fuel need got s = (r, s') /\ wside (b_conn s') = wside (b_conn s) /\
    match r with Ok b => length b = length got + need | Err _ => True | _ => False end.
Proof.
  revert need got s. induction fuel as [|fuel IH]; intros need got s Hf; [lia|].
  destruct need as [|need]; [eexists _, _; split; [done|]; split; [done|]; simpl; lia|].
  destruct (br_Read_spec (S need) s) as (d & e & s1 & E & Hw & Hd & Hl & Hz); [lia|].
  cbn [br_full]. rewrite (bind_Ok _ _ _ _ _ E).
  destruct (S need - length d) as [|k] eqn:Ek.
  { eexists _, _. split; [done|]. split; [done|]. len. }
  destruct e as [e|]; [by eexists _, _|].
  assert (d = [] -> length (c_in (b_conn s1)) < length (c_in (b_conn s))) by auto.
  destruct (IH (S k) (got ++ d) s1) as (r & s2 & E2 & Hw2 & Hr).
  { destruct d; simpl in *; [specialize (H eq_refl)|]; lia. }
  exists r, s2. split; [done|]. split; [congruence|]. destruct r; try done. rewrite Hr. len.
Qed.

Lemma br_ReadFull_returns n s :
  exists r s', br_ReadFull n s = (r, s') /\ wside (b_conn s') = wside (b_conn s) /\
    match r with Ok b => length b = n | Err _ => True | _ => False end.
Proof. apply br_full_returns. lia. Qed.

(** ** Reading from a peer that sends data and closes *)

(** Data in non-empty pieces, no errors. *)
Definition wellcut (l : list rd_event) : Prop :=
  Forall (fun ev => rd_data ev <> [] /\ rd_err ev = None) l.

#[global] Instance wellcut_dec l : Decision (wellcut l).
Proof. unfold wellcut. apply _. Defined.

(** An open reader from which exactly [inp], and then EOF, is to be read. *)
Definition br_pending (s : bufio) (inp : bytes) : Prop :=
  b_err s = None /\ c_closed (b_conn s) = false /\ wellcut (c_in (b_conn s)) /\
  b_buf s ++ flat (c_in (b_conn s)) = inp.

Lemma wellcut_nil l : wellcut l -> flat l = [] -> l = [].
Proof.
  destruct l as [|ev l]; [done|]. intros [[Hd _] _]%Forall_cons H.
  rewrite flat_cons in H. by apply app_nil in H as [??].
Qed.

Lemma read_event_wellcut cap l :
  0 < cap -> wellcut l -> flat l <> [] ->
  exists d l', read_event cap l = ((d, None), l') /\ d <> [] /\ wellcut l' /\
    flat l = d ++ flat l' /\ length d <= cap.
Proof.
  intros Hcap Hl Hne. pose proof (read_event_flat cap l) as Hf.
  destruct l as [|ev l]; [done|]. apply Forall_cons in Hl as [[Hd He] Hl].
  cbn [read_event] in *. case_if.
  - eexists _, _. rewrite He. split; [done|]. destruct Hf as (? & ? & ? & ?). done.
  - eexists _, _. split; [done|]. apply Nat.leb_gt in Heqb.
    destruct Hf as (? & ? & ? & ?). split_and!; try done.
    + destruct (rd_data ev); [done|]. by destruct cap; [lia|].
    + constructor; [|done]. simpl. split; [|done]. intros E%(f_equal length).
      rewrite length_drop in E. simpl in E. lia.
Qed.

Lemma conn_Read_wellcut cap c :
  0 < cap -> c_closed c = false -> wellcut (c_in c) ->
  exists d e c', conn_Read cap c = (Ok (d, e), c') /\ wside c' = wside c /\ wellcut (c_in c') /\
    flat (c_in c) = d ++ flat (c_in c') /\ length d <= cap /\
    ((e = None /\ d <> []) \/ (e = Some EOF /\ d = [] /\ flat (c_in c) = [])).
Proof.
  intros Hcap Hc Hl. unfold conn_Read. rewrite Hc.
  destruct (decide (flat (c_in c) = [])) as [E|E].
  - rewrite (wellcut_nil _ Hl E). eexists _, _, _. split; [done|]. split_and!; simpl; try done; try lia.
    + constructor.
    + by right.
  - destruct (read_event_wellcut cap _ Hcap Hl E) as (d & l' & -> & Hd & Hl' & Hf & Hn).
    eexists _, _, _. split; [done|]. split_and!; try done. by left.
Qed.

Lemma wside_open c c' : wside c' = wside c -> c_closed c' = c_closed c.
Proof. unfold wside. by intros [= _ _ _ _ ? _]. Qed.

(** [fill] on such a reader adds data, or finds EOF. *)
Lemma fill_pending i s inp :
  0 < i -> br_pending s inp -> length (b_buf s) < bufsize ->
  exists s', fill_loop i s = (Ok tt, s') /\ wside (b_conn s') = wside (b_conn s) /\
    (br_pending s' inp \/
     (inp = b_buf s /\ s' = mkBufio inp (Some EOF) (b_conn s') /\ br_pending (mkBufio [] None (b_conn s')) [])).
Proof.
  intros Hi (He & Hc & Hl & Hin) Hb. destruct i as [|i]; [lia|].
  destruct (conn_Read_wellcut (bufsize - length (b_buf s)) (b_conn s))
    as (d & e & c' & E & Hw & Hl' & Hf & Hn & Hd); [lia|done|done|].
  apply wside_open in Hw as Hc'.
  cbn [fill_loop]. unfold get, under, set_buf, set_err, modify, bind. rewrite E. cbn.
  destruct Hd as [[-> Hd]|(-> & -> & Hz)].
  - destruct d as [|x d]; [done|]. eexists. split; [reflexivity|]. split; [done|]. left.
    repeat split; cbn; try congruence. subst inp. rewrite Hf. by rewrite <- app_assoc.
  - eexists. split; [reflexivity|]. split; [done|]. right. cbn.
    assert (inp = b_buf s) as -> by (subst inp; by rewrite Hz, app_nil_r).
    rewrite Hz in Hf. rewrite app_nil_r. repeat split; cbn; try congruence; done.
Qed.

Lemma split_delim a (delim : byte) rest b f :
  a ++ delim :: rest = b ++ f -> delim ∉ a -> delim ∉ b ->
  exists a', a = b ++ a' /\ f = a' ++ delim :: rest.
Proof.
  revert a. induction b as [|x b IH]; intros a E Ha Hb; [eauto|].
  destruct a as [|y a]; simpl in E; injection E as <- E.
  - set_solver.
  - destruct (IH a E) as (a' & -> & ->); [set_solver..|]. eauto.
Qed.

Lemma read_string_pending fuel acc delim s a rest :
  pot s < fuel -> br_pending s (a ++ delim :: rest) -> delim ∉ a ->
  exists s', read_string fuel acc delim s = (Ok (acc ++ a ++ [delim], None), s') /\
    br_pending s' rest /\ wside (b_conn s') = wside (b_conn s).
Proof.
  revert acc s a. induction fuel as [|fuel IH]; intros acc s a Hf Hp Ha; [lia|].
  pose proof Hp as (He & Hc & Hl & Hin).
  cbn [read_string]. unfold get, bind at 1. cbv beta iota.
  destruct (Index (b_buf s) [delim]) as [i|] eqn:Ei.
  - apply Index_split in Ei as Es. apply Index_Some in Ei as (_ & Hi & Hno).
    set (p := take i (b_buf s)) in *. set (q := drop (i + length [delim]) (b_buf s)) in *.
    simpl in Hi. assert (length p = i) as Hp' by (unfold p; rewrite length_take; lia).
    assert (delim ∉ p) as Hdp.
    { intros Hin'. apply list_elem_of_split in Hin' as (u & v & Ep).
      specialize (Hno (length u)). rewrite Es, Ep, <- !app_assoc in Hno.
      rewrite drop_app_length in Hno. change ((delim :: v) ++ [delim] ++ q) with ([delim] ++ (v ++ [delim] ++ q)) in Hno.
      rewrite HasPrefix_app in Hno. rewrite Ep in Hp'. rewrite length_app in Hp'. simpl in Hp'.
      discriminate Hno. lia. }
    rewrite Es, <- app_assoc in Hin. symmetry in Hin.
    destruct (split_delim _ _ _ _ _ Hin Ha Hdp) as (a' & -> & E2).
    destruct a' as [|z a']; [|simpl in E2; set_solver]. simpl in E2. injection E2 as E2.
    eexists. rewrite (app_nil_r p).
    assert (take (S i) (b_buf s) = p ++ [delim]) as ->.
    { rewrite Es, app_assoc. rewrite take_app_le by (rewrite length_app; simpl; lia).
      apply take_ge. rewrite length_app. simpl. lia. }
    split; [reflexivity|]. split; [|done]. repeat split; cbn; try done.
    replace (S i) with (i + length [delim]) by (simpl; lia). done.
  - apply Index_byte_None in Ei. rewrite He. symmetry in Hin.
    case_if.
    + destruct (split_delim _ _ _ _ _ Hin Ha Ei) as (a' & -> & E2).
      destruct (IH (acc ++ b_buf s) (mkBufio [] None (b_conn s)) a') as (s' & E' & Hp2 & Hw2).
      * unfold pot in *. cbn [b_buf b_err b_conn]. rewrite Heqb, He in Hf.
        destruct (bufsize <=? length []) eqn:E0; [|lia].
        apply Nat.leb_le in E0. pose proof bufsize_pos. simpl in E0. lia.
      * repeat split; cbn; done.
      * set_solver.
      * exists s'. unfold set_buf, modify, bind. rewrite He, E'. rewrite <- !app_assoc. done.
    + apply Nat.leb_gt in Heqb.
      destruct (fill_pending 100 s _ ltac:(lia) Hp Heqb) as (s1 & E1 & Hw1 & Hcase).
      pose proof (fill_loop_pot _ _ _ He Heqb E1) as Hpot.
      destruct Hcase as [Hp1|(Eb & _)].
      * rewrite (bind_Ok _ _ _ _ _ E1). destruct (IH acc s1 a) as (s' & E' & Hp2 & Hw2); [lia|done|done|].
        exists s'. split; [done|]. split; [done|]. congruence.
      * rewrite <- Eb in Ei. set_solver.
Qed.

Lemma ReadString_pending delim s a rest :
  br_pending s (a ++ delim :: rest) -> delim ∉ a ->
  exists s', ReadString delim s = (Ok (a ++ [delim], None), s') /\
    br_pending s' rest /\ wside (b_conn s') = wside (b_conn s).
Proof. intros. by apply (read_string_pending _ []); [apply pot_fuel|..]. Qed.

(** Without a delimiter in the stream the rest comes with EOF. *)
Lemma read_string_eof fuel acc delim s inp :
  pot s < fuel -> br_pending s inp -> delim ∉ inp ->
  exists s', read_string fuel acc delim s = (Ok (acc ++ inp, Some EOF), s') /\
    br_pending s' [] /\ wside (b_conn s') = wside (b_conn s).
Proof.
  revert acc s inp. induction fuel as [|fuel IH]; intros acc s inp Hf Hp Hd; [lia|].
  pose proof Hp as (He & Hc & Hl & Hin). assert (delim ∉ b_buf s) as Hb by (subst inp; set_solver).
  cbn [read_string]. unfold get, bind at 1. cbv beta iota.
  rewrite (proj2 (Index_byte_None _ _) Hb), He. case_if.
  - destruct (IH (acc ++ b_buf s) (mkBufio [] None (b_conn s)) (flat (c_in (b_conn s)))) as (s' & E' & Hp2 & Hw2).
    + unfold pot in *. cbn [b_buf b_err b_conn]. rewrite Heqb, He in Hf.
      destruct (bufsize <=? length []) eqn:E0; [|lia].
      apply Nat.leb_le in E0. pose proof bufsize_pos. simpl in E0. lia.
    + done.
    + subst inp. set_solver.
    + exists s'. unfold set_buf, modify, bind. rewrite He, E', <- app_assoc, Hin. done.
  - apply Nat.leb_gt in Heqb.
    destruct (fill_pending 100 s _ ltac:(lia) Hp Heqb) as (s1 & E1 & Hw1 & Hcase).
    pose proof (fill_loop_pot _ _ _ He Heqb E1) as Hpot. rewrite (bind_Ok _ _ _ _ _ E1).
    destruct Hcase as [Hp1|(Eb & Es1 & Hp1)].
    + destruct (IH acc s1 inp) as (s' & E' & Hp2 & Hw2); [lia|done|done|].
      exists s'. split; [done|]. split; [done|]. congruence.
    + destruct fuel as [|fuel]; [lia|]. cbn [read_string]. rewrite Es1.
      unfold get, bind at 1. cbv beta iota. cbn [b_buf b_err].
      rewrite (proj2 (Index_byte_None _ _) Hd). eexists. split; [reflexivity|]. split; [exact Hp1|exact Hw1].
Qed.

Lemma ReadString_eof delim s inp :
  br_pending s inp -> delim ∉ inp ->
  exists s', ReadString delim s = (Ok (inp, Some EOF), s') /\
    br_pending s' [] /\ wside (b_conn s') = wside (b_conn s).
Proof. intros. by apply (read_string_eof _ []); [apply pot_fuel|..]. Qed.

(** One [Read] gives a non-empty prefix of what is pending, or EOF. *)
Lemma br_Read_pending cap s inp :
  0 < cap -> br_pending s inp ->
  exists d e s', br_Read cap s = (Ok (d, e), s') /\ wside (b_conn s') = wside (b_conn s) /\
    length d <= cap /\
    ((e = None /\ d <> [] /\ exists rest, inp = d ++ rest /\ br_pending s' rest) \/
     (e = Some EOF /\ d = [] /\ inp = [] /\ br_pending s' [])).
Proof.
  intros Hcap (He & Hc & Hl & Hin). unfold br_Read. unfold get, bind at 1. cbv beta iota.
  destruct cap as [|cap]; [lia|]. destruct (b_buf s) as [|x buf] eqn:Eb; cbn [app] in Hin.
  - rewrite He. case_if.
    + destruct (conn_Read_wellcut (S cap) (b_conn s)) as (d & e & c' & E & Hw & Hl' & Hf & Hn & Hd); [lia|done|done|].
      apply wside_open in Hw as Hc'. unfold under. rewrite E. eexists _, _, _. split; [reflexivity|].
      split; [done|]. split; [done|].
      destruct Hd as [[-> Hd]|(-> & -> & Hz)].
      * left. split_and!; try done. exists (flat (c_in c')). split; [congruence|].
        repeat split; cbn; try congruence; try (by rewrite Eb).
      * right. split_and!; try done; [congruence|]. rewrite Hz in Hf.
        repeat split; cbn; try congruence; try (by rewrite Eb).
    + apply Nat.leb_gt in Heqb.
      destruct (conn_Read_wellcut bufsize (b_conn s)) as (d & e & c' & E & Hw & Hl' & Hf & Hn & Hd);
        [apply bufsize_pos|done|done|].
      apply wside_open in Hw as Hc'. unfold under, bind at 1. rewrite E.
      destruct Hd as [[-> Hd]|(-> & -> & Hz)].
      * destruct d as [|y d]; [done|]. eexists _, _, _. split; [reflexivity|].
        split; [done|]. split; [cbn; rewrite length_take; simpl; lia|].
        left. split_and!; try done. exists (drop (S cap) (y :: d) ++ flat (c_in c')).
        split.
        { rewrite app_assoc. etrans; [exact (eq_sym Hin)|]. rewrite Hf. f_equal.
          symmetry. apply (take_drop (S cap) (y :: d)). }
        repeat split; cbn; congruence.
      * eexists _, _, _. split; [reflexivity|]. split; [done|]. split; [simpl; lia|].
        right. split_and!; try done; [congruence|]. rewrite Hz in Hf.
        repeat split; cbn; try congruence; try (by rewrite Eb).
  - eexists _, _, _. split; [reflexivity|]. cbn [b_buf b_conn]. rewrite Eb. split; [done|].
    split; [rewrite length_take; simpl; lia|].
    left. split_and!; try done. exists (drop (S cap) (x :: buf) ++ flat (c_in (b_conn s))).
    rewrite app_assoc, take_drop. split; [by rewrite <- Hin|]. done.
Qed.

Lemma br_full_pending fuel need got s inp :
  br_pending s inp -> need + length (c_in (b_conn s)) < fuel ->
  exists s', wside (b_conn s') = wside (b_conn s) /\
    if need <=? length inp
    then br_full fuel need got s = (Ok (got ++ take need inp), s') /\ br_pending s' (drop need inp)
    else br_full fuel need got s =
           (Err (match got ++ inp with [] => EOF | _ => ErrUnexpectedEOF end), s') /\ br_pending s' [].
Proof.
  revert need got s inp. induction fuel as [|fuel IH]; intros need got s inp Hp Hf; [lia|].
  destruct need as [|need].
  { exists s. split; [done|]. simpl. by rewrite app_nil_r. }
  destruct (br_Read_pending (S need) s inp ltac:(lia) Hp) as (d & e & s1 & E & Hw & Hn & Hd).
  destruct (br_Read_spec (S need) s ltac:(lia)) as (d2 & e2 & s2 & E2 & _ & _ & Hl & _).
  rewrite E in E2. injection E2 as <- <- <-.
  cbn [br_full]. rewrite (bind_Ok _ _ _ _ _ E).
  destruct Hd as [(-> & Hd & rest & -> & Hp1)|(-> & -> & -> & Hp1)].
  - destruct (S need - length d) as [|k] eqn:Ek.
    + exists s1. split; [done|]. rewrite length_app. rewrite (proj2 (Nat.leb_le _ _)) by lia.
      replace (S need) with (length d) by lia. by rewrite take_app_length, drop_app_length.
    + assert (0 < length d) by (destruct d; [done|simpl; lia]).
      destruct (IH (S k) (got ++ d) s1 rest Hp1) as (s2 & Hw2 & Hr); [lia|].
      exists s2. split; [congruence|]. rewrite length_app.
      destruct (S k <=? length rest) eqn:Ek2.
      * apply Nat.leb_le in Ek2. rewrite (proj2 (Nat.leb_le _ _)) by lia.
        rewrite take_app_ge, drop_app_ge by lia. rewrite Ek, <- app_assoc in *. done.
      * apply Nat.leb_gt in Ek2. rewrite (proj2 (Nat.leb_gt _ _)) by lia.
        rewrite <- app_assoc in Hr. done.
  - exists s1. split; [done|]. cbn [length app Nat.sub]. rewrite app_nil_r.
    rewrite bool_decide_eq_true_2 by done. by destruct got.
Qed.

(** ** The reader interface

    What a frame parser needs from [io.Reader] through [io.ReadFull]:
    [r_pending s inp] says that exactly [inp] and then EOF can be read from
    [s]; [r_conn] is the connection below and [r_stream] every byte that can
    still come, errors aside. *)
Class Reader (S : Type) := {
  r_ReadFull : nat -> GoM S bytes;
  r_pending : S -> bytes -> Prop;
  r_conn : S -> conn;
  r_stream : S -> bytes;
}.

Class ReaderLaws (S : Type) `{Reader S} := {
  r_ReadFull_returns n s : exists r s', r_ReadFull n s = (r, s') /\ wside (r_conn s') = wside (r_conn s) /\
    match r with Ok b => length b = n | Err _ => True | _ => False end;
  r_ReadFull_ok n s inp : r_pending s inp -> n <= length inp ->
    exists s', r_ReadFull n s = (Ok (take n inp), s') /\ r_pending s' (drop n inp);
  r_ReadFull_short n s inp : r_pending s inp -> length inp < n ->
    exists s', r_ReadFull n s = (Err (match inp with [] => EOF | _ => ErrUnexpectedEOF end), s')
      /\ r_pending s' [];
  r_ReadFull_stream n s b s' : r_ReadFull n s = (Ok b, s') -> r_stream s = b ++ r_stream s';
}.

#[export] Instance conn_reader : Reader conn := {|
  r_ReadFull := ReadFull;
  r_pending c inp := c_closed c = false /\ clean (c_in c) /\ flat (c_in c) = inp;
  r_conn c := c;
  r_stream c := flat (c_in c);
|}.

#[export] Instance bufio_reader : Reader bufio := {|
  r_ReadFull := br_ReadFull;
  r_pending := br_pending;
  r_conn := b_conn;
  r_stream := br_stream;
|}.

Lemma read_full_stream need got l :
  got ++ flat l = fst (fst (read_full need got l)) ++ flat (snd (read_full need got l)).
Proof.
  revert need got. induction l as [|ev l IH]; intros need got; destruct need as [|need]; try done.
  rewrite flat_cons. cbn [read_full]. case_match; cbn [fst snd].
  - rewrite flat_cons. cbn [rd_data]. by rewrite <- app_assoc, (app_assoc (take _ _)), take_drop.
  - repeat case_match; cbn [fst snd]; rewrite <- ?IH, ?app_assoc; done || congruence.
Qed.

Lemma br_Read_stream cap s d e s' :
  (0 < cap)%nat -> br_Read cap s = (Ok (d, e), s') -> br_stream s = d ++ br_stream s'.
Proof.
  intros Hcap. unfold br_Read, br_stream. unfold get, bind at 1. cbv beta iota.
  destruct cap as [|cap]; [lia|]. destruct (b_buf s) as [|x buf] eqn:Eb.
  - destruct (b_err s) as [e0|]; [intros [= <- <- <-]; cbn; by rewrite Eb|].
    case_if.
    + destruct (conn_Read_spec (S cap) (b_conn s)) as (d2 & e2 & c' & E & _ & Hf & _).
      unfold under. rewrite E. intros [= <- <- <-]. cbn. by rewrite Eb.
    + destruct (conn_Read_spec bufsize (b_conn s)) as (d2 & e2 & c' & E & _ & Hf & _).
      unfold under, bind at 1. rewrite E. destruct d2 as [|y d2].
      * intros [= <- <- <-]. cbn. by rewrite Eb.
      * intros [= <- <- <-]. cbn [b_buf b_conn]. rewrite app_assoc. etrans; [exact Hf|].
        f_equal. symmetry. apply (take_drop (S cap) (y :: d2)).
  - intros [= <- <- <-]. cbn [b_buf b_conn]. rewrite Eb, app_assoc, take_drop. done.
Qed.

Lemma br_full_stream fuel need got s b s' :
  br_full fuel need got s = (Ok b, s') -> got ++ br_stream s = b ++ br_stream s'.
Proof.
  revert need got s. induction fuel as [|fuel IH]; intros need got s.
  { destruct need; [by intros [= <- <-]|done]. }
  destruct need as [|need]; [by intros [= <- <-]|]. cbn [br_full]. intros H. apply bind_inv_Ok in H as ([d e] & s1 & E & H).
  apply br_Read_stream in E; [|lia]. rewrite E, app_assoc.
  destruct (S need - length d) as [|k]; [injection H as <- <-; done|].
  destruct e as [e|]; [done|]. by apply IH in H.
Qed.

Lemma ReadFull_wside n c : wside (snd (ReadFull n c)) = wside c.
Proof.
  unfold ReadFull. destruct n; [done|]. destruct (c_closed c); [done|].
  by destruct (read_full _ _ _) as [[? [?|]] ?].
Qed.

#[export] Instance conn_reader_laws : ReaderLaws conn.
Proof.
  split; cbn [r_ReadFull r_pending r_conn conn_reader].
  - intros n c. destruct (ReadFull_returns n c) as (r & c' & E & H).
    pose proof (ReadFull_wside n c) as Hw. rewrite E in Hw. eauto.
  - intros n c inp (Hc & Hcl & Hf) Hn. unfold ReadFull. destruct n as [|n]; [by exists c|].
    rewrite Hc. subst inp.
    destruct (read_full_flat (S n) [] (c_in c) Hcl Hn) as (l' & -> & Hcl' & Hf').
    eexists. split; [done|]. repeat split; simpl; congruence || done.
  - intros n c inp (Hc & Hcl & Hf) Hn. unfold ReadFull. destruct n as [|n]; [lia|].
    rewrite Hc. subst inp. rewrite read_full_short by done. eexists. split; [done|].
    repeat split; simpl; try done. constructor.
  - intros n c b c'. unfold ReadFull. destruct n as [|n]; [by intros [= <- <-]|].
    destruct (c_closed c); [done|]. pose proof (read_full_stream (S n) [] (c_in c)) as H.
    destruct (read_full (S n) [] (c_in c)) as [[d [e|]] l]; [done|]. intros [= <- <-]. exact H.
Qed.

#[export] Instance bufio_reader_laws : ReaderLaws bufio.
Proof.
  split; cbn [r_ReadFull r_pending r_conn bufio_reader].
  - apply br_ReadFull_returns.
  - intros n s inp Hp Hn.
    destruct (br_full_pending (S (n + length (c_in (b_conn s)))) n [] s inp Hp) as (s' & _ & H); [lia|].
    rewrite (proj2 (Nat.leb_le _ _)) in H by lia. by exists s'.
  - intros n s inp Hp Hn.
    destruct (br_full_pending (S (n + length (c_in (b_conn s)))) n [] s inp Hp) as (s' & _ & H); [lia|].
    rewrite (proj2 (Nat.leb_gt _ _)) in H by lia. by exists s'.
  - intros n s b s' E. by apply br_full_stream in E.
Qed.
