(* ===== verification/Socks.v ===== *)
(** * Socks: the SOCKS4/4a and SOCKS5 client handshakes

    Models [network/handler/socks4_handler.go] and [socks5_handler.go]: each
    handler as a computation on the connection to the proxy, from the checks
    of its arguments to the last byte of the reply. *)

From S2P Require Import Prelude Bytes GoStrings NetAddr Conn Proxy.

Local Open Scope Z_scope.

(** A handler on a connection that may be nil. *)
Definition on_conn {A} (c : option conn) (m : GoM conn A) : outcome A * option conn :=
  match c with
  | None => (Err (Errorf "nil connection" []), None)
  | Some c => let '(r, c') := m c in (r, Some c')
  end.

Definition port_bytes (port : Z) : bytes := be_put 2 (uwrap 16 port).

Definition bad_port (port : Z) : bool := (port <=? 0) || (65535 <? port).

(** ** SOCKS4 *)

Definition socks4ReplyError (code : byte) : bytes :=
  match code with
  | Byte.x5b => str "request rejected or failed"
  | Byte.x5c => str "request failed because client is not running identd"
  | Byte.x5d => str "request failed because client identd could not confirm userid"
  | _ => str "unknown error code " ++ Itoa (b2z code)
  end.

Section socks4.
(** [net.ParseIP(host).To4()]: the four bytes of an IPv4 address. *)
Context (ParseIP_To4 : bytes -> option bytes).

Definition socks4Request (username host : bytes) (port : Z) : bytes :=
  [Byte.x04; Byte.x01] ++ port_bytes port ++
  match ParseIP_To4 host with
  | Some ip4 => ip4 ++ username ++ [Byte.x00]
  | None => [Byte.x00; Byte.x00; Byte.x00; Byte.x01] ++ username ++ [Byte.x00] ++ host ++ [Byte.x00]
  end.

Definition Socks4Handshake (proxyConfig : option ProxyConfig) (host : bytes) (port : Z)
    : GoM conn unit :=
  match proxyConfig with
  | None => fail (Errorf "nil proxy config" [])
  | Some cfg =>
      let host := TrimSpace host in
      if bool_decide (host = []) then fail (Errorf "empty destination host" [])
      else if bad_port port then fail (Errorf "invalid destination port: %d" [AInt port])
      else
        let username := default [] (Username cfg) in
        if bool_decide (Byte.x00 ∈ username)
        then fail (Errorf "socks4 userid contains null byte" [])
        else if bool_decide (Byte.x00 ∈ host)
        then fail (Errorf "socks4 host contains null byte" [])
        else
          write_or_fail (socks4Request username host port) ;;
          do resp <- ReadFull 8;
          match resp with
          | vn :: cd :: _ =>
              if negb (bool_decide (vn = Byte.x00))
              then fail (Errorf "invalid socks4 response version: %d" [AInt (b2z vn)])
              else if negb (bool_decide (cd = Byte.x5a))
              then fail (Errorf "socks4 connect failed: %s" [AStr (socks4ReplyError cd)])
              else ret tt
          | _ => panic
          end
  end.

Definition Socks4HandlerConn (c : option conn) (proxyConfig : option ProxyConfig)
    (host : bytes) (port : Z) : outcome unit * option conn :=
  on_conn c (Socks4Handshake proxyConfig host port).
End socks4.

(** ** SOCKS5 *)

Definition socks5ReplyError (code : byte) : bytes :=
  match code with
  | Byte.x01 => str "general SOCKS server failure"
  | Byte.x02 => str "connection not allowed by ruleset"
  | Byte.x03 => str "network unreachable"
  | Byte.x04 => str "host unreachable"
  | Byte.x05 => str "connection refused"
  | Byte.x06 => str "TTL expired"
  | Byte.x07 => str "command not supported"
  | Byte.x08 => str "address type not supported"
  | _ => str "unknown error code " ++ Itoa (b2z code)
  end.

(** User name and password, when both are set. *)
Definition credentials (cfg : ProxyConfig) : option (bytes * bytes) :=
  match Username cfg, Password cfg with
  | Some u, Some p => Some (u, p)
  | _, _ => None
  end.

Definition socks5Greeting (cfg : ProxyConfig) : bytes :=
  let methods := Byte.x00 :: match credentials cfg with Some _ => [Byte.x02] | None => [] end in
  [Byte.x05; z2b (zlen methods)] ++ methods.

Definition socks5Auth (u p : bytes) : bytes :=
  [Byte.x01; z2b (zlen u)] ++ u ++ [z2b (zlen p)] ++ p.

Definition socks5Connect (host : bytes) (port : Z) : bytes :=
  [Byte.x05; Byte.x01; Byte.x00; Byte.x03; z2b (zlen host)] ++ host ++ port_bytes port.

(** The user name and password sub-negotiation. *)
Definition socks5Authenticate (cfg : ProxyConfig) : GoM conn unit :=
  match credentials cfg with
  | None => fail (Errorf "socks proxy requested auth but credentials are missing" [])
  | Some (u, p) =>
      write_or_fail (socks5Auth u p) ;;
      do auth <- ReadFull 2;
      if bool_decide (auth = [Byte.x01; Byte.x00]) then ret tt
      else fail (Errorf "socks auth failed" [])
  end.

(** The reply to CONNECT: header, bound address and port. *)
Definition socks5ReadReply : GoM conn unit :=
  do head <- ReadFull 4;
  match head with
  | [ver; rep; rsv; atyp] =>
      if negb (bool_decide (ver = Byte.x05))
      then fail (Errorf "invalid socks response version: %d" [AInt (b2z ver)])
      else if negb (bool_decide (rep = Byte.x00))
      then fail (Errorf "socks connect failed: %s" [AStr (socks5ReplyError rep)])
      else if negb (bool_decide (rsv = Byte.x00))
      then fail (Errorf "invalid socks reserved byte: %d" [AInt (b2z rsv)])
      else
        do skip <-
          match atyp with
          | Byte.x01 => ret 4
          | Byte.x04 => ret 16
          | Byte.x03 =>
              do l <- ReadFull 1;
              match l with
              | b :: _ => ret (b2z b)
              | [] => panic
              end
          | _ => fail (Errorf "unsupported socks address type: %d" [AInt (b2z atyp)])
          end;
        ReadFull (Z.to_nat (skip + 2)) ;;
        ret tt
  | _ => panic
  end.

Definition Socks5Handshake (proxyConfig : option ProxyConfig) (host : bytes) (port : Z)
    : GoM conn unit :=
  match proxyConfig with
  | None => fail (Errorf "nil proxy config" [])
  | Some cfg =>
      let host := TrimSpace host in
      if bool_decide (host = []) then fail (Errorf "empty destination host" [])
      else if 255 <? zlen host then fail (Errorf "host too long" [])
      else if bad_port port then fail (Errorf "invalid destination port: %d" [AInt port])
      else
        (match credentials cfg with
         | Some (u, p) =>
             if 255 <? zlen u then fail (Errorf "socks username too long" [])
             else if 255 <? zlen p then fail (Errorf "socks password too long" [])
             else ret tt
         | None => ret tt
         end) ;;
        write_or_fail (socks5Greeting cfg) ;;
        do resp <- ReadFull 2;
        match resp with
        | [ver; method] =>
            if negb (bool_decide (ver = Byte.x05))
            then fail (Errorf "invalid socks version: %d" [AInt (b2z ver)])
            else if bool_decide (method = Byte.xff) then fail (Errorf "socks method rejected" [])
            else if negb (bool_decide (method = Byte.x00)) && negb (bool_decide (method = Byte.x02))
            then fail (Errorf "unsupported socks auth method selected: %d" [AInt (b2z method)])
            else
              (if bool_decide (method = Byte.x02) then socks5Authenticate cfg else ret tt) ;;
              write_or_fail (socks5Connect host port) ;;
              socks5ReadReply
        | _ => panic
        end
  end.

Definition Socks5HandlerConn (c : option conn) (proxyConfig : option ProxyConfig)
    (host : bytes) (port : Z) : outcome unit * option conn :=
  on_conn c (Socks5Handshake proxyConfig host port).

(** ** Segmentation does not matter *)

Ltac segment_free_tac :=
  repeat match goal with
  | |- segment_free (if _ then _ else _) => apply segment_free_if
  | |- segment_free (bind _ _) => apply segment_free_bind; [|intros ?]
  | |- segment_free (match ?x with _ => _ end) => destruct x
  | |- segment_free _ => auto with go; by intros ???
  end.

Lemma segment_free_panic {A} : segment_free (panic : GoM conn A).
Proof. intros c1 c2 H. done. Qed.
#[export] Hint Resolve segment_free_panic : go.

(** C9: what a SOCKS5 handshake returns and sends, and the byte stream it
    leaves on the connection, do not depend on how the network cuts the
    proxy's answers into reads. *)
Theorem Socks5_segment_free (cfg : option ProxyConfig) (host : bytes) (port : Z) :
  segment_free (Socks5Handshake cfg host port).
Proof.
  unfold Socks5Handshake, socks5Authenticate, socks5ReadReply. cbv zeta. segment_free_tac.
Qed.

Lemma Socks4_segment_free ip (cfg : option ProxyConfig) (host : bytes) (port : Z) :
  segment_free (Socks4Handshake ip cfg host port).
Proof. unfold Socks4Handshake. cbv zeta. segment_free_tac. Qed.

(** ** SOCKS5: which answers are accepted *)

(** The bound address of a reply, as its type announces it. *)
Definition bound_ok (atyp : byte) (bound : bytes) : Prop :=
  (atyp = Byte.x01 /\ length bound = 6%nat) \/
  (atyp = Byte.x04 /\ length bound = 18%nat) \/
  (atyp = Byte.x03 /\ exists l d, bound = l :: d /\ zlen d = b2z l + 2).

(** The answer [inp] of a proxy that accepts, followed by [rest]; [auth] says
    whether the password sub-negotiation took place. *)
Definition socks5Accepts (cfg : ProxyConfig) (inp : bytes) (auth : bool) (rest : bytes) : Prop :=
  exists atyp bound,
    inp = (if auth then [Byte.x05; Byte.x02; Byte.x01; Byte.x00] else [Byte.x05; Byte.x00]) ++
          [Byte.x05; Byte.x00; Byte.x00; atyp] ++ bound ++ rest /\
    bound_ok atyp bound /\ (auth = true -> is_Some (credentials cfg)).

(** What the client sends in a handshake that succeeds. *)
Definition socks5Transcript (cfg : ProxyConfig) (host : bytes) (port : Z) (auth : bool) : bytes :=
  socks5Greeting cfg ++
  (if auth then match credentials cfg with Some (u, p) => socks5Auth u p | None => [] end else []) ++
  socks5Connect host port.

(** The arguments the handler lets through. *)
Definition socks5Args (cfg : ProxyConfig) (host : bytes) (port : Z) : Prop :=
  TrimSpace host <> [] /\ zlen (TrimSpace host) <= 255 /\ 1 <= port <= 65535 /\
  match credentials cfg with Some (u, p) => zlen u <= 255 /\ zlen p <= 255 | None => True end.

Lemma bad_port_spec port : bad_port port = false <-> 1 <= port <= 65535.
Proof.
  unfold bad_port. rewrite orb_false_iff, Z.leb_gt, Z.ltb_ge. lia.
Qed.

(** With good arguments the handshake is the exchange itself. *)
Lemma Socks5Handshake_args cfg host port :
  socks5Args cfg host port ->
  Socks5Handshake (Some cfg) host port =
    (ret tt ;; write_or_fail (socks5Greeting cfg) ;;
     do resp <- ReadFull 2;
     match resp with
     | [ver; method] =>
         if negb (bool_decide (ver = Byte.x05))
         then fail (Errorf "invalid socks version: %d" [AInt (b2z ver)])
         else if bool_decide (method = Byte.xff) then fail (Errorf "socks method rejected" [])
         else if negb (bool_decide (method = Byte.x00)) && negb (bool_decide (method = Byte.x02))
         then fail (Errorf "unsupported socks auth method selected: %d" [AInt (b2z method)])
         else
           (if bool_decide (method = Byte.x02) then socks5Authenticate cfg else ret tt) ;;
           write_or_fail (socks5Connect (TrimSpace host) port) ;;
           socks5ReadReply
     | _ => panic
     end).
Proof.
  intros (Hh & Hl & Hp & Hc). unfold Socks5Handshake. cbv zeta.
  rewrite bool_decide_eq_false_2, (proj2 (Z.ltb_ge 255 _)), (proj2 (bad_port_spec port)) by done.
  destruct (credentials cfg) as [[u p]|]; [|done]. destruct Hc.
  by rewrite !(proj2 (Z.ltb_ge 255 _)) by done.
Qed.

Lemma socks5ReadReply_accept atyp bound rest c sent :
  bound_ok atyp bound ->
  live c ([Byte.x05; Byte.x00; Byte.x00; atyp] ++ bound ++ rest) sent ->
  exists c', socks5ReadReply c = (Ok tt, c') /\ live c' rest sent.
Proof.
  intros Hb Hl. destruct (live_read_app _ _ 4 c sent Hl) as (c1 & E1 & Hl1); [done|].
  unfold socks5ReadReply. rewrite (bind_Ok _ _ _ _ _ E1).
  rewrite !bool_decide_eq_true_2 by done. cbn [negb].
  destruct Hb as [[-> Hn]|[[-> Hn]|[-> (l & d & -> & Hd)]]].
  - destruct (live_read_app _ _ _ c1 sent Hl1 Hn) as (c2 & E2 & Hl2). exists c2.
    unfold bind at 1, ret at 1. change (Z.to_nat (4 + 2)) with 6%nat.
    by rewrite (bind_Ok _ _ _ _ _ E2).
  - destruct (live_read_app _ _ _ c1 sent Hl1 Hn) as (c2 & E2 & Hl2). exists c2.
    unfold bind at 1, ret at 1. change (Z.to_nat (16 + 2)) with 18%nat.
    by rewrite (bind_Ok _ _ _ _ _ E2).
  - destruct (live_read_app [l] (d ++ rest) 1 c1 sent Hl1) as (c2 & E2 & Hl2); [done|].
    rewrite bind_assoc, (bind_Ok _ _ _ _ _ E2). unfold bind at 1, ret at 1.
    destruct (live_read_app d rest (Z.to_nat (b2z l + 2)) c2 sent Hl2) as (c3 & E3 & Hl3).
    { unfold zlen in Hd. pose proof (b2z_range l). lia. }
    exists c3. by rewrite (bind_Ok _ _ _ _ _ E3).
Qed.

Lemma socks5ReadReply_inv c inp sent c' :
  live c inp sent -> socks5ReadReply c = (Ok tt, c') ->
  exists atyp bound rest, inp = [Byte.x05; Byte.x00; Byte.x00; atyp] ++ bound ++ rest /\
    bound_ok atyp bound /\ live c' rest sent.
Proof.
  intros Hl H. unfold socks5ReadReply in H. apply bind_inv_Ok in H as (head & c1 & E1 & H).
  destruct (live_read_inv _ _ _ _ _ _ Hl E1) as (Hn & r1 & -> & Hl1).
  destruct head as [|ver [|rep [|rsv [|atyp [|]]]]]; try done.
  do 3 (case_bool_decide; [|done]; cbn [negb] in H). subst.
  apply bind_inv_Ok in H as (skip & c2 & E2 & H).
  apply bind_inv_Ok in H as (b & c3 & E3 & H). unfold ret in H. simplify_eq.
  assert (forall n, ret n c1 = (Ok skip, c2) -> skip = n /\ c2 = c1) as Hret by (by intros ? [=]).
  assert (atyp = Byte.x01 \/ atyp = Byte.x04 \/ atyp = Byte.x03) as Ha by (destruct atyp; auto; done).
  destruct Ha as [->|[->| ->]].
  - apply Hret in E2 as [-> ->].
    destruct (live_read_inv _ _ _ _ _ _ Hl1 E3) as (Hb & r2 & -> & Hl2).
    exists Byte.x01, b, r2. split_and!; [done| |done]. by left.
  - apply Hret in E2 as [-> ->].
    destruct (live_read_inv _ _ _ _ _ _ Hl1 E3) as (Hb & r2 & -> & Hl2).
    exists Byte.x04, b, r2. split_and!; [done| |done]. right. by left.
  - apply bind_inv_Ok in E2 as (l & c4 & E4 & E2).
    destruct (live_read_inv _ _ _ _ _ _ Hl1 E4) as (Hl4 & r4 & -> & Hlive4).
    destruct l as [|l0 [|]]; try done. unfold ret in E2. simplify_eq.
    destruct (live_read_inv _ _ _ _ _ _ Hlive4 E3) as (Hb & r2 & -> & Hl2).
    exists Byte.x03, (l0 :: b), r2. split_and!; [done| |done]. right. right. split; [done|].
    exists l0, b. split; [done|]. unfold zlen. pose proof (b2z_range l0). lia.
Qed.

Lemma socks5_complete cfg host port c inp sent auth rest :
  socks5Args cfg host port -> live c inp sent -> socks5Accepts cfg inp auth rest ->
  exists c', Socks5Handshake (Some cfg) host port c = (Ok tt, c') /\
    live c' rest (sent ++ socks5Transcript cfg (TrimSpace host) port auth).
Proof.
  intros Hargs Hl (atyp & bound & -> & Hb & Hauth).
  rewrite Socks5Handshake_args by done. unfold bind at 1, ret at 1.
  destruct (live_write (socks5Greeting cfg) _ _ _ Hl) as (c1 & E1 & Hl1).
  rewrite (bind_Ok _ _ _ _ _ E1). unfold socks5Transcript. destruct auth; cbn [app] in Hl1.
  - destruct (live_read_app [Byte.x05; Byte.x02] _ 2 _ _ Hl1) as (c2 & E2 & Hl2); [done|].
    rewrite (bind_Ok _ _ _ _ _ E2). decide_consts.
    unfold socks5Authenticate. destruct (Hauth eq_refl) as [[u p] ->].
    destruct (live_write (socks5Auth u p) _ _ _ Hl2) as (c3 & E3 & Hl3).
    destruct (live_read_app [Byte.x01; Byte.x00] _ 2 _ _ Hl3) as (c4 & E4 & Hl4); [done|].
    destruct (live_write (socks5Connect (TrimSpace host) port) _ _ _ Hl4) as (c5 & E5 & Hl5).
    rewrite bind_assoc, (bind_Ok _ _ _ _ _ E3), bind_assoc, (bind_Ok _ _ _ _ _ E4).
    rewrite bool_decide_eq_true_2 by done. unfold bind at 1, ret at 1.
    rewrite (bind_Ok _ _ _ _ _ E5). rewrite <- !app_assoc in Hl5.
    by apply (socks5ReadReply_accept atyp bound rest).
  - destruct (live_read_app [Byte.x05; Byte.x00] _ 2 _ _ Hl1) as (c2 & E2 & Hl2); [done|].
    rewrite (bind_Ok _ _ _ _ _ E2). decide_consts.
    unfold bind at 1, ret at 1.
    destruct (live_write (socks5Connect (TrimSpace host) port) _ _ _ Hl2) as (c5 & E5 & Hl5).
    rewrite (bind_Ok _ _ _ _ _ E5). rewrite <- !app_assoc in Hl5.
    by apply (socks5ReadReply_accept atyp bound rest).
Qed.

(** A write on a live connection succeeds and only adds to what was sent. *)
Lemma live_write_inv b c inp sent c' :
  live c inp sent -> write_or_fail b c = (Ok tt, c') -> live c' inp (sent ++ b).
Proof.
  intros Hl E. destruct (live_write b _ _ _ Hl) as (c2 & E2 & Hl2). congruence.
Qed.

Lemma socks5_sound cfg host port c inp sent c' :
  socks5Args cfg host port -> live c inp sent ->
  Socks5Handshake (Some cfg) host port c = (Ok tt, c') ->
  exists auth rest, socks5Accepts cfg inp auth rest /\
    live c' rest (sent ++ socks5Transcript cfg (TrimSpace host) port auth).
Proof.
  intros Hargs Hl H. rewrite Socks5Handshake_args in H by done.
  apply bind_inv_Ok in H as (? & ? & [= <- <-] & H).
  apply bind_inv_Ok in H as ([] & c1 & E1 & H). apply (live_write_inv _ _ _ _ _ Hl) in E1 as Hl1.
  apply bind_inv_Ok in H as (resp & c2 & E2 & H).
  destruct (live_read_inv _ _ _ _ _ _ Hl1 E2) as (Hn & r1 & -> & Hl2).
  destruct resp as [|ver [|method [|]]]; try done.
  case_bool_decide as Hv; [|done]. cbn [negb] in H. subst ver.
  case_bool_decide; [done|].
  destruct (negb (bool_decide (method = Byte.x00)) && negb (bool_decide (method = Byte.x02))) eqn:Em; [done|].
  apply bind_inv_Ok in H as ([] & c3 & E3 & H).
  apply bind_inv_Ok in H as ([] & c4 & E4 & H). case_bool_decide as Hm.
  - subst method. unfold socks5Authenticate in E3.
    destruct (credentials cfg) as [[u p]|] eqn:Ec; [|done].
    apply bind_inv_Ok in E3 as ([] & c5 & E5 & E3). apply (live_write_inv _ _ _ _ _ Hl2) in E5 as Hl5.
    apply bind_inv_Ok in E3 as (auth & c6 & E6 & E3).
    destruct (live_read_inv _ _ _ _ _ _ Hl5 E6) as (_ & r2 & -> & Hl6).
    case_bool_decide; [|done]. unfold ret in E3. simplify_eq.
    apply (live_write_inv _ _ _ _ _ Hl6) in E4 as Hl4.
    destruct (socks5ReadReply_inv _ _ _ _ Hl4 H) as (atyp & bound & rest & -> & Hb & Hl').
    exists true, rest. split.
    + exists atyp, bound. split_and!; [done|done|]. by rewrite Ec.
    + unfold socks5Transcript. rewrite Ec. by rewrite <- !app_assoc in Hl'.
  - unfold ret in E3. simplify_eq.
    assert (method = Byte.x00) as -> by (by case_bool_decide).
    apply (live_write_inv _ _ _ _ _ Hl2) in E4 as Hl4.
    destruct (socks5ReadReply_inv _ _ _ _ Hl4 H) as (atyp & bound & rest & -> & Hb & Hl').
    exists false, rest. split.
    + exists atyp, bound. by split_and!.
    + unfold socks5Transcript. by rewrite <- !app_assoc in Hl'.
Qed.

(** C8: with valid arguments and a proxy that sends [inp], the SOCKS5
    handshake succeeds exactly when [inp] starts with an accepting answer;
    it then has sent the greeting, the credentials if and only if the proxy
    asked for them, and the CONNECT request, and has consumed exactly the
    answer, so the bytes of the tunnel are still to be read. *)
Theorem Socks5_handshake_correct (cfg : ProxyConfig) (host : bytes) (port : Z) (c : conn) (inp sent : bytes)
    (Hargs : socks5Args cfg host port) (Hlive : live c inp sent) :
  (forall auth rest, socks5Accepts cfg inp auth rest ->
    exists c', Socks5Handshake (Some cfg) host port c = (Ok tt, c') /\
      live c' rest (sent ++ socks5Transcript cfg (TrimSpace host) port auth)) /\
  (forall c', Socks5Handshake (Some cfg) host port c = (Ok tt, c') ->
    exists auth rest, socks5Accepts cfg inp auth rest /\
      live c' rest (sent ++ socks5Transcript cfg (TrimSpace host) port auth)).
Proof.
  split.
  - intros auth rest H. by eapply socks5_complete.
  - intros c' H. by eapply socks5_sound.
Qed.

Definition demo_cfg : ProxyConfig :=
  mkProxyConfig ProxyTypeSOCKS5 (str "proxy") 1080 (Some (str "bob")) (Some (str "pw")).

Definition demo_conn (inp : bytes) : conn := mkConn [mkRd inp None] [] [] None None false false.

Lemma Socks5_handshake_correct_witness :
  let reply := [Byte.x05; Byte.x02; Byte.x01; Byte.x00; Byte.x05; Byte.x00; Byte.x00; Byte.x01;
                Byte.x7f; Byte.x00; Byte.x00; Byte.x01; Byte.x04; Byte.x38] in
  exists c', Socks5Handshake (Some demo_cfg) (str "example.com") 443 (demo_conn (reply ++ str "GET")) = (Ok tt, c')
    /\ live c' (str "GET") ([] ++ socks5Transcript demo_cfg (TrimSpace (str "example.com")) 443 true).
Proof.
  apply (proj1 (Socks5_handshake_correct demo_cfg (str "example.com") 443 (demo_conn _) _ []
    ltac:(vm_compute; repeat split; congruence) ltac:(repeat split; repeat constructor; simpl; rewrite app_nil_r; reflexivity))).
  exists Byte.x01, [Byte.x7f; Byte.x00; Byte.x00; Byte.x01; Byte.x04; Byte.x38].
  split; [reflexivity|]. split; [left; split; reflexivity|]. intros _. eexists. reflexivity.
Defined.

(** ** Handshakes return *)

Lemma returns_Socks4Handshake ip cfg host port : returns (Socks4Handshake ip cfg host port).
Proof. unfold Socks4Handshake. cbv zeta. returns_tac. Qed.

Lemma returns_Socks5Handshake cfg host port : returns (Socks5Handshake cfg host port).
Proof. unfold Socks5Handshake, socks5Authenticate, socks5ReadReply. cbv zeta. returns_tac. Qed.

(** Whatever the proxy answers and however the connection fails, neither
    SOCKS handler panics: it returns nil or an error. *)
Theorem Socks_handlers_return (ip : bytes -> option bytes) (c : option conn)
    (cfg : option ProxyConfig) (host : bytes) (port : Z) :
  returned (fst (Socks4HandlerConn ip c cfg host port)) /\
  returned (fst (Socks5HandlerConn c cfg host port)).
Proof.
  unfold Socks4HandlerConn, Socks5HandlerConn, on_conn. destruct c as [c|]; [|done].
  pose proof (returns_Socks4Handshake ip cfg host port c) as H4.
  pose proof (returns_Socks5Handshake cfg host port c) as H5.
  by destruct (Socks4Handshake ip cfg host port c), (Socks5Handshake cfg host port c).
Qed.
