(* ===== verification/HttpConnect.v ===== *)
(** * HttpConnect: tunnels through HTTP and HTTPS proxies

    Models [network/handler/http_handler.go] and [https_handler.go].  The
    handlers return a connection: the one they were given, or one that first
    hands out the bytes that arrived behind the response header.  The TLS
    handshake with an HTTPS proxy is a parameter. *)

From S2P Require Import Prelude Bytes GoStrings NetAddr Conn Proxy Socks Bufio Encoding.

Local Open Scope Z_scope.

Definition httpUserAgent : bytes := str "DesKaOne/0.0.1".
Definition maxHTTPHeaderSize : Z := 32 * 1024.

(** ** [preReadConn] *)

(** [pre] is [None] when the reader is nil. *)
Record preReadConn := mkPre { p_conn : conn; p_pre : option bytes }.

Definition pre_Read (cap : nat) : GoM preReadConn (bytes * option error) := fun c =>
  match p_pre c with
  | Some ((_ :: _) as pre) =>
      let left := drop cap pre in
      (Ok (take cap pre, None), mkPre (p_conn c) (match left with [] => None | _ => Some left end))
  | _ => let '(r, k) := conn_Read cap (p_conn c) in (r, mkPre k (p_pre c))
  end.

(** The same tunnel as one connection: the leftover is its next event. *)
Definition as_conn (c : preReadConn) : conn :=
  match p_pre c with
  | Some ((_ :: _) as pre) => set_in (mkRd pre None :: c_in (p_conn c)) (p_conn c)
  | _ => p_conn c
  end.

(** ** The response header *)

Definition CRLF : bytes := [Byte.x0d; Byte.x0a].
Definition delimiter : bytes := CRLF ++ CRLF.

(** The loop of [readHeaders] after [buf] has been collected. *)
Fixpoint read_header_loop (fuel : nat) (timeout : Z) (buf : bytes) : GoM conn (bytes * bytes) :=
  match fuel with
  | O => fun c => (Diverge, c)
  | S fuel =>
      (if 0 <? timeout then SetReadDeadline (Some timeout) else ret tt) ;;
      do '(d, err) <- conn_Read 1024;
      let buf := buf ++ d in
      if (0 <? zlen d) && (maxHTTPHeaderSize <? zlen buf)
      then fail (Errorf "HTTP CONNECT response header too large" [])
      else
        match (match d with [] => None | _ => Index buf delimiter end), err with
        | Some idx, _ => ret (take (idx + length delimiter) buf, drop (idx + length delimiter) buf)
        | None, Some (NetError true _) => fail (Errorf "HTTP CONNECT header read timed out" [])
        | None, Some e => fail e
        | None, None => read_header_loop fuel timeout buf
        end
  end.

(** Every read takes an event or a byte of the script. *)
Definition header_fuel (c : conn) : nat := S (length (c_in c) + length (flat (c_in c))).

Definition readHeaders (timeout : Z) : GoM conn (bytes * bytes) :=
  do c <- get; read_header_loop (header_fuel c) timeout [].

Definition parseStatusCode (headers : bytes) : Z :=
  let lineEnd := default (length headers) (Index headers CRLF) in
  match Fields (take lineEnd headers) with
  | _ :: p :: _ => default (-1) (Atoi p)
  | _ => -1
  end.

Section text.
Context `{Unicode}.

Fixpoint find_header (lines : list bytes) (name : bytes) : bytes :=
  match lines with
  | [] => []
  | line :: lines =>
      match Index line (str ":") with
      | Some (S i) =>
          if EqualFold (TrimSpace (take (S i) line)) name then TrimSpace (drop (S (S i)) line)
          else find_header lines name
      | _ => find_header lines name
      end
  end.
Definition findHeader (headers name : bytes) : bytes := find_header (Split headers CRLF) name.

Definition redact_line (line : bytes) : bytes :=
  let l1 := if HasPrefix (ToLower line) (str "proxy-authorization:")
            then str "Proxy-Authorization: [redacted]" else line in
  if HasPrefix (ToLower line) (str "authorization:") then str "Authorization: [redacted]" else l1.

Definition sanitizeHeaderForError (headers : bytes) : bytes :=
  let msg := if 1024 <? zlen headers then take 1024 headers ++ str "...[truncated]" else headers in
  TrimSpace (Join (redact_line <$> Split msg CRLF) CRLF).

(** ** The CONNECT request *)

Definition connect_request (cfg : ProxyConfig) (targetAddr : bytes) : bytes :=
  str "CONNECT " ++ targetAddr ++ str " HTTP/1.1" ++ CRLF ++
  str "Host: " ++ targetAddr ++ CRLF ++
  str "User-Agent: " ++ httpUserAgent ++ CRLF ++
  str "Proxy-Connection: Keep-Alive" ++ CRLF ++
  match credentials cfg with
  | Some (u, p) => str "Proxy-Authorization: Basic " ++ base64 (u ++ str ":" ++ p) ++ CRLF
  | None => []
  end ++ CRLF.

(** The handler on a connection; the result is the leftover of the tunnel. *)
Definition HttpHandshake (proxyConfig : option ProxyConfig) (dstHost : bytes) (dstPort timeout : Z)
    : GoM conn bytes :=
  match proxyConfig with
  | None => fail (Errorf "nil proxy config" [])
  | Some cfg =>
      if blank dstHost then fail (Errorf "empty destination host" [])
      else if bad_port dstPort then fail (Errorf "invalid destination port: %d" [AInt dstPort])
      else
        let targetAddr := JoinHostPort dstHost (Itoa dstPort) in
        (if 0 <? timeout then SetWriteDeadline (Some timeout) else ret tt) ;;
        catch (write_or_fail (connect_request cfg targetAddr))
          (fun err => SetWriteDeadline None ;; fail err) ;;
        SetWriteDeadline None ;;
        do '(headers, leftover) <- catch (readHeaders timeout)
          (fun err => SetReadDeadline None ;; fail err);
        SetReadDeadline None ;;
        let code := parseStatusCode headers in
        if negb (code =? 200) then
          let authHdr := findHeader headers (str "Proxy-Authenticate") in
          let msg := sanitizeHeaderForError headers in
          if bool_decide (authHdr = [])
          then fail (Errorf "proxy refused CONNECT: status=%d response=%q" [AInt code; AQuote msg])
          else fail (Errorf "proxy refused CONNECT: status=%d authenticate=%q response=%q"
                       [AInt code; AQuote authHdr; AQuote msg])
        else ret leftover
  end.

(** The returned connection: wrapped when there is a leftover. *)
Definition tunnel (r : outcome bytes * conn) : outcome preReadConn * conn :=
  match r with
  | (Ok leftover, c) =>
      (Ok (mkPre c (match leftover with [] => None | _ => Some leftover end)), c)
  | (Err e, c) => (Err e, c)
  | (Panic, c) => (Panic, c)
  | (Diverge, c) => (Diverge, c)
  end.

(** The second component is what becomes of the connection passed in. *)
Definition HttpHandlerConn (c : option conn) (proxyConfig : option ProxyConfig)
    (dstHost : bytes) (dstPort timeout : Z) : outcome preReadConn * option conn :=
  match c with
  | None => (Err (Errorf "nil connection" []), None)
  | Some c =>
      let '(r, c') := tunnel (HttpHandshake proxyConfig dstHost dstPort timeout c) in (r, Some c')
  end.

(** ** HTTPS proxies *)

(** A TLS configuration: server name, minimum version, verification switch. *)
Record tlsConfig := mkTLS { ServerName : bytes; MinVersion : Z; InsecureSkipVerify : bool }.
Definition VersionTLS12 : Z := 771.

(** [tls.Client(conn, cfg)] and its [Handshake]: on success the encrypted
    connection, as the plain text it carries; and the raw one. *)
Context (tls_Handshake : tlsConfig -> conn -> (conn + error) * conn).

Definition https_config (tlsConf : option tlsConfig) (proxyHost : bytes) : tlsConfig :=
  let cfg := default (mkTLS [] 0 false) tlsConf in
  mkTLS (if bool_decide (ServerName cfg = []) then proxyHost else ServerName cfg)
        (if MinVersion cfg =? 0 then VersionTLS12 else MinVersion cfg)
        (InsecureSkipVerify cfg).

Definition httpsHandlerConnWithTLSConfig (c : option conn) (proxyConfig : option ProxyConfig)
    (dstHost : bytes) (dstPort timeout : Z) (tlsConf : option tlsConfig)
    : outcome preReadConn * option conn :=
  match c, proxyConfig with
  | None, _ => (Err (Errorf "nil connection" []), None)
  | Some c, None => (Err (Errorf "nil proxy config" []), Some c)
  | Some c, Some cfg =>
      let proxyHost := TrimSpace (Host cfg) in
      if bool_decide (proxyHost = []) then (Err (Errorf "empty proxy host" []), Some c)
      else if blank dstHost then (Err (Errorf "empty destination host" []), Some c)
      else if bad_port dstPort
      then (Err (Errorf "invalid destination port: %d" [AInt dstPort]), Some c)
      else
        let c := if 0 <? timeout then snd (SetDeadline (Some timeout) c) else c in
        match tls_Handshake (https_config tlsConf proxyHost) c with
        | (inl tc, c') =>
            let tc := snd (SetDeadline None tc) in
            let c' := snd (SetDeadline None c') in
            match tunnel (HttpHandshake (Some cfg) dstHost dstPort timeout tc) with
            | (Err e, _) => (Err (Wrapf "HTTPS proxy CONNECT: %w" [] e), Some c')
            | (r, _) => (r, Some c')
            end
        | (inr e, c') =>
            (Err (Wrapf "HTTPS proxy TLS handshake: %w" [] e), Some (snd (SetDeadline None c')))
        end
  end.

Definition HttpsHandlerConn (c : option conn) (proxyConfig : option ProxyConfig)
    (dstHost : bytes) (dstPort timeout : Z) : outcome preReadConn * option conn :=
  httpsHandlerConnWithTLSConfig c proxyConfig dstHost dstPort timeout None.
End text.

(** ** The wrapped connection *)

(** While the connection is open, reading the wrapper is reading one
    stream: the leftover first, then the connection, with the same results for
    every buffer size. *)
Theorem preReadConn_refines (cap : nat) (c : preReadConn) (Hopen : c_closed (p_conn c) = false) :
  fst (pre_Read cap c) = fst (conn_Read cap (as_conn c)) /\
  as_conn (snd (pre_Read cap c)) = snd (conn_Read cap (as_conn c)).
Proof.
  destruct c as [k [[|b pre]|]]; unfold pre_Read, as_conn; cbn [p_pre p_conn] in *.
  - by destruct (conn_Read cap k).
  - unfold conn_Read. cbn [c_closed set_in c_in]. rewrite Hopen. cbn [read_event rd_data rd_err].
    destruct (length (b :: pre) <=? cap)%nat eqn:E.
    + apply Nat.leb_le in E. rewrite drop_ge, take_ge by done. cbn [fst snd p_pre p_conn].
      split; [done|]. by destruct k.
    + apply Nat.leb_gt in E. cbn [fst snd p_pre p_conn]. split; [done|].
      destruct (drop cap (b :: pre)) eqn:Ed; [|done].
      apply (f_equal length) in Ed. rewrite length_drop in Ed. simpl in *. lia.
  - by destruct (conn_Read cap k).
Qed.

Lemma preReadConn_refines_witness :
  let c := mkPre (mkConn [mkRd (str "later") None] [] [] None None false false) (Some (str "first")) in
  fst (pre_Read 3 c) = fst (conn_Read 3 (as_conn c)) /\
  as_conn (snd (pre_Read 3 c)) = snd (conn_Read 3 (as_conn c)).
Proof. intros c. by apply (preReadConn_refines 3 c). Defined.

(** ** Finding the end of the header *)

Lemma HasPrefix_take_drop s sub j n :
  (j + length sub <= n)%nat -> HasPrefix (drop j (take n s)) sub = HasPrefix (drop j s) sub.
Proof.
  intros Hn. unfold HasPrefix. rewrite skipn_firstn_comm, take_take.
  by rewrite Nat.min_l by lia.
Qed.

Lemma Index_intro s sub i :
  (i <= length s)%nat -> HasPrefix (drop i s) sub = true ->
  (forall j, (j < i)%nat -> HasPrefix (drop j s) sub = false) -> Index s sub = Some i.
Proof.
  intros Hi Hp Hno. destruct (Index s sub) as [k|] eqn:E.
  - apply Index_Some in E as (Hk & _ & Hnk). f_equal.
    destruct (Nat.lt_trichotomy k i) as [H|[H|H]]; [|done|].
    + rewrite Hno in Hk by done. done.
    + rewrite Hnk in Hp by done. done.
  - by rewrite (Index_None _ _ i E) in Hp.
Qed.

(** In a prefix of the stream the delimiter is found as soon as it is there. *)
Lemma Index_take s sub i n :
  Index s sub = Some i -> (n <= length s)%nat ->
  Index (take n s) sub = if (i + length sub <=? n)%nat then Some i else None.
Proof.
  intros Hi Hn. apply Index_Some in Hi as (Hp & Hl & Hno). case_if.
  - apply Nat.leb_le in Heqb. apply Index_intro.
    + rewrite length_take. lia.
    + by rewrite HasPrefix_take_drop.
    + intros j Hj. rewrite HasPrefix_take_drop by lia. auto.
  - apply Nat.leb_gt in Heqb. destruct (Index (take n s) sub) as [k|] eqn:E; [|done].
    apply Index_Some in E as (Hk & Hkl & _). rewrite length_take in Hkl.
    rewrite HasPrefix_take_drop in Hk by lia.
    destruct (decide (k < i)%nat); [by rewrite Hno in Hk|lia].
Qed.

Lemma wside_deadline c c' d : SetReadDeadline d c = (Ok tt, c') ->
  c_in c' = c_in c /\ c_sent c' = c_sent c /\ c_wr c' = c_wr c /\ c_closed c' = c_closed c /\ c_wdl c' = c_wdl c.
Proof. by intros [= <-]. Qed.

(** A connection that is open, error-free and accepts writes. *)
Definition ready (c : conn) (inp sent : bytes) : Prop :=
  c_closed c = false /\ c_wr c = [] /\ wellcut (c_in c) /\ flat (c_in c) = inp /\ c_sent c = sent.

Lemma read_header_loop_ready fuel timeout c inp sent i n :
  Index inp delimiter = Some i -> Z.of_nat i + 1027 <= maxHTTPHeaderSize ->
  (n < i + 4)%nat -> ready c (drop n inp) sent -> (length (drop n inp) < fuel)%nat ->
  exists c' leftover, read_header_loop fuel timeout (take n inp) c =
      (Ok (take (i + 4) inp, leftover), c') /\ c_wdl c' = c_wdl c /\
    exists more, leftover ++ more = drop (i + 4) inp /\ ready c' more sent.
Proof.
  intros Hi Hmax. pose proof (Index_Some _ _ _ Hi) as (_ & Hlen & _). change (length delimiter) with 4%nat in Hlen.
  revert c n. induction fuel as [|fuel IH]; intros c n Hn (Hc & Hw & Hl & Hf & Hs) Hfuel; [lia|].
  cbn [read_header_loop].
  assert (exists c1, (if 0 <? timeout then SetReadDeadline (Some timeout) else ret tt) c = (Ok tt, c1) /\
    c_in c1 = c_in c /\ c_sent c1 = c_sent c /\ c_wr c1 = c_wr c /\ c_closed c1 = c_closed c /\ c_wdl c1 = c_wdl c)
    as (c1 & E1 & Hi1 & Hs1 & Hw1 & Hc1 & Hd1).
  { destruct (0 <? timeout); by eexists. }
  rewrite (bind_Ok _ _ _ _ _ E1).
  destruct (conn_Read_wellcut 1024 c1) as (d & e & c2 & E2 & Hws & Hl2 & Hf2 & Hd & Hcase); [lia|congruence|congruence|].
  rewrite Hi1, Hf in *. destruct Hcase as [[-> Hdn]|(_ & _ & Hz)].
  2: { apply (f_equal length) in Hz. rewrite length_drop in Hz. simpl in Hz. lia. }
  assert (0 < length d)%nat as Hd0 by (destruct d; [done|simpl; lia]).
  assert (length d <= length inp - n)%nat as Hdl by (rewrite <- length_drop, Hf2, length_app; lia).
  assert (take n inp ++ d = take (n + length d) inp) as Hbuf.
  { rewrite <- (take_take_drop inp n (length d)), Hf2. by rewrite take_app_length. }
  assert (flat (c_in c2) = drop (n + length d) inp) as Hf3.
  { rewrite <- drop_drop, Hf2. by rewrite drop_app_length. }
  assert (ready c2 (drop (n + length d) inp) sent) as Hr2.
  { injection Hws as ? ? ? ? ?. repeat split; try done; congruence. }
  rewrite (bind_Ok _ _ _ _ _ E2). cbv beta iota zeta. rewrite Hbuf.
  replace ((0 <? zlen d) && (maxHTTPHeaderSize <? zlen (take (n + length d) inp))) with false.
  2: { symmetry. apply andb_false_iff. right. apply Z.ltb_ge. unfold zlen. rewrite length_take.
       unfold maxHTTPHeaderSize in *. lia. }
  destruct d as [|b d]; [done|]. cbv beta iota.
  rewrite (Index_take inp delimiter i) by (done || lia). change (length delimiter) with 4%nat.
  destruct (i + 4 <=? n + length (b :: d))%nat eqn:E.
  - apply Nat.leb_le in E. eexists _, _. split; [|split].
    + unfold ret. rewrite take_take, Nat.min_l by lia. reflexivity.
    + injection Hws as ? ? ? ? ?. congruence.
    + exists (drop (n + length (b :: d)) inp). split; [|done].
      rewrite skipn_firstn_comm.
      rewrite <- (take_drop (n + length (b :: d) - (i + 4)) (drop (i + 4) inp)) at 2.
      rewrite drop_drop. do 2 f_equal. lia.
  - apply Nat.leb_gt in E.
    destruct (IH c2 (n + length (b :: d))%nat) as (c3 & lo & E3 & Hd3 & H3); [lia|done|rewrite !length_drop in *; lia|].
    exists c3, lo. split; [done|]. split; [|done]. injection Hws as ? ? ? ? ?. congruence.
Qed.

(** ** Tunnels *)

Section tunnels.
Context `{Unicode}.

Definition connect_args (dstHost : bytes) (dstPort : Z) : Prop :=
  blank dstHost = false /\ 0 < dstPort <= 65535.

(** After the request has been written on a ready connection. *)
Lemma HttpHandshake_ready cfg dstHost dstPort timeout c inp sent i :
  connect_args dstHost dstPort -> ready c inp sent ->
  Index inp delimiter = Some i -> Z.of_nat i + 1027 <= maxHTTPHeaderSize ->
  exists c' leftover more,
    leftover ++ more = drop (i + 4) inp /\
    ready c' more (sent ++ connect_request cfg (JoinHostPort dstHost (Itoa dstPort))) /\
    c_rdl c' = None /\ c_wdl c' = None /\
    HttpHandshake (Some cfg) dstHost dstPort timeout c =
      (let headers := take (i + 4) inp in
       if parseStatusCode headers =? 200 then Ok leftover
       else Err (if bool_decide (findHeader headers (str "Proxy-Authenticate") = [])
                 then Errorf "proxy refused CONNECT: status=%d response=%q"
                        [AInt (parseStatusCode headers); AQuote (sanitizeHeaderForError headers)]
                 else Errorf "proxy refused CONNECT: status=%d authenticate=%q response=%q"
                        [AInt (parseStatusCode headers); AQuote (findHeader headers (str "Proxy-Authenticate"));
                         AQuote (sanitizeHeaderForError headers)]), c').
Proof.
  intros [Hhost Hport] (Hc & Hw & Hl & Hf & Hs) Hi Hmax.
  unfold HttpHandshake. rewrite Hhost. unfold bad_port.
  rewrite (proj2 (Z.leb_gt dstPort 0)), (proj2 (Z.ltb_ge 65535 dstPort)) by lia. cbn [orb].
  set (req := connect_request cfg _).
  assert (exists c1, (if 0 <? timeout then SetWriteDeadline (Some timeout) else ret tt) c = (Ok tt, c1) /\
    ready c1 inp sent) as (c1 & E1 & Hc1 & Hw1 & Hl1 & Hf1 & Hs1).
  { destruct (0 <? timeout); eexists; (split; [reflexivity|]); by repeat split. }
  rewrite (bind_Ok _ _ _ _ _ E1).
  assert (catch (write_or_fail req) (fun err => SetWriteDeadline None ;; fail err) c1 = (Ok tt, add_sent req c1)) as E2.
  { unfold catch, write_or_fail, conn_Write, bind. by rewrite Hc1, Hw1. }
  rewrite (bind_Ok _ _ _ _ _ E2).
  set (c3 := snd (SetWriteDeadline None (add_sent req c1))).
  assert (SetWriteDeadline None (add_sent req c1) = (Ok tt, c3)) as E3 by done.
  rewrite (bind_Ok _ _ _ _ _ E3).
  destruct (read_header_loop_ready (header_fuel c3) timeout c3 inp (sent ++ req) i 0) as (c4 & lo & E4 & Hd4 & more & Hm & Hr4).
  { done. }
  { done. }
  { lia. }
  { rewrite drop_0. repeat split; try done. unfold c3. cbn. by rewrite Hs1. }
  { rewrite drop_0. unfold header_fuel. change (c_in c3) with (c_in c1). rewrite Hf1. lia. }
  assert (catch (readHeaders timeout) (fun err => SetReadDeadline None ;; fail err) c3
    = (Ok (take (i + 4) inp, lo), c4)) as E5.
  { unfold catch, readHeaders, get, bind. rewrite take_0 in E4. by rewrite E4. }
  rewrite (bind_Ok _ _ _ _ _ E5). cbv beta iota zeta.
  assert (SetReadDeadline None c4 = (Ok tt, snd (SetReadDeadline None c4))) as E6 by done.
  rewrite (bind_Ok _ _ _ _ _ E6).
  exists (snd (SetReadDeadline None c4)), lo, more. split; [done|]. split; [|split; [|split]].
  4: { destruct (parseStatusCode (take (i + 4) inp) =? 200); cbn [negb]; [reflexivity|].
       by case_bool_decide. }
  - destruct Hr4 as (? & ? & ? & ? & ?). by repeat split.
  - done.
  - exact Hd4.
Qed.

Lemma HttpHandlerConn_spec (cfg : ProxyConfig) (dstHost : bytes) (dstPort timeout : Z)
    (c : conn) (inp sent : bytes) (i : nat)
    (Hargs : connect_args dstHost dstPort) (Hready : ready c inp sent)
    (Hend : Index inp delimiter = Some i) (Hmax : Z.of_nat i + 1027 <= maxHTTPHeaderSize) :
  let headers := take (i + 4) inp in
  if parseStatusCode headers =? 200 then
    exists t c', HttpHandlerConn (Some c) (Some cfg) dstHost dstPort timeout = (Ok t, Some c') /\
      ready (as_conn t) (drop (i + 4) inp)
        (sent ++ connect_request cfg (JoinHostPort dstHost (Itoa dstPort))) /\
      c_rdl (as_conn t) = None /\ c_wdl (as_conn t) = None
  else exists f args c', HttpHandlerConn (Some c) (Some cfg) dstHost dstPort timeout =
      (Err (Errorf f (AInt (parseStatusCode headers) :: args)), Some c').
Proof.
  intros headers.
  destruct (HttpHandshake_ready cfg dstHost dstPort timeout c inp sent i Hargs Hready Hend Hmax)
    as (c' & lo & more & Hm & Hr & Hrd & Hwd & E).
  unfold HttpHandlerConn, tunnel. rewrite E. cbv zeta. fold headers.
  destruct (parseStatusCode headers =? 200).
  - eexists _, _. split; [reflexivity|]. destruct Hr as (? & ? & ? & Hf & ?). unfold as_conn.
    destruct lo as [|b lo]; cbn [p_pre p_conn].
    + cbn in Hm. subst more. split; [|done]. by repeat split.
    + split; [|done]. repeat split; try done.
      * constructor; [done|done].
      * cbn [c_in set_in]. by rewrite flat_cons, Hf.
  - destruct (bool_decide _); by eexists _, _, _.
Qed.

(** C17: when the proxy's answer starts with a header block below the limit
    whose status is 200, the handler returns a tunnel from which exactly the
    bytes after that block can be read, however the network cut the answer; it
    has sent exactly the CONNECT request and cleared the deadlines.  Any other
    status is an error. *)
Theorem HttpHandlerConn_correct (cfg : ProxyConfig) (dstHost : bytes) (dstPort timeout : Z)
    (c : conn) (inp sent : bytes) (i : nat)
    (Hargs : connect_args dstHost dstPort) (Hready : ready c inp sent)
    (Hend : Index inp delimiter = Some i) (Hmax : Z.of_nat i + 1027 <= maxHTTPHeaderSize) :
  let headers := take (i + 4) inp in
  if parseStatusCode headers =? 200 then
    exists t c', HttpHandlerConn (Some c) (Some cfg) dstHost dstPort timeout = (Ok t, Some c') /\
      ready (as_conn t) (drop (i + 4) inp)
        (sent ++ connect_request cfg (JoinHostPort dstHost (Itoa dstPort))) /\
      c_rdl (as_conn t) = None /\ c_wdl (as_conn t) = None
  else exists f args c', HttpHandlerConn (Some c) (Some cfg) dstHost dstPort timeout =
      (Err (Errorf f (AInt (parseStatusCode headers) :: args)), Some c').
Proof. by apply HttpHandlerConn_spec. Qed.

Lemma returns_HttpHandshake cfg dstHost dstPort timeout : returns (HttpHandshake cfg dstHost dstPort timeout).
Proof.
  assert (forall fuel buf c, (length (c_in c) + length (flat (c_in c)) < fuel)%nat ->
    returned (fst (read_header_loop fuel timeout buf c))) as Hloop.
  { clear. induction fuel as [|fuel IH]; intros buf c Hf; [lia|]. cbn [read_header_loop].
    assert (exists c1, (if 0 <? timeout then SetReadDeadline (Some timeout) else ret tt) c = (Ok tt, c1) /\
      c_in c1 = c_in c) as (c1 & E1 & Hi1) by (destruct (0 <? timeout); by eexists).
    rewrite (bind_Ok _ _ _ _ _ E1).
    destruct (conn_Read_spec 1024 c1) as (d & e & c2 & E2 & _ & Hf2 & Hl2 & _ & Hz).
    rewrite (bind_Ok _ _ _ _ _ E2). cbv beta iota zeta. rewrite Hi1 in *. case_if; [done|].
    destruct d as [|b d].
    - destruct e as [e|]; [by destruct e as [| | |[]|]|]. apply IH.
      specialize (Hz eq_refl eq_refl ltac:(lia)). rewrite Hf2 in Hf. simpl in Hf. lia.
    - destruct (Index _ _); [done|]. destruct e as [e|]; [by destruct e as [| | |[]|]|]. apply IH.
      rewrite Hf2 in Hf. simpl in Hf. rewrite length_app in Hf. lia. }
  assert (forall {A} (m : GoM conn A) h, returns m -> (forall e, returns (h e)) -> returns (catch m h)) as Hcatch.
  { intros A m h Hm Hh s. specialize (Hm s). unfold catch. destruct (m s) as [[]]; try done. apply Hh. }
  unfold HttpHandshake, SetWriteDeadline, SetReadDeadline. cbv zeta. destruct cfg as [cfg|]; [|apply returns_fail].
  do 2 (apply returns_if; [apply returns_fail|]). apply returns_bind; [auto with go|]. intros _.
  apply returns_bind; [apply Hcatch; auto with go|]. intros _. apply returns_bind; [auto with go|]. intros _.
  apply returns_bind.
  { apply Hcatch; [|auto with go]. intros s. unfold readHeaders, get, bind. apply Hloop. unfold header_fuel. lia. }
  intros [hd lo]. auto 7 with go.
Qed.

(** The HTTP handler returns on every connection: a proxy that stalls,
    floods, cuts or resets gets an error, never a panic or an endless loop. *)
Theorem HttpHandlerConn_returns (c : option conn) (cfg : option ProxyConfig)
    (dstHost : bytes) (dstPort timeout : Z) :
  returned (fst (HttpHandlerConn c cfg dstHost dstPort timeout)).
Proof.
  destruct c as [c|]; [|done]. unfold HttpHandlerConn, tunnel.
  pose proof (returns_HttpHandshake cfg dstHost dstPort timeout c) as H0.
  by destruct (HttpHandshake cfg dstHost dstPort timeout c) as [[] ?].
Qed.
End tunnels.

Lemma HttpHandlerConn_correct_witness :
  let cfg := mkProxyConfig ProxyTypeHTTP (str "proxy") 8080 (Some (str "user")) (Some (str "pass")) in
  let inp := str "HTTP/1.1 200 OK" ++ CRLF ++ CRLF ++ str "tunnel" in
  let c := mkConn [mkRd (take 18 inp) None; mkRd (drop 18 inp) None] [] [] None None false false in
  exists t c', HttpHandlerConn (Some c) (Some cfg) (str "example.com") 443 10 = (Ok t, Some c') /\
    ready (as_conn t) (str "tunnel")
      ([] ++ connect_request cfg (JoinHostPort (str "example.com") (Itoa 443))) /\
    c_rdl (as_conn t) = None /\ c_wdl (as_conn t) = None.
Proof.
  intros cfg inp c. apply (HttpHandlerConn_correct cfg (str "example.com") 443 10 c inp [] 15).
  - split; [reflexivity|lia].
  - repeat split; try reflexivity. repeat constructor; vm_compute; congruence.
  - reflexivity.
  - vm_compute. congruence.
Defined.

(** ** Redaction *)

(** A line that holds no line end. *)
Definition one_line (l : bytes) : Prop := Index l CRLF = None.

Lemma Index_line l rest : one_line l -> Index (l ++ CRLF ++ rest) CRLF = Some (length l).
Proof.
  intros Hl. apply Index_intro.
  - rewrite length_app. lia.
  - rewrite drop_app_length. apply HasPrefix_app.
  - intros j Hj. destruct (HasPrefix (drop j (l ++ CRLF ++ rest)) CRLF) eqn:E; [|done]. exfalso.
    apply HasPrefix_true in E as [r Er]. rewrite drop_app_le in Er by lia.
    destruct (drop j l) as [|a [|b l']] eqn:Ed.
    + apply (f_equal length) in Ed. rewrite length_drop in Ed. simpl in Ed. lia.
    + by injection Er.
    + injection Er as -> -> _. pose proof (Index_None _ _ j Hl) as Hn. rewrite Ed in Hn.
      change (Byte.x0d :: Byte.x0a :: l') with (CRLF ++ l') in Hn. by rewrite HasPrefix_app in Hn.
Qed.

Lemma split_fuel_Join fuel ls :
  Forall one_line ls -> ls <> [] -> (length (Join ls CRLF) <= fuel)%nat ->
  split_fuel fuel (Join ls CRLF) CRLF = ls.
Proof.
  revert fuel. induction ls as [|l ls IH]; intros fuel Hls Hne Hf; [done|].
  apply Forall_cons in Hls as [Hl Hls]. destruct ls as [|l2 ls].
  - cbn [Join] in *. destruct fuel; [done|]. cbn [split_fuel]. unfold Cut. by rewrite Hl.
  - change (Join (l :: l2 :: ls) CRLF) with (l ++ CRLF ++ Join (l2 :: ls) CRLF) in *.
    rewrite !length_app in Hf. cbn [length CRLF] in Hf. destruct fuel as [|fuel]; [lia|].
    cbn [split_fuel]. unfold Cut. rewrite Index_line by done.
    rewrite take_app_length. f_equal. rewrite app_assoc, drop_app_length' by (rewrite length_app; done).
    apply IH; [done|done|lia].
Qed.

Lemma Split_Join ls : Forall one_line ls -> ls <> [] -> Split (Join ls CRLF) CRLF = ls.
Proof. intros. by apply split_fuel_Join. Qed.

Section redaction.
Context `{Unicode}.

(** The excerpt of a proxy's answer that goes into an error message does
    not depend on the value of an [Authorization] or [Proxy-Authorization]
    line of that answer: two answers that differ only there give the same
    excerpt. *)
Theorem sanitizeHeaderForError_redacts (before after : list bytes) (line1 line2 prefix : bytes)
    (Hprefix : prefix = str "authorization:" \/ prefix = str "proxy-authorization:")
    (H1 : HasPrefix (ToLower line1) prefix = true) (H2 : HasPrefix (ToLower line2) prefix = true)
    (Hlines : Forall one_line (before ++ line1 :: line2 :: after))
    (Hlen1 : zlen (Join (before ++ line1 :: after) CRLF) <= 1024)
    (Hlen2 : zlen (Join (before ++ line2 :: after) CRLF) <= 1024) :
  sanitizeHeaderForError (Join (before ++ line1 :: after) CRLF) =
  sanitizeHeaderForError (Join (before ++ line2 :: after) CRLF).
Proof.
  assert (redact_line line1 = redact_line line2) as Hr.
  { unfold redact_line. destruct Hprefix as [-> | ->]; rewrite H1, H2; [done|].
    apply HasPrefix_true in H1 as [r1 ->], H2 as [r2 ->]. reflexivity. }
  apply Forall_app in Hlines as [Hb [Hl1 [Hl2 Ha]%Forall_cons]%Forall_cons].
  unfold sanitizeHeaderForError. rewrite !(proj2 (Z.ltb_ge 1024 _)) by done.
  rewrite !Split_Join by ((apply Forall_app; by repeat constructor) || by destruct before).
  rewrite !fmap_app, !fmap_cons. by rewrite Hr.
Qed.
End redaction.

Lemma sanitizeHeaderForError_redacts_witness :
  sanitizeHeaderForError (Join ([str "HTTP/1.1 407 No"] ++ [str "proxy-AUTHORIZATION: one"]) CRLF) =
  sanitizeHeaderForError (Join ([str "HTTP/1.1 407 No"] ++ [str "Proxy-Authorization: two"]) CRLF).
Proof.
  apply (sanitizeHeaderForError_redacts [str "HTTP/1.1 407 No"] [] _ _ (str "proxy-authorization:")).
  - by right.
  - reflexivity.
  - reflexivity.
  - repeat constructor.
  - vm_compute. congruence.
  - vm_compute. congruence.
Defined.
