(* ===== verification/Tcp.v ===== *)
(** * Tcp: the TCP client

    Models [network/tcp_client.go]: the client's state is its connection, its
    time-out and the closed flag.  A nil connection is [None].  [Listen] runs
    concurrently with the cancellation of its context, which closes the client:
    it is a step relation in which the cancellation can strike between any two
    steps of the loop. *)

From S2P Require Import Prelude Bytes GoStrings Conn Bufio.

Local Open Scope Z_scope.

Definition ErrTCPClientClosed : error := Sentinel "tcp client closed".

Record TCPClient := mkTCP {
  t_conn : option conn;
  t_timeout : Z;
  t_isClosed : bool;
}.

Definition tcp_closed (b : bool) (c : TCPClient) : TCPClient := mkTCP (t_conn c) (t_timeout c) b.
Definition tcp_conn (k : conn) (c : TCPClient) : TCPClient :=
  mkTCP (Some k) (t_timeout c) (t_isClosed c).

(** Run [m] on the connection of a client that has one. *)
Definition with_conn {A} (k : conn) (m : GoM conn A) : GoM TCPClient A := fun c =>
  let '(r, k') := m k in (r, tcp_conn k' c).

Definition IsClosed (c : TCPClient) : bool := t_isClosed c.

(** The getters, for a receiver that may be nil; the addresses of a connection
    are the network's. *)
Section getters.
Context {Addr : Type} (local_addr remote_addr : conn -> Addr).
Definition LocalAddr (c : option TCPClient) : option Addr :=
  match c with None => None | Some c => local_addr <$> t_conn c end.
Definition RemoteAddr (c : option TCPClient) : option Addr :=
  match c with None => None | Some c => remote_addr <$> t_conn c end.
Definition Conn_ (c : option TCPClient) : option conn :=
  match c with None => None | Some c => t_conn c end.
End getters.

Definition TCP_Close : GoM TCPClient unit :=
  do c <- get;
  modify (tcp_closed true) ;;
  if t_isClosed c then ret tt
  else match t_conn c with
       | Some k => with_conn k CloseConn
       | None => ret tt
       end.

Definition TCP_Write (b : bytes) : GoM TCPClient (nat * option error) :=
  do c <- get;
  match t_conn c with
  | None => ret (0%nat, Some ErrTCPClientClosed)
  | Some k =>
      if t_isClosed c then ret (0%nat, Some ErrTCPClientClosed)
      else
        do '(n, err) <- with_conn k (conn_Write b);
        (if bool_decide (is_Some err) then modify (tcp_closed true) else ret tt) ;;
        ret (n, err)
  end.

(** The loop of [WriteFull]; every round sends at least one byte. *)
Fixpoint write_full (fuel : nat) (b : bytes) : GoM TCPClient unit :=
  match b, fuel with
  | [], _ => ret tt
  | _, O => fun c => (Diverge, c)
  | _, S fuel =>
      do '(n, err) <- TCP_Write b;
      match err with
      | Some e => fail e
      | None => if (n =? 0)%nat then fail ErrShortWrite else write_full fuel (drop n b)
      end
  end.

Definition WriteFull (b : bytes) : GoM TCPClient unit := write_full (length b) b.

Definition TCP_Read (cap : nat) : GoM TCPClient (bytes * option error) :=
  do c <- get;
  match t_conn c with
  | None => ret ([], Some ErrTCPClientClosed)
  | Some k =>
      if t_isClosed c then ret ([], Some ErrTCPClientClosed)
      else
        do '(d, err) <- with_conn k (conn_Read cap);
        (if bool_decide (is_Some err) then modify (tcp_closed true) else ret tt) ;;
        ret (d, err)
  end.

(** [io.ReadFull(conn, buf)] with the buffer it leaves on an error. *)
Definition ReadFullBuf (n : nat) : GoM conn (bytes * option error) := fun k =>
  if c_closed k then (Ok (replicate n Byte.x00, Some ErrNetClosed), k)
  else let '((b, e), l) := read_full n [] (c_in k) in
       (Ok (b ++ replicate (n - length b) Byte.x00, e), set_in l k).

Definition TCP_ReadFull (n : Z) : GoM TCPClient (bytes * option error) :=
  do c <- get;
  match t_conn c with
  | None => ret ([], Some ErrTCPClientClosed)
  | Some k =>
      if t_isClosed c then ret ([], Some ErrTCPClientClosed)
      else if n <=? 0 then ret ([], None)
      else
        do '(buf, err) <- with_conn k
          (if 0 <? t_timeout c
           then SetReadDeadline (Some (t_timeout c)) ;;
                do r <- ReadFullBuf (Z.to_nat n); SetReadDeadline None ;; ret r
           else ReadFullBuf (Z.to_nat n));
        (if bool_decide (is_Some err) then modify (tcp_closed true) else ret tt) ;;
        ret (buf, err)
  end.

(** ** [WriteFull] *)

Lemma TCP_Write_spec b c :
  exists n e c', TCP_Write b c = (Ok (n, e), c') /\ (n <= length b)%nat /\
    (forall k, t_conn c = Some k -> exists k', t_conn c' = Some k' /\ c_in k' = c_in k /\
      c_closed k' = c_closed k /\ c_sent k' = c_sent k ++ take n b) /\
    (e <> None -> t_isClosed c' = true \/ t_conn c' = None) /\ t_timeout c' = t_timeout c /\
    (e = None -> t_isClosed c' = t_isClosed c /\ t_conn c <> None).
Proof.
  unfold TCP_Write, get, bind at 1. cbv beta iota. destruct (t_conn c) as [k|] eqn:Ek.
  2: { eexists _, _, _. split; [reflexivity|]. rewrite Ek. split_and!; try done; [lia|by right]. }
  destruct (t_isClosed c) eqn:Ec.
  { eexists _, _, _. split; [reflexivity|]. rewrite Ek, Ec. split_and!; try done; [lia| |by left].
    intros k' [= <-]. exists k. rewrite take_0, app_nil_r. done. }
  unfold with_conn, conn_Write, bind. destruct (c_closed k) eqn:Ex.
  { eexists _, _, _. split; [reflexivity|]. split_and!; try done; [lia| |by left].
    intros k' [= <-]. eexists. split; [reflexivity|]. rewrite take_0, app_nil_r. done. }
  destruct (c_wr k) as [|w ws].
  - eexists _, _, _. split; [reflexivity|]. split_and!; try done.
    intros k' [= <-]. eexists. split; [reflexivity|]. rewrite firstn_all. done.
  - cbn -[Nat.min]. destruct (wr_err w) as [e|]; (eexists _, _, _; split; [reflexivity|]);
      (split_and!; try done; try lia; try (by left));
      intros k' [= <-]; eexists; split; try reflexivity; done.
Qed.

Lemma write_full_spec fuel b c k :
  t_conn c = Some k -> (length b <= fuel)%nat ->
  exists r c' k' n, write_full fuel b c = (r, c') /\ t_conn c' = Some k' /\
    c_sent k' = c_sent k ++ take n b /\ c_in k' = c_in k /\
    match r with
    | Ok _ => (length b <= n)%nat
    | Err e => e = ErrShortWrite \/ t_isClosed c' = true
    | _ => False
    end.
Proof.
  revert b c k. induction fuel as [|fuel IH]; intros b c k Hk Hf;
    (destruct b as [|x b]; [exists (Ok tt), c, k, 0%nat; rewrite app_nil_r; by split_and!|simpl in Hf]).
  - lia.
  - destruct (TCP_Write_spec (x :: b) c) as (n & e & c1 & E & Hn & Hc & He & _ & Hok).
    destruct (Hc k Hk) as (k1 & Hk1 & Hi & _ & Hs).
    cbn [write_full]. rewrite (bind_Ok _ _ _ _ _ E). destruct e as [e|].
    { eexists _, c1, k1, n. split; [reflexivity|]. split_and!; try done.
      right. destruct He as [?|?]; [done|done|congruence]. }
    destruct (n =? 0)%nat eqn:En.
    { eexists _, c1, k1, n. split; [reflexivity|]. split_and!; try done. by left. }
    apply Nat.eqb_neq in En.
    destruct (IH (drop n (x :: b)) c1 k1 Hk1) as (r & c2 & k2 & m & E2 & Hk2 & Hs2 & Hi2 & Hr); [len|].
    exists r, c2, k2, (n + m)%nat. split; [done|]. split; [done|]. split.
    { rewrite Hs2, Hs, <- app_assoc. f_equal. rewrite <- (take_drop n (take (n + m) (x :: b))).
      rewrite take_take, Nat.min_l by lia. f_equal. rewrite skipn_firstn_comm. f_equal. lia. }
    split; [congruence|]. destruct r; try done. rewrite length_drop in Hr. lia.
Qed.

(** [WriteFull] always returns.  On success it has sent exactly its
    argument; on an error it has sent a prefix of it, and either the peer
    took nothing of what was left without reporting an error or the client
    cannot be used any more. *)
Theorem WriteFull_correct (b : bytes) (c : TCPClient) (k : conn) (Hk : t_conn c = Some k) :
  exists r c' k' n, WriteFull b c = (r, c') /\ t_conn c' = Some k' /\
    c_sent k' = c_sent k ++ take n b /\ c_in k' = c_in k /\
    match r with
    | Ok _ => (length b <= n)%nat
    | Err e => e = ErrShortWrite \/ t_isClosed c' = true
    | _ => False
    end.
Proof. by apply write_full_spec. Qed.

Lemma WriteFull_correct_witness :
  let c := mkTCP (Some (mkConn [] [mkWr 2 None; mkWr 0 None] [] None None false false)) 0 false in
  exists r c' k' n, WriteFull (str "hello") c = (r, c') /\ t_conn c' = Some k' /\
    c_sent k' = [] ++ take n (str "hello") /\ c_in k' = [] /\
    match r with
    | Ok _ => (length (str "hello") <= n)%nat
    | Err e => e = ErrShortWrite \/ t_isClosed c' = true
    | _ => False
    end.
Proof. intros c. apply (WriteFull_correct (str "hello") c _ eq_refl). Defined.

(** A write that fails marks the client closed, and [Close] does nothing
    on a client that is marked closed: the connection of a client whose write
    failed is never closed. *)
Theorem failed_write_never_closed (b : bytes) (c : TCPClient) (k : conn) (n : nat) (e : error) (ws : list wr_event)
    (Hk : t_conn c = Some k) (Hopen : c_closed k = false) (Hc : t_isClosed c = false)
    (Hw : c_wr k = mkWr n (Some e) :: ws) :
  exists c1 c2 k2, TCP_Write b c = (Ok (Nat.min n (length b), Some e), c1) /\
    TCP_Close c1 = (Ok tt, c2) /\ t_conn c2 = Some k2 /\ c_closed k2 = false.
Proof.
  set (k1 := note_fail (Some e) (set_wr ws (add_sent (take (Nat.min n (length b)) b) k))).
  exists (tcp_closed true (tcp_conn k1 c)), (tcp_closed true (tcp_conn k1 c)), k1.
  split; [|by split_and!].
  unfold TCP_Write, get, bind, with_conn, conn_Write. rewrite Hk, Hc, Hopen, Hw. reflexivity.
Qed.

Lemma failed_write_never_closed_witness :
  let c := mkTCP (Some (mkConn [] [mkWr 0 (Some (NetError false (str "broken pipe")))] [] None None false false)) 0 false in
  exists c1 c2 k2, TCP_Write (str "x") c = (Ok (0%nat, Some (NetError false (str "broken pipe"))), c1) /\
    TCP_Close c1 = (Ok tt, c2) /\ t_conn c2 = Some k2 /\ c_closed k2 = false.
Proof.
  intros c. apply (failed_write_never_closed (str "x") c _ 0 (NetError false (str "broken pipe")) [] eq_refl);
    reflexivity.
Defined.

(** On an open connection that accepts writes one write is enough. *)
Lemma WriteFull_open b t k :
  t_conn t = Some k -> t_isClosed t = false -> c_closed k = false -> c_wr k = [] ->
  exists k', WriteFull b t = (Ok tt, tcp_conn k' t) /\ c_in k' = c_in k /\ c_wr k' = [] /\
    c_sent k' = c_sent k ++ b /\ c_closed k' = false.
Proof.
  intros Hk Ht Hc Hw. unfold WriteFull. destruct b as [|x b].
  - exists k. cbn. rewrite app_nil_r. destruct t; simpl in *; subst. done.
  - exists (add_sent (x :: b) k). cbn [length write_full].
    assert (TCP_Write (x :: b) t = (Ok (length (x :: b), None), tcp_conn (add_sent (x :: b) k) t)) as E.
    { unfold TCP_Write, get, bind, with_conn, conn_Write. by rewrite Hk, Ht, Hc, Hw. }
    rewrite (bind_Ok _ _ _ _ _ E). cbn [length Nat.eqb]. rewrite drop_ge by (simpl; lia).
    split_and!; try done. by destruct (length b).
Qed.

(** On a connection that is closed the first write fails. *)
Lemma WriteFull_closed x b t k :
  t_conn t = Some k -> t_isClosed t = false -> c_closed k = true ->
  WriteFull (x :: b) t = (Err ErrNetClosed, tcp_closed true (tcp_conn k t)).
Proof.
  intros Hk Ht Hc. unfold WriteFull. cbn [length write_full].
  unfold TCP_Write, get, bind at 1, bind at 1, with_conn, conn_Write. cbv beta iota. by rewrite Hk, Ht, Hc.
Qed.

(** *** What is left of a connection

    A client closes its connection, except when a write on it has failed. *)
Definition spent (k : conn) : Prop := c_closed k = true \/ c_wfail k = true.

Lemma TCP_Write_spent b t k :
  t_conn t = Some k -> t_isClosed t = false ->
  exists n e t' k', TCP_Write b t = (Ok (n, e), t') /\ t_conn t' = Some k' /\
    match e with None => t_isClosed t' = false | Some _ => t_isClosed t' = true /\ spent k' end.
Proof.
  intros Hk Ht. unfold TCP_Write, get, bind, with_conn, conn_Write. rewrite Hk, Ht. destruct (c_closed k) eqn:Hc.
  - eexists _, _, _, _. split; [reflexivity|]. split_and!; try done. by left.
  - destruct (c_wr k) as [|w ws]; [eexists _, _, _, _; split; [reflexivity|by split]|].
    destruct (wr_err w) as [e|]; (eexists _, _, _, _; split; [reflexivity|]); split_and!; try done. by right.
Qed.

Lemma write_full_spent fuel b t k :
  t_conn t = Some k -> t_isClosed t = false -> (length b <= fuel)%nat ->
  exists r t' k', write_full fuel b t = (r, t') /\ t_conn t' = Some k' /\
    match r with
    | Ok _ => t_isClosed t' = false
    | Err _ => t_isClosed t' = false \/ spent k'
    | _ => False
    end.
Proof.
  revert b t k. induction fuel as [|fuel IH]; intros b t k Hk Ht Hf; (destruct b as [|x b]; [by exists (Ok tt), t, k|simpl in Hf]).
  { lia. }
  destruct (TCP_Write_spent (x :: b) t k Hk Ht) as (n & e & t1 & k1 & E & Hk1 & He).
  cbn [write_full]. rewrite (bind_Ok _ _ _ _ _ E). destruct e as [e|].
  { eexists _, t1, k1. split; [reflexivity|]. split; [done|]. right. apply He. }
  destruct (n =? 0)%nat eqn:En.
  { eexists _, t1, k1. split; [reflexivity|]. split; [done|]. by left. }
  apply Nat.eqb_neq in En. apply (IH _ t1 k1 Hk1 He). len.
Qed.

(** Whatever the peer does to the writes. *)
Lemma WriteFull_spent b t k :
  t_conn t = Some k -> t_isClosed t = false ->
  exists r t' k', WriteFull b t = (r, t') /\ t_conn t' = Some k' /\
    match r with
    | Ok _ => t_isClosed t' = false
    | Err _ => t_isClosed t' = false \/ spent k'
    | _ => False
    end.
Proof. intros Hk Ht. by apply (write_full_spent _ b t k). Qed.

Lemma TCP_Close_spent t k :
  t_conn t = Some k -> t_isClosed t = false \/ spent k ->
  exists k', t_conn (snd (TCP_Close t)) = Some k' /\ spent k'.
Proof.
  intros Hk Hc. unfold TCP_Close, get, modify, bind, with_conn. destruct (t_isClosed t) eqn:Ht.
  - exists k. destruct Hc as [?|?]; done.
  - rewrite Hk. eexists. split; [reflexivity|]. by left.
Qed.

(** [Close] leaves a closed connection, unless the client was marked closed
    while its connection was open. *)
Lemma TCP_Close_closes t k :
  t_conn t = Some k -> t_isClosed t = false \/ c_closed k = true ->
  exists k', t_conn (snd (TCP_Close t)) = Some k' /\ c_closed k' = true.
Proof.
  intros Hk Hc. unfold TCP_Close, get, modify, bind, with_conn. destruct (t_isClosed t) eqn:Ht.
  - exists k. destruct Hc as [?|?]; done.
  - rewrite Hk. by eexists.
Qed.

(** ** [Listen] *)

(** The calls of the three callbacks, in order. *)
Inductive callback :=
| OnData (d : bytes)
| OnError (e : error)
| OnDone.

(** Where the goroutine is: at the head of the loop, before its [Read], gone. *)
Inductive lpc := LTop | LRead | LStopped.

Record lstate := mkL {
  l_pc : lpc;
  l_tcp : TCPClient;
  l_cancelled : bool;
  l_out : list callback;
}.

Definition listenBuf : nat := Z.to_nat (16 * 1024).

(** [errors.Is] against a sentinel. *)
Fixpoint errors_Is (e target : error) : bool :=
  bool_decide (e = target) ||
  match e with Wrapf _ _ inner => errors_Is inner target | _ => false end.

(** [ne, ok := err.(net.Error); ok && ne.Timeout()]. *)
Definition is_timeout (e : error) : bool :=
  match e with NetError t _ => t | _ => false end.

(** What the loop does with the result of its [Read]: the callbacks it calls
    and where it goes. *)
Definition on_read (d : bytes) (err : option error) : list callback * lpc :=
  match err with
  | Some e =>
      if errors_Is e ErrTCPClientClosed || errors_Is e EOF then ([OnDone], LStopped)
      else if is_timeout e then ([], LTop)
      else ([OnError e; OnDone], LStopped)
  | None => (match d with [] => [] | _ => [OnData d] end, LTop)
  end.

Inductive listen_step : lstate -> lstate -> Prop :=
| listen_cancel pc c out :
    listen_step (mkL pc c false out) (mkL pc (snd (TCP_Close c)) true out)
| listen_top_closed c x out :
    t_isClosed c = true ->
    listen_step (mkL LTop c x out) (mkL LStopped c x (out ++ [OnDone]))
| listen_top_open c x out :
    t_isClosed c = false ->
    listen_step (mkL LTop c x out) (mkL LRead c x out)
| listen_read c x out d err c' :
    TCP_Read listenBuf c = (Ok (d, err), c') ->
    listen_step (mkL LRead c x out) (mkL (snd (on_read d err)) c' x (out ++ fst (on_read d err))).

Definition listen_init (c : TCPClient) : lstate := mkL LTop c false [].

(** The bytes handed to [onData]. *)
Definition delivered (out : list callback) : bytes :=
  concat ((fun cb => match cb with OnData d => d | _ => [] end) <$> out).

(** Well-formed callback sequences: data, then at most one error, then done. *)
Definition data_only (out : list callback) : Prop :=
  Forall (fun cb => match cb with OnData d => d <> [] | _ => False end) out.
Definition out_ok (pc : lpc) (out : list callback) : Prop :=
  match pc with
  | LStopped => exists ds es, out = ds ++ es ++ [OnDone] /\ data_only ds /\
      (es = [] \/ exists e, es = [OnError e])
  | _ => data_only out
  end.

(** The bytes a client can still read. *)
Definition tcp_input (c : TCPClient) : bytes :=
  match t_conn c with Some k => flat (c_in k) | None => [] end.
Definition tcp_events (c : TCPClient) : nat :=
  match t_conn c with Some k => length (c_in k) | None => 0 end.

Lemma TCP_Close_input c : tcp_input (snd (TCP_Close c)) = tcp_input c /\ tcp_events (snd (TCP_Close c)) = tcp_events c.
Proof.
  unfold TCP_Close, get, bind, modify, tcp_input, tcp_events. destruct (t_isClosed c); [done|].
  destruct (t_conn c) as [k|] eqn:E; simpl; rewrite ?E; done.
Qed.

Lemma TCP_Read_spec cap c :
  exists d e c', TCP_Read cap c = (Ok (d, e), c') /\
    (exists d', tcp_input c = d ++ d' ++ tcp_input c' /\ (e = None -> d' = [])) /\
    (tcp_events c' <= tcp_events c)%nat /\
    (e = None -> (0 < cap)%nat -> d = [] -> (tcp_events c' < tcp_events c)%nat) /\
    (e <> None -> t_isClosed c' = true \/ t_conn c' = None) /\
    (e = None -> t_isClosed c = false /\ t_conn c <> None).
Proof.
  unfold TCP_Read, get, bind at 1. cbv beta iota. destruct (t_conn c) as [k|] eqn:Ek.
  2: { eexists _, _, _. split; [reflexivity|]. split_and!; try done; [by exists []|by right]. }
  destruct (t_isClosed c) eqn:Ec.
  { eexists _, _, _. split; [reflexivity|]. rewrite Ec. split_and!; try done; [by exists []|by left]. }
  destruct (conn_Read_spec cap k) as (d & e & k' & E & Hw & Hf & Hl & Hd & Hz).
  unfold with_conn, bind. rewrite E. exists d, e. unfold tcp_input, tcp_events. rewrite Ek.
  destruct e as [e|]; (eexists; split; [reflexivity|]); cbn; (split_and!; try done; try (by left)).
  - exists []. done.
  - exists []. done.
  - auto.
Qed.

Lemma TCP_Read_err cap c d e c' :
  TCP_Read cap c = (Ok (d, Some e), c') ->
  e = EOF \/ e = ErrNetClosed \/ e = ErrTCPClientClosed \/ (tcp_events c' < tcp_events c)%nat.
Proof.
  unfold TCP_Read, get, bind at 1, tcp_events. destruct (t_conn c) as [k|]; [|intros [= <- <- <-]; auto].
  destruct (t_isClosed c); [intros [= <- <- <-]; auto|].
  unfold with_conn, conn_Read, bind. destruct (c_closed k); [intros [= <- <- <-]; auto|].
  destruct (c_in k) as [|ev l]; simpl; [intros [= <- <- <-]; auto|].
  destruct (length (rd_data ev) <=? cap)%nat; simpl; [|done].
  destruct (rd_err ev); simpl; [|done]. intros [= <- <- <-]. cbn. auto.
Qed.

(** Nothing is delivered twice, out of order or from nowhere. *)
Definition listen_inv (c0 : TCPClient) (s : lstate) : Prop :=
  out_ok (l_pc s) (l_out s) /\
  exists rest, tcp_input c0 = delivered (l_out s) ++ rest /\
    (l_pc s <> LStopped -> t_isClosed (l_tcp s) = false -> t_conn (l_tcp s) <> None ->
     rest = tcp_input (l_tcp s)).

Lemma delivered_app a b : delivered (a ++ b) = delivered a ++ delivered b.
Proof. unfold delivered. by rewrite fmap_app, concat_app. Qed.

Lemma listen_inv_step c0 s s' : listen_inv c0 s -> listen_step s s' -> listen_inv c0 s'.
Proof.
  intros (Hout & rest & Hin & Hrest) Hstep.
  destruct Hstep as [pc c out|c x out Hc|c x out Hc|c x out d err c' E];
    unfold listen_inv; cbn [l_pc l_tcp l_cancelled l_out] in *.
  - split; [done|]. exists rest. split; [done|]. intros Hpc Hc _. exfalso. revert Hc.
    unfold TCP_Close, get, bind, modify. destruct (t_isClosed c); [done|].
    by destruct (t_conn c).
  - split; [exists out, []; auto|]. exists rest. rewrite delivered_app, app_nil_r. done.
  - split; [done|]. exists rest. split; [done|]. intros _ ? ?. by apply Hrest.
  - destruct (TCP_Read_spec listenBuf c) as (d2 & e2 & c2 & E2 & (d' & Hf & Hd') & _ & _ & Herr & Hok).
    rewrite E2 in E. simplify_eq. destruct err as [e|]; cbn.
    + assert (t_isClosed c' = false -> t_conn c' <> None -> rest = tcp_input c') as Hgone.
      { intros ? ?. destruct Herr; [done|congruence|done]. }
      assert (forall o, delivered o = [] -> tcp_input c0 = delivered (out ++ o) ++ rest) as Hdel.
      { intros o Ho. by rewrite delivered_app, Ho, app_nil_r. }
      destruct (errors_Is e ErrTCPClientClosed || errors_Is e EOF); [|destruct (is_timeout e)];
        cbn [fst snd]; (split; [|exists rest; split; [by apply Hdel|by intros _]]).
      * exists out, []. auto.
      * by rewrite app_nil_r.
      * exists out, [OnError e]. split_and!; eauto.
    + destruct (Hok eq_refl) as [Hcl Hcn]. rewrite (Hrest ltac:(done) Hcl Hcn) in Hin.
      rewrite Hf, (Hd' eq_refl) in Hin. split.
      * apply Forall_app. split; [done|]. destruct d; repeat constructor; done.
      * exists (tcp_input c'). split; [|done]. rewrite Hin, delivered_app, <- app_assoc. f_equal.
        f_equal. destruct d; [done|]. cbn. by rewrite app_nil_r.
Qed.

(** Every step brings the end of the listener nearer. *)
Definition listen_measure (s : lstate) : nat :=
  (2 * (length (tcp_input (l_tcp s)) + tcp_events (l_tcp s)) +
   match l_pc s with LTop => 4 | LRead => 3 | LStopped => 0 end +
   (if l_cancelled s then 0 else 1))%nat.

Lemma listenBuf_pos : (0 < listenBuf)%nat.
Proof. unfold listenBuf. lia. Qed.

Lemma listen_decreases s s' : listen_step s s' -> (listen_measure s' < listen_measure s)%nat.
Proof.
  intros Hstep. destruct Hstep as [pc c out|c x out Hc|c x out Hc|c x out d err c' E];
    unfold listen_measure; cbn [l_pc l_tcp l_cancelled].
  - destruct (TCP_Close_input c) as [-> ->]. lia.
  - lia.
  - lia.
  - destruct (TCP_Read_spec listenBuf c) as (d2 & e2 & c2 & E2 & (d' & Hf & Hd') & Hev & Hz & _ & _).
    rewrite E2 in E. simplify_eq. rewrite Hf, !length_app. destruct err as [e|]; cbn.
    + assert (e = EOF \/ e = ErrNetClosed \/ e = ErrTCPClientClosed \/ (tcp_events c' < tcp_events c)%nat) as He
        by (by eapply TCP_Read_err).
      destruct (errors_Is e ErrTCPClientClosed || errors_Is e EOF) eqn:Eis; [simpl; lia|].
      destruct (is_timeout e) eqn:Et; [|simpl; lia].
      destruct He as [->|[->|[->|He]]]; try done. cbn. lia.
    + specialize (Hz eq_refl listenBuf_pos). destruct d; [specialize (Hz eq_refl); simpl; lia|simpl; lia].
Qed.

(** C36: in every run of [Listen], whenever the context is cancelled, the data
    handed to [onData] is a prefix of the peer's stream, [onDone] is the last
    call and is made exactly when the goroutine ends, [onError] is called at
    most once and just before it; a listener that has not stopped can go on,
    and after a bounded number of steps it has stopped. *)
Theorem Listen_correct (c : TCPClient) (n : nat) (s : lstate)
    (Hrun : nsteps listen_step n (listen_init c) s) :
  (exists rest, tcp_input c = delivered (l_out s) ++ rest) /\ out_ok (l_pc s) (l_out s) /\
  (l_pc s <> LStopped -> exists s', listen_step s s') /\
  (n <= 2 * (length (tcp_input c) + tcp_events c) + 5)%nat.
Proof.
  assert (forall m s1 s2, nsteps listen_step m s1 s2 -> listen_inv c s1 ->
    listen_inv c s2 /\ (m + listen_measure s2 <= listen_measure s1)%nat) as Hgen.
  { clear. intros m s1 s2 H. induction H as [s1|m s1 s2 s3 Hs H IH]; intros Hi; [split; [done|lia]|].
    apply listen_decreases in Hs as Hd. destruct IH as [Hi' Hm]; [by eapply listen_inv_step|]. split; [done|lia]. }
  destruct (Hgen n _ s Hrun) as [(Hout & rest & Hin & _) Hm].
  { split; [constructor|]. exists (tcp_input c). done. }
  split; [by exists rest|]. split; [done|]. split.
  - intros Hpc. destruct s as [[] t x out]; [| |done].
    + destruct (t_isClosed t) eqn:E; eexists; by constructor.
    + destruct (TCP_Read_spec listenBuf t) as (d & e & t' & E & _). eexists. by constructor.
  - unfold listen_measure, listen_init in Hm. cbn [l_pc l_tcp l_cancelled] in Hm. lia.
Qed.

Lemma Listen_correct_witness :
  let c := mkTCP (Some (mkConn [mkRd (str "ab") None] [] [] None None false false)) 0 false in
  exists s, (exists rest, tcp_input c = delivered (l_out s) ++ rest) /\ out_ok (l_pc s) (l_out s) /\
    (l_pc s <> LStopped -> exists s', listen_step s s') /\
    (2 <= 2 * (length (tcp_input c) + tcp_events c) + 5)%nat.
Proof.
  intros c. eexists. apply (Listen_correct c 2).
  eapply nsteps_l; [by apply listen_top_open|]. eapply nsteps_l; [|apply nsteps_O].
  by eapply listen_read.
Defined.

(** What a listener whose client is closed will have called when it stops. *)
Definition fin (s : lstate) : list callback :=
  match l_pc s with LStopped => l_out s | _ => l_out s ++ [OnDone] end.

Lemma TCP_Close_closed c : t_isClosed (snd (TCP_Close c)) = true.
Proof.
  unfold TCP_Close, get, bind, modify. destruct (t_isClosed c); [done|]. by destruct (t_conn c).
Qed.

Lemma closed_step s s' :
  t_isClosed (l_tcp s) = true -> listen_step s s' -> t_isClosed (l_tcp s') = true /\ fin s' = fin s.
Proof.
  intros Hc Hs. destruct Hs as [pc c out|c x out _|c x out H|c x out d err c' E]; cbn in Hc |- *.
  - split; [apply TCP_Close_closed|done].
  - done.
  - congruence.
  - unfold TCP_Read, get, bind at 1 in E. rewrite Hc in E.
    destruct (t_conn c); injection E as <- <- <-; done.
Qed.

Lemma closed_fin n s s' :
  t_isClosed (l_tcp s) = true -> nsteps listen_step n s s' -> l_pc s' = LStopped -> l_out s' = fin s.
Proof.
  intros Hc H. induction H as [s|n s s1 s' Hs H IH]; intros Hp.
  - unfold fin. by rewrite Hp.
  - destruct (closed_step _ _ Hc Hs) as [Hc1 <-]. by apply IH.
Qed.

Lemma TCP_Read_err_closed cap c d t msg c' :
  TCP_Read cap c = (Ok (d, Some (NetError t msg)), c') -> t_isClosed c' = true.
Proof.
  unfold TCP_Read, get, bind at 1. destruct (t_conn c) as [k|]; [|done].
  destruct (t_isClosed c); [done|]. unfold with_conn, bind.
  destruct (conn_Read cap k) as [[[? []]| | |] ?]; simpl; try done; intros [= _ _ <-]; done.
Qed.

(** A read that times out ends the listener without an error callback:
    the [Read] that reports the time-out marks the client closed, so the loop
    that meant to try again only calls [onDone], and data that arrives later
    is never delivered. *)
Theorem Listen_timeout_stops (c c' : TCPClient) (x : bool) (out : list callback)
    (d msg : bytes) (n : nat) (s : lstate)
    (Hread : TCP_Read listenBuf c = (Ok (d, Some (NetError true msg)), c'))
    (Hrun : nsteps listen_step n (mkL LRead c x out) s) (Hstop : l_pc s = LStopped) :
  l_out s = out ++ [OnDone].
Proof.
  inversion Hrun as [|m ? s1 ? Hs1 Hrest]; subst; [done|].
  inversion Hs1 as [pc c1 o| | |c1 x1 o d2 e2 c2 E2]; subst.
  - by apply (closed_fin m _ s) in Hrest; [|apply TCP_Close_closed|].
  - rewrite Hread in E2. injection E2 as <- <- <-.
    apply (closed_fin m _ s) in Hrest as ->; [|by eapply TCP_Read_err_closed|done].
    unfold fin. cbn -[bool_decide]. rewrite !bool_decide_eq_false_2 by done. cbn. by rewrite app_nil_r.
Qed.

Lemma Listen_timeout_stops_witness :
  let ev := [mkRd [] (Some (NetError true (str "i/o timeout"))); mkRd (str "late") None] in
  let c := mkTCP (Some (mkConn ev [] [] None None false false)) 0 false in
  exists s, l_out s = [] ++ [OnDone] /\ l_pc s = LStopped.
Proof.
  intros ev c. set (c' := snd (TCP_Read listenBuf c)).
  exists (mkL LStopped c' false [OnDone]). split; [|done].
  apply (Listen_timeout_stops c c' false [] [] (str "i/o timeout") 2
    (mkL LStopped c' false [OnDone])); [done| |done].
  eapply nsteps_l; [by eapply listen_read|]. eapply nsteps_l; [|apply nsteps_O].
  by apply listen_top_closed.
Defined.

(** ** The preferred local address *)

(** An interface of [net.Interfaces]: its flags, its name and its addresses or
    the error of asking for them. *)
Record iface := mkIface { if_Flags : Z; if_Name : bytes; if_Addrs : list bytes + error }.
Definition FlagUp : Z := 1.
Definition FlagLoopback : Z := 4.

Section discover.
Context `{Unicode} {IP : Type}.
(** [net.ParseIP], and whether [To4] of the address is not nil. *)
Context (ParseIP : bytes -> option IP) (isIPv4 : IP -> bool).

Definition usable (i : iface) : bool :=
  let name := ToLower (if_Name i) in
  negb (Z.land (if_Flags i) FlagUp =? 0)%Z && (Z.land (if_Flags i) FlagLoopback =? 0)%Z &&
  negb (Contains name (str "vpn") || Contains name (str "wireguard") || HasPrefix name (str "wg")).

Definition addr_ip (addr : bytes) : option IP :=
  match ParseIP (default [] (head (Split addr (str "/")))) with
  | Some ip => if isIPv4 ip then Some ip else None
  | None => None
  end.

Fixpoint first_ip (addrs : list bytes) : option IP :=
  match addrs with
  | [] => None
  | a :: addrs => match addr_ip a with Some ip => Some ip | None => first_ip addrs end
  end.

Fixpoint first_iface (ifs : list iface) : option IP :=
  match ifs with
  | [] => None
  | i :: ifs =>
      if usable i then
        match if_Addrs i with
        | inr _ => first_iface ifs
        | inl addrs => match first_ip addrs with Some ip => Some ip | None => first_iface ifs end
        end
      else first_iface ifs
  end.

Definition discoverPreferredLocalIP (interfaces : list iface + error) : option IP + error :=
  match interfaces with
  | inr err => inr err
  | inl ifs => inl (first_iface ifs)
  end.

(** The addresses that could be chosen, in the order of the interfaces. *)
Definition candidates (ifs : list iface) : list IP :=
  i ← ifs; if usable i then match if_Addrs i with inl addrs => omap addr_ip addrs | inr _ => [] end else [].

Lemma first_ip_head addrs : first_ip addrs = head (omap addr_ip addrs).
Proof. induction addrs as [|a addrs IH]; [done|]. cbn. by destruct (addr_ip a). Qed.

(** The preferred address is the first IPv4 address of a usable interface; an
    interface that cannot be asked is passed over. *)
Theorem discoverPreferredLocalIP_first (ifs : list iface) :
  discoverPreferredLocalIP (inl ifs) = inl (head (candidates ifs)).
Proof.
  cbn. f_equal. unfold candidates. induction ifs as [|i ifs IH]; [done|]. cbn [first_iface mbind list_bind].
  destruct (usable i); [|done]. destruct (if_Addrs i) as [addrs|]; [|done].
  rewrite first_ip_head, IH. by destruct (omap addr_ip addrs).
Qed.
End discover.
