(* ===== verification/Dial.v ===== *)
(** * Dial: direct and proxied connections, TCP and TLS clients

    Models [network/dialler.go], the constructor of [network/tcp_client.go] and
    [network/tls_client.go].  The network is a parameter: what dialling an
    address gives, what a TLS handshake makes of a connection, and which hosts
    are IPv4 literals.  The state records the picker's state, the addresses
    dialled, how many connections were opened, and the connections that the
    client has let go of, as it left them. *)

From S2P Require Import Prelude Bytes GoStrings NetAddr Conn Proxy Socks Bufio Tcp HttpConnect.

Local Open Scope Z_scope.

(** A local address to bind to: IP, port and zone. *)
Record LocalBindTCP := mkBind { lb_IP : option bytes; lb_Port : Z; lb_Zone : bytes }.

Class Net := {
  (** [Dialer.DialContext], given the addresses dialled before. *)
  net_Dial : list bytes -> bytes -> Z -> option LocalBindTCP -> conn + error;
  (** [tls.Client(conn, cfg).Handshake()]: the encrypted connection and the
      raw one. *)
  net_TLS : tlsConfig -> conn -> (conn + error) * conn;
  (** [net.ParseIP(host).To4()]. *)
  net_IP4 : bytes -> option bytes;
  (** No write has failed on a connection that is new. *)
  net_Dial_new history addr timeout lb c : net_Dial history addr timeout lb = inl c -> c_wfail c = false;
  net_TLS_new cfg c tc c' : net_TLS cfg c = (inl tc, c') -> c_wfail tc = false;
}.

Record world (P : Type) := mkWorld {
  w_picker : P;
  w_dialled : list bytes;
  w_opened : nat;
  w_left : list conn;
}.
Arguments mkWorld {P}.
Arguments w_picker {P}.
Arguments w_dialled {P}.
Arguments w_opened {P}.
Arguments w_left {P}.

Definition firstLocalBind (bind : list (option LocalBindTCP)) : option LocalBindTCP :=
  match bind with
  | Some b :: _ => match lb_IP b with Some _ => Some b | None => None end
  | _ => None
  end.

Section dial.
Context `{Unicode} `{Net} {P : Type}.
Implicit Types w : world P.

Definition dialDirect (addr : bytes) (timeout : Z) (localAddr : option LocalBindTCP)
    : GoM (world P) conn := fun w =>
  match net_Dial (w_dialled w) addr timeout localAddr with
  | inl c => (Ok c, mkWorld (w_picker w) (w_dialled w ++ [addr]) (S (w_opened w)) (w_left w))
  | inr e => (Err e, mkWorld (w_picker w) (w_dialled w ++ [addr]) (w_opened w) (w_left w))
  end.

(** Let go of a connection. *)
Definition abandon (c : conn) : GoM (world P) unit :=
  modify (fun w => mkWorld (w_picker w) (w_dialled w) (w_opened w) (w_left w ++ [c])).

(** The handler the proxy's type selects: the tunnel, or an error, and the raw
    connection. *)
Definition run_handler (cfg : ProxyConfig) (dstHost : bytes) (dstPort timeout : Z) (c : conn)
    : outcome conn * conn :=
  let wrapped (r : outcome preReadConn * option conn) : outcome conn * conn :=
    match r with
    | (Ok t, _) => (Ok (as_conn t), c)
    | (Err e, c') => (Err e, default c c')
    | (Panic, _) => (Panic, c)
    | (Diverge, _) => (Diverge, c)
    end in
  let same (r : outcome unit * option conn) : outcome conn * conn :=
    match r with
    | (Ok _, c') => (Ok (default c c'), default c c')
    | (Err e, c') => (Err e, default c c')
    | (Panic, _) => (Panic, c)
    | (Diverge, _) => (Diverge, c)
    end in
  if bool_decide (Type_ cfg = ProxyTypeHTTP)
  then wrapped (HttpHandlerConn (Some c) (Some cfg) dstHost dstPort timeout)
  else if bool_decide (Type_ cfg = ProxyTypeHTTPS)
  then wrapped (HttpsHandlerConn net_TLS (Some c) (Some cfg) dstHost dstPort timeout)
  else if bool_decide (Type_ cfg = ProxyTypeSOCKS5)
  then same (Socks5HandlerConn (Some c) (Some cfg) dstHost dstPort)
  else if bool_decide (Type_ cfg = ProxyTypeSOCKS4)
  then same (Socks4HandlerConn net_IP4 (Some c) (Some cfg) dstHost dstPort)
  else (Err (Errorf "unsupported proxy type: %s" [AStr (Type_ cfg)]), c).

Definition dialViaProxy (proxyConfig : option ProxyConfig) (dstHost : bytes) (dstPort timeout : Z)
    (localAddr : option LocalBindTCP) : GoM (world P) conn :=
  match proxyConfig with
  | None => fail (Errorf "nil proxy config" [])
  | Some cfg =>
      if negb (ProxyConfig_IsValid cfg)
      then fail (Errorf "invalid proxy config: %s" [AStr (ProxyConfig_String cfg)])
      else if bool_decide (dstHost = []) then fail (Errorf "empty destination host" [])
      else if bad_port dstPort then fail (Errorf "invalid destination port: %d" [AInt dstPort])
      else
        let proxyAddr := JoinHostPort (Host cfg) (Itoa (Port cfg)) in
        do c <- dialDirect proxyAddr timeout localAddr;
        let c := if 0 <? timeout then snd (SetDeadline (Some timeout) c) else c in
        match run_handler cfg dstHost dstPort timeout c with
        | (Ok t, _) => ret (snd (SetDeadline None t))
        | (Err e, c') => abandon (snd (CloseConn c')) ;; fail e
        | (Panic, _) => panic
        | (Diverge, _) => fun w => (Diverge, w)
        end
  end.

(** A picker and its state. *)
Definition picker : Type := GoM P (option ProxyConfig).

Definition run_picker (p : picker) : GoM (world P) (option ProxyConfig) := fun w =>
  let '(r, s) := p (w_picker w) in (r, mkWorld s (w_dialled w) (w_opened w) (w_left w)).

Definition dialTransport (host : bytes) (port timeout : Z) (pick : option picker)
    (localAddr : option LocalBindTCP) : GoM (world P) conn :=
  let host := TrimSpace host in
  if bool_decide (host = []) then fail (Errorf "empty destination host" [])
  else if bad_port port then fail (Errorf "invalid destination port: %d" [AInt port])
  else
    let dstAddr := JoinHostPort host (Itoa port) in
    match pick with
    | Some p =>
        do proxyConfig <- run_picker p;
        match proxyConfig with
        | Some cfg => dialViaProxy (Some cfg) host port timeout localAddr
        | None => dialDirect dstAddr timeout localAddr
        end
    | None => dialDirect dstAddr timeout localAddr
    end.

(** The socket options of a plain TCP connection do not show in the model. *)
Definition NewTCPClient (host : bytes) (port timeout : Z) (pick : option picker)
    (localBind : list (option LocalBindTCP)) : GoM (world P) TCPClient :=
  do c <- dialTransport host port timeout pick (firstLocalBind localBind);
  ret (mkTCP (Some c) timeout false).

(** [conf] is [tls_client.go]'s TLSConfig; its root pool is part of [net_TLS]. *)
Definition NewTLSClient (host : bytes) (port timeout : Z) (pick : option picker)
    (conf : option tlsConfig) (localBind : list (option LocalBindTCP)) : GoM (world P) TCPClient :=
  let host := TrimSpace host in
  if bool_decide (host = []) then fail (Errorf "empty tls host" [])
  else
    let conf := default (mkTLS [] 0 false) conf in
    do client <- NewTCPClient host port timeout pick localBind;
    let serverName := if bool_decide (TrimSpace (ServerName conf) = []) then host
                      else TrimSpace (ServerName conf) in
    let cfg := mkTLS serverName 0 (InsecureSkipVerify conf) in
    match t_conn client with
    | None => panic
    | Some k =>
        let k := if 0 <? timeout then snd (SetDeadline (Some timeout) k) else k in
        match net_TLS cfg k with
        | (inl tc, _) => ret (mkTCP (Some (snd (SetDeadline None tc))) (t_timeout client) (t_isClosed client))
        | (inr e, k') => abandon (snd (CloseConn k')) ;; fail e
        end
    end.

Definition NewTCPClientAutoTLS (host : bytes) (port timeout : Z) (pick : option picker) (isTLS : bool)
    (localBind : list (option LocalBindTCP)) : GoM (world P) TCPClient :=
  if isTLS then NewTLSClient host port timeout pick (Some (mkTLS host 0 false)) localBind
  else NewTCPClient host port timeout pick localBind.
End dial.

(** ** No connection is lost *)

Section safety.
Context `{Unicode} `{Net} {P : Type}.
Implicit Types w : world P.

(** [holding n w]: [n] of the connections opened are still in use and all
    others have been let go of and are closed. *)
Definition holding (n : nat) (w : world P) : Prop :=
  w_opened w = (n + length (w_left w))%nat /\ Forall (fun c => c_closed c = true) (w_left w).

(** A computation that ends holding one connection more, or fails and holds
    none more. *)
Definition opens {A} (m : GoM (world P) A) : Prop :=
  forall n w, holding n w ->
    match m w with
    | (Ok _, w') => holding (S n) w'
    | (Err _, w') => holding n w'
    | _ => True
    end.

Lemma abandon_closed n w c : holding (S n) w -> c_closed c = true -> holding n (snd (abandon c w)).
Proof.
  intros [Ho Hl] Hc. split; cbn; [rewrite length_app; simpl; lia|]. apply Forall_app. by repeat constructor.
Qed.

Lemma opens_dialDirect addr timeout lb : opens (dialDirect addr timeout lb).
Proof.
  intros n w [Ho Hl]. unfold dialDirect. destruct (net_Dial _ _ _ _); (split; [cbn; lia|done]).
Qed.

Lemma opens_dialViaProxy cfg host port timeout lb : opens (dialViaProxy cfg host port timeout lb).
Proof.
  intros n w Hw. unfold dialViaProxy. destruct cfg as [cfg|]; [|done].
  do 3 (case_if; [done|]). unfold bind at 1.
  pose proof (opens_dialDirect (JoinHostPort (Host cfg) (Itoa (Port cfg))) timeout lb n w Hw) as Hd.
  destruct (dialDirect _ _ _ w) as [[c|e1| |] w1]; try done. cbv zeta.
  destruct (run_handler _ _ _ _ _) as [[t|e2| |] c']; try done. by apply abandon_closed.
Qed.

Lemma opens_dialTransport host port timeout pick lb : opens (dialTransport host port timeout pick lb).
Proof.
  intros n w Hw. unfold dialTransport. do 2 (case_if; [done|]).
  destruct pick as [p|]; [|by apply opens_dialDirect]. unfold bind at 1, run_picker.
  destruct (p (w_picker w)) as [[[cfg|]|e1| |] s]; try done.
  - by apply opens_dialViaProxy.
  - by apply opens_dialDirect.
Qed.

Lemma opens_NewTCPClient host port timeout pick lb : opens (NewTCPClient host port timeout pick lb).
Proof.
  intros n w Hw. unfold NewTCPClient, bind.
  pose proof (opens_dialTransport host port timeout pick (firstLocalBind lb) n w Hw) as Hd.
  by destruct (dialTransport _ _ _ _ _ w) as [[c|e2| |] w2].
Qed.

Lemma opens_NewTCPClientAutoTLS host port timeout pick isTLS lb :
  opens (NewTCPClientAutoTLS host port timeout pick isTLS lb).
Proof.
  unfold NewTCPClientAutoTLS. destruct isTLS; [|apply opens_NewTCPClient].
  intros n w Hw. unfold NewTLSClient. case_if; [done|]. unfold bind at 1.
  pose proof (opens_NewTCPClient (TrimSpace host) port timeout pick lb n w Hw) as Hd.
  destruct (NewTCPClient _ _ _ _ _ w) as [[t|e1| |] w1] eqn:Et; try done. cbv zeta.
  destruct (t_conn t) as [k|]; [|done]. destruct (net_TLS _ _) as [[tc|e2] k']; try done.
  by apply abandon_closed.
Qed.

(** C18: an attempt to connect that fails, directly, through any proxy or in
    the TLS handshake, leaves no open connection behind, and one that succeeds
    holds exactly the connection it returns. *)
Theorem connect_closes_on_failure (host : bytes) (port timeout : Z) (pick : option picker) (isTLS : bool)
    (lb : list (option LocalBindTCP)) (w w' : world P) (r : outcome TCPClient) (n : nat)
    (Hw : holding n w)
    (Hrun : NewTCPClientAutoTLS host port timeout pick isTLS lb w = (r, w')) :
  match r with
  | Ok _ => holding (S n) w'
  | Err _ => holding n w'
  | _ => True
  end.
Proof.
  pose proof (opens_NewTCPClientAutoTLS host port timeout pick isTLS lb n w Hw) as H1.
  rewrite Hrun in H1. exact H1.
Qed.

(** ** The proxy is not bypassed *)

Lemma dialDirect_dialled addr timeout lb w :
  w_dialled (snd (dialDirect addr timeout lb w)) = w_dialled w ++ [addr].
Proof. unfold dialDirect. by destruct (net_Dial _ _ _ _). Qed.

Lemma dialViaProxy_dialled cfg host port timeout lb w :
  w_dialled (snd (dialViaProxy (Some cfg) host port timeout lb w)) = w_dialled w \/
  w_dialled (snd (dialViaProxy (Some cfg) host port timeout lb w)) = w_dialled w ++ [Address cfg].
Proof.
  unfold dialViaProxy. do 3 (case_if; [by left|]). right. unfold bind at 1.
  pose proof (dialDirect_dialled (JoinHostPort (Host cfg) (Itoa (Port cfg))) timeout lb w) as Hd.
  destruct (dialDirect _ _ _ w) as [[c|e1| |] w1]; try exact Hd.
  destruct (run_handler _ _ _ _ _) as [[t|e2| |] c']; exact Hd.
Qed.

(** C19: when the picker returns a proxy, the only address ever dialled is
    that proxy's, and when it fails nothing is dialled at all: the destination
    is never contacted directly, for plain and for TLS connections. *)
Theorem proxy_never_bypassed (host : bytes) (port timeout : Z) (p : picker) (isTLS : bool)
    (lb : list (option LocalBindTCP)) (w : world P) :
  let dialled := w_dialled (snd (NewTCPClientAutoTLS host port timeout (Some p) isTLS lb w)) in
  match fst (p (w_picker w)) with
  | Ok (Some cfg) => dialled = w_dialled w \/ dialled = w_dialled w ++ [Address cfg]
  | Ok None => True
  | _ => dialled = w_dialled w
  end.
Proof.
  cbv zeta. assert (forall h, match fst (p (w_picker w)) with
    | Ok (Some cfg) => w_dialled (snd (NewTCPClient h port timeout (Some p) lb w)) = w_dialled w \/
        w_dialled (snd (NewTCPClient h port timeout (Some p) lb w)) = w_dialled w ++ [Address cfg]
    | Ok None => True
    | _ => w_dialled (snd (NewTCPClient h port timeout (Some p) lb w)) = w_dialled w end) as Htcp.
  { intros h. unfold NewTCPClient.
    assert (forall m : GoM (world P) conn, w_dialled (snd (bind m (fun c => ret (mkTCP (Some c) timeout false)) w))
      = w_dialled (snd (m w))) as Hb by (intros m; unfold bind; by destruct (m w) as [[]]).
    rewrite Hb. unfold dialTransport. do 2 (case_if; [by repeat case_match; auto|]).
    unfold bind, run_picker. destruct (p (w_picker w)) as [[[cfg|]|e1| |] s]; try done. cbn [fst].
    apply (dialViaProxy_dialled cfg (TrimSpace h) port timeout (firstLocalBind lb)
      (mkWorld s (w_dialled w) (w_opened w) (w_left w))). }
  unfold NewTCPClientAutoTLS. destruct isTLS; [|apply Htcp].
  assert (forall h conf, w_dialled (snd (NewTLSClient h port timeout (Some p) conf lb w)) = w_dialled w \/
    w_dialled (snd (NewTLSClient h port timeout (Some p) conf lb w)) =
    w_dialled (snd (NewTCPClient (TrimSpace h) port timeout (Some p) lb w))) as Htls.
  { intros h conf. unfold NewTLSClient. case_if; [by left|]. right. unfold bind at 1.
    destruct (NewTCPClient _ _ _ _ _ w) as [[t|e1| |] w1]; try done.
    destruct (t_conn t) as [k|]; [|done]. by destruct (net_TLS _ _) as [[tc|e2] k']. }
  specialize (Htcp (TrimSpace host)). specialize (Htls host (Some (mkTLS host 0 false))).
  destruct (fst (p (w_picker w))) as [[cfg|]|e1| |]; try done;
    destruct Htls as [Hl|Hl]; rewrite Hl; auto.
Qed.
End safety.

(** ** Connecting returns *)

Section returning.
Context `{Unicode} `{Net} {P : Type}.

(** [tidy n w]: [n] of the connections opened are still in use, and of the
    others each has been let go of and is closed, or a write on it has failed. *)
Definition tidy (n : nat) (w : world P) : Prop :=
  w_opened w = (n + length (w_left w))%nat /\ Forall spent (w_left w).

Lemma abandon_spent n w c : tidy (S n) w -> spent c -> tidy n (snd (abandon c w)).
Proof.
  intros [Ho Hl] Hc. split; cbn; [rewrite length_app; simpl; lia|]. apply Forall_app. split; [done|]. by apply Forall_singleton.
Qed.

Lemma abandon_shut n w c : tidy (S n) w -> tidy n (snd (abandon (snd (CloseConn c)) w)).
Proof. intros Hw. apply abandon_spent; [done|]. by left. Qed.

(** A computation that returns, opens [j] connections when it succeeds and
    leaves none open when it fails, and dials at most [d] times. *)
Definition safely {A} (j d : nat) (Q : A -> Prop) (m : GoM (world P) A) : Prop :=
  forall n w, tidy n w -> exists r w', m w = (r, w') /\
    (length (w_dialled w') <= length (w_dialled w) + d)%nat /\
    match r with
    | Ok a => tidy (j + n) w' /\ Q a
    | Err _ => tidy n w'
    | _ => False
    end.

Lemma safely_fail {A} j d (Q : A -> Prop) e : safely j d Q (fail e).
Proof. intros n w Hw. eexists _, _. split; [reflexivity|]. split; [lia|done]. Qed.

Lemma safely_ret {A} d (Q : A -> Prop) a : Q a -> safely 0 d Q (ret a).
Proof. intros Ha n w Hw. eexists _, _. split; [reflexivity|]. split; [lia|done]. Qed.

Lemma safely_weaken {A} j d d' (Q : A -> Prop) m : (d <= d')%nat -> safely j d Q m -> safely j d' Q m.
Proof. intros Hd Hm n w Hw. destruct (Hm n w Hw) as (r & w' & E & Hl & Hr). exists r, w'. split_and!; [done|lia|done]. Qed.

Lemma safely_dialDirect addr timeout lb : safely 1 1 (fun _ => True) (dialDirect addr timeout lb).
Proof.
  intros n w [Ho Hl]. unfold dialDirect.
  destruct (net_Dial _ _ _ _) as [c|e]; (eexists _, _; split; [reflexivity|]; cbn;
    split; [rewrite length_app; simpl; lia|]).
  - split; [|done]. split; [cbn; lia|done].
  - split; [cbn; lia|done].
Qed.

(** A handler returns, whatever the proxy does. *)
Lemma run_handler_returns cfg host port timeout c : returned (fst (run_handler cfg host port timeout c)).
Proof.
  unfold run_handler. repeat case_if; [| | | |done].
  - unfold HttpHandlerConn, tunnel.
    pose proof (returns_HttpHandshake (Some cfg) host port timeout c) as Hr.
    by destruct (HttpHandshake (Some cfg) host port timeout c) as [[lo|e| |] c'].
  - unfold HttpsHandlerConn, httpsHandlerConnWithTLSConfig. do 3 (case_if; [done|]). cbv zeta.
    destruct (net_TLS _ _) as [[tc|e] c']; [|done]. unfold tunnel.
    pose proof (returns_HttpHandshake (Some cfg) host port timeout (snd (SetDeadline None tc))) as Hr.
    by destruct (HttpHandshake (Some cfg) host port timeout _) as [[lo|e| |] c2].
  - unfold Socks5HandlerConn, on_conn.
    pose proof (returns_Socks5Handshake (Some cfg) host port c) as Hr.
    by destruct (Socks5Handshake (Some cfg) host port c) as [[lo|e| |] c'].
  - unfold Socks4HandlerConn, on_conn.
    pose proof (returns_Socks4Handshake net_IP4 (Some cfg) host port c) as Hr.
    by destruct (Socks4Handshake net_IP4 (Some cfg) host port c) as [[lo|e| |] c'].
Qed.

Lemma safely_dialViaProxy cfg host port timeout lb : safely 1 1 (fun _ => True) (dialViaProxy cfg host port timeout lb).
Proof.
  unfold dialViaProxy. destruct cfg as [cfg|]; [|apply safely_fail].
  do 3 (case_if; [apply safely_fail|]). intros n w Hw.
  destruct (safely_dialDirect (JoinHostPort (Host cfg) (Itoa (Port cfg))) timeout lb n w Hw)
    as (r & w1 & E & Hl & Hr).
  unfold bind at 1. rewrite E. destruct r as [c|e| |]; try done; [|by eexists _, _].
  destruct Hr as [Hw1 _]. cbv zeta. set (c1 := if _ : bool then _ else _).
  pose proof (run_handler_returns cfg host port timeout c1) as Hh.
  destruct (run_handler cfg host port timeout c1) as [[t|e| |] c']; try done.
  - by eexists _, _.
  - eexists _, _. split; [reflexivity|]. split; [done|]. by apply abandon_shut.
Qed.

Definition picker_returns (pick : option (@picker P)) : Prop :=
  match pick with Some p => forall s, returned (fst (p s)) | None => True end.

Lemma safely_dialTransport host port timeout pick lb :
  picker_returns pick -> safely 1 1 (fun _ => True) (dialTransport host port timeout pick lb).
Proof.
  intros Hp. unfold dialTransport. do 2 (case_if; [apply safely_fail|]).
  destruct pick as [p|]; [|by apply safely_dialDirect]. intros n w Hw.
  unfold bind at 1, run_picker. specialize (Hp (w_picker w)).
  destruct (p (w_picker w)) as [[[cfg|]|e1| |] s]; try done.
  - by apply (safely_dialViaProxy (Some cfg) (TrimSpace host) port timeout lb n
      (mkWorld s (w_dialled w) (w_opened w) (w_left w))).
  - by apply (safely_dialDirect _ timeout lb n (mkWorld s (w_dialled w) (w_opened w) (w_left w))).
  - eexists _, _. split; [reflexivity|]. split; [cbn; lia|done].
Qed.

(** A client fit for use. *)
Definition fresh_client (t : TCPClient) : Prop := t_isClosed t = false /\ exists k, t_conn t = Some k.

Lemma safely_NewTCPClient host port timeout pick lb :
  picker_returns pick -> safely 1 1 fresh_client (NewTCPClient host port timeout pick lb).
Proof.
  intros Hp n w Hw. unfold NewTCPClient, bind.
  destruct (safely_dialTransport host port timeout pick (firstLocalBind lb) Hp n w Hw)
    as (r & w1 & -> & Hl & Hr).
  destruct r as [c|e| |]; try done; [|by eexists _, _]. destruct Hr as [Hw1 Hc].
  eexists _, _. split; [reflexivity|]. split_and!; [done|done|]. split; [done|]. by exists c.
Qed.

Lemma safely_NewTCPClientAutoTLS host port timeout pick isTLS lb :
  picker_returns pick -> safely 1 1 fresh_client (NewTCPClientAutoTLS host port timeout pick isTLS lb).
Proof.
  intros Hp. unfold NewTCPClientAutoTLS. destruct isTLS; [|by apply safely_NewTCPClient].
  unfold NewTLSClient. case_if; [apply safely_fail|]. intros n w Hw.
  destruct (safely_NewTCPClient (TrimSpace host) port timeout pick lb Hp n w Hw) as (r & w1 & E & Hl & Hr).
  unfold bind at 1. rewrite E. destruct r as [t|e| |]; try done; [|by eexists _, _].
  destruct Hr as [Hw1 (Hcl & k & Hk)]. cbv zeta. rewrite Hk.
  destruct (net_TLS _ _) as [[tc|e] c'].
  - eexists _, _. split; [reflexivity|]. split_and!; [done|done|]. split; [done|]. by eexists.
  - eexists _, _. split; [reflexivity|]. split; [done|]. by apply abandon_shut.
Qed.
End returning.

(** ** A tunnel end to end *)

Section tunnel.
Context `{Unicode} `{Net} {P : Type}.

Lemma SetDeadline_live d c inp sent : live c inp sent -> live (snd (SetDeadline d c)) inp sent.
Proof. intros (? & ? & ? & ? & ?). by repeat split. Qed.

(** Dialling a destination through a SOCKS5 proxy that accepts gives an
    open connection without deadlines on which the client has spoken exactly
    the SOCKS5 transcript for that destination, and from which exactly what
    the proxy sent behind its answer can be read. *)
Theorem dial_socks5 (cfg : ProxyConfig) (host : bytes) (port timeout : Z) (p : picker)
    (lb : option LocalBindTCP) (w : world P) (s : P) (c : conn) (inp rest : bytes) (auth : bool)
    (Htype : Type_ cfg = ProxyTypeSOCKS5) (Hvalid : ProxyConfig_IsValid cfg = true)
    (Hargs : socks5Args cfg host port) (Hpick : p (w_picker w) = (Ok (Some cfg), s))
    (Hdial : net_Dial (w_dialled w) (Address cfg) timeout lb = inl c)
    (Hlive : live c inp []) (Haccept : socks5Accepts cfg inp auth rest) :
  exists t w', dialTransport host port timeout (Some p) lb w = (Ok t, w') /\
    live t rest (socks5Transcript cfg (TrimSpace host) port auth) /\
    c_rdl t = None /\ c_wdl t = None.
Proof.
  pose proof Hargs as (Hh & _ & Hp & _).
  assert (bad_port port = false) as Hbp.
  { unfold bad_port. apply orb_false_iff. split; [apply Z.leb_gt|apply Z.ltb_ge]; lia. }
  set (c1 := if 0 <? timeout then snd (SetDeadline (Some timeout) c) else c).
  assert (live c1 inp []) as Hl1 by (unfold c1; destruct (0 <? timeout); [by apply SetDeadline_live|done]).
  assert (socks5Args cfg (TrimSpace host) port) as Hargs'.
  { unfold socks5Args in *. rewrite TrimSpace_idem. exact Hargs. }
  destruct (socks5_complete cfg (TrimSpace host) port c1 inp [] auth rest Hargs' Hl1 Haccept) as (c2 & E2 & Hl2).
  rewrite TrimSpace_idem in Hl2. eexists _, _. split.
  - unfold dialTransport. rewrite bool_decide_eq_false_2, Hbp by done. unfold bind at 1, run_picker.
    rewrite Hpick. unfold dialViaProxy. rewrite Hvalid. cbn [negb].
    rewrite bool_decide_eq_false_2, Hbp by done. unfold bind at 1, dialDirect. cbn [w_dialled w_picker].
    change (JoinHostPort (Host cfg) (Itoa (Port cfg))) with (Address cfg). rewrite Hdial. fold c1.
    unfold run_handler. rewrite Htype. decide_consts. unfold Socks5HandlerConn, on_conn. rewrite E2.
    cbn [default]. reflexivity.
  - split; [|done]. by apply SetDeadline_live.
Qed.
End tunnel.

(** ** Witnesses *)

(** A network whose only host is a SOCKS5 proxy that sends [inp]. *)
#[program] Definition demo_net (inp : bytes) : Net := {|
  net_Dial _ _ _ _ := inl (mkConn [mkRd inp None] [] [] None None false false);
  net_TLS _ c := (inr (Errorf "tls: handshake failure" []), c);
  net_IP4 _ := None;
|}.
Next Obligation. by intros inp _ _ _ _ c [= <-]. Qed.
Next Obligation. by intros. Qed.
Definition demo_picker : @picker unit := SinglePick (Some demo_cfg).
Definition demo_world : world unit := mkWorld tt [] 0 [].

Lemma connect_closes_on_failure_witness :
  exists e w', NewTCPClientAutoTLS (H0 := demo_net (str "not socks")) (str "example.com") 443 5
      (Some demo_picker) true [] demo_world = (Err e, w') /\ w_opened w' = 1%nat /\ holding 0 w'.
Proof.
  eexists _, _. split; [vm_compute; reflexivity|]. split; [reflexivity|].
  apply (connect_closes_on_failure (H0 := demo_net (str "not socks")) (str "example.com") 443 5
    (Some demo_picker) true [] demo_world _ (Err (Errorf "invalid socks version: %d" [AInt 110])) 0).
  - by split.
  - vm_compute. reflexivity.
Defined.

Lemma dial_socks5_witness :
  let reply := [Byte.x05; Byte.x00; Byte.x05; Byte.x00; Byte.x00; Byte.x01;
                Byte.x7f; Byte.x00; Byte.x00; Byte.x01; Byte.x04; Byte.x38] in
  exists t w', dialTransport (H0 := demo_net (reply ++ str "hi")) (str "example.com") 443 5
      (Some demo_picker) None demo_world = (Ok t, w') /\
    live t (str "hi") (socks5Transcript demo_cfg (TrimSpace (str "example.com")) 443 false) /\
    c_rdl t = None /\ c_wdl t = None.
Proof.
  intros reply.
  apply (dial_socks5 (H0 := demo_net (reply ++ str "hi")) demo_cfg (str "example.com") 443 5 demo_picker
    None demo_world tt (mkConn [mkRd (reply ++ str "hi") None] [] [] None None false false) (reply ++ str "hi")).
  - reflexivity.
  - reflexivity.
  - vm_compute. repeat split; congruence.
  - reflexivity.
  - reflexivity.
  - repeat split. repeat constructor.
  - exists Byte.x01, [Byte.x7f; Byte.x00; Byte.x00; Byte.x01; Byte.x04; Byte.x38].
    split; [reflexivity|]. split; [left; split; reflexivity|done].
Defined.
