(* ===== verification/Tunnel.v ===== *)
(** * Tunnel: every way to a destination

    The interface between the transport and the protocols above it.  [route]
    says how a destination is reached, directly, through a SOCKS5 proxy that
    accepts or through a CONNECT proxy that answers 200, and what has been said
    to the proxy; [online] adds TLS.  The dialler turns each of them into a
    client from which exactly the destination's bytes are read ([route_dials],
    [online_connects]); the protocols are proved against [online] alone. *)

From S2P Require Import Prelude Bytes GoStrings NetAddr Conn Proxy Socks Bufio Tcp HttpConnect Dial.

Local Open Scope Z_scope.

(** ** A handshake leaves whole pieces *)

(** [m] leaves data in non-empty pieces where it found such data. *)
Definition keeps_cut {A} (m : GoM conn A) : Prop := forall c, wellcut (c_in c) -> wellcut (c_in (snd (m c))).

Lemma keeps_cut_ret {A} (a : A) : keeps_cut (ret a).
Proof. by intros c. Qed.
Lemma keeps_cut_fail {A} e : keeps_cut (fail e : GoM conn A).
Proof. by intros c. Qed.
Lemma keeps_cut_panic {A} : keeps_cut (panic : GoM conn A).
Proof. by intros c. Qed.
Lemma keeps_cut_bind {A B} (m : GoM conn A) (k : A -> GoM conn B) :
  keeps_cut m -> (forall a, keeps_cut (k a)) -> keeps_cut (bind m k).
Proof.
  intros Hm Hk c Hc. specialize (Hm c Hc). unfold bind. destruct (m c) as [[a|e| |] c1]; try done. by apply Hk.
Qed.
Lemma keeps_cut_if {A} (b : bool) (m1 m2 : GoM conn A) : keeps_cut m1 -> keeps_cut m2 -> keeps_cut (if b then m1 else m2).
Proof. by destruct b. Qed.
Lemma keeps_cut_write b : keeps_cut (write_or_fail b).
Proof.
  intros c Hc. unfold write_or_fail, conn_Write, bind. destruct (c_closed c); [done|].
  destruct (c_wr c) as [|w ws]; [done|]. by destruct (wr_err w).
Qed.

Lemma read_full_wellcut need got l : wellcut l -> wellcut (snd (read_full need got l)).
Proof.
  revert need got. induction l as [|ev l IH]; intros need got Hl; [by destruct need|].
  destruct need as [|need]; [done|]. apply Forall_cons in Hl as [[Hd He] Hl]. cbn [read_full].
  destruct (S need <? length (rd_data ev))%nat eqn:E.
  - apply Nat.ltb_lt in E. constructor; [|done]. split; [|done]. cbn. intros Hx.
    apply (f_equal length) in Hx. change (length (drop (S need) (rd_data ev)) = 0%nat) in Hx.
    rewrite length_drop in Hx. lia.
  - destruct (S need - length (rd_data ev))%nat; [done|]. rewrite He. by apply IH.
Qed.

Lemma keeps_cut_ReadFull n : keeps_cut (ReadFull n).
Proof.
  intros c Hc. unfold ReadFull. destruct n as [|n]; [done|]. destruct (c_closed c); [done|].
  pose proof (read_full_wellcut (S n) [] (c_in c) Hc) as Hr. destruct (read_full _ _ _) as [[b e] l]. by destruct e.
Qed.

#[export] Hint Resolve keeps_cut_ret keeps_cut_fail keeps_cut_panic keeps_cut_bind keeps_cut_if
  keeps_cut_write keeps_cut_ReadFull : go.

Lemma keeps_cut_socks5 cfg host port : keeps_cut (Socks5Handshake cfg host port).
Proof.
  unfold Socks5Handshake, socks5Authenticate, socks5ReadReply. cbv zeta.
  repeat match goal with
  | |- keeps_cut (if _ then _ else _) => apply keeps_cut_if
  | |- keeps_cut (bind _ _) => apply keeps_cut_bind; [|intros ?]
  | |- keeps_cut (match ?x with _ => _ end) => destruct x
  | |- keeps_cut _ => auto with go
  end.
Qed.

Lemma ready_live c inp sent : ready c inp sent -> live c inp sent.
Proof.
  intros (Hc & Hw & Hl & Hf & Hs). repeat split; try done.
  eapply Forall_impl; [exact Hl|]. by intros ev [_ ?].
Qed.

Lemma live_ready c inp sent : live c inp sent -> wellcut (c_in c) -> ready c inp sent.
Proof. intros (Hc & Hw & _ & Hf & Hs) Hl. by repeat split. Qed.

Lemma SetDeadline_ready d c inp sent : ready c inp sent -> ready (snd (SetDeadline d c)) inp sent.
Proof. intros (? & ? & ? & ? & ?). by repeat split. Qed.

Lemma socks5_ready cfg host port c inp sent auth rest :
  socks5Args cfg host port -> ready c inp sent -> socks5Accepts cfg inp auth rest ->
  exists c', Socks5Handshake (Some cfg) host port c = (Ok tt, c') /\
    ready c' rest (sent ++ socks5Transcript cfg (TrimSpace host) port auth).
Proof.
  intros Ha Hr Hacc. destruct (socks5_complete cfg host port c inp sent auth rest Ha (ready_live _ _ _ Hr) Hacc) as (c' & E & Hl).
  exists c'. split; [done|]. apply live_ready; [done|].
  pose proof (keeps_cut_socks5 (Some cfg) host port c) as Hk. rewrite E in Hk. apply Hk. by destruct Hr as (_ & _ & ? & _).
Qed.

(** ** Routes *)

Section routes.
Context `{Unicode} `{Net} {P : Type}.
Implicit Types w : world P.

(** A destination and how to go there. *)
Record target := mkTarget {
  tg_host : bytes;
  tg_port : Z;
  tg_timeout : Z;
  tg_picker : option (picker (P := P));
  tg_bind : option LocalBindTCP;
}.

Definition target_ok (t : target) : Prop :=
  TrimSpace (tg_host t) = tg_host t /\ tg_host t <> [] /\ 0 < tg_port t <= 65535.

(** No picker, or one that picks no proxy. *)
Definition picks_none (t : target) w : Prop :=
  match tg_picker t with None => True | Some p => exists s, p (w_picker w) = (Ok None, s) end.
Definition picks (t : target) w (cfg : ProxyConfig) : Prop :=
  ProxyConfig_IsValid cfg = true /\ exists p s, tg_picker t = Some p /\ p (w_picker w) = (Ok (Some cfg), s).
(** What dialling an address gives. *)
Definition dials (t : target) w (addr : bytes) (k : conn) (inp : bytes) : Prop :=
  net_Dial (w_dialled w) addr (tg_timeout t) (tg_bind t) = inl k /\ ready k inp [].

(** [route t w inp sent]: the destination is reached, [inp] is what it sends and
    [sent] what has been said on the way. *)
Inductive route (t : target) w : bytes -> bytes -> Prop :=
| route_direct k inp :
    picks_none t w -> dials t w (JoinHostPort (tg_host t) (Itoa (tg_port t))) k inp -> route t w inp []
| route_socks5 cfg k inp auth rest :
    picks t w cfg -> Type_ cfg = ProxyTypeSOCKS5 -> socks5Args cfg (tg_host t) (tg_port t) ->
    dials t w (Address cfg) k inp -> socks5Accepts cfg inp auth rest ->
    route t w rest (socks5Transcript cfg (tg_host t) (tg_port t) auth)
| route_connect cfg k inp i :
    picks t w cfg -> Type_ cfg = ProxyTypeHTTP -> connect_args (tg_host t) (tg_port t) ->
    dials t w (Address cfg) k inp -> Index inp delimiter = Some i -> Z.of_nat i + 1027 <= maxHTTPHeaderSize ->
    parseStatusCode (take (i + 4) inp) = 200 ->
    route t w (drop (i + 4) inp) (connect_request cfg (JoinHostPort (tg_host t) (Itoa (tg_port t)))).

Lemma target_port t : target_ok t -> bad_port (tg_port t) = false.
Proof. intros (_ & _ & Hp). unfold bad_port. apply orb_false_iff. split; [apply Z.leb_gt|apply Z.ltb_ge]; lia. Qed.

(** With a proxy the rest is [dialViaProxy]. *)
Lemma dialTransport_picks t w cfg : target_ok t -> picks t w cfg ->
  exists s, dialTransport (tg_host t) (tg_port t) (tg_timeout t) (tg_picker t) (tg_bind t) w =
    dialViaProxy (Some cfg) (tg_host t) (tg_port t) (tg_timeout t) (tg_bind t)
      (mkWorld s (w_dialled w) (w_opened w) (w_left w)).
Proof.
  intros Ht (_ & p & s & Ep & Hp). exists s. pose proof (target_port t Ht) as Hbp. destruct Ht as (Htrim & Hne & _).
  unfold dialTransport. rewrite Htrim, bool_decide_eq_false_2, Hbp, Ep by done. unfold bind, run_picker. by rewrite Hp.
Qed.

(** The dialler takes every route. *)
Lemma route_dials t w inp sent :
  target_ok t -> route t w inp sent ->
  exists k w', dialTransport (tg_host t) (tg_port t) (tg_timeout t) (tg_picker t) (tg_bind t) w = (Ok k, w') /\
    ready k inp sent /\ w_left w' = w_left w.
Proof.
  intros Ht Hr. pose proof (target_port t Ht) as Hbp.
  destruct Hr as [k inp Hp [Hd Hk]|cfg k inp auth rest Hp Hty Ha [Hd Hk] Hacc|cfg k inp i Hp Hty Ha [Hd Hk] Hi Hmax Hst].
  - destruct Ht as (Htrim & Hne & _). unfold dialTransport. rewrite Htrim, bool_decide_eq_false_2, Hbp by done.
    unfold picks_none in Hp. destruct (tg_picker t) as [p|].
    + destruct Hp as [s Hp]. unfold bind, run_picker, dialDirect. rewrite Hp. cbn [w_dialled]. rewrite Hd. by eexists _, _.
    + unfold dialDirect. rewrite Hd. by eexists _, _.
  - destruct (dialTransport_picks t w cfg Ht Hp) as [s ->]. destruct Hp as [Hv _]. pose proof Ht as (Htrim & Hne & _).
    set (k1 := if 0 <? tg_timeout t then snd (SetDeadline (Some (tg_timeout t)) k) else k).
    assert (ready k1 inp []) as Hk1 by (unfold k1; case_if; [by apply SetDeadline_ready|done]).
    destruct (socks5_ready cfg (tg_host t) (tg_port t) k1 inp [] auth rest Ha Hk1 Hacc) as (k2 & E2 & Hk2).
    unfold dialViaProxy. rewrite Hv, bool_decide_eq_false_2, Hbp by done. cbn [negb]. cbv zeta.
    unfold bind, dialDirect. cbn [w_dialled]. change (JoinHostPort (Host cfg) (Itoa (Port cfg))) with (Address cfg).
    rewrite Hd. fold k1. unfold run_handler. rewrite Hty. decide_consts. unfold Socks5HandlerConn, on_conn. rewrite E2.
    cbn [default]. eexists _, _. split; [reflexivity|]. split; [|done]. rewrite Htrim in Hk2. by apply SetDeadline_ready.
  - destruct (dialTransport_picks t w cfg Ht Hp) as [s ->]. destruct Hp as [Hv _]. pose proof Ht as (Htrim & Hne & _).
    set (k1 := if 0 <? tg_timeout t then snd (SetDeadline (Some (tg_timeout t)) k) else k).
    assert (ready k1 inp []) as Hk1 by (unfold k1; case_if; [by apply SetDeadline_ready|done]).
    pose proof (HttpHandlerConn_spec cfg (tg_host t) (tg_port t) (tg_timeout t) k1 inp [] i Ha Hk1 Hi Hmax) as Hc.
    cbv zeta in Hc. rewrite Hst in Hc. cbn [Z.eqb Pos.eqb] in Hc. destruct Hc as (tu & k2 & E2 & Hk2 & _).
    unfold dialViaProxy. rewrite Hv, bool_decide_eq_false_2, Hbp by done. cbn [negb]. cbv zeta.
    unfold bind, dialDirect. cbn [w_dialled]. change (JoinHostPort (Host cfg) (Itoa (Port cfg))) with (Address cfg).
    rewrite Hd. fold k1. unfold run_handler. rewrite Hty. decide_consts. rewrite E2.
    eexists _, _. split; [reflexivity|]. split; [|done]. by apply SetDeadline_ready.
Qed.

(** *** With TLS *)

(** A TLS handshake that succeeds on a connection that carries [wire]; [plain]
    is what the peer sends inside. *)
Definition tls_speaks (cfg : tlsConfig) (wire plain : bytes) : Prop :=
  forall k sent, ready k wire sent -> exists tc k', net_TLS cfg k = (inl tc, k') /\ ready tc plain [].

(** [online t isTLS w inp sent]: a client for [t] reads [inp]. *)
Inductive online (t : target) : bool -> world P -> bytes -> bytes -> Prop :=
| online_plain w inp sent : route t w inp sent -> online t false w inp sent
| online_tls w wire sent plain :
    route t w wire sent -> tls_speaks (mkTLS (tg_host t) 0 false) wire plain -> online t true w plain [].

(** The constructor of the clients connects to whatever is online. *)
Lemma online_connects t isTLS w inp sent lb :
  target_ok t -> firstLocalBind lb = tg_bind t -> online t isTLS w inp sent ->
  exists k w', NewTCPClientAutoTLS (tg_host t) (tg_port t) (tg_timeout t) (tg_picker t) isTLS lb w =
      (Ok (mkTCP (Some k) (tg_timeout t) false), w') /\ ready k inp sent /\ w_left w' = w_left w.
Proof.
  intros Ht Hlb Ho. unfold NewTCPClientAutoTLS.
  destruct Ho as [w inp sent Hr|w wire sent plain Hr Htls]; destruct (route_dials t w _ _ Ht Hr) as (k & w' & E & Hk & Hl).
  - unfold NewTCPClient, bind. rewrite Hlb, E. by eexists _, _.
  - destruct Ht as (Htrim & Hne & _). unfold NewTLSClient. cbv zeta. cbn [default from_option id ServerName InsecureSkipVerify].
    rewrite Htrim, !bool_decide_eq_false_2 by done. unfold NewTCPClient, bind at 1, bind at 1. rewrite Hlb, E.
    cbn [ret t_conn t_timeout t_isClosed].
    set (k1 := if 0 <? tg_timeout t then _ else k).
    assert (ready k1 wire sent) as Hk1 by (unfold k1; case_if; [by apply SetDeadline_ready|done]).
    destruct (Htls k1 sent Hk1) as (tc & k' & -> & Htc). eexists _, _. split; [reflexivity|].
    split; [by apply SetDeadline_ready|done].
Qed.
End routes.
