(* ===== verification/NetworkStream.v ===== *)
(** * NetworkStream: the growable binary buffer of [network/network_stream.go]

    [NetworkStream] is the struct of the source: a backing array, a cursor,
    a logical length, and the channels of its listener interface, which the
    operations of this file leave alone ([StreamEvents] models them).  Every
    method is a computation of [GoM NetworkStream].

    The abstract specification is a byte string with a cursor ([content],
    [cursor]); the refinement lemmas show that every method acts on the
    abstract file only, whatever the capacity of the backing array. *)

From S2P Require Import Prelude Bytes.

Local Open Scope Z_scope.

Definition defaultBufferSize : Z := 32 * 1024.
Definition maxFrameSize : Z := 256 * 1024.

Inductive SeekOrigin := SeekBegin | SeekCurrent | SeekEnd | SeekOther (n : Z).

(** [ch], [errCh] and [doneCh] with the items they buffer; present once
    [ensureStream] has run. *)
Record StreamChans := mkChans {
  ch : list bytes;
  errCh : list error;
}.

Record NetworkStream := mkStream {
  buffer : bytes;
  position : Z;
  slength : Z;
  chans : option StreamChans;
  closed : bool;
}.

Definition set_buffer (b : bytes) (s : NetworkStream) : NetworkStream :=
  mkStream b (position s) (slength s) (chans s) (closed s).
Definition set_position (p : Z) (s : NetworkStream) : NetworkStream :=
  mkStream (buffer s) p (slength s) (chans s) (closed s).
Definition set_slength (n : Z) (s : NetworkStream) : NetworkStream :=
  mkStream (buffer s) (position s) n (chans s) (closed s).

(** ** Constructors *)

Definition make_bytes (n : Z) : bytes := replicate (Z.to_nat n) Byte.x00.

Definition NewNetworkStream (capacity : Z) : NetworkStream :=
  let capacity := if capacity <=? 0 then defaultBufferSize else capacity in
  mkStream (make_bytes capacity) 0 0 None false.

Definition NewStreamFromBytes (data : bytes) : NetworkStream :=
  let buf := blit 0 data (make_bytes (zlen data)) in
  mkStream buf 0 (zlen buf) None false.

(** ** Core helpers *)

(** [s.buffer[:s.length]]; the slice panics when [length] is past the array. *)
Definition Bytes_ : GoM NetworkStream bytes := fun s =>
  if (0 <=? slength s) && (slength s <=? zlen (buffer s))
  then (Ok (take (Z.to_nat (slength s)) (buffer s)), s)
  else (Panic, s).

Definition Position (s : NetworkStream) : Z := position s.
Definition Length (s : NetworkStream) : Z := slength s.
Definition Remaining (s : NetworkStream) : Z := slength s - position s.

Definition Reset : GoM NetworkStream unit :=
  modify (fun s => set_slength 0 (set_position 0 s)).

(** [for n < required { n *= 2 }] with the multiplication at 64 bits; [None]
    when the loop has not left after [fuel] tests. *)
Fixpoint grow_loop (fuel : nat) (n required : Z) : option Z :=
  match fuel with
  | O => None
  | S fuel => if n <? required then grow_loop fuel (int64 (n * 2)) required else Some n
  end.

Definition growFuel : nat := 64.

Definition ensureCapacity (required : Z) : GoM NetworkStream unit := fun s =>
  if required <=? zlen (buffer s) then (Ok tt, s)
  else
    match grow_loop growFuel (int64 (zlen (buffer s) * 2)) required with
    | None => (Diverge, s)
    | Some n => (Ok tt, set_buffer (blit 0 (buffer s) (make_bytes n)) s)
    end.

(** [copy(s.buffer[pos:], data)]. *)
Definition copy_at (pos : Z) (data : bytes) : GoM NetworkStream unit := fun s =>
  if (0 <=? pos) && (pos <=? zlen (buffer s))
  then (Ok tt, set_buffer (blit (Z.to_nat pos) data (buffer s)) s)
  else (Panic, s).

(** [s.buffer[pos] = v] and [binary.LittleEndian.PutUintN(s.buffer[pos:], v)]:
    a panic unless the whole value fits. *)
Definition put_at (pos : Z) (data : bytes) : GoM NetworkStream unit := fun s =>
  if (0 <=? pos) && (pos + zlen data <=? zlen (buffer s))
  then (Ok tt, set_buffer (blit (Z.to_nat pos) data (buffer s)) s)
  else (Panic, s).

(** [s.buffer[pos:pos+n]] read. *)
Definition get_at (pos n : Z) : GoM NetworkStream bytes := fun s =>
  if (0 <=? pos) && (0 <=? n) && (pos + n <=? zlen (buffer s))
  then (Ok (take (Z.to_nat n) (drop (Z.to_nat pos) (buffer s))), s)
  else (Panic, s).

Definition Append (data : bytes) : GoM NetworkStream unit :=
  do s <- get;
  ensureCapacity (int64 (slength s + zlen data)) ;;
  copy_at (slength s) data ;;
  modify (fun s => set_slength (int64 (slength s + zlen data)) s).

(** ** Positioning *)

Definition SetPosition (pos : Z) : GoM NetworkStream unit :=
  do s <- get;
  if (pos <? 0) || (slength s <? pos)
  then fail (Errorf "position out of bounds" [])
  else modify (set_position pos).

Definition Seek (offset : Z) (origin : SeekOrigin) : GoM NetworkStream unit :=
  do s <- get;
  match origin with
  | SeekBegin => SetPosition offset
  | SeekCurrent => SetPosition (int64 (position s + offset))
  | SeekEnd => SetPosition (int64 (slength s + offset))
  | SeekOther _ => fail (Errorf "invalid seek origin" [])
  end.

(** ** Reading *)

Definition ensureReadable (n : Z) : GoM NetworkStream unit :=
  do s <- get;
  if (n <? 0) || (maxFrameSize <? n) then fail (Errorf "invalid read size" [])
  else if slength s <? int64 (position s + n)
  then fail (Errorf "not enough data in buffer" [])
  else ret tt.

Definition advance (n : Z) : GoM NetworkStream unit :=
  modify (fun s => set_position (int64 (position s + n)) s).

(** The common shape of the fixed-width readers. *)
Definition read_fixed (n : Z) : GoM NetworkStream bytes :=
  ensureReadable n ;;
  do s <- get;
  do b <- get_at (position s) n;
  advance n ;;
  ret b.

Definition ReadByte : GoM NetworkStream byte :=
  do b <- read_fixed 1;
  match b with
  | v :: _ => ret v
  | [] => panic
  end.
Definition ReadBool : GoM NetworkStream bool :=
  do b <- ReadByte; ret (negb (b2z b =? 0)).
Definition ReadInt16 : GoM NetworkStream Z :=
  do b <- read_fixed 2; ret (swrap 16 (le_get b)).
Definition ReadInt32 : GoM NetworkStream Z :=
  do b <- read_fixed 4; ret (swrap 32 (le_get b)).
Definition ReadInt64 : GoM NetworkStream Z :=
  do b <- read_fixed 8; ret (swrap 64 (le_get b)).
(** A float is its IEEE 754 bit pattern. *)
Definition ReadFloat32 : GoM NetworkStream Z :=
  do b <- read_fixed 4; ret (le_get b).
Definition ReadFloat64 : GoM NetworkStream Z :=
  do b <- read_fixed 8; ret (le_get b).
Definition ReadDouble : GoM NetworkStream Z := ReadFloat64.

Definition ReadBytes (n : Z) : GoM NetworkStream bytes :=
  if (n <? 0) || (maxFrameSize <? n) then fail (Errorf "invalid read size" [])
  else read_fixed n.

Definition ReadString : GoM NetworkStream bytes :=
  do n <- ReadInt32;
  if (n <? 0) || (maxFrameSize <? n) then fail (Errorf "string length overflow" [])
  else ReadBytes n.

(** ** Writing *)

(** [s.position += n; if s.position > s.length { s.length = s.position }]. *)
Definition advance_write (n : Z) : GoM NetworkStream unit :=
  modify (fun s =>
    let p := int64 (position s + n) in
    let s := set_position p s in
    if slength s <? p then set_slength p s else s).

(** The common shape of the fixed-width writers. *)
Definition write_fixed (data : bytes) : GoM NetworkStream unit :=
  do s <- get;
  ensureCapacity (int64 (position s + zlen data)) ;;
  put_at (position s) data ;;
  advance_write (zlen data).

Definition WriteByte (v : byte) : GoM NetworkStream unit := write_fixed [v].
Definition WriteBool (v : bool) : GoM NetworkStream unit :=
  if v then WriteByte Byte.x01 else WriteByte Byte.x00.
Definition WriteInt16 (v : Z) : GoM NetworkStream unit := write_fixed (le_put 2 (uwrap 16 v)).
Definition WriteInt32 (v : Z) : GoM NetworkStream unit := write_fixed (le_put 4 (uwrap 32 v)).
Definition WriteInt64 (v : Z) : GoM NetworkStream unit := write_fixed (le_put 8 (uwrap 64 v)).
Definition WriteFloat32 (bits : Z) : GoM NetworkStream unit := write_fixed (le_put 4 bits).
Definition WriteFloat64 (bits : Z) : GoM NetworkStream unit := write_fixed (le_put 8 bits).
Definition WriteDouble (bits : Z) : GoM NetworkStream unit := WriteFloat64 bits.

Definition WriteBytes (b : bytes) : GoM NetworkStream unit :=
  do s <- get;
  ensureCapacity (int64 (position s + zlen b)) ;;
  copy_at (position s) b ;;
  advance_write (zlen b).

Definition WriteString (data : bytes) : GoM NetworkStream unit :=
  WriteInt32 (swrap 32 (zlen data)) ;;
  WriteBytes data.

(** ** Invariant and abstraction *)

(** The cursor is inside the data and the data inside the array. *)
Definition wf (s : NetworkStream) : Prop :=
  0 <= position s <= slength s /\ slength s <= zlen (buffer s) < 2 ^ 62.

Definition content (s : NetworkStream) : bytes := take (Z.to_nat (slength s)) (buffer s).
Definition cursor (s : NetworkStream) : nat := Z.to_nat (position s).

(** Overwrite [data] at [pos] in a byte string, extending it at the end. *)
Definition overwrite (pos : nat) (data c : bytes) : bytes :=
  take pos c ++ data ++ drop (pos + length data) c.

(** [n] more bytes can be addressed without leaving the address space. *)
Definition room (n : Z) (s : NetworkStream) : Prop :=
  0 < zlen (buffer s) /\ slength s + n < 2 ^ 61.

(** ** Growth of the backing array *)

Lemma set_buffer_twice b1 b2 s : set_buffer b2 (set_buffer b1 s) = set_buffer b2 s.
Proof. done. Qed.

Lemma grow_loop_spec f n r :
  0 < n < 2 ^ 62 -> r <= 2 ^ 61 -> r <= n * 2 ^ Z.of_nat f ->
  exists m, grow_loop (S f) n r = Some m /\ r <= m /\ n <= m /\ (m = n \/ m < 2 * r).
Proof.
  revert n. induction f as [|f IH]; intros n Hn Hr Hf.
  - exists n. simpl in *. case_if; [lia|]. auto with lia.
  - cbn [grow_loop]. case_if; [|exists n; auto with lia].
    rewrite int64_id by (unfold in_int64; lia).
    destruct (IH (n * 2)) as (m & Hm & ? & ? & ?); [lia|lia| |].
    + rewrite Nat2Z.inj_succ, Z.pow_succ_r in Hf; lia.
    + exists m. split; [exact Hm|]. lia.
Qed.

(** The doubling loop never leaves when it starts from zero. *)
Lemma grow_loop_zero fuel r : 0 < r -> grow_loop fuel 0 r = None.
Proof.
  intros Hr. induction fuel as [|f IH]; [done|]. cbn [grow_loop].
  rewrite (proj2 (Z.ltb_lt 0 r)) by lia. exact IH.
Qed.

Lemma zlen_make_bytes n : 0 <= n -> zlen (make_bytes n) = n.
Proof. intros. unfold zlen, make_bytes. rewrite length_replicate. lia. Qed.

Lemma zlen_blit pos data buf : zlen (blit pos data buf) = zlen buf.
Proof. unfold zlen. by rewrite length_blit. Qed.

Lemma ensureCapacity_spec r s :
  0 < zlen (buffer s) < 2 ^ 62 -> 0 <= r < 2 ^ 61 ->
  exists b, ensureCapacity r s = (Ok tt, set_buffer b s) /\
    r <= zlen b < 2 ^ 62 /\ zlen (buffer s) <= zlen b /\
    take (length (buffer s)) b = buffer s.
Proof.
  intros Hb Hr. unfold ensureCapacity. case_if.
  - exists (buffer s). split; [by destruct s|]. split_and!; try lia. by rewrite take_ge by lia.
  - rewrite int64_id by (unfold in_int64; lia).
    destruct (grow_loop_spec 63 (zlen (buffer s) * 2) r) as (m & Hm & ? & ? & ?); [lia|lia|simpl; lia|].
    unfold growFuel. rewrite Hm. eexists. split; [done|]. cbn [buffer set_buffer]. rewrite zlen_blit, zlen_make_bytes by lia.
    split_and!; [lia..|]. apply (blit_read 0). unfold make_bytes, zlen in *.
    rewrite length_replicate. lia.
Qed.

(** ** Writers refine [overwrite] *)

Definition write_post (data : bytes) (s s' : NetworkStream) : Prop :=
  wf s' /\ content s' = overwrite (cursor s) data (content s) /\
  cursor s' = (cursor s + length data)%nat /\
  0 < zlen (buffer s') /\ slength s' <= slength s + zlen data /\
  chans s' = chans s /\ closed s' = closed s.

Lemma content_blit pos data b len' b0 len :
  take (length b0) b = b0 -> (pos <= len)%nat -> (len <= length b0)%nat ->
  (pos + length data <= length b)%nat -> len' = Nat.max len (pos + length data) ->
  take len' (blit pos data b) = overwrite pos data (take len b0).
Proof.
  intros Hb Hp Hl Hd ->. unfold overwrite. rewrite blit_fits by done.
  assert (take len b = take len b0) as E.
  { rewrite <- Hb, take_take. f_equal. lia. }
  rewrite <- E, take_take, Nat.min_l by done.
  rewrite (take_app_ge (take pos b)) by len. f_equal.
  rewrite (take_app_ge data) by len. f_equal.
  rewrite skipn_firstn_comm. f_equal. len.
Qed.

Lemma advance_write_content pos data s b :
  wf s -> pos = position s -> pos + zlen data < 2 ^ 61 ->
  take (length (buffer s)) b = buffer s -> zlen (buffer s) <= zlen b < 2 ^ 62 ->
  pos + zlen data <= zlen b -> 0 < zlen b ->
  exists s', advance_write (zlen data) (set_buffer (blit (Z.to_nat pos) data b) s) = (Ok tt, s') /\
    write_post data s s'.
Proof.
  intros (Hp & Hl) -> Hroom Hb Hcap Hfit Hpos. eexists. split; [done|].
  pose proof (zlen_nonneg data).
  cbn [position set_buffer set_position slength]. rewrite int64_id by (unfold in_int64; lia).
  unfold write_post, wf, content, cursor.
  case_if; cbn [position slength buffer set_slength set_position set_buffer chans closed];
    rewrite zlen_blit; unfold zlen in *; split_and!; try lia; try done;
    (erewrite content_blit; [reflexivity|eassumption|lia..]).
Qed.

Lemma write_fixed_spec data s :
  wf s -> room (zlen data) s ->
  exists s', write_fixed data s = (Ok tt, s') /\ write_post data s s'.
Proof.
  intros Hwf [Hne Hroom]. pose proof Hwf as [Hp Hl]. pose proof (zlen_nonneg data).
  unfold write_fixed, bind, get. rewrite int64_id by (unfold in_int64; lia).
  destruct (ensureCapacity_spec (position s + zlen data) s) as (b & -> & Hb1 & Hb2 & Hb3); [lia..|].
  unfold put_at. cbn [buffer set_buffer position].
  rewrite (proj2 (Z.leb_le 0 (position s))), (proj2 (Z.leb_le (position s + zlen data) (zlen b))) by lia.
  cbn [andb]. rewrite set_buffer_twice. apply advance_write_content; auto; lia.
Qed.

Lemma WriteBytes_spec data s :
  wf s -> room (zlen data) s ->
  exists s', WriteBytes data s = (Ok tt, s') /\ write_post data s s'.
Proof.
  intros Hwf [Hne Hroom]. pose proof Hwf as [Hp Hl]. pose proof (zlen_nonneg data).
  unfold WriteBytes, bind, get. rewrite int64_id by (unfold in_int64; lia).
  destruct (ensureCapacity_spec (position s + zlen data) s) as (b & -> & Hb1 & Hb2 & Hb3); [lia..|].
  unfold copy_at. cbn [buffer set_buffer position].
  rewrite (proj2 (Z.leb_le 0 (position s))), (proj2 (Z.leb_le (position s) (zlen b))) by lia.
  cbn [andb]. rewrite set_buffer_twice. apply advance_write_content; auto; lia.
Qed.

Lemma Append_spec data s :
  wf s -> room (zlen data) s ->
  exists s', Append data s = (Ok tt, s') /\
    wf s' /\ content s' = content s ++ data /\ cursor s' = cursor s /\
    0 < zlen (buffer s') /\ chans s' = chans s /\ closed s' = closed s.
Proof.
  intros Hwf [Hne Hroom]. pose proof Hwf as [Hp Hl]. pose proof (zlen_nonneg data).
  unfold Append, bind, get. rewrite int64_id by (unfold in_int64; lia).
  destruct (ensureCapacity_spec (slength s + zlen data) s) as (b & -> & Hb1 & Hb2 & Hb3); [lia..|].
  unfold copy_at. cbn [buffer set_buffer position].
  rewrite (proj2 (Z.leb_le 0 (slength s))), (proj2 (Z.leb_le (slength s) (zlen b))) by lia.
  cbn [andb]. eexists. split; [done|]. rewrite set_buffer_twice.
  cbn [slength set_buffer]. rewrite int64_id by (unfold in_int64; lia).
  unfold wf, content, cursor.
  cbn [position slength buffer set_slength set_position set_buffer chans closed].
  rewrite zlen_blit. unfold zlen in *. split_and!; try lia; try done.
  rewrite (content_blit _ _ _ _ (buffer s) (Z.to_nat (slength s))) by (done || lia). unfold overwrite.
  rewrite take_take, Nat.min_id, drop_ge by len. by rewrite app_nil_r.
Qed.

(** ** Readers refine slicing of the content *)

Lemma overwrite_length pos data c :
  (pos <= length c)%nat -> length (overwrite pos data c) = Nat.max (length c) (pos + length data).
Proof. intros. unfold overwrite. len. Qed.

Lemma wf_content_length s : wf s -> zlen (content s) = slength s.
Proof. intros [Hp Hl]. unfold content, zlen in *. len. Qed.

Lemma wf_cursor s : wf s -> (cursor s <= length (content s))%nat.
Proof.
  intros Hwf. pose proof (wf_content_length s Hwf). destruct Hwf as [Hp Hl].
  unfold cursor, zlen in *. lia.
Qed.

Lemma wf_advance s n : wf s -> 0 <= n -> position s + n <= slength s ->
  wf (set_position (position s + n) s).
Proof. intros [Hp Hl] ??. unfold wf. simpl. lia. Qed.

(** A reader that succeeds returns the next [n] bytes and moves past them. *)
Lemma read_fixed_spec n s :
  wf s -> 0 <= n <= maxFrameSize -> position s + n <= slength s ->
  read_fixed n s =
    (Ok (take (Z.to_nat n) (drop (cursor s) (content s))),
     set_position (position s + n) s).
Proof.
  intros [Hp Hl] Hn Hfit. unfold maxFrameSize in *.
  unfold read_fixed, ensureReadable, advance, get_at, modify, ret, get, bind, maxFrameSize.
  rewrite (proj2 (Z.ltb_ge n 0)), (proj2 (Z.ltb_ge (256 * 1024) n)) by lia. cbn [orb].
  rewrite int64_id by (unfold in_int64; lia).
  rewrite (proj2 (Z.ltb_ge (slength s) (position s + n))) by lia.
  rewrite (proj2 (Z.leb_le 0 (position s))), (proj2 (Z.leb_le 0 n)),
    (proj2 (Z.leb_le (position s + n) (zlen (buffer s)))) by lia.
  cbn [andb]. rewrite int64_id by (unfold in_int64; lia). do 2 f_equal. unfold content, cursor.
  rewrite skipn_firstn_comm, take_take. f_equal. lia.
Qed.

(** A reader that asks for more than is left fails and leaves the stream as
    it was. *)
Lemma read_fixed_short n s :
  wf s -> 0 <= n <= maxFrameSize -> slength s < position s + n ->
  read_fixed n s = (Err (Errorf "not enough data in buffer" []), s).
Proof.
  intros [Hp Hl] Hn Hfit. unfold maxFrameSize in *.
  unfold read_fixed, ensureReadable, fail, get, bind, maxFrameSize.
  rewrite (proj2 (Z.ltb_ge n 0)), (proj2 (Z.ltb_ge (256 * 1024) n)) by lia. cbn [orb].
  rewrite int64_id by (unfold in_int64; lia).
  by rewrite (proj2 (Z.ltb_lt (slength s) (position s + n))) by lia.
Qed.

(** ** Values on the wire *)

(** A value the stream can carry, with its type. *)
Inductive value :=
| VByte (v : byte)
| VBool (v : bool)
| VInt16 (v : Z)
| VInt32 (v : Z)
| VInt64 (v : Z)
| VFloat32 (bits : Z)
| VFloat64 (bits : Z)
| VBytes (b : bytes)
| VString (s : bytes).

(** The Go types bound the numbers; the readers bound the lengths. *)
Definition value_ok (v : value) : Prop :=
  match v with
  | VByte _ | VBool _ => True
  | VInt16 z => - 2 ^ 15 <= z < 2 ^ 15
  | VInt32 z => - 2 ^ 31 <= z < 2 ^ 31
  | VInt64 z => - 2 ^ 63 <= z < 2 ^ 63
  | VFloat32 z => 0 <= z < 2 ^ 32
  | VFloat64 z => 0 <= z < 2 ^ 64
  | VBytes b | VString b => zlen b <= maxFrameSize
  end.

(** The two halves of it: a number is one of its Go type, and a string or a
    byte slice is no longer than the readers accept. *)
Definition typed (v : value) : Prop :=
  match v with
  | VBytes _ | VString _ => True
  | _ => value_ok v
  end.

Definition carried (v : value) : Prop :=
  match v with
  | VBytes b | VString b => zlen b <= maxFrameSize
  | _ => True
  end.

Definition write_value (v : value) : GoM NetworkStream unit :=
  match v with
  | VByte v => WriteByte v
  | VBool v => WriteBool v
  | VInt16 z => WriteInt16 z
  | VInt32 z => WriteInt32 z
  | VInt64 z => WriteInt64 z
  | VFloat32 z => WriteFloat32 z
  | VFloat64 z => WriteDouble z
  | VBytes b => WriteBytes b
  | VString b => WriteString b
  end.

(** Read a value of the type of [v]; the length of raw bytes is not on the
    wire, the reader has to know it. *)
Definition read_value (v : value) : GoM NetworkStream value :=
  match v with
  | VByte _ => do x <- ReadByte; ret (VByte x)
  | VBool _ => do x <- ReadBool; ret (VBool x)
  | VInt16 _ => do x <- ReadInt16; ret (VInt16 x)
  | VInt32 _ => do x <- ReadInt32; ret (VInt32 x)
  | VInt64 _ => do x <- ReadInt64; ret (VInt64 x)
  | VFloat32 _ => do x <- ReadFloat32; ret (VFloat32 x)
  | VFloat64 _ => do x <- ReadDouble; ret (VFloat64 x)
  | VBytes b => do x <- ReadBytes (zlen b); ret (VBytes x)
  | VString _ => do x <- ReadString; ret (VString x)
  end.

Fixpoint write_values (vs : list value) : GoM NetworkStream unit :=
  match vs with
  | [] => ret tt
  | v :: vs => write_value v ;; write_values vs
  end.

Fixpoint read_values (vs : list value) : GoM NetworkStream (list value) :=
  match vs with
  | [] => ret []
  | v :: vs => do x <- read_value v; do xs <- read_values vs; ret (x :: xs)
  end.

(** The bytes a value takes on the wire. *)
Definition encode_value (v : value) : bytes :=
  match v with
  | VByte v => [v]
  | VBool v => [if v then Byte.x01 else Byte.x00]
  | VInt16 z => le_put 2 (uwrap 16 z)
  | VInt32 z => le_put 4 (uwrap 32 z)
  | VInt64 z => le_put 8 (uwrap 64 z)
  | VFloat32 z => le_put 4 z
  | VFloat64 z => le_put 8 z
  | VBytes b => b
  | VString b => le_put 4 (uwrap 32 (swrap 32 (zlen b))) ++ b
  end.

Definition encode_values (vs : list value) : bytes := concat (encode_value <$> vs).

(** ** Sequences of writes and reads *)

Lemma overwrite_app p d1 d2 c :
  (p <= length c)%nat ->
  overwrite (p + length d1) d2 (overwrite p d1 c) = overwrite p (d1 ++ d2) c.
Proof.
  intros Hp. unfold overwrite.
  rewrite (take_app_ge (take p c)) by len. rewrite (drop_app_ge (take p c)) by len.
  replace (p + length d1 - length (take p c))%nat with (length d1) by len.
  replace (p + length d1 + length d2 - length (take p c))%nat with (length d1 + length d2)%nat by len.
  rewrite take_app_length, drop_app_add, drop_drop, <- !app_assoc.
  do 4 f_equal. len.
Qed.

Lemma drop_overwrite p d c :
  (p <= length c)%nat -> drop p (overwrite p d c) = d ++ drop (p + length d) c.
Proof.
  intros Hp. unfold overwrite. rewrite drop_app_length' by len. done.
Qed.

Lemma write_post_app d1 d2 s s1 s2 :
  wf s -> write_post d1 s s1 -> write_post d2 s1 s2 -> write_post (d1 ++ d2) s s2.
Proof.
  intros Hwf (W1 & C1 & P1 & N1 & L1 & H1 & X1) (W2 & C2 & P2 & N2 & L2 & H2 & X2).
  unfold write_post. rewrite zlen_app, length_app. split_and!; try done; try lia; try congruence.
  rewrite C2, C1, P1. apply overwrite_app. by apply wf_cursor.
Qed.

Lemma room_write n d s s' : room (zlen d + n) s -> write_post d s s' -> room n s'.
Proof.
  intros [R1 R2] (W1 & C1 & P1 & N1 & L1 & _). split; [done|]. lia.
Qed.

Lemma room_le n m s : n <= m -> room m s -> room n s.
Proof. intros ? [??]. split; [done|lia]. Qed.

Lemma write_value_spec v s :
  wf s -> room (zlen (encode_value v)) s ->
  exists s', write_value v s = (Ok tt, s') /\ write_post (encode_value v) s s'.
Proof.
  intros Hwf Hroom. destruct v as [v|[]|z|z|z|z|z|b|b]; cbn [write_value encode_value] in *;
    try (by apply write_fixed_spec); [by apply WriteBytes_spec|].
  unfold WriteString, WriteInt32. rewrite zlen_app in Hroom.
  destruct (write_fixed_spec (le_put 4 (uwrap 32 (swrap 32 (zlen b)))) s) as (s1 & E1 & P1); [done| |].
  { eapply room_le; [|exact Hroom]. pose proof (zlen_nonneg b). lia. }
  rewrite (bind_Ok _ _ _ _ _ E1).
  destruct (WriteBytes_spec b s1) as (s2 & E2 & P2); [by destruct P1|by eapply room_write|].
  exists s2. split; [done|]. by eapply write_post_app.
Qed.

Lemma write_values_spec vs s :
  wf s -> room (zlen (encode_values vs)) s ->
  exists s', write_values vs s = (Ok tt, s') /\ write_post (encode_values vs) s s'.
Proof.
  revert s. induction vs as [|v vs IH]; intros s Hwf Hroom.
  - exists s. split; [done|]. unfold write_post, overwrite, zlen. simpl.
    rewrite Nat.add_0_r, take_drop. destruct Hroom. split_and!; try done; lia.
  - change (encode_values (v :: vs)) with (encode_value v ++ encode_values vs) in *.
    rewrite zlen_app in Hroom. pose proof (zlen_nonneg (encode_values vs)).
    destruct (write_value_spec v s) as (s1 & E1 & P1); [done|eapply room_le; [|done]; lia|].
    destruct (IH s1) as (s2 & E2 & P2); [by destruct P1|by eapply room_write|].
    exists s2. cbn [write_values]. rewrite (bind_Ok _ _ _ _ _ E1). split; [done|].
    by eapply write_post_app.
Qed.

Lemma wf_drop data rest s :
  wf s -> drop (cursor s) (content s) = data ++ rest ->
  wf (set_position (position s + zlen data) s).
Proof.
  intros Hwf E. apply wf_advance; [done|apply zlen_nonneg|].
  apply (f_equal length) in E. rewrite length_drop, length_app in E.
  pose proof (wf_content_length s Hwf). destruct Hwf as [Hp Hl].
  unfold cursor, zlen in *. lia.
Qed.

(** Reading back the encoding of a fixed-width field. *)
Lemma read_field data rest s :
  wf s -> zlen data <= maxFrameSize -> drop (cursor s) (content s) = data ++ rest ->
  read_fixed (zlen data) s = (Ok data, set_position (position s + zlen data) s).
Proof.
  intros Hwf Hmax E. pose proof (zlen_nonneg data).
  assert (position s + zlen data <= slength s) as Hfit
    by apply (proj1 (wf_drop _ _ _ Hwf E)).
  rewrite read_fixed_spec by (done || lia). rewrite E. unfold zlen at 1. rewrite Nat2Z.id.
  by rewrite take_app_length.
Qed.

Lemma cursor_advance n s : 0 <= position s -> 0 <= n ->
  cursor (set_position (position s + n) s) = (cursor s + Z.to_nat n)%nat.
Proof. intros. unfold cursor. simpl. lia. Qed.

(** The cursor after a field of [data] stands before [rest]. *)
Lemma drop_advance data rest s :
  wf s -> drop (cursor s) (content s) = data ++ rest ->
  drop (cursor (set_position (position s + zlen data) s))
    (content (set_position (position s + zlen data) s)) = rest.
Proof.
  intros [[Hp _] _] E. rewrite cursor_advance by (done || apply zlen_nonneg).
  change (content (set_position _ s)) with (content s).
  rewrite <- drop_drop, E. unfold zlen. by rewrite Nat2Z.id, drop_app_length.
Qed.

Lemma swrap_le_get n w z :
  w = 8 * Z.of_nat n -> 0 < w -> - 2 ^ (w - 1) <= z < 2 ^ (w - 1) ->
  swrap w (le_get (le_put n (uwrap w z))) = z.
Proof.
  intros -> Hw Hz. rewrite le_get_put, swrap_uwrap, swrap_uwrap by done. by apply swrap_id.
Qed.

Lemma bind_read_field {A} n data rest s (k : bytes -> GoM NetworkStream A) :
  wf s -> n = zlen data -> zlen data <= maxFrameSize ->
  drop (cursor s) (content s) = data ++ rest ->
  bind (read_fixed n) k s = k data (set_position (position s + zlen data) s).
Proof. intros Hwf -> Hmax E. apply bind_Ok. by eapply read_field. Qed.

Lemma read_string_spec b rest s :
  zlen b <= maxFrameSize -> wf s ->
  drop (cursor s) (content s) = encode_value (VString b) ++ rest ->
  ReadString s = (Ok b, set_position (position s + zlen (encode_value (VString b))) s).
Proof.
  intros Hb Hwf E. cbn [encode_value] in *. rewrite <- app_assoc in E.
  pose proof (zlen_nonneg b). unfold maxFrameSize in Hb.
  set (hd := le_put 4 (uwrap 32 (swrap 32 (zlen b)))) in *.
  unfold ReadString, ReadInt32. rewrite bind_assoc.
  rewrite (bind_read_field 4 hd (b ++ rest)) by (done || (unfold maxFrameSize; lia)).
  unfold bind at 1, ret at 1.
  assert (swrap 32 (le_get hd) = zlen b) as ->.
  { unfold hd. rewrite swrap_le_get by (done || apply swrap_range; lia).
    apply swrap_id; simpl; lia. }
  rewrite (proj2 (Z.ltb_ge (zlen b) 0)), (proj2 (Z.ltb_ge maxFrameSize (zlen b)))
    by (unfold maxFrameSize; lia).
  cbn [orb]. unfold ReadBytes.
  rewrite (proj2 (Z.ltb_ge (zlen b) 0)), (proj2 (Z.ltb_ge maxFrameSize (zlen b)))
    by (unfold maxFrameSize; lia).
  cbn [orb].
  assert (wf (set_position (position s + zlen hd) s)) as Hwf1
    by (eapply wf_drop; eauto).
  rewrite (read_field b rest _ Hwf1) by (done || by eapply drop_advance).
  cbn [position set_position]. rewrite zlen_app, Z.add_assoc. done.
Qed.

Lemma read_value_spec v rest s :
  value_ok v -> wf s -> drop (cursor s) (content s) = encode_value v ++ rest ->
  read_value v s = (Ok v, set_position (position s + zlen (encode_value v)) s).
Proof.
  intros Hok Hwf E.
  destruct v as [v|v|z|z|z|z|z|b|b]; cbn [value_ok read_value encode_value] in *;
    unfold ReadByte, ReadBool, ReadInt16, ReadInt32, ReadInt64, ReadFloat32, ReadDouble,
      ReadFloat64, ReadByte, ReadBytes; rewrite ?bind_assoc.
  - by rewrite (bind_read_field 1 [v] rest).
  - rewrite (bind_read_field 1 [if v then Byte.x01 else Byte.x00] rest) by done. by destruct v.
  - rewrite (bind_read_field 2 (le_put 2 (uwrap 16 z)) rest) by done. unfold bind, ret. by rewrite swrap_le_get.
  - rewrite (bind_read_field 4 (le_put 4 (uwrap 32 z)) rest) by done. unfold bind, ret. by rewrite swrap_le_get.
  - rewrite (bind_read_field 8 (le_put 8 (uwrap 64 z)) rest) by done. unfold bind, ret. by rewrite swrap_le_get.
  - rewrite (bind_read_field 4 (le_put 4 z) rest) by done. unfold bind, ret.
    rewrite le_get_put, uwrap_id by done. done.
  - rewrite (bind_read_field 8 (le_put 8 z) rest) by done. unfold bind, ret.
    rewrite le_get_put, uwrap_id by done. done.
  - pose proof (zlen_nonneg b).
    rewrite (proj2 (Z.ltb_ge (zlen b) 0)), (proj2 (Z.ltb_ge maxFrameSize (zlen b))) by lia.
    cbn [orb]. by rewrite (bind_read_field (zlen b) b rest).
  - by rewrite (bind_Ok _ _ _ _ _ (read_string_spec b rest s Hok Hwf E)).
Qed.

Lemma read_values_spec vs rest s :
  Forall value_ok vs -> wf s -> drop (cursor s) (content s) = encode_values vs ++ rest ->
  read_values vs s = (Ok vs, set_position (position s + zlen (encode_values vs)) s).
Proof.
  revert s. induction vs as [|v vs IH]; intros s Hok Hwf E.
  - cbn. unfold ret, zlen. simpl. rewrite Z.add_0_r. by destruct s.
  - change (encode_values (v :: vs)) with (encode_value v ++ encode_values vs) in *.
    rewrite <- app_assoc in E. apply Forall_cons in Hok as [Hv Hvs].
    cbn [read_values]. rewrite (bind_Ok _ _ _ _ _ (read_value_spec v _ s Hv Hwf E)).
    pose proof (drop_advance _ _ _ Hwf E) as E1.
    rewrite (bind_Ok _ _ _ _ _ (IH _ Hvs (wf_drop _ _ _ Hwf E) E1)).
    cbn [position set_position]. unfold ret. by rewrite zlen_app, Z.add_assoc.
Qed.

(** *** The limit of the readers *)

Lemma value_ok_carried vs : Forall typed vs -> Forall carried vs -> Forall value_ok vs.
Proof.
  intros Ht Hc. apply Forall_forall. intros v Hv.
  rewrite Forall_forall in Ht. rewrite Forall_forall in Hc.
  specialize (Ht v Hv). specialize (Hc v Hv). by destruct v.
Qed.

(** Neither reader ever returns more than [maxFrameSize] bytes. *)
Lemma ReadBytes_limit n s d s' : ReadBytes n s = (Ok d, s') -> zlen d <= maxFrameSize.
Proof.
  unfold ReadBytes. case_if; [discriminate|]. intros E. bools.
  apply bind_inv_Ok in E as (? & s1 & _ & E). apply bind_inv_Ok in E as (s2 & s3 & _ & E).
  apply bind_inv_Ok in E as (b & s4 & E & E'). apply bind_inv_Ok in E' as (? & s5 & _ & E').
  injection E' as -> _. unfold get_at in E.
  destruct ((0 <=? _) && _ && _); [|discriminate]. injection E as <- _.
  unfold zlen. rewrite length_take. lia.
Qed.

Lemma ReadString_limit s d s' : ReadString s = (Ok d, s') -> zlen d <= maxFrameSize.
Proof.
  unfold ReadString. intros E. apply bind_inv_Ok in E as (n & s1 & _ & E).
  destruct ((n <? 0) || _); [discriminate|]. by eapply ReadBytes_limit.
Qed.

Lemma read_value_carried v s s' : read_value v s = (Ok v, s') -> carried v.
Proof.
  destruct v; try done; cbn [read_value carried]; intros E;
    apply bind_inv_Ok in E as (d & s1 & E & [= -> _]).
  - by eapply ReadBytes_limit.
  - by eapply ReadString_limit.
Qed.

Lemma read_values_carried vs s s' : read_values vs s = (Ok vs, s') -> Forall carried vs.
Proof.
  revert s s'. induction vs as [|v vs IH]; intros s s' E; [constructor|]. cbn [read_values] in E.
  apply bind_inv_Ok in E as (x & s1 & E & E'). apply bind_inv_Ok in E' as (xs & s2 & E' & [= -> -> _]).
  constructor; [exact (read_value_carried _ _ _ E)|exact (IH _ _ E')].
Qed.

(** ** Abstract specification: a byte string with a cursor *)

Record file := mkFile { fcontent : bytes; fcursor : nat }.

Definition abs (s : NetworkStream) : file := mkFile (content s) (cursor s).

Definition file_write (data : bytes) : GoM file unit :=
  modify (fun f => mkFile (overwrite (fcursor f) data (fcontent f)) (fcursor f + length data)).

Definition file_append (data : bytes) : GoM file unit :=
  modify (fun f => mkFile (fcontent f ++ data) (fcursor f)).

Definition file_seek (pos : Z) : GoM file unit := fun f =>
  if (0 <=? pos) && (pos <=? zlen (fcontent f))
  then (Ok tt, mkFile (fcontent f) (Z.to_nat pos))
  else (Err (Errorf "position out of bounds" []), f).

Definition file_read (n : Z) : GoM file bytes := fun f =>
  if (n <? 0) || (maxFrameSize <? n) then (Err (Errorf "invalid read size" []), f)
  else if zlen (fcontent f) <? Z.of_nat (fcursor f) + n
  then (Err (Errorf "not enough data in buffer" []), f)
  else (Ok (take (Z.to_nat n) (drop (fcursor f) (fcontent f))),
        mkFile (fcontent f) (fcursor f + Z.to_nat n)).

Definition file_read_value (v : value) : GoM file value :=
  match v with
  | VByte _ => do b <- file_read 1; match b with x :: _ => ret (VByte x) | [] => panic end
  | VBool _ => do b <- file_read 1;
      match b with x :: _ => ret (VBool (negb (b2z x =? 0))) | [] => panic end
  | VInt16 _ => do b <- file_read 2; ret (VInt16 (swrap 16 (le_get b)))
  | VInt32 _ => do b <- file_read 4; ret (VInt32 (swrap 32 (le_get b)))
  | VInt64 _ => do b <- file_read 8; ret (VInt64 (swrap 64 (le_get b)))
  | VFloat32 _ => do b <- file_read 4; ret (VFloat32 (le_get b))
  | VFloat64 _ => do b <- file_read 8; ret (VFloat64 (le_get b))
  | VBytes d => do b <- file_read (zlen d); ret (VBytes b)
  | VString _ =>
      do h <- file_read 4;
      let n := swrap 32 (le_get h) in
      if (n <? 0) || (maxFrameSize <? n) then fail (Errorf "string length overflow" [])
      else do b <- file_read n; ret (VString b)
  end.

(** The public operations, concretely and abstractly. *)
Inductive stream_op :=
| OpAppend (data : bytes)
| OpWrite (v : value)
| OpRead (v : value)
| OpReadBytes (n : Z)
| OpSetPosition (pos : Z)
| OpSeek (offset : Z) (origin : SeekOrigin)
| OpReset.

Definition run_op (o : stream_op) : GoM NetworkStream (option value) :=
  match o with
  | OpAppend d => Append d ;; ret None
  | OpWrite v => write_value v ;; ret None
  | OpRead v => do x <- read_value v; ret (Some x)
  | OpReadBytes n => do b <- ReadBytes n; ret (Some (VBytes b))
  | OpSetPosition p => SetPosition p ;; ret None
  | OpSeek off org => Seek off org ;; ret None
  | OpReset => Reset ;; ret None
  end.

Definition file_op (o : stream_op) : GoM file (option value) :=
  match o with
  | OpAppend d => file_append d ;; ret None
  | OpWrite v => file_write (encode_value v) ;; ret None
  | OpRead v => do x <- file_read_value v; ret (Some x)
  | OpReadBytes n => do b <- file_read n; ret (Some (VBytes b))
  | OpSetPosition p => file_seek p ;; ret None
  | OpSeek off SeekBegin => file_seek off ;; ret None
  | OpSeek off SeekCurrent => do f <- get; file_seek (int64 (Z.of_nat (fcursor f) + off)) ;; ret None
  | OpSeek off SeekEnd => do f <- get; file_seek (int64 (zlen (fcontent f) + off)) ;; ret None
  | OpSeek _ (SeekOther _) => fail (Errorf "invalid seek origin" [])
  | OpReset => put (mkFile [] 0) ;; ret None
  end.

(** Bytes an operation may add to the stream. *)
Definition op_size (o : stream_op) : Z :=
  match o with
  | OpAppend d => zlen d
  | OpWrite v => zlen (encode_value v)
  | _ => 0
  end.

(** The concrete computation does what the abstract one does. *)
Definition refines {A} (s : NetworkStream) (m : GoM NetworkStream A) (m' : GoM file A) : Prop :=
  exists r s', m s = (r, s') /\ m' (abs s) = (r, abs s') /\ wf s'
    /\ r <> Panic /\ r <> Diverge
    /\ (0 < zlen (buffer s) -> 0 < zlen (buffer s')).

Lemma refines_ret {A} s (a : A) : wf s -> refines s (ret a) (ret a).
Proof. intros Hwf. by exists (Ok a), s. Qed.

Lemma refines_fail {A} s e : wf s -> refines s (fail e : GoM _ A) (fail e).
Proof. intros Hwf. by exists (Err e), s. Qed.

Lemma refines_bind {A B} s (m : GoM NetworkStream A) m' (k : A -> GoM NetworkStream B) k' :
  refines s m m' ->
  (forall a s', m s = (Ok a, s') -> wf s' -> refines s' (k a) (k' a)) ->
  refines s (bind m k) (bind m' k').
Proof.
  intros (r & s1 & E & E' & Hwf & Hp & Hd & Hb) Hk. unfold refines, bind.
  rewrite E, E'. destruct r as [a|e| |]; try done.
  - destruct (Hk a s1 E Hwf) as (r2 & s2 & -> & -> & ? & ? & ? & ?).
    exists r2, s2. split_and!; auto.
  - by exists (Err e), s1.
Qed.

Lemma wf_zlen_content s : wf s -> zlen (fcontent (abs s)) = slength s.
Proof. apply wf_content_length. Qed.

Lemma cursor_Z s : wf s -> Z.of_nat (cursor s) = position s.
Proof. intros [[? _] _]. unfold cursor. lia. Qed.

Lemma refines_read n s : wf s -> refines s (ReadBytes n) (file_read n).
Proof.
  intros Hwf. unfold ReadBytes, file_read, refines.
  rewrite wf_zlen_content by done. cbn [fcursor fcontent abs]. rewrite cursor_Z by done.
  case_if; [by exists (Err (Errorf "invalid read size" [])), s|].
  bools. case_if.
  - rewrite read_fixed_short by (done || lia). by eexists _, s.
  - rewrite read_fixed_spec by (done || lia). eexists _, _. split; [done|].
    split_and!; try done; [|by apply wf_advance].
    unfold abs. destruct Hwf as [[??]?]. by rewrite cursor_advance by lia.
Qed.

Lemma refines_read_fixed n s :
  0 <= n <= maxFrameSize -> wf s -> refines s (read_fixed n) (file_read n).
Proof.
  intros Hn Hwf. pose proof (refines_read n s Hwf) as H. unfold ReadBytes in H.
  rewrite (proj2 (Z.ltb_ge n 0)), (proj2 (Z.ltb_ge maxFrameSize n)) in H by lia. exact H.
Qed.

(** The bytes a successful read returns are as many as were asked for. *)
Lemma read_fixed_length n s b s' :
  wf s -> 0 <= n <= maxFrameSize -> read_fixed n s = (Ok b, s') -> zlen b = n.
Proof.
  intros Hwf Hn H. destruct (decide (position s + n <= slength s)) as [Hfit|Hfit].
  - rewrite read_fixed_spec in H by done. inv H.
    pose proof (wf_content_length s Hwf). pose proof (cursor_Z s Hwf).
    unfold zlen in *. len.
  - rewrite read_fixed_short in H by (done || lia). done.
Qed.

Lemma refines_bind_read {A} n s (k : bytes -> GoM NetworkStream A) k' :
  wf s -> 0 <= n <= maxFrameSize ->
  (forall b s', zlen b = n -> wf s' -> refines s' (k b) (k' b)) ->
  refines s (bind (read_fixed n) k) (bind (file_read n) k').
Proof.
  intros Hwf Hn Hk. apply refines_bind; [by apply refines_read_fixed|].
  intros b s' E Hwf'. apply Hk; [|done]. exact (read_fixed_length n s b s' Hwf Hn E).
Qed.

(** [refines] only looks at the computations at the state. *)
Lemma refines_ext {A} s (m1 m2 : GoM NetworkStream A) m1' m2' :
  m1 s = m2 s -> m1' (abs s) = m2' (abs s) -> refines s m2 m2' -> refines s m1 m1'.
Proof. unfold refines. by intros -> ->. Qed.

Lemma refines_read_value v s :
  wf s -> refines s (read_value v) (file_read_value v).
Proof.
  intros Hwf.
  destruct v as [v|v|z|z|z|z|z|d|d]; cbn [read_value file_read_value];
    unfold ReadBool, ReadByte, ReadInt16, ReadInt32, ReadInt64, ReadFloat32, ReadDouble,
      ReadFloat64, ReadString, ReadInt32;
    try (eapply refines_ext; [rewrite ?bind_assoc; reflexivity|reflexivity|]).
  8: { apply refines_bind; [by apply refines_read|]. intros. by apply refines_ret. }
  8: { apply refines_bind_read; [done|unfold maxFrameSize; lia|]. intros b s' Hb Hwf'.
       unfold bind at 1 2, ret at 1. case_if; [by apply refines_fail|].
       apply refines_bind; [by apply refines_read|]. intros. by apply refines_ret. }
  all: apply refines_bind_read; [done|unfold maxFrameSize; lia|]; intros b s' Hb Hwf'.
  all: try (unfold bind, ret; by apply refines_ret).
  all: destruct b; [done|]; unfold bind, ret; by apply refines_ret.
Qed.

Lemma refines_write_value v s :
  wf s -> room (zlen (encode_value v)) s ->
  refines s (write_value v) (file_write (encode_value v)).
Proof.
  intros Hwf Hroom. destruct (write_value_spec v s Hwf Hroom) as (s' & E & P).
  destruct P as (? & Hc & Hp & ? & _). exists (Ok tt), s'. split_and!; try done.
  unfold abs, file_write, modify. cbn [fcontent fcursor]. by rewrite Hc, Hp.
Qed.

Lemma refines_SetPosition p s : wf s -> refines s (SetPosition p) (file_seek p).
Proof.
  intros Hwf. unfold SetPosition, file_seek, refines, bind, get.
  rewrite wf_zlen_content by done.
  destruct ((p <? 0) || (slength s <? p)) eqn:E.
  - exists (Err (Errorf "position out of bounds" [])), s. split; [done|].
    replace ((0 <=? p) && (p <=? slength s)) with false; [done|]. lia.
  - bools. exists (Ok tt), (set_position p s). split; [done|].
    rewrite (proj2 (Z.leb_le 0 p)), (proj2 (Z.leb_le p (slength s))) by lia.
    split_and!; try done. destruct Hwf as [??]. unfold wf. simpl. lia.
Qed.

Lemma refines_seq {A} s (m : GoM NetworkStream A) m' :
  refines s m m' -> refines s (m ;; ret (@None value)) (m' ;; ret None).
Proof. intros H. apply refines_bind; [done|]. intros. by apply refines_ret. Qed.

(** An operation acts on the abstract file as its specification says, and
    keeps the invariant. *)
Lemma run_op_refines o s :
  wf s -> room (op_size o) s -> refines s (run_op o) (file_op o).
Proof.
  intros Hwf Hroom. destruct o as [d|v|v|n|p|off org|]; cbn [run_op file_op].
  - apply refines_seq. destruct (Append_spec d s) as (s' & E & ? & Hc & Hp & ? & _); [done..|].
    exists (Ok tt), s'. split_and!; try done.
    unfold file_append, modify, abs. by rewrite Hc, Hp.
  - by apply refines_seq, refines_write_value.
  - apply refines_bind; [|intros; by apply refines_ret].
    by apply refines_read_value.
  - apply refines_bind; [by apply refines_read|]. intros. by apply refines_ret.
  - by apply refines_seq, refines_SetPosition.
  - destruct org.
    + by apply refines_seq, refines_SetPosition.
    + eapply (refines_ext _ _ (SetPosition (int64 (position s + off)) ;; ret None)); [done| |].
      * unfold bind at 1, get. change (fcursor (abs s)) with (cursor s). by rewrite cursor_Z.
      * by apply refines_seq, refines_SetPosition.
    + eapply (refines_ext _ _ (SetPosition (int64 (slength s + off)) ;; ret None)); [done| |].
      * unfold bind at 1, get. by rewrite wf_zlen_content.
      * by apply refines_seq, refines_SetPosition.
    + by apply refines_fail.
  - apply refines_seq. eexists (Ok tt), _. split; [done|].
    split_and!; try done. destruct Hwf as [??]. unfold wf. simpl. lia.
Qed.

(** Sequences of operations: every operation runs whether or not the one
    before it returned an error. *)
Fixpoint run_ops (os : list stream_op) (s : NetworkStream)
  : list (outcome (option value)) * NetworkStream :=
  match os with
  | [] => ([], s)
  | o :: os => let '(r, s1) := run_op o s in
               let '(rs, s2) := run_ops os s1 in (r :: rs, s2)
  end.

Fixpoint file_ops (os : list stream_op) (f : file) : list (outcome (option value)) * file :=
  match os with
  | [] => ([], f)
  | o :: os => let '(r, f1) := file_op o f in
               let '(rs, f2) := file_ops os f1 in (r :: rs, f2)
  end.

Definition ops_size (os : list stream_op) : Z := foldr (fun o n => op_size o + n) 0 os.

Lemma op_size_nonneg o : 0 <= op_size o.
Proof. destruct o; simpl; auto with go; lia. Qed.

Lemma ops_size_nonneg os : 0 <= ops_size os.
Proof. induction os as [|o os IH]; simpl; [lia|]. pose proof (op_size_nonneg o). lia. Qed.

Lemma file_read_content n f r f' : file_read n f = (r, f') -> fcontent f' = fcontent f.
Proof. unfold file_read. intros H. repeat case_if_in H; by simplify_eq. Qed.

Lemma file_read_value_content v f r f' :
  file_read_value v f = (r, f') -> fcontent f' = fcontent f.
Proof.
  assert (forall A n (k : bytes -> GoM file A) f r f', bind (file_read n) k f = (r, f') ->
    (forall b g r g', k b g = (r, g') -> fcontent g' = fcontent g) ->
    fcontent f' = fcontent f) as Hb.
  { clear. intros A n k f r f' H Hk. unfold bind in H.
    destruct (file_read n f) as [r1 f1] eqn:E. apply file_read_content in E.
    destruct r1; simplify_eq; try done. rewrite <- E. by eapply Hk. }
  intros H. destruct v; cbn [file_read_value] in H; apply Hb in H; try done;
    unfold ret, panic, fail; intros b0 g r0 g' Hk; try by simplify_eq.
  all: try (destruct b0; by simplify_eq).
  case_if_in Hk; [by simplify_eq|]. apply Hb in Hk; [done|]. intros. by simplify_eq.
Qed.

Lemma file_seek_content p f r f' : file_seek p f = (r, f') -> fcontent f' = fcontent f.
Proof. unfold file_seek. intros H. case_if_in H; by simplify_eq. Qed.

(** An operation makes the content longer by at most its size. *)
Lemma file_op_length o f r f' :
  (fcursor f <= length (fcontent f))%nat -> file_op o f = (r, f') ->
  zlen (fcontent f') <= zlen (fcontent f) + op_size o.
Proof.
  intros Hc H. pose proof (zlen_nonneg (fcontent f)).
  assert (forall A (m : GoM file A) k, (forall r g g', m g = (r, g') -> fcontent g' = fcontent g) ->
    (forall a g r g', (k a : GoM file (option value)) g = (r, g') -> g' = g) -> bind m k f = (r, f') ->
    fcontent f' = fcontent f) as Hb.
  { intros A m k Hm Hk Hx. unfold bind in Hx. destruct (m f) as [r1 f1] eqn:E. apply Hm in E.
    destruct r1; simplify_eq; try done. apply Hk in Hx. by subst. }
  destruct o as [d|v|v|n|p|off org|]; cbn [file_op op_size] in *.
  - unfold bind, file_append, modify, ret in H. simplify_eq. simpl. rewrite zlen_app. lia.
  - unfold bind, file_write, modify, ret in H. simplify_eq. simpl.
    unfold zlen. rewrite overwrite_length by done. lia.
  - apply Hb in H; [rewrite H; lia|intros; by eapply file_read_value_content|unfold ret; by intros; simplify_eq].
  - apply Hb in H; [rewrite H; lia|intros; by eapply file_read_content|unfold ret; by intros; simplify_eq].
  - apply Hb in H; [rewrite H; lia|intros; by eapply file_seek_content|unfold ret; by intros; simplify_eq].
  - destruct org; [|unfold bind at 1, get in H|unfold bind at 1, get in H|];
      try (apply Hb in H; [rewrite H; lia|intros; by eapply file_seek_content|unfold ret; by intros; simplify_eq]).
    unfold fail in H. simplify_eq. lia.
  - unfold bind, put, ret in H. simplify_eq. simpl. unfold zlen in *. simpl. lia.
Qed.

Lemma run_ops_refine os s :
  wf s -> room (ops_size os) s ->
  exists rs s', run_ops os s = (rs, s') /\ file_ops os (abs s) = (rs, abs s') /\
    wf s' /\ Forall returned rs.
Proof.
  revert s. induction os as [|o os IH]; intros s Hwf Hroom.
  - by exists [], s.
  - cbn [ops_size foldr] in Hroom. fold (ops_size os) in Hroom.
    pose proof (op_size_nonneg o). pose proof (ops_size_nonneg os).
    destruct (run_op_refines o s) as (r & s1 & E & E' & Hwf1 & Hp & Hd & Hb);
      [done|eapply room_le; [|done]; lia|].
    destruct (IH s1) as (rs & s2 & F & F' & Hwf2 & Hr); [done| |].
    { destruct Hroom as [Hne Hlen]. split; [auto|].
      apply file_op_length in E'; [|by apply wf_cursor].
      rewrite !wf_zlen_content in E' by done. lia. }
    exists (r :: rs), s2. cbn [run_ops file_ops]. rewrite E, E', F, F'.
    split_and!; try done. constructor; [|done]. by destruct r.
Qed.

(** ** Properties *)

Lemma wf_NewNetworkStream capacity :
  capacity < 2 ^ 61 ->
  wf (NewNetworkStream capacity) /\ abs (NewNetworkStream capacity) = mkFile [] 0 /\
  0 < zlen (buffer (NewNetworkStream capacity)).
Proof.
  intros Hc. unfold NewNetworkStream, wf, abs, content, cursor.
  cbn [position slength buffer]. rewrite zlen_make_bytes by (case_if; unfold defaultBufferSize; lia).
  split_and!; try done; case_if; unfold defaultBufferSize in *; lia.
Qed.

(** C1: writing any sequence of typed values at the cursor succeeds (the
    stream's array is not empty and stays below [2^61] bytes), and going back to
    where the writing started and reading values of the same types gives exactly
    the values written, with the cursor where the writing ended, if and only if
    no string and no byte slice among them is longer than [maxFrameSize]
    (256 KiB): the writers accept longer ones, the readers do not. *)
Theorem stream_roundtrip (vs : list value) (s : NetworkStream)
    (Hty : Forall typed vs) (Hwf : wf s) (Hroom : room (zlen (encode_values vs)) s) :
  exists s1 s2, write_values vs s = (Ok tt, s1) /\
    SetPosition (position s) s1 = (Ok tt, s2) /\
    (read_values vs s2 = (Ok vs, s1) <-> Forall carried vs).
Proof.
  destruct (write_values_spec vs s Hwf Hroom) as (s1 & E1 & W1 & C1 & P1 & _).
  pose proof (cursor_Z s Hwf) as Hcur. pose proof (cursor_Z s1 W1) as Hcur1.
  pose proof (zlen_nonneg (encode_values vs)).
  assert (position s1 = position s + zlen (encode_values vs)) as Hpos by (unfold zlen; lia).
  assert (wf (set_position (position s) s1)) as W2.
  { destruct W1, Hwf. unfold wf. simpl. lia. }
  exists s1, (set_position (position s) s1). split_and!; [done| |].
  - unfold SetPosition, bind, get. destruct W1, Hwf.
    rewrite (proj2 (Z.ltb_ge (position s) 0)), (proj2 (Z.ltb_ge (slength s1) (position s))) by lia.
    done.
  - split; [apply read_values_carried|]. intros Hc.
    rewrite (read_values_spec vs (drop (cursor s + length (encode_values vs)) (content s)));
      [|by apply value_ok_carried|done|].
    + cbn [position set_position]. rewrite <- Hpos. by destruct s1.
    + unfold cursor, content in *. cbn [position slength buffer set_position].
      rewrite C1. apply drop_overwrite. by apply wf_cursor.
Qed.

Lemma stream_roundtrip_witness :
  let vs := [VInt32 (-7); VString (str "hi"); VBool true; VInt64 (2 ^ 40); VBytes (str "xyz")] in
  exists s1 s2, write_values vs (NewNetworkStream 4) = (Ok tt, s1) /\
    SetPosition 0 s1 = (Ok tt, s2) /\ read_values vs s2 = (Ok vs, s1).
Proof.
  destruct (stream_roundtrip
    [VInt32 (-7); VString (str "hi"); VBool true; VInt64 (2 ^ 40); VBytes (str "xyz")]
    (NewNetworkStream 4)) as (s1 & s2 & E1 & E2 & E3).
  - repeat constructor; vm_compute; congruence.
  - apply wf_NewNetworkStream. lia.
  - split; vm_compute; reflexivity.
  - exists s1, s2. split_and!; [exact E1|exact E2|]. apply E3.
    repeat constructor; vm_compute; congruence.
Defined.

(** A string between the limit of the readers and [2^31] bytes is written
    without an error and cannot be read back. *)
Theorem long_string_unreadable (b : bytes) (s : NetworkStream)
    (Hb : maxFrameSize < zlen b < 2 ^ 31) (Hwf : wf s) (Hroom : room (4 + zlen b) s) :
  exists s1 s2, WriteString b s = (Ok tt, s1) /\
    SetPosition (position s) s1 = (Ok tt, s2) /\
    fst (ReadString s2) = Err (Errorf "string length overflow" []).
Proof.
  destruct (write_value_spec (VString b) s Hwf) as (s1 & E1 & W1 & C1 & P1 & _).
  { cbn [encode_value]. rewrite zlen_app. exact Hroom. }
  pose proof (wf_cursor s Hwf) as Hc. unfold maxFrameSize in Hb.
  exists s1, (set_position (position s) s1). split_and!; [exact E1| |].
  - unfold SetPosition, bind, get. pose proof (cursor_Z s Hwf). pose proof (cursor_Z s1 W1).
    destruct W1 as [[? ?] ?], Hwf.
    rewrite (proj2 (Z.ltb_ge (position s) 0)), (proj2 (Z.ltb_ge (slength s1) (position s))) by lia.
    done.
  - set (hd := le_put 4 (uwrap 32 (swrap 32 (zlen b)))).
    assert (swrap 32 (le_get hd) = zlen b) as Hn.
    { unfold hd. rewrite swrap_le_get by (done || apply swrap_range; lia).
      apply swrap_id; simpl; lia. }
    unfold ReadString, ReadInt32. rewrite bind_assoc.
    rewrite (bind_read_field 4 hd (b ++ drop (cursor s + length (encode_value (VString b))) (content s))).
    + unfold bind at 1, ret at 1. rewrite Hn.
      by rewrite (proj2 (Z.ltb_lt maxFrameSize (zlen b))), orb_true_r by (unfold maxFrameSize; lia).
    + pose proof (cursor_Z s Hwf). pose proof (cursor_Z s1 W1). destruct W1, Hwf. unfold wf. simpl. lia.
    + done.
    + done.
    + change (content (set_position _ s1)) with (content s1).
      change (cursor (set_position (position s) s1)) with (cursor s).
      rewrite C1, drop_overwrite by done. cbn [encode_value]. by rewrite <- app_assoc.
Qed.

(** C6: from a new stream of any capacity, every sequence of operations whose
    writes total less than [2^61] bytes returns (no panic, no endless loop),
    keeps the cursor inside the data and the data inside the array, and gives
    the results a plain byte string with a cursor gives. *)
Theorem stream_refines_file (capacity : Z) (os : list stream_op)
    (Hcap : capacity < 2 ^ 61) (Hsize : ops_size os < 2 ^ 61) :
  exists rs s', run_ops os (NewNetworkStream capacity) = (rs, s') /\
    file_ops os (mkFile [] 0) = (rs, abs s') /\ wf s' /\ Forall returned rs.
Proof.
  destruct (wf_NewNetworkStream capacity Hcap) as (Hwf & <- & Hne).
  apply run_ops_refine; [done|]. split; [done|]. simpl. lia.
Qed.

Lemma stream_refines_file_witness :
  let os := [OpWrite (VString (str "key")); OpAppend (str "tail"); OpSeek (-2) SeekEnd;
             OpReadBytes 2; OpReadBytes 1; OpSetPosition 99; OpSetPosition 0;
             OpRead (VString [])] in
  exists rs s', run_ops os (NewNetworkStream 1) = (rs, s') /\
    file_ops os (mkFile [] 0) = (rs, abs s') /\ wf s' /\ Forall returned rs.
Proof. apply stream_refines_file; vm_compute; reflexivity. Defined.

(** A stream made from no bytes can never be written to: its backing array
    has length zero, so the doubling loop of [ensureCapacity] starts at zero
    and does not leave after any number of iterations. *)
Theorem empty_stream_never_grows (data : bytes) (fuel : nat) (Hd : 0 < zlen data < 2 ^ 62) :
  grow_loop fuel (int64 (zlen (buffer (NewStreamFromBytes [])) * 2)) (zlen data) = None /\
  fst (WriteBytes data (NewStreamFromBytes [])) = Diverge /\
  fst (Append data (NewStreamFromBytes [])) = Diverge.
Proof.
  assert (ensureCapacity (int64 (0 + zlen data)) (NewStreamFromBytes [])
    = (Diverge, NewStreamFromBytes [])) as E.
  { unfold ensureCapacity. rewrite int64_id by (unfold in_int64; lia).
    change (zlen (buffer (NewStreamFromBytes []))) with 0.
    rewrite (proj2 (Z.leb_gt (0 + zlen data) 0)) by lia.
    change (int64 (0 * 2)) with 0. by rewrite grow_loop_zero by lia. }
  split_and!.
  - apply grow_loop_zero. lia.
  - unfold WriteBytes, bind, get. cbn [position NewStreamFromBytes]. by rewrite E.
  - unfold Append, bind, get. change (slength (NewStreamFromBytes [])) with 0. by rewrite E.
Qed.

Lemma empty_stream_never_grows_witness :
  fst (WriteBytes (str "a") (NewStreamFromBytes [])) = Diverge.
Proof. apply (empty_stream_never_grows (str "a") 10). vm_compute. split; reflexivity. Defined.

(** Growing a non-empty array terminates, keeps the bytes it held, reaches
    the required size and never more than doubles it. *)
Theorem ensureCapacity_bounds (required : Z) (s : NetworkStream)
    (Hb : 0 < zlen (buffer s) < 2 ^ 62) (Hr : 0 <= required < 2 ^ 61) :
  exists b, ensureCapacity required s = (Ok tt, set_buffer b s) /\
    required <= zlen b /\ take (length (buffer s)) b = buffer s /\
    zlen b <= Z.max (zlen (buffer s)) (2 * required).
Proof.
  unfold ensureCapacity. case_if.
  - exists (buffer s). split; [by destruct s|]. rewrite take_ge by lia. split_and!; try done; lia.
  - rewrite int64_id by (unfold in_int64; lia).
    destruct (grow_loop_spec 63 (zlen (buffer s) * 2) required) as (m & Hm & ? & ? & ?);
      [lia|lia|simpl; lia|].
    unfold growFuel. rewrite Hm. eexists. split; [done|].
    rewrite zlen_blit, zlen_make_bytes by lia. split_and!; [lia| |lia].
    apply (blit_read 0). unfold make_bytes, zlen in *. rewrite length_replicate. lia.
Qed.

Lemma ensureCapacity_bounds_witness :
  exists b, ensureCapacity 9 (NewNetworkStream 4) = (Ok tt, set_buffer b (NewNetworkStream 4)) /\
    9 <= zlen b /\ take (length (buffer (NewNetworkStream 4))) b = buffer (NewNetworkStream 4) /\
    zlen b <= Z.max (zlen (buffer (NewNetworkStream 4))) (2 * 9).
Proof. apply ensureCapacity_bounds; vm_compute; repeat split; congruence. Defined.

(** [ReadString] rejects a length prefix that is negative, above the frame
    limit or longer than the data left, and in all three cases the four bytes
    of the prefix stay consumed. *)
Theorem ReadString_rejects (hd rest : bytes) (s : NetworkStream) (n : Z)
    (Hwf : wf s) (Hhd : zlen hd = 4) (Hs : drop (cursor s) (content s) = hd ++ rest)
    (Hn : n = swrap 32 (le_get hd)) (Hbad : n < 0 \/ maxFrameSize < n \/ zlen rest < n) :
  ReadString s =
    (Err (if (n <? 0) || (maxFrameSize <? n) then Errorf "string length overflow" []
          else Errorf "not enough data in buffer" []),
     set_position (position s + 4) s).
Proof.
  unfold ReadString, ReadInt32. rewrite bind_assoc.
  rewrite (bind_read_field 4 hd rest) by (done || (rewrite Hhd; unfold maxFrameSize; lia)).
  unfold bind at 1, ret. rewrite <- Hn, Hhd.
  destruct ((n <? 0) || (maxFrameSize <? n)) eqn:E; [done|]. bools.
  unfold ReadBytes. rewrite (proj2 (Z.ltb_ge n 0)), (proj2 (Z.ltb_ge maxFrameSize n)) by lia.
  cbn [orb]. pose proof (wf_drop hd rest s Hwf Hs) as Hwf1. rewrite Hhd in Hwf1.
  apply read_fixed_short; [done|lia|]. cbn [position slength set_position].
  apply (f_equal length) in Hs. rewrite length_drop, length_app in Hs.
  pose proof (wf_content_length s Hwf). pose proof (cursor_Z s Hwf). unfold zlen in *. lia.
Qed.

Lemma ReadString_rejects_witness :
  ReadString (NewStreamFromBytes (le_put 4 5 ++ str "abc")) =
    (Err (Errorf "not enough data in buffer" []),
     set_position 4 (NewStreamFromBytes (le_put 4 5 ++ str "abc"))).
Proof.
  apply (ReadString_rejects (le_put 4 5) (str "abc")
    (NewStreamFromBytes (le_put 4 5 ++ str "abc")) 5); try reflexivity.
  - vm_compute. repeat split; congruence.
  - right. right. reflexivity.
Defined.
