(* ===== verification/StreamEvents.v ===== *)
(** * StreamEvents: the event side of a stream

    Models [Add], [AddError], [CloseStream] and [Listen] of
    [network/network_stream.go]: producers and one listener that share two
    buffered channels and a channel that is only closed.  A run is a sequence
    of steps: the test of the closed flag, the send, each close and each
    choice of the listener's [select] are steps of their own, so that calls
    interleave.  The buffer that [Add] also appends to is [NetworkStream]'s. *)

From S2P Require Import Prelude Bytes Conn Tcp.

(** Capacities of [ch] and [errCh]. *)
Definition dataCap : nat := 16.
Definition errCap : nat := 1.

Inductive listener := LIdle | LRunning | LDone.

Record events := mkEv {
  ev_ch : list bytes;
  ev_errCh : list error;
  ev_chClosed : bool;
  ev_errClosed : bool;
  ev_doneClosed : bool;
  ev_closed : bool;
  (** Sends that have passed the test of [closed]. *)
  ev_adding : list bytes;
  ev_addingErr : list error;
  (** Channels [CloseStream] has still to close. *)
  ev_closing : nat;
  ev_listener : listener;
  ev_log : list callback;
  ev_sent : list bytes;
  ev_panicked : bool;
}.

(** After [ensureStream]. *)
Definition ensureStream : events := mkEv [] [] false false false false [] [] 0 LIdle [] [] false.

Inductive ev_step : events -> events -> Prop :=
| Add_check d c e cc ec dc a ae n l log snt :
    ev_step (mkEv c e cc ec dc false a ae n l log snt false)
            (mkEv c e cc ec dc false (d :: a) ae n l log snt false)
| Add_send d c e ec dc cl a1 a2 ae n l log snt :
    length c < dataCap ->
    ev_step (mkEv c e false ec dc cl (a1 ++ d :: a2) ae n l log snt false)
            (mkEv (c ++ [d]) e false ec dc cl (a1 ++ a2) ae n l log (snt ++ [d]) false)
| Add_panic d c e ec dc cl a1 a2 ae n l log snt :
    ev_step (mkEv c e true ec dc cl (a1 ++ d :: a2) ae n l log snt false)
            (mkEv c e true ec dc cl (a1 ++ a2) ae n l log snt true)
| AddError_check x c e cc ec dc a ae n l log snt :
    ev_step (mkEv c e cc ec dc false a ae n l log snt false)
            (mkEv c e cc ec dc false a (x :: ae) n l log snt false)
| AddError_send x c e cc dc cl a ae1 ae2 n l log snt :
    length e < errCap ->
    ev_step (mkEv c e cc false dc cl a (ae1 ++ x :: ae2) n l log snt false)
            (mkEv c (e ++ [x]) cc false dc cl a (ae1 ++ ae2) n l log snt false)
| AddError_panic x c e cc dc cl a ae1 ae2 n l log snt :
    ev_step (mkEv c e cc true dc cl a (ae1 ++ x :: ae2) n l log snt false)
            (mkEv c e cc true dc cl a (ae1 ++ ae2) n l log snt true)
| Close_swap c e cc ec dc a ae n l log snt :
    ev_step (mkEv c e cc ec dc false a ae n l log snt false)
            (mkEv c e cc ec dc true a ae 3 l log snt false)
| Close_ch c e cc ec dc cl a ae l log snt :
    ev_step (mkEv c e cc ec dc cl a ae 3 l log snt false) (mkEv c e true ec dc cl a ae 2 l log snt false)
| Close_errCh c e cc ec dc cl a ae l log snt :
    ev_step (mkEv c e cc ec dc cl a ae 2 l log snt false) (mkEv c e cc true dc cl a ae 1 l log snt false)
| Close_doneCh c e cc ec dc cl a ae l log snt :
    ev_step (mkEv c e cc ec dc cl a ae 1 l log snt false) (mkEv c e cc ec true cl a ae 0 l log snt false)
| Listen_start c e cc ec dc cl a ae n log snt :
    ev_step (mkEv c e cc ec dc cl a ae n LIdle log snt false) (mkEv c e cc ec dc cl a ae n LRunning log snt false)
| Listen_data d c e cc ec dc cl a ae n log snt :
    ev_step (mkEv (d :: c) e cc ec dc cl a ae n LRunning log snt false)
            (mkEv c e cc ec dc cl a ae n LRunning (log ++ [OnData d]) snt false)
| Listen_closed e ec dc cl a ae n log snt :
    ev_step (mkEv [] e true ec dc cl a ae n LRunning log snt false)
            (mkEv [] e true ec dc cl a ae n LDone (log ++ [OnDone]) snt false)
| Listen_err x c e cc ec dc cl a ae n log snt :
    ev_step (mkEv c (x :: e) cc ec dc cl a ae n LRunning log snt false)
            (mkEv c e cc ec dc cl a ae n LRunning (log ++ [OnError x]) snt false)
| Listen_err_closed c cc dc cl a ae n log snt :
    ev_step (mkEv c [] cc true dc cl a ae n LRunning log snt false)
            (mkEv c [] cc true dc cl a ae n LRunning log snt false)
| Listen_done c e cc ec cl a ae n log snt :
    ev_step (mkEv c e cc ec true cl a ae n LRunning log snt false)
            (mkEv c e cc ec true cl a ae n LDone (log ++ [OnDone]) snt false).

Definition ev_reachable : events -> Prop := rtc ev_step ensureStream.

(** The data of the callbacks. *)
Definition ev_data (log : list callback) : list bytes :=
  omap (fun cb => match cb with OnData d => Some d | _ => None end) log.

(** What has been delivered and what is buffered is what was sent; the
    listener has called [onDone] exactly when it has stopped, as its last
    call; the channels never exceed their capacity. *)
Definition ev_inv (s : events) : Prop :=
  ev_data (ev_log s) ++ ev_ch s = ev_sent s /\ length (ev_ch s) <= dataCap /\ length (ev_errCh s) <= errCap /\
  exists log, (OnDone ∉ log) /\ ev_log s = match ev_listener s with LDone => log ++ [OnDone] | _ => log end.

Lemma ev_data_app a b : ev_data (a ++ b) = ev_data a ++ ev_data b.
Proof. apply omap_app. Qed.

Lemma ev_inv_step s s' : ev_step s s' -> ev_inv s -> ev_inv s'.
Proof.
  unfold ev_inv. intros Hstep. destruct Hstep; cbn [ev_log ev_ch ev_errCh ev_sent ev_listener];
    intros (Hd & Hc & He & l' & Hn & Hl); try (split_and!; [done|done|done|by exists l']).
  - split_and!; [by rewrite app_assoc, Hd|rewrite length_app; cbn; lia|done|by exists l'].
  - split_and!; [done|done|rewrite length_app; cbn; lia|by exists l'].
  - split_and!; [by rewrite ev_data_app, <- app_assoc|cbn in Hc; lia|done|].
    exists (l' ++ [OnData d]). rewrite Hl. split; [set_solver|done].
  - split_and!; [by rewrite ev_data_app, app_nil_r|done|done|]. exists l'. by rewrite Hl.
  - split_and!; [by rewrite ev_data_app, app_nil_r|done|cbn in He; lia|].
    exists (l' ++ [OnError x]). rewrite Hl. split; [set_solver|done].
  - split_and!; [by rewrite ev_data_app, app_nil_r|done|done|]. exists l'. by rewrite Hl.
Qed.

(** C33: whatever producers, closers and the listener do and however they
    interleave, the listener gets a prefix of the data that was sent, in
    order, and calls [onDone] at most once and last. *)
Theorem events_in_order (s : events) (Hs : ev_reachable s) :
  ev_data (ev_log s) `prefix_of` ev_sent s /\
  exists log, (OnDone ∉ log) /\ ev_log s = match ev_listener s with LDone => log ++ [OnDone] | _ => log end.
Proof.
  assert (ev_inv s) as (Hd & _ & _ & Hl).
  { revert s Hs. apply (rtc_ind_r (R := ev_step) ev_inv ensureStream).
    - unfold ev_inv. cbn. split_and!; [done|unfold dataCap; lia|unfold errCap; lia|]. exists []. split; [|done]. by apply not_elem_of_nil.
    - intros y z _ Hstep Hy. by eapply ev_inv_step. }
  split; [|exact Hl]. rewrite <- Hd. by exists (ev_ch s).
Qed.

(** Data that was added before [CloseStream] can be lost: after the close
    the listener's [select] may take the closed [doneCh] while the data is
    still in the channel. *)
Theorem close_loses_data (d : bytes) :
  exists s, ev_reachable s /\ ev_sent s = [d] /\ ev_closing s = 0 /\ ev_listener s = LDone /\ ev_log s = [OnDone].
Proof.
  eexists. split.
  - eapply rtc_l; [apply (Add_check d)|]. eapply rtc_l; [apply (Add_send d [] _ _ _ _ [] []); unfold dataCap; cbn; lia|].
    eapply rtc_l; [apply Close_swap|]. eapply rtc_l; [apply Close_ch|]. eapply rtc_l; [apply Close_errCh|].
    eapply rtc_l; [apply Close_doneCh|]. eapply rtc_l; [apply Listen_start|]. eapply rtc_l; [apply Listen_done|].
    apply rtc_refl.
  - done.
Qed.

(** An [Add] that runs while the stream is being closed can panic: it
    tests the flag before and sends after the channel is closed. *)
Theorem add_panics_on_close (d : bytes) :
  exists s, ev_reachable s /\ ev_panicked s = true /\ ev_sent s = [].
Proof.
  eexists. split.
  - eapply rtc_l; [apply (Add_check d)|]. eapply rtc_l; [apply Close_swap|]. eapply rtc_l; [apply Close_ch|].
    eapply rtc_l; [apply (Add_panic d _ _ _ _ _ [] [])|]. apply rtc_refl.
  - done.
Qed.

Lemma events_in_order_witness :
  let s := mkEv [] [] false false false false [] [] 0 LRunning [OnData (str "a")] [str "a"] false in
  ev_data (ev_log s) `prefix_of` ev_sent s /\
  exists log, (OnDone ∉ log) /\ ev_log s = match ev_listener s with LDone => log ++ [OnDone] | _ => log end.
Proof.
  intros s. apply (events_in_order s).
  eapply rtc_l; [apply (Add_check (str "a"))|].
  eapply rtc_l; [apply (Add_send (str "a") [] _ _ _ _ [] []); unfold dataCap; cbn; lia|].
  eapply rtc_l; [apply Listen_start|]. eapply rtc_l; [apply Listen_data|]. apply rtc_refl.
Defined.
