(* ===== verification/WsFrame.v ===== *)
(** * WsFrame: WebSocket frames

    Models [buildClientWebSocketFrame], [readWebSocketFrameWithLimit] and
    [parseWebSocketClosePayload] of [network/websocket_client.go].  The parser
    is written and verified against the [Reader] interface; the mask key is an
    argument of the builder. *)

From S2P Require Import Prelude Bytes Conn Bufio.

Local Open Scope Z_scope.

Definition wsOpContinuation : byte := Byte.x00.
Definition wsOpText : byte := Byte.x01.
Definition wsOpBinary : byte := Byte.x02.
Definition wsOpClose : byte := Byte.x08.
Definition wsOpPing : byte := Byte.x09.
Definition wsOpPong : byte := Byte.x0a.

Record websocketFrame := mkFrame {
  Fin : bool;
  Opcode : byte;
  Masked : bool;
  Payload : bytes;
}.

(** [payload[i] ^ maskKey[i%4]]. *)
Definition mask (key payload : bytes) : bytes :=
  imap (fun i b => byte_xor b (nth (i mod 4) key Byte.x00)) payload.

(** The length field of a client frame, mask bit included. *)
Definition client_length (payloadLen : Z) : bytes :=
  if payloadLen <=? 125 then [byte_or Byte.x80 (z2b payloadLen)]
  else if payloadLen <=? 65535 then byte_or Byte.x80 Byte.x7e :: be_put 2 (uwrap 16 payloadLen)
  else byte_or Byte.x80 Byte.x7f :: be_put 8 (uwrap 64 payloadLen).

(** [rnd] is the result of [rand.Read(maskKey[0:4])]. *)
Definition buildClientWebSocketFrame (opcode : byte) (payload : bytes) (rnd : bytes + error)
    : bytes + error :=
  let first := byte_or Byte.x80 (byte_and opcode Byte.x0f) in
  match rnd with
  | inr err => inr err
  | inl maskKey => inl (first :: client_length (zlen payload) ++ maskKey ++ mask maskKey payload)
  end.

Definition int64Max : Z := 2 ^ 63 - 1.

(** [make([]byte, n)] panics beyond the address space of the run time. *)
Definition maxAlloc : Z := 2 ^ 48.

Definition has_bit (b bit : byte) : bool := negb (bool_decide (byte_and b bit = Byte.x00)).

Section parser.
Context {S : Type} `{Reader S}.

(** The extended payload length. *)
Definition read_length (n : Z) : GoM S Z :=
  if n =? 126 then do ext <- r_ReadFull 2; ret (be_get ext)
  else if n =? 127 then do ext <- r_ReadFull 8; ret (be_get ext)
  else ret n.

Definition readWebSocketFrameWithLimit (maxPayloadSize : Z) : GoM S websocketFrame :=
  do header <- r_ReadFull 2;
  match header with
  | [h0; h1] =>
      let fin := has_bit h0 Byte.x80 in
      let opcode := byte_and h0 Byte.x0f in
      let masked := has_bit h1 Byte.x80 in
      do payloadLen <- read_length (b2z (byte_and h1 Byte.x7f));
      if (0 <? maxPayloadSize) && (maxPayloadSize <? payloadLen)
      then fail (Errorf "websocket payload too large: %d > %d" [AInt payloadLen; AInt maxPayloadSize])
      else if int64Max <? payloadLen then fail (Errorf "websocket payload too large" [])
      else
        do maskKey <- if masked then r_ReadFull 4 else ret (replicate 4 Byte.x00);
        if maxAlloc <? payloadLen then panic
        else
          do payload <- if 0 <? payloadLen then r_ReadFull (Z.to_nat payloadLen) else ret [];
          ret (mkFrame fin opcode masked (if masked then mask maskKey payload else payload))
  | _ => panic
  end.
End parser.

(** The code and reason of a close payload. *)
Definition parseWebSocketClosePayload (payload : bytes) : Z * bytes :=
  match payload with
  | c1 :: c2 :: reason => (be_get [c1; c2], reason)
  | _ => (1000, [])
  end.

(** ** The wire format

    A frame as the protocol lays it out, for any sender: [key] is the mask key
    of a masked frame. *)
Definition wire_length (masked : bool) (n : Z) : bytes :=
  let m := if masked then Byte.x80 else Byte.x00 in
  if n <=? 125 then [byte_or m (z2b n)]
  else if n <=? 65535 then byte_or m Byte.x7e :: be_put 2 n
  else byte_or m Byte.x7f :: be_put 8 n.

Definition frame_wire (f : websocketFrame) (key : bytes) : bytes :=
  byte_or (if Fin f then Byte.x80 else Byte.x00) (Opcode f) ::
  wire_length (Masked f) (zlen (Payload f)) ++
  (if Masked f then key ++ mask key (Payload f) else Payload f).

(** Frames a client with this limit accepts. *)
Definition frame_ok (max : Z) (f : websocketFrame) (key : bytes) : Prop :=
  b2z (Opcode f) < 16 /\ length key = 4%nat /\ zlen (Payload f) <= maxAlloc /\
  (0 < max -> zlen (Payload f) <= max).

(** ** Masking *)

Lemma length_mask key p : length (mask key p) = length p.
Proof. apply length_imap. Qed.

Lemma mask_involutive key p : mask key (mask key p) = p.
Proof.
  apply list_eq. intros i. unfold mask. rewrite !list_lookup_imap.
  destruct (p !! i); [|done]. cbn. by rewrite byte_xor_involutive.
Qed.

#[export] Hint Rewrite length_mask : golen.

(** ** Header bits *)

Lemma header_bits (b : bool) op :
  b2z op < 16 ->
  has_bit (byte_or (if b then Byte.x80 else Byte.x00) op) Byte.x80 = b /\
  byte_and (byte_or (if b then Byte.x80 else Byte.x00) op) Byte.x0f = op.
Proof. destruct b, op; vm_compute; try done; intros; split; reflexivity. Qed.

Lemma length_bits (b : bool) op :
  b2z op < 128 ->
  has_bit (byte_or (if b then Byte.x80 else Byte.x00) op) Byte.x80 = b /\
  byte_and (byte_or (if b then Byte.x80 else Byte.x00) op) Byte.x7f = op.
Proof. destruct b, op; vm_compute; try done; intros; split; reflexivity. Qed.

Lemma low_nibble op : b2z (byte_and op Byte.x0f) < 16.
Proof. by destruct op. Qed.

(** The client's encoder produces the wire format. *)
Lemma build_wire opcode payload key :
  zlen payload < 2 ^ 64 ->
  buildClientWebSocketFrame opcode payload (inl key) =
    inl (frame_wire (mkFrame true (byte_and opcode Byte.x0f) true payload) key).
Proof.
  intros Hn. unfold buildClientWebSocketFrame, frame_wire, client_length, wire_length.
  cbn [Fin Opcode Masked Payload]. pose proof (zlen_nonneg payload).
  destruct (_ <=? 125); [done|]. destruct (_ <=? 65535) eqn:E; bools; by rewrite uwrap_id by lia.
Qed.

(** ** Stepping through the parser *)

Section laws.
Context {S : Type} `{ReaderLaws S}.

Lemma r_read_app a rest n s :
  r_pending s (a ++ rest) -> length a = n ->
  exists s', r_ReadFull n s = (Ok a, s') /\ r_pending s' rest.
Proof.
  intros Hp <-. destruct (r_ReadFull_ok (length a) s _ Hp) as (s' & E & Hp'); [len|].
  rewrite take_app_length in E. rewrite drop_app_length in Hp'. eauto.
Qed.

Lemma read_length_wire masked n rest s :
  0 <= n < 2 ^ 64 -> r_pending s (drop 1 (wire_length masked n) ++ rest) ->
  exists h s', head (wire_length masked n) = Some h /\ has_bit h Byte.x80 = masked /\
    read_length (b2z (byte_and h Byte.x7f)) s = (Ok n, s') /\ r_pending s' rest.
Proof.
  intros Hn. unfold wire_length. destruct (n <=? 125) eqn:E1; bools.
  - intros Hp. eexists _, s. split; [done|].
    destruct (length_bits masked (z2b n)) as [-> ->]; [rewrite b2z_small; lia|].
    rewrite b2z_small by lia. unfold read_length.
    by rewrite (proj2 (Z.eqb_neq n 126)), (proj2 (Z.eqb_neq n 127)) by lia.
  - destruct (n <=? 65535) eqn:E2; bools; cbn [drop]; intros Hp.
    + destruct (r_read_app _ _ 2%nat s Hp) as (s' & E & Hp'); [len|]. eexists _, s'. split; [done|].
      destruct (length_bits masked Byte.x7e) as [-> ->]; [done|]. split; [done|].
      unfold read_length. cbn -[r_ReadFull be_put be_get bind]. rewrite (bind_Ok _ _ _ _ _ E).
      unfold ret. rewrite drop_0, be_get_put, uwrap_id by lia. done.
    + destruct (r_read_app _ _ 8%nat s Hp) as (s' & E & Hp'); [len|]. eexists _, s'. split; [done|].
      destruct (length_bits masked Byte.x7f) as [-> ->]; [done|]. split; [done|].
      unfold read_length. cbn -[r_ReadFull be_put be_get bind]. rewrite (bind_Ok _ _ _ _ _ E).
      unfold ret. rewrite drop_0, be_get_put, uwrap_id by lia. done.
Qed.

Lemma wire_length_cons masked n : exists h, wire_length masked n = h :: drop 1 (wire_length masked n).
Proof. unfold wire_length. repeat case_if; eauto. Qed.

(** The parser reads the wire format of any sender. *)
Lemma read_frame_wire max f key rest s :
  frame_ok max f key -> r_pending s (frame_wire f key ++ rest) ->
  exists s', readWebSocketFrameWithLimit max s = (Ok f, s') /\ r_pending s' rest.
Proof.
  intros (Hop & Hkey & Halloc & Hmax) Hp. pose proof (zlen_nonneg (Payload f)) as Hpos.
  unfold frame_wire in Hp. destruct (wire_length_cons (Masked f) (zlen (Payload f))) as [h Eh].
  set (h0 := byte_or _ _) in *. set (body := if Masked f then _ else _) in *.
  rewrite Eh in Hp. cbn [app] in Hp.
  destruct (r_read_app [h0; h] (drop 1 (wire_length (Masked f) (zlen (Payload f))) ++ body ++ rest) 2%nat s)
    as (s1 & E1 & Hp1); [by rewrite <- !app_assoc in Hp|done|].
  destruct (read_length_wire (Masked f) (zlen (Payload f)) (body ++ rest) s1) as (h' & s2 & Eh' & Hm & E2 & Hp2);
    [unfold maxAlloc in *; lia|done|].
  rewrite Eh in Eh'. injection Eh' as <-.
  unfold readWebSocketFrameWithLimit. rewrite (bind_Ok _ _ _ _ _ E1), (bind_Ok _ _ _ _ _ E2).
  destruct (header_bits (Fin f) (Opcode f) Hop) as [Hf Ho]. fold h0 in Hf, Ho. rewrite Hf, Ho, Hm.
  replace ((0 <? max) && (max <? zlen (Payload f))) with false.
  2: { symmetry. apply andb_false_iff. destruct (0 <? max) eqn:E; [right|by left]. bools. apply Z.ltb_ge. auto. }
  rewrite (proj2 (Z.ltb_ge int64Max _)), (proj2 (Z.ltb_ge maxAlloc _)) by (unfold maxAlloc, int64Max in *; lia).
  assert (forall p s3, length p = length (Payload f) -> r_pending s3 (p ++ rest) ->
    exists s', (if 0 <? zlen (Payload f) then r_ReadFull (Z.to_nat (zlen (Payload f))) else ret []) s3
      = (Ok p, s') /\ r_pending s' rest) as Hpay.
  { intros p s3 Hlen Hp3. destruct (0 <? zlen (Payload f)) eqn:E; bools.
    - apply r_read_app; [done|]. unfold zlen. lia.
    - assert (p = []) as -> by (destruct p; [done|unfold zlen in E; simpl in Hlen; lia]). by exists s3. }
  unfold body in Hp2. destruct f as [fin op [] p]; cbn [Fin Opcode Masked Payload] in *.
  - rewrite <- app_assoc in Hp2. destruct (r_read_app _ _ 4%nat s2 Hp2 Hkey) as (s3 & E3 & Hp3).
    destruct (Hpay (mask key p) s3) as (s4 & E4 & Hp4); [len|done|].
    rewrite (bind_Ok _ _ _ _ _ E3), (bind_Ok _ _ _ _ _ E4). rewrite mask_involutive. by exists s4.
  - destruct (Hpay p s2) as (s4 & E4 & Hp4); [done|done|].
    unfold bind at 1, ret at 1. rewrite (bind_Ok _ _ _ _ _ E4). by exists s4.
Qed.

(** C16: a frame built by the client is read back by any reader as a final,
    masked frame with the opcode's low four bits and the same payload, and the
    bytes after it are left, for every payload the limit allows, through all
    three encodings of the length. *)
Theorem client_frame_roundtrip (opcode : byte) (payload key frame rest : bytes) (max : Z) (s : S)
    (Hkey : length key = 4%nat) (Halloc : zlen payload <= maxAlloc)
    (Hmax : 0 < max -> zlen payload <= max)
    (Hbuild : buildClientWebSocketFrame opcode payload (inl key) = inl frame)
    (Hp : r_pending s (frame ++ rest)) :
  exists s', readWebSocketFrameWithLimit max s =
    (Ok (mkFrame true (byte_and opcode Byte.x0f) true payload), s') /\ r_pending s' rest.
Proof.
  rewrite build_wire in Hbuild by (unfold maxAlloc in Halloc; lia). injection Hbuild as <-.
  apply read_frame_wire with (key := key); [|done]. split_and!; try done. apply low_nibble.
Qed.

(** A frame that declares more than the limit is refused after its header:
    nothing of its payload has been read. *)
Theorem oversized_frame_rejected (f : websocketFrame) (key rest : bytes) (max : Z) (s : S)
    (Hop : b2z (Opcode f) < 16) (Hmax : 0 < max < zlen (Payload f)) (Hlen : zlen (Payload f) < 2 ^ 64)
    (Hp : r_pending s (frame_wire f key ++ rest)) :
  exists s', readWebSocketFrameWithLimit max s =
    (Err (Errorf "websocket payload too large: %d > %d" [AInt (zlen (Payload f)); AInt max]), s') /\
    r_pending s' ((if Masked f then key ++ mask key (Payload f) else Payload f) ++ rest).
Proof.
  unfold frame_wire in Hp. destruct (wire_length_cons (Masked f) (zlen (Payload f))) as [h Eh].
  set (h0 := byte_or _ _) in *. set (body := if Masked f then _ else _) in *.
  rewrite Eh in Hp. cbn [app] in Hp.
  destruct (r_read_app [h0; h] (drop 1 (wire_length (Masked f) (zlen (Payload f))) ++ body ++ rest) 2%nat s)
    as (s1 & E1 & Hp1); [by rewrite <- !app_assoc in Hp|done|].
  destruct (read_length_wire (Masked f) (zlen (Payload f)) (body ++ rest) s1) as (h' & s2 & Eh' & Hm & E2 & Hp2);
    [lia|done|].
  rewrite Eh in Eh'. injection Eh' as <-.
  unfold readWebSocketFrameWithLimit. rewrite (bind_Ok _ _ _ _ _ E1), (bind_Ok _ _ _ _ _ E2).
  rewrite (proj2 (Z.ltb_lt 0 max)), (proj2 (Z.ltb_lt max _)) by lia. by exists s2.
Qed.

(** A read of [n] bytes where the stream may end before them. *)
Lemma r_read_cut inp more a rest n s :
  r_pending s inp -> inp ++ more = a ++ rest -> length a = n ->
  (exists s' inp', r_ReadFull n s = (Ok a, s') /\ r_pending s' inp' /\ inp' ++ more = rest) \/
  (exists s' e, r_ReadFull n s = (Err e, s') /\ (e = EOF \/ e = ErrUnexpectedEOF)).
Proof.
  intros Hp E Hn. destruct (decide (n <= length inp)%nat) as [Hle|Hgt].
  - left. destruct (r_ReadFull_ok n s inp Hp Hle) as (s' & Er & Hp').
    assert (take n inp = a /\ drop n inp ++ more = rest) as [Ea ?].
    { rewrite <- (take_drop n inp), <- app_assoc in E. apply app_inj_1 in E; [done|].
      rewrite length_take. lia. }
    rewrite Ea in Er. eauto.
  - right. destruct (r_ReadFull_short n s inp Hp ltac:(lia)) as (s' & Er & _).
    eexists _, _. split; [exact Er|]. destruct inp; auto.
Qed.

Lemma read_length_cut masked n inp more rest s :
  0 <= n < 2 ^ 64 -> r_pending s inp -> inp ++ more = drop 1 (wire_length masked n) ++ rest ->
  exists h, head (wire_length masked n) = Some h /\ has_bit h Byte.x80 = masked /\
  ((exists s' inp', read_length (b2z (byte_and h Byte.x7f)) s = (Ok n, s') /\ r_pending s' inp' /\ inp' ++ more = rest) \/
   (exists s' e, read_length (b2z (byte_and h Byte.x7f)) s = (Err e, s') /\ (e = EOF \/ e = ErrUnexpectedEOF))).
Proof.
  intros Hn Hp. unfold wire_length. destruct (n <=? 125) eqn:E1; bools.
  - intros E. eexists. split; [done|].
    destruct (length_bits masked (z2b n)) as [-> ->]; [rewrite b2z_small; lia|].
    rewrite b2z_small by lia. unfold read_length. split; [done|]. left.
    rewrite (proj2 (Z.eqb_neq n 126)), (proj2 (Z.eqb_neq n 127)) by lia. by exists s, inp.
  - destruct (n <=? 65535) eqn:E2; bools; cbn [drop]; rewrite drop_0; intros E;
      (eexists; split; [done|]).
    + destruct (length_bits masked Byte.x7e) as [-> ->]; [done|]. split; [done|].
      unfold read_length. cbn -[r_ReadFull be_put be_get bind].
      destruct (r_read_cut inp more _ _ 2%nat s Hp E) as [(s' & inp' & Er & ? & ?)|(s' & e & Er & ?)]; [len| |].
      * left. rewrite (bind_Ok _ _ _ _ _ Er). unfold ret. rewrite be_get_put, uwrap_id by lia. eauto.
      * right. rewrite (bind_Err _ _ _ _ _ Er). eauto.
    + destruct (length_bits masked Byte.x7f) as [-> ->]; [done|]. split; [done|].
      unfold read_length. cbn -[r_ReadFull be_put be_get bind].
      destruct (r_read_cut inp more _ _ 8%nat s Hp E) as [(s' & inp' & Er & ? & ?)|(s' & e & Er & ?)]; [len| |].
      * left. rewrite (bind_Ok _ _ _ _ _ Er). unfold ret. rewrite be_get_put, uwrap_id by lia. eauto.
      * right. rewrite (bind_Err _ _ _ _ _ Er). eauto.
Qed.

(** A stream that ends inside a frame is never accepted as a frame: the
    parser reports the end of the stream. *)
Theorem truncated_frame_rejected (f : websocketFrame) (key inp more : bytes) (max : Z) (s : S)
    (Hok : frame_ok max f key) (Hcut : inp ++ more = frame_wire f key) (Hmore : more <> [])
    (Hp : r_pending s inp) :
  exists s' e, readWebSocketFrameWithLimit max s = (Err e, s') /\ (e = EOF \/ e = ErrUnexpectedEOF).
Proof.
  destruct Hok as (Hop & Hkey & Halloc & Hmax). pose proof (zlen_nonneg (Payload f)) as Hpos.
  unfold frame_wire in Hcut. destruct (wire_length_cons (Masked f) (zlen (Payload f))) as [h Eh].
  set (h0 := byte_or _ _) in *. set (body := if Masked f then _ else _) in *.
  rewrite Eh in Hcut. unfold readWebSocketFrameWithLimit.
  destruct (r_read_cut inp more [h0; h] (drop 1 (wire_length (Masked f) (zlen (Payload f))) ++ body) 2%nat s Hp Hcut)
    as [(s1 & i1 & E1 & Hp1 & C1)|(s1 & e & E1 & He)]; [done| |rewrite (bind_Err _ _ _ _ _ E1); eauto].
  rewrite (bind_Ok _ _ _ _ _ E1).
  destruct (read_length_cut (Masked f) (zlen (Payload f)) i1 more body s1) as (h' & Eh' & Hm & Hl);
    [unfold maxAlloc in *; lia|done|done|].
  rewrite Eh in Eh'. injection Eh' as <-.
  destruct Hl as [(s2 & i2 & E2 & Hp2 & C2)|(s2 & e & E2 & He)]; [|rewrite (bind_Err _ _ _ _ _ E2); eauto].
  rewrite (bind_Ok _ _ _ _ _ E2), Hm.
  replace ((0 <? max) && (max <? zlen (Payload f))) with false.
  2: { symmetry. apply andb_false_iff. destruct (0 <? max) eqn:E; [right|by left]. bools. apply Z.ltb_ge. auto. }
  rewrite (proj2 (Z.ltb_ge int64Max _)), (proj2 (Z.ltb_ge maxAlloc _)) by (unfold maxAlloc, int64Max in *; lia).
  assert (forall p i3 s3 (k : bytes -> GoM S websocketFrame), length p = length (Payload f) ->
    r_pending s3 i3 -> i3 ++ more = p ->
    exists s' e, bind (if 0 <? zlen (Payload f) then r_ReadFull (Z.to_nat (zlen (Payload f))) else ret []) k s3
      = (Err e, s') /\ (e = EOF \/ e = ErrUnexpectedEOF)) as Hpay.
  { intros p i3 s3 k Hlen Hp3 C3. assert (length i3 < length p)%nat as Hlt.
    { rewrite <- C3, length_app. destruct more; [done|]. simpl. lia. }
    rewrite (proj2 (Z.ltb_lt _ _)) by (unfold zlen; lia).
    destruct (r_ReadFull_short (Z.to_nat (zlen (Payload f))) s3 i3 Hp3) as (s' & Er & _); [unfold zlen; lia|].
    rewrite (bind_Err _ _ _ _ _ Er). eexists _, _. split; [done|]. destruct i3; auto. }
  unfold body in C2. destruct (Masked f).
  - destruct (r_read_cut i2 more key (mask key (Payload f)) 4%nat s2 Hp2 C2 Hkey)
      as [(s3 & i3 & E3 & Hp3 & C3)|(s3 & e & E3 & He)]; [|rewrite (bind_Err _ _ _ _ _ E3); eauto].
    rewrite (bind_Ok _ _ _ _ _ E3). apply (Hpay (mask key (Payload f)) i3); [len|done|done].
  - unfold bind at 1, ret at 1. by apply (Hpay (Payload f) i2).
Qed.

(** *** Every stream *)

(** A computation that returns, does not write, and does not add input. *)
Definition tame {A} (m : GoM S A) : Prop := forall s, exists r s', m s = (r, s') /\
  wside (r_conn s') = wside (r_conn s) /\
  match r with
  | Ok _ => (length (r_stream s') <= length (r_stream s))%nat
  | Err _ => True
  | _ => False
  end.

Lemma tame_ret {A} (a : A) : tame (ret a).
Proof. intros s. by eexists _, _. Qed.

Lemma tame_fail {A} e : tame (fail e : GoM S A).
Proof. intros s. by eexists _, _. Qed.

Lemma tame_bind {A B} (m : GoM S A) (k : A -> GoM S B) :
  tame m -> (forall a, tame (k a)) -> tame (bind m k).
Proof.
  intros Hm Hk s. destruct (Hm s) as (r & s1 & E & Hw & Hr).
  destruct r as [a|e| |]; [|rewrite (bind_Err _ _ _ _ _ E); by eexists _, _|done|done].
  rewrite (bind_Ok _ _ _ _ _ E). destruct (Hk a s1) as (r & s2 & E2 & Hw2 & Hr2).
  eexists _, _. split; [done|]. split; [congruence|]. destruct r; try done. lia.
Qed.

Lemma tame_if {A} (b : bool) (m1 m2 : GoM S A) : tame m1 -> tame m2 -> tame (if b then m1 else m2).
Proof. by destruct b. Qed.

Lemma tame_ReadFull n : tame (r_ReadFull n).
Proof.
  intros s. destruct (r_ReadFull_returns n s) as (r & s' & E & Hw & Hr).
  eexists _, _. split; [done|]. split; [done|]. destruct r as [b|e| |]; try done.
  apply r_ReadFull_stream in E. rewrite E. len.
Qed.

Hint Resolve tame_ret tame_fail tame_bind tame_if tame_ReadFull : go.

(** The frame reader returns on every stream when the limit is sane, writes
    nothing, and a frame takes at least two bytes. *)
Lemma read_frame_returns (max : Z) (s : S) :
  0 < max <= maxAlloc ->
  exists r s', readWebSocketFrameWithLimit max s = (r, s') /\ wside (r_conn s') = wside (r_conn s) /\
    match r with
    | Ok f => (length (r_stream s') < length (r_stream s))%nat
    | Err _ => True
    | _ => False
    end.
Proof.
  intros Hmax. unfold readWebSocketFrameWithLimit.
  destruct (r_ReadFull_returns 2 s) as (r & s1 & E & Hw & Hr).
  destruct r as [h|e| |]; [|rewrite (bind_Err _ _ _ _ _ E); by eexists _, _|done|done].
  rewrite (bind_Ok _ _ _ _ _ E). apply r_ReadFull_stream in E.
  destruct h as [|h0 [|h1 [|? ?]]]; try done.
  set (k := bind _ _). assert (tame k) as Hk.
  { unfold k. apply tame_bind; [unfold read_length; auto 6 with go|]. intros n.
    destruct ((0 <? max) && (max <? n)) eqn:En; [apply tame_fail|].
    rewrite (proj2 (Z.ltb_lt 0 max)) in En by lia. cbn [andb] in En. bools.
    apply tame_if; [auto with go|]. apply tame_bind; [auto with go|]. intros key.
    rewrite (proj2 (Z.ltb_ge maxAlloc n)) by lia. auto with go. }
  destruct (Hk s1) as (r & s2 & E2 & Hw2 & Hr2). eexists _, _. split; [done|]. split; [congruence|].
  destruct r; try done. rewrite E, length_app. simpl. lia.
Qed.

(** Reading a frame writes nothing. *)
Lemma read_frame_wside (max : Z) (s : S) :
  wside (r_conn (snd (readWebSocketFrameWithLimit max s))) = wside (r_conn s).
Proof.
  assert (forall A B (m : GoM S A) (k : A -> GoM S B),
    (forall s, wside (r_conn (snd (m s))) = wside (r_conn s)) ->
    (forall a s, wside (r_conn (snd (k a s))) = wside (r_conn s)) ->
    forall s, wside (r_conn (snd (bind m k s))) = wside (r_conn s)) as Hbind.
  { clear. intros A B m k Hm Hk s. specialize (Hm s). unfold bind.
    destruct (m s) as [[a|e| |] s1]; try done. rewrite Hk. exact Hm. }
  assert (forall n s, wside (r_conn (snd (r_ReadFull n s))) = wside (r_conn s)) as Hread.
  { intros n s'. by destruct (r_ReadFull_returns n s') as (r & s2 & -> & Hw & _). }
  unfold readWebSocketFrameWithLimit, read_length. revert s.
  apply Hbind; [auto|]. intros [|h0 [|h1 [|? ?]]]; try done.
  apply Hbind; [repeat case_if; auto|]. intros n. repeat case_if; try done; auto.
Qed.
End laws.

Definition demo_reader (inp : bytes) : bufio :=
  NewReader (mkConn [mkRd (take 3 inp) None; mkRd (drop 3 inp) None] [] [] None None false false).
Definition demo_key : bytes := [Byte.x01; Byte.x02; Byte.x03; Byte.x04].

Lemma client_frame_roundtrip_witness :
  let payload := replicate 300 Byte.x41 in
  let frame := frame_wire (mkFrame true wsOpText true payload) demo_key in
  exists s', readWebSocketFrameWithLimit 1024 (demo_reader (frame ++ str "next")) =
    (Ok (mkFrame true (byte_and wsOpText Byte.x0f) true payload), s') /\ r_pending s' (str "next").
Proof.
  intros payload frame.
  apply (client_frame_roundtrip wsOpText payload demo_key frame (str "next") 1024).
  - reflexivity.
  - vm_compute. congruence.
  - intros _. vm_compute. congruence.
  - vm_compute. reflexivity.
  - split_and!; [reflexivity|reflexivity| |vm_compute; reflexivity].
    repeat constructor; vm_compute; congruence.
Defined.

Lemma oversized_frame_rejected_witness :
  let f := mkFrame true wsOpBinary false (replicate 200 Byte.x41) in
  exists s', readWebSocketFrameWithLimit 100 (demo_reader (frame_wire f [] ++ [])) =
    (Err (Errorf "websocket payload too large: %d > %d" [AInt 200; AInt 100]), s') /\
    r_pending s' (Payload f ++ []).
Proof.
  intros f. apply (oversized_frame_rejected f [] [] 100).
  - reflexivity.
  - vm_compute. split; congruence.
  - reflexivity.
  - split_and!; [reflexivity|reflexivity| |vm_compute; reflexivity].
    repeat constructor; vm_compute; congruence.
Defined.

Lemma truncated_frame_rejected_witness :
  let f := mkFrame true wsOpText true (str "hello") in
  exists s' e, readWebSocketFrameWithLimit 100 (demo_reader (take 8 (frame_wire f demo_key))) = (Err e, s') /\
    (e = EOF \/ e = ErrUnexpectedEOF).
Proof.
  intros f. apply (truncated_frame_rejected f demo_key (take 8 (frame_wire f demo_key)) (drop 8 (frame_wire f demo_key))).
  - repeat split; vm_compute; congruence.
  - reflexivity.
  - vm_compute. congruence.
  - split_and!; [reflexivity|reflexivity| |vm_compute; reflexivity].
    repeat constructor; vm_compute; congruence.
Defined.
