(* ===== verification/WsClient.v ===== *)
(** * WsClient: the WebSocket client's connection state and messages

    Models the methods of [WebSocketClient] in [network/websocket_client.go]:
    writing frames under the mutex, closing, reading and reassembling
    messages, and the helpers built on them.  The state is the TCP client, the
    buffered reader left by the handshake ([None] is a nil reader), the flags
    and the number of random draws made so far. *)

From S2P Require Import Prelude Bytes Conn Bufio Tcp WsFrame.

Local Open Scope Z_scope.

Record WebSocketClient := mkWS {
  ws_tcp : TCPClient;
  ws_reader : option (bytes * option error);
  ws_timeout : Z;
  ws_readTimeout : Z;
  ws_isClosed : bool;
  ws_maxPayloadSize : Z;
  ws_disableAutoPong : bool;
  ws_draws : nat;
}.

Record WebSocketMessage := mkMsg { m_Opcode : byte; m_Data : bytes }.

Definition ws_set_tcp (t : TCPClient) (c : WebSocketClient) : WebSocketClient :=
  mkWS t (ws_reader c) (ws_timeout c) (ws_readTimeout c) (ws_isClosed c) (ws_maxPayloadSize c)
    (ws_disableAutoPong c) (ws_draws c).
Definition ws_set_reader (r : option (bytes * option error)) (c : WebSocketClient) : WebSocketClient :=
  mkWS (ws_tcp c) r (ws_timeout c) (ws_readTimeout c) (ws_isClosed c) (ws_maxPayloadSize c)
    (ws_disableAutoPong c) (ws_draws c).
Definition ws_set_closed (b : bool) (c : WebSocketClient) : WebSocketClient :=
  mkWS (ws_tcp c) (ws_reader c) (ws_timeout c) (ws_readTimeout c) b (ws_maxPayloadSize c)
    (ws_disableAutoPong c) (ws_draws c).
Definition ws_drawn (c : WebSocketClient) : WebSocketClient :=
  mkWS (ws_tcp c) (ws_reader c) (ws_timeout c) (ws_readTimeout c) (ws_isClosed c) (ws_maxPayloadSize c)
    (ws_disableAutoPong c) (S (ws_draws c)).

Definition on_tcp {A} (m : GoM TCPClient A) : GoM WebSocketClient A := fun c =>
  let '(r, t) := m (ws_tcp c) in (r, ws_set_tcp t c).

(** A method of [c.tcp.conn]; a nil interface panics. *)
Definition on_wsconn {A} (m : GoM conn A) : GoM WebSocketClient A := fun c =>
  match t_conn (ws_tcp c) with
  | Some k => on_tcp (with_conn k m) c
  | None => (Panic, c)
  end.

Section client.
Context `{Rand}.

Definition draw (n : nat) : GoM WebSocketClient (bytes + error) :=
  do c <- get; modify ws_drawn ;; ret (rand_Read (ws_draws c) n).

Definition build_and_write (opcode : byte) (payload : bytes) : GoM WebSocketClient unit :=
  do rnd <- draw 4;
  match buildClientWebSocketFrame opcode payload rnd with
  | inr err => fail err
  | inl frame => on_tcp (WriteFull frame)
  end.

Definition writeFrameLocked (opcode : byte) (payload : bytes) : GoM WebSocketClient unit :=
  do c <- get;
  if 0 <? ws_timeout c
  then on_wsconn (SetWriteDeadline (Some (ws_timeout c))) ;;
       deferred (on_wsconn (SetWriteDeadline None)) (build_and_write opcode payload)
  else build_and_write opcode payload.

Definition WriteFrame (opcode : byte) (payload : bytes) : GoM WebSocketClient unit :=
  do c <- get;
  if ws_isClosed c then fail ErrTCPClientClosed else writeFrameLocked opcode payload.

Definition SendText (text : bytes) : GoM WebSocketClient unit := WriteFrame wsOpText text.
Definition SendBinary (data : bytes) : GoM WebSocketClient unit := WriteFrame wsOpBinary data.

Definition Ping (data : bytes) : GoM WebSocketClient unit :=
  if 125 <? zlen data then fail (Errorf "websocket ping payload too large" [])
  else WriteFrame wsOpPing data.
Definition Pong (data : bytes) : GoM WebSocketClient unit :=
  if 125 <? zlen data then fail (Errorf "websocket pong payload too large" [])
  else WriteFrame wsOpPong data.

Definition writeCloseFrame (code : Z) (reason : bytes) : GoM WebSocketClient unit :=
  writeFrameLocked wsOpClose (be_put 2 (uwrap 16 code) ++ reason).

Definition WS_Close : GoM WebSocketClient unit :=
  do c <- get;
  modify (ws_set_closed true) ;;
  if ws_isClosed c then ret tt
  else ignore (writeCloseFrame 1000 (str "normal closure")) ;; on_tcp TCP_Close.

(** One frame from the buffered reader, or from the connection without one. *)
Definition read_frame : GoM WebSocketClient websocketFrame := fun c =>
  match t_conn (ws_tcp c) with
  | None => (Panic, c)
  | Some k =>
      match ws_reader c with
      | Some (buf, err) =>
          let '(r, b) := readWebSocketFrameWithLimit (ws_maxPayloadSize c) (mkBufio buf err k) in
          (r, ws_set_reader (Some (b_buf b, b_err b)) (ws_set_tcp (tcp_conn (b_conn b) (ws_tcp c)) c))
      | None =>
          let '(r, k') := readWebSocketFrameWithLimit (ws_maxPayloadSize c) k in
          (r, ws_set_tcp (tcp_conn k' (ws_tcp c)) c)
      end
  end.

(** The frame read with its deadline; an error marks the client closed. *)
Definition next_frame : GoM WebSocketClient websocketFrame :=
  do c <- get;
  (if 0 <? ws_readTimeout c then on_wsconn (SetReadDeadline (Some (ws_readTimeout c))) else ret tt) ;;
  catch
    (if 0 <? ws_readTimeout c
     then deferred (on_wsconn (SetReadDeadline None)) read_frame
     else read_frame)
    (fun err => modify (ws_set_closed true) ;; fail err).

(** The message and the error [ReadMessage] returns; a close frame gives both. *)
Definition answer : Type := option WebSocketMessage * option error.

(** What [ReadMessage] does with a frame: [again] goes round the loop with the
    fragments collected so far, [finish] returns. *)
Definition on_frame {A} (again : byte -> bytes -> GoM WebSocketClient A)
    (finish : answer -> GoM WebSocketClient A)
    (fragmentedOpcode : byte) (fragmentedPayload : bytes) (frame : websocketFrame)
    : GoM WebSocketClient A :=
  do c <- get;
  let op := Opcode frame in
  if bool_decide (op = wsOpPing) then
    (if ws_disableAutoPong c then ret tt else ignore (Pong (Payload frame))) ;;
    again fragmentedOpcode fragmentedPayload
  else if bool_decide (op = wsOpPong) then
    finish (Some (mkMsg wsOpPong (Payload frame)), None)
  else if bool_decide (op = wsOpClose) then
    let '(code, reason) := parseWebSocketClosePayload (Payload frame) in
    ignore (writeCloseFrame code reason) ;;
    modify (ws_set_closed true) ;;
    finish (Some (mkMsg wsOpClose (Payload frame)), Some (CloseError code reason))
  else if bool_decide (op = wsOpText) || bool_decide (op = wsOpBinary) then
    if Fin frame then finish (Some (mkMsg op (Payload frame)), None)
    else
      let fragmentedPayload := fragmentedPayload ++ Payload frame in
      if ws_maxPayloadSize c <? zlen fragmentedPayload
      then fail (Errorf "websocket fragmented payload too large" [])
      else again op fragmentedPayload
  else if bool_decide (op = wsOpContinuation) then
    if bool_decide (fragmentedOpcode = Byte.x00)
    then fail (Errorf "unexpected websocket continuation frame" [])
    else
      let fragmentedPayload := fragmentedPayload ++ Payload frame in
      if ws_maxPayloadSize c <? zlen fragmentedPayload
      then fail (Errorf "websocket fragmented payload too large" [])
      else if Fin frame then finish (Some (mkMsg fragmentedOpcode fragmentedPayload), None)
      else again fragmentedOpcode fragmentedPayload
  else fail (Errorf "unsupported websocket opcode: %d" [AInt (b2z op)]).

Fixpoint read_message (fuel : nat) (fragmentedOpcode : byte) (fragmentedPayload : bytes)
    : GoM WebSocketClient answer :=
  match fuel with
  | O => fun c => (Diverge, c)
  | S fuel =>
      do frame <- next_frame;
      on_frame (read_message fuel) ret fragmentedOpcode fragmentedPayload frame
  end.

(** The bytes that can still come; every frame takes at least two. *)
Definition ws_stream (c : WebSocketClient) : bytes :=
  match t_conn (ws_tcp c) with
  | Some k => (match ws_reader c with Some (buf, _) => buf | None => [] end) ++ flat (c_in k)
  | None => []
  end.

Definition ReadMessage : GoM WebSocketClient answer :=
  do c <- get;
  if ws_isClosed c then fail ErrTCPClientClosed
  else read_message (S (length (ws_stream c))) Byte.x00 [].
End client.

(** ** A live client *)

(** An open transport that accepts every write, on which [inp] is still to be
    read and [sent] has been sent; [cl] is the client's own closed flag. *)
Definition ws_live (cl : bool) (c : WebSocketClient) (inp sent : bytes) : Prop :=
  exists k, t_conn (ws_tcp c) = Some k /\ t_isClosed (ws_tcp c) = false /\ ws_isClosed c = cl /\
    c_wr k = [] /\ c_sent k = sent /\ c_closed k = false /\
    match ws_reader c with
    | Some (buf, err) => br_pending (mkBufio buf err k) inp
    | None => clean (c_in k) /\ flat (c_in k) = inp
    end.

(** The settings, which no method changes. *)
Definition ws_conf (c : WebSocketClient) :=
  (ws_timeout c, ws_readTimeout c, ws_maxPayloadSize c, ws_disableAutoPong c).

Lemma wside_inv k k' : wside k' = wside k ->
  c_wr k' = c_wr k /\ c_sent k' = c_sent k /\ c_closed k' = c_closed k.
Proof. unfold wside. by intros [= ? ? ? ? ? ?]. Qed.

(** An operation of the connection that only touches deadlines. *)
Lemma deadline_live cl c inp sent (m : GoM conn unit) :
  (forall k, exists k', m k = (Ok tt, k') /\ c_in k' = c_in k /\ c_wr k' = c_wr k /\
    c_sent k' = c_sent k /\ c_closed k' = c_closed k) ->
  ws_live cl c inp sent ->
  exists c', on_wsconn m c = (Ok tt, c') /\ ws_live cl c' inp sent /\ ws_conf c' = ws_conf c /\
    ws_draws c' = ws_draws c.
Proof.
  intros Hm (k & Hk & Ht & Hcl & Hwr & Hs & Hc & Hr). unfold on_wsconn, on_tcp, with_conn.
  rewrite Hk. destruct (Hm k) as (k' & -> & Hi' & Hw' & Hs' & Hc').
  eexists. split; [reflexivity|]. split; [|done].
  exists k'. cbn. split_and!; try done; try congruence.
  destruct (ws_reader c) as [[buf err]|]; [|by rewrite Hi'].
  destruct Hr as (? & ? & ? & ?). repeat split; cbn in *; congruence.
Qed.

Lemma SetReadDeadline_ok d k : exists k', SetReadDeadline d k = (Ok tt, k') /\ c_in k' = c_in k /\
  c_wr k' = c_wr k /\ c_sent k' = c_sent k /\ c_closed k' = c_closed k.
Proof. by eexists. Qed.

Lemma SetWriteDeadline_ok d k : exists k', SetWriteDeadline d k = (Ok tt, k') /\ c_in k' = c_in k /\
  c_wr k' = c_wr k /\ c_sent k' = c_sent k /\ c_closed k' = c_closed k.
Proof. by eexists. Qed.

Section live.
Context `{Rand}.

Lemma read_frame_live cl c f key rest sent :
  frame_ok (ws_maxPayloadSize c) f key -> ws_live cl c (frame_wire f key ++ rest) sent ->
  exists c', read_frame c = (Ok f, c') /\ ws_live cl c' rest sent /\ ws_conf c' = ws_conf c /\
    ws_draws c' = ws_draws c.
Proof.
  intros Hok (k & Hk & Ht & Hcl & Hwr & Hs & Hc & Hr). unfold read_frame. rewrite Hk.
  destruct (ws_reader c) as [[buf err]|] eqn:Er.
  - destruct (read_frame_wire (S := bufio) _ _ _ rest (mkBufio buf err k) Hok)
      as (b & E & Hp); [exact Hr|].
    assert (wside (b_conn b) = wside k) as Hw.
    { pose proof (read_frame_wside (S := bufio) (ws_maxPayloadSize c) (mkBufio buf err k)) as Hw.
      rewrite E in Hw. exact Hw. }
    apply wside_inv in Hw as (? & ? & ?). rewrite E. eexists. split; [reflexivity|]. split; [|done].
    exists (b_conn b). cbn. split_and!; try done; congruence.
  - destruct (read_frame_wire (S := conn) _ _ _ rest k Hok) as (k' & E & Hp); [done|].
    assert (wside k' = wside k) as Hw.
    { pose proof (read_frame_wside (S := conn) (ws_maxPayloadSize c) k) as Hw.
      rewrite E in Hw. exact Hw. }
    apply wside_inv in Hw as (? & ? & ?). rewrite E. eexists. split; [reflexivity|]. split; [|done].
    exists k'. destruct Hp as (? & ? & ?). cbn. rewrite Er. split_and!; try done; congruence.
Qed.

Lemma next_frame_live cl c f key rest sent :
  frame_ok (ws_maxPayloadSize c) f key -> ws_live cl c (frame_wire f key ++ rest) sent ->
  exists c', next_frame c = (Ok f, c') /\ ws_live cl c' rest sent /\ ws_conf c' = ws_conf c /\
    ws_draws c' = ws_draws c.
Proof.
  intros Hok Hl. unfold next_frame, get, bind at 1. cbv beta iota. destruct (0 <? ws_readTimeout c).
  - destruct (deadline_live cl c _ sent _ (SetReadDeadline_ok (Some (ws_readTimeout c))) Hl)
      as (c1 & E1 & Hl1 & Hc1 & Hd1).
    rewrite (bind_Ok _ _ _ _ _ E1).
    destruct (read_frame_live cl c1 f key rest sent) as (c2 & E2 & Hl2 & Hc2 & Hd2); [|done|].
    { injection Hc1 as _ _ -> _. done. }
    destruct (deadline_live cl c2 _ sent _ (SetReadDeadline_ok None) Hl2) as (c3 & E3 & Hl3 & Hc3 & Hd3).
    unfold catch, deferred. rewrite E2, E3. exists c3. split; [done|]. split; [done|]. split; congruence.
  - unfold bind, ret, catch. destruct (read_frame_live cl c f key rest sent Hok Hl) as (c2 & E2 & Hl2 & Hc2 & Hd2).
    rewrite E2. eauto.
Qed.

Lemma build_and_write_live cl c inp sent op p key :
  ws_live cl c inp sent -> rand_Read (ws_draws c) 4 = inl key -> zlen p < 2 ^ 64 ->
  exists c', build_and_write op p c = (Ok tt, c') /\
    ws_live cl c' inp (sent ++ frame_wire (mkFrame true (byte_and op Byte.x0f) true p) key) /\
    ws_conf c' = ws_conf c /\ ws_draws c' = S (ws_draws c).
Proof.
  intros (k & Hk & Ht & Hcl & Hwr & Hs & Hc & Hr) Hrnd Hp.
  unfold build_and_write, draw, get, modify, ret, bind. cbv beta iota. rewrite Hrnd, build_wire by done.
  unfold on_tcp. cbn [ws_tcp ws_drawn].
  destruct (WriteFull_open (frame_wire (mkFrame true (byte_and op Byte.x0f) true p) key) _ k Hk Ht Hc Hwr)
    as (k' & E & Hi' & Hw' & Hs' & Hc').
  rewrite E. eexists. split; [reflexivity|]. split; [|done].
  exists k'. cbn. split_and!; try done; try congruence.
  destruct (ws_reader c) as [[buf err]|]; [|by rewrite Hi'].
  destruct Hr as (? & ? & ? & ?). repeat split; cbn in *; congruence.
Qed.

Lemma writeFrameLocked_live cl c inp sent op p key :
  ws_live cl c inp sent -> rand_Read (ws_draws c) 4 = inl key -> zlen p < 2 ^ 64 ->
  exists c', writeFrameLocked op p c = (Ok tt, c') /\
    ws_live cl c' inp (sent ++ frame_wire (mkFrame true (byte_and op Byte.x0f) true p) key) /\
    ws_conf c' = ws_conf c /\ ws_draws c' = S (ws_draws c).
Proof.
  intros Hl Hrnd Hp. unfold writeFrameLocked, get, bind at 1. cbv beta iota.
  destruct (0 <? ws_timeout c); [|by apply build_and_write_live].
  destruct (deadline_live cl c _ sent _ (SetWriteDeadline_ok (Some (ws_timeout c))) Hl)
    as (c1 & E1 & Hl1 & Hc1 & Hd1).
  rewrite (bind_Ok _ _ _ _ _ E1). rewrite <- Hd1 in Hrnd.
  destruct (build_and_write_live cl c1 inp sent op p key Hl1 Hrnd Hp) as (c2 & E2 & Hl2 & Hc2 & Hd2).
  destruct (deadline_live cl c2 _ _ _ (SetWriteDeadline_ok None) Hl2) as (c3 & E3 & Hl3 & Hc3 & Hd3).
  unfold deferred. rewrite E2, E3. exists c3. split; [done|]. split; [done|]. split; congruence.
Qed.

(** ** What a peer's frames mean

    [continues max acc fs data pings]: after a first fragment, the frames [fs]
    complete the message with [data], the payloads of the pings among them
    being [pings].  [message max fs op data pings] is a whole message. *)
Inductive continues (max : Z) : bytes -> list websocketFrame -> bytes -> list bytes -> Prop :=
| continues_ping acc f fs data pings :
    Opcode f = wsOpPing -> continues max acc fs data pings ->
    continues max acc (f :: fs) data (Payload f :: pings)
| continues_more acc f fs data pings :
    Opcode f = wsOpContinuation -> Fin f = false -> zlen (acc ++ Payload f) <= max ->
    continues max (acc ++ Payload f) fs data pings ->
    continues max acc (f :: fs) data pings
| continues_last acc f :
    Opcode f = wsOpContinuation -> Fin f = true -> zlen (acc ++ Payload f) <= max ->
    continues max acc [f] (acc ++ Payload f) [].

Inductive message (max : Z) : list websocketFrame -> byte -> bytes -> list bytes -> Prop :=
| message_ping f fs op data pings :
    Opcode f = wsOpPing -> message max fs op data pings ->
    message max (f :: fs) op data (Payload f :: pings)
| message_single f :
    Opcode f = wsOpText \/ Opcode f = wsOpBinary -> Fin f = true ->
    message max [f] (Opcode f) (Payload f) []
| message_first f fs data pings :
    Opcode f = wsOpText \/ Opcode f = wsOpBinary -> Fin f = false -> zlen (Payload f) <= max ->
    continues max (Payload f) fs data pings ->
    message max (f :: fs) (Opcode f) data pings.

(** Frames on the wire, each with the mask key its sender chose. *)
Definition wires (fs : list (websocketFrame * bytes)) : bytes :=
  concat ((fun fk => frame_wire (fst fk) (snd fk)) <$> fs).

(** The pongs that answer these pings, from the [i]-th random draw on. *)
Definition key_at (i : nat) : bytes := match rand_Read i 4 with inl key => key | inr _ => [] end.
Fixpoint pongs (disabled : bool) (i : nat) (pings : list bytes) : bytes :=
  match pings with
  | [] => []
  | p :: pings =>
      if disabled || (125 <? zlen p) then pongs disabled i pings
      else frame_wire (mkFrame true wsOpPong true p) (key_at i) ++ pongs disabled (S i) pings
  end.

(** The random source does not fail. *)
Definition rand_works : Prop := forall i, exists key, rand_Read i 4 = inl key.

Lemma rand_key i : rand_works -> rand_Read i 4 = inl (key_at i).
Proof. intros Hr. unfold key_at. destruct (Hr i) as [key ->]. done. Qed.

(** The answer to one ping. *)
Lemma auto_pong_live c inp sent p pings :
  rand_works -> ws_live false c inp sent ->
  exists c' i, (if ws_disableAutoPong c then ret tt else ignore (Pong p)) c = (Ok tt, c') /\
    ws_live false c' inp i /\ ws_conf c' = ws_conf c /\
    i ++ pongs (ws_disableAutoPong c) (ws_draws c') pings =
      sent ++ pongs (ws_disableAutoPong c) (ws_draws c) (p :: pings).
Proof.
  intros Hr Hl. cbn [pongs]. destruct (ws_disableAutoPong c); cbn [orb].
  { by exists c, sent. }
  unfold ignore, Pong, catch. destruct (125 <? zlen p) eqn:E; [by exists c, sent|]. bools.
  assert (ws_isClosed c = false) as Hcl by (by destruct Hl as (? & _ & _ & ? & _)).
  destruct (writeFrameLocked_live false c inp sent wsOpPong p (key_at (ws_draws c)) Hl)
    as (c' & Ew & Hl' & Hc' & Hd'); [by apply rand_key|lia|].
  assert (WriteFrame wsOpPong p c = (Ok tt, c')) as Ew'.
  { unfold WriteFrame, get, bind. by rewrite Hcl. }
  unfold bind. rewrite Ew'. eexists _, _. split; [reflexivity|]. split; [exact Hl'|]. split; [done|].
  by rewrite Hd', <- app_assoc.
Qed.

(** The settings that matter to [read_message]. *)
Definition ws_sets (max : Z) (dis : bool) (c : WebSocketClient) : Prop :=
  ws_maxPayloadSize c = max /\ ws_disableAutoPong c = dis.

Lemma ws_sets_conf max dis c c' : ws_conf c' = ws_conf c -> ws_sets max dis c -> ws_sets max dis c'.
Proof. intros [= _ _ ? ?] [? ?]. split; congruence. Qed.

(** One iteration on a frame: the read, then the branch. *)
Lemma read_message_step fuel max dis c op acc f key rest sent :
  frame_ok max f key -> ws_sets max dis c -> ws_live false c (frame_wire f key ++ rest) sent ->
  exists c1, next_frame c = (Ok f, c1) /\ ws_live false c1 rest sent /\ ws_sets max dis c1 /\
    ws_conf c1 = ws_conf c /\ ws_draws c1 = ws_draws c /\
    (forall pings, rand_works -> Opcode f = wsOpPing ->
       exists c2 i, read_message (S fuel) op acc c = read_message fuel op acc c2 /\
         ws_live false c2 rest i /\ ws_sets max dis c2 /\ ws_conf c2 = ws_conf c /\
         i ++ pongs dis (ws_draws c2) pings = sent ++ pongs dis (ws_draws c) (Payload f :: pings)).
Proof.
  intros Hok Hs Hl. pose proof Hs as [Hmax Hdis].
  destruct (next_frame_live false c f key rest sent) as (c1 & E1 & Hl1 & Hc1 & Hd1); [by rewrite Hmax|done|].
  exists c1. assert (ws_sets max dis c1) as Hs1 by (by eapply ws_sets_conf). split_and!; try done.
  intros pings Hr Hop. destruct (auto_pong_live c1 rest sent (Payload f) pings Hr Hl1) as (c2 & i & E2 & Hl2 & Hc2 & Hi).
  rewrite (proj2 Hs1), Hd1 in Hi.
  exists c2, i. split_and!; [|done|by eapply ws_sets_conf|congruence|done].
  cbn [read_message]. rewrite (bind_Ok _ _ _ _ _ E1). unfold on_frame, get, bind at 1. cbv beta iota zeta.
  rewrite Hop. decide_consts. by rewrite (bind_Ok _ _ _ _ _ E2).
Qed.

Lemma read_message_continues fuel max dis c op acc fks data pings rest sent :
  rand_works -> op <> Byte.x00 -> ws_sets max dis c ->
  Forall (fun fk => frame_ok max (fst fk) (snd fk)) fks ->
  continues max acc (fst <$> fks) data pings -> (length fks <= fuel)%nat ->
  ws_live false c (wires fks ++ rest) sent ->
  exists c', read_message fuel op acc c = (Ok (Some (mkMsg op data), None), c') /\
    ws_live false c' rest (sent ++ pongs dis (ws_draws c) pings) /\ ws_conf c' = ws_conf c.
Proof.
  intros Hr Hop. revert fuel c acc data pings sent.
  induction fks as [|[f key] fks IH]; intros fuel c acc data pings sent Hs Hok Hc Hf Hl; [by inversion Hc|].
  destruct fuel as [|fuel]; [simpl in Hf; lia|]. apply Forall_cons in Hok as [Hok1 Hok]. cbn [fst snd] in Hok1.
  unfold wires in Hl. cbn [fmap list_fmap concat fst snd] in Hl. rewrite <- app_assoc in Hl.
  destruct (read_message_step fuel max dis c op acc f key _ sent Hok1 Hs Hl)
    as (c1 & E1 & Hl1 & Hs1 & Hc1 & Hd1 & Hping).
  cbn [fmap list_fmap fst] in Hc. simpl in Hf.
  inversion Hc as [? ? ? ? pings0 Hop1 Hrec|? ? ? ? ? Hop1 Hfin Hmax Hrec|? ? Hop1 Hfin Hmax]; subst.
  - destruct (Hping pings0 Hr Hop1) as (c2 & i & -> & Hl2 & Hs2 & Hc2 & <-).
    destruct (IH fuel c2 acc data pings0 i) as (c3 & E3 & Hl3 & Hc3); [done|done|done|lia|done|].
    exists c3. split_and!; [done|done|congruence].
  - destruct (IH fuel c1 (acc ++ Payload f) data pings sent) as (c3 & E3 & Hl3 & Hc3); [done|done|done|lia|done|].
    exists c3. rewrite <- Hd1. split_and!; [|done|congruence]. cbn [read_message].
    rewrite (bind_Ok _ _ _ _ _ E1). unfold on_frame, get, bind at 1. cbv beta iota zeta. rewrite Hop1, Hfin. decide_consts.
    destruct Hs1 as [-> _]. rewrite (proj2 (Z.ltb_ge _ _)) by lia.
    by rewrite bool_decide_eq_false_2.
  - destruct fks; [|done]. exists c1. rewrite app_nil_r. split_and!; [|done|done]. cbn [read_message].
    rewrite (bind_Ok _ _ _ _ _ E1). unfold on_frame, get, bind at 1. cbv beta iota zeta. rewrite Hop1, Hfin. decide_consts.
    destruct Hs1 as [-> _]. rewrite (proj2 (Z.ltb_ge _ _)) by lia.
    by rewrite bool_decide_eq_false_2.
Qed.

Lemma read_message_whole fuel max dis c op0 fks op data pings rest sent :
  rand_works -> ws_sets max dis c ->
  Forall (fun fk => frame_ok max (fst fk) (snd fk)) fks ->
  message max (fst <$> fks) op data pings -> (length fks <= fuel)%nat ->
  ws_live false c (wires fks ++ rest) sent ->
  exists c', read_message fuel op0 [] c = (Ok (Some (mkMsg op data), None), c') /\
    ws_live false c' rest (sent ++ pongs dis (ws_draws c) pings) /\ ws_conf c' = ws_conf c.
Proof.
  intros Hr. revert fuel c pings sent.
  induction fks as [|[f key] fks IH]; intros fuel c pings sent Hs Hok Hm Hf Hl; [by inversion Hm|].
  destruct fuel as [|fuel]; [simpl in Hf; lia|]. apply Forall_cons in Hok as [Hok1 Hok]. cbn [fst snd] in Hok1.
  unfold wires in Hl. cbn [fmap list_fmap concat fst snd] in Hl. rewrite <- app_assoc in Hl.
  destruct (read_message_step fuel max dis c op0 [] f key _ sent Hok1 Hs Hl)
    as (c1 & E1 & Hl1 & Hs1 & Hc1 & Hd1 & Hping).
  cbn [fmap list_fmap fst] in Hm. simpl in Hf.
  inversion Hm as [? ? ? ? pings0 Hop1 Hrec|? Hop1 Hfin|? ? ? ? Hop1 Hfin Hmax Hrec]; subst.
  - destruct (Hping pings0 Hr Hop1) as (c2 & i & -> & Hl2 & Hs2 & Hc2 & <-).
    destruct (IH fuel c2 pings0 i) as (c3 & E3 & Hl3 & Hc3); [done|done|done|lia|done|].
    exists c3. split_and!; [done|done|congruence].
  - destruct fks; [|done]. exists c1. rewrite app_nil_r. split_and!; [|done|done]. cbn [read_message].
    rewrite (bind_Ok _ _ _ _ _ E1). unfold on_frame, get, bind at 1. cbv beta iota zeta. rewrite Hfin.
    by destruct Hop1 as [-> | ->]; decide_consts.
  - destruct (read_message_continues fuel max dis c1 (Opcode f) (Payload f) fks data pings rest sent)
      as (c3 & E3 & Hl3 & Hc3); try done; [by destruct Hop1 as [-> | ->]|lia|].
    exists c3. rewrite <- Hd1. split_and!; [|done|congruence]. cbn [read_message].
    rewrite (bind_Ok _ _ _ _ _ E1). unfold on_frame, get, bind at 1. cbv beta iota zeta. rewrite Hfin.
    destruct Hs1 as [-> _]. cbn [app]. rewrite (proj2 (Z.ltb_ge _ _)) by lia.
    by destruct Hop1 as [Eo | Eo]; rewrite Eo in *; decide_consts.
Qed.

Lemma wires_length fks : (length fks <= length (wires fks))%nat.
Proof.
  unfold wires. induction fks as [|[f key] fks IH]; [done|]. cbn [fmap list_fmap concat length fst snd].
  unfold frame_wire at 1. rewrite length_app. cbn [length]. lia.
Qed.

Lemma ws_live_stream cl c inp sent : ws_live cl c inp sent -> ws_stream c = inp.
Proof.
  intros (k & Hk & _ & _ & _ & _ & _ & Hr). unfold ws_stream. rewrite Hk.
  destruct (ws_reader c) as [[buf err]|]; [by destruct Hr as (_ & _ & _ & ?)|by destruct Hr].
Qed.

(** C14: however a peer splits a text or binary message into fragments, masks
    its frames and puts pings between them, [ReadMessage] returns the message
    with the concatenated payload, has answered every ping of legal size with
    a pong that carries its payload, in order, and leaves what follows unread. *)
Theorem ReadMessage_assembles (c : WebSocketClient) (fks : list (websocketFrame * bytes))
    (op : byte) (data rest sent : bytes) (pings : list bytes)
    (Hrand : rand_works)
    (Hframes : Forall (fun fk => frame_ok (ws_maxPayloadSize c) (fst fk) (snd fk)) fks)
    (Hmsg : message (ws_maxPayloadSize c) (fst <$> fks) op data pings)
    (Hlive : ws_live false c (wires fks ++ rest) sent) :
  exists c', ReadMessage c = (Ok (Some (mkMsg op data), None), c') /\
    ws_live false c' rest (sent ++ pongs (ws_disableAutoPong c) (ws_draws c) pings) /\
    ws_conf c' = ws_conf c.
Proof.
  unfold ReadMessage, get, bind. cbv beta iota.
  assert (ws_isClosed c = false) as -> by (by destruct Hlive as (? & _ & _ & ? & _)).
  apply (read_message_whole _ (ws_maxPayloadSize c) (ws_disableAutoPong c) _ _ fks); try done.
  rewrite (ws_live_stream _ _ _ _ Hlive), length_app. pose proof (wires_length fks). lia.
Qed.

(** ** Control frames *)

(** A pong that arrives between two fragments of a message loses the
    message: [ReadMessage] returns the pong and forgets the fragments it had
    collected, and the next call fails on the continuation frame. *)
Theorem pong_drops_fragments (c : WebSocketClient) (f0 fp f1 : websocketFrame)
    (k0 kp k1 rest sent : bytes)
    (H0 : frame_ok (ws_maxPayloadSize c) f0 k0) (Hp : frame_ok (ws_maxPayloadSize c) fp kp)
    (H1 : frame_ok (ws_maxPayloadSize c) f1 k1) (Hmax : 0 < ws_maxPayloadSize c)
    (Hop0 : Opcode f0 = wsOpText \/ Opcode f0 = wsOpBinary) (Hfin0 : Fin f0 = false)
    (Hopp : Opcode fp = wsOpPong) (Hop1 : Opcode f1 = wsOpContinuation)
    (Hlive : ws_live false c (wires [(f0, k0); (fp, kp); (f1, k1)] ++ rest) sent) :
  exists c1 c2, ReadMessage c = (Ok (Some (mkMsg wsOpPong (Payload fp)), None), c1) /\
    ReadMessage c1 = (Err (Errorf "unexpected websocket continuation frame" []), c2).
Proof.
  unfold wires in Hlive. cbn [fmap list_fmap concat fst snd] in Hlive. rewrite <- !app_assoc in Hlive.
  cbn [app] in Hlive. pose proof (ws_live_stream _ _ _ _ Hlive) as Hst.
  destruct (next_frame_live false c f0 k0 _ sent H0 Hlive) as (c1 & E1 & L1 & C1 & D1).
  injection C1 as _ _ M1 _. rewrite <- M1 in Hp, H1, Hmax, H0.
  destruct (next_frame_live false c1 fp kp _ sent Hp L1) as (c2 & E2 & L2 & C2 & D2).
  injection C2 as _ _ M2 _. rewrite <- M2 in H1.
  destruct (next_frame_live false c2 f1 k1 _ sent H1 L2) as (c3 & E3 & L3 & C3 & D3).
  pose proof (ws_live_stream _ _ _ _ L2) as Hst2.
  exists c2, c3. split.
  - unfold ReadMessage, get, bind at 1. cbv beta iota.
    assert (ws_isClosed c = false) as -> by (by destruct Hlive as (? & _ & _ & ? & _)).
    rewrite Hst, !length_app. destruct (frame_wire f0 k0) as [|b w] eqn:Ew; [done|].
    cbn [length Nat.add read_message]. rewrite (bind_Ok _ _ _ _ _ E1). unfold on_frame, get, bind at 1. cbv beta iota zeta.
    rewrite Hfin0. cbn [app].
    destruct H0 as (_ & _ & _ & Hle). rewrite (proj2 (Z.ltb_ge _ _)) by auto.
    destruct Hop0 as [-> | ->]; decide_consts; rewrite (bind_Ok _ _ _ _ _ E2); unfold on_frame, get, bind at 1;
      cbv beta iota zeta; rewrite Hopp; by decide_consts.
  - unfold ReadMessage, get, bind at 1. cbv beta iota.
    assert (ws_isClosed c2 = false) as -> by (by destruct L2 as (? & _ & _ & ? & _)).
    cbn [read_message]. rewrite (bind_Ok _ _ _ _ _ E3). unfold on_frame, get, bind at 1. cbv beta iota zeta.
    rewrite Hop1. by decide_consts.
Qed.

(** A close frame of the peer is answered with a close frame that carries
    the same code and reason, and [ReadMessage] reports them; the client is
    then marked closed, so [Close] returns at once and the transport is never
    closed. *)
Theorem peer_close_keeps_transport (c : WebSocketClient) (f : websocketFrame) (key rest sent : bytes)
    (Hrand : rand_works) (Hok : frame_ok (ws_maxPayloadSize c) f key)
    (Hop : Opcode f = wsOpClose) (Hlive : ws_live false c (frame_wire f key ++ rest) sent) :
  let '(code, reason) := parseWebSocketClosePayload (Payload f) in
  exists c1 c2,
    ReadMessage c = (Ok (Some (mkMsg wsOpClose (Payload f)), Some (CloseError code reason)), c1) /\
    WS_Close c1 = (Ok tt, c2) /\
    ws_live true c2 rest (sent ++ frame_wire
      (mkFrame true wsOpClose true (be_put 2 code ++ reason)) (key_at (ws_draws c))).
Proof.
  destruct (parseWebSocketClosePayload (Payload f)) as [code reason] eqn:Ep.
  assert (0 <= code < 2 ^ 16 /\ zlen reason <= zlen (Payload f)) as [Hcode Hreason].
  { unfold parseWebSocketClosePayload in Ep. destruct (Payload f) as [|a [|b l]]; injection Ep as <- <-;
      [done|done|]. split; [apply (be_get_range [a; b])|unfold zlen; simpl; lia]. }
  pose proof (ws_live_stream _ _ _ _ Hlive) as Hst.
  destruct (next_frame_live false c f key _ sent Hok Hlive) as (c1 & E1 & L1 & C1 & D1).
  destruct (writeFrameLocked_live false c1 rest sent wsOpClose (be_put 2 (uwrap 16 code) ++ reason)
    (key_at (ws_draws c1)) L1) as (c2 & E2 & L2 & C2 & D2).
  { by apply rand_key. }
  { rewrite zlen_app. unfold zlen at 1. rewrite length_be_put. destruct Hok as (_ & _ & Ha & _).
    unfold maxAlloc in Ha. lia. }
  rewrite uwrap_id in E2, L2 by done. rewrite D1 in L2.
  exists (ws_set_closed true c2), (ws_set_closed true (ws_set_closed true c2)). split_and!.
  - unfold ReadMessage, get, bind at 1. cbv beta iota.
    assert (ws_isClosed c = false) as -> by (by destruct Hlive as (? & _ & _ & ? & _)).
    cbn [read_message]. rewrite (bind_Ok _ _ _ _ _ E1). unfold on_frame, get, bind at 1. cbv beta iota zeta.
    rewrite Hop, Ep. decide_consts. unfold writeCloseFrame. rewrite uwrap_id by done.
    unfold ignore, catch, modify, ret, bind. by rewrite E2.
  - done.
  - destruct L2 as (k & ? & ? & ? & ? & ? & ? & ?). exists k. by split_and!.
Qed.

(** The first [Close] of a live client sends a close frame with code 1000
    and closes the transport; every later call does nothing, and nothing can
    be written or read any more. *)
Theorem WS_Close_once (c : WebSocketClient) (inp sent : bytes)
    (Hrand : rand_works) (Hlive : ws_live false c inp sent) :
  exists c1 k1, WS_Close c = (Ok tt, c1) /\ t_conn (ws_tcp c1) = Some k1 /\ c_closed k1 = true /\
    c_sent k1 = sent ++ frame_wire
      (mkFrame true wsOpClose true (be_put 2 1000 ++ str "normal closure")) (key_at (ws_draws c)) /\
    WS_Close c1 = (Ok tt, c1) /\ (forall op p, WriteFrame op p c1 = (Err ErrTCPClientClosed, c1)) /\
    ReadMessage c1 = (Err ErrTCPClientClosed, c1).
Proof.
  assert (ws_live true (ws_set_closed true c) inp sent) as Hl.
  { destruct Hlive as (k & ? & ? & ? & ? & ? & ? & ?). exists k. by split_and!. }
  destruct (writeFrameLocked_live true (ws_set_closed true c) inp sent wsOpClose
    (be_put 2 (uwrap 16 1000) ++ str "normal closure") (key_at (ws_draws c)) Hl) as (c2 & E2 & L2 & _ & _).
  { by apply rand_key. }
  { done. }
  destruct L2 as (k & Hk & Ht & Hcl & Hw & Hs & Hc & Hr).
  exists (snd (on_tcp TCP_Close c2)), (set_closed true k).
  assert (on_tcp TCP_Close c2 = (Ok tt, ws_set_tcp (tcp_conn (set_closed true k) (tcp_closed true (ws_tcp c2))) c2)) as E3.
  { unfold on_tcp, TCP_Close, get, modify, bind, with_conn. by rewrite Ht, Hk. }
  assert (ws_isClosed c = false) as Hc0 by (by destruct Hlive as (? & _ & _ & ? & _)).
  rewrite E3. cbn [snd]. split_and!; try done.
  - unfold WS_Close, get, bind at 1. cbv beta iota. unfold modify, bind at 1. cbv beta iota.
    rewrite Hc0. unfold ignore, writeCloseFrame, catch, ret, bind. rewrite E2. exact E3.
  - unfold WS_Close, get, modify, bind, ret. cbv beta iota. cbn [ws_isClosed ws_set_tcp]. rewrite Hcl.
    unfold ws_set_closed. destruct c2; cbn in *. by subst.
  - intros op p. unfold WriteFrame, get, bind. cbn [ws_isClosed ws_set_tcp]. by rewrite Hcl.
  - unfold ReadMessage, get, bind. cbn [ws_isClosed ws_set_tcp]. by rewrite Hcl.
Qed.

(** ** Every peer *)

(** What a method leaves: a client with its connection and settings. *)
Definition ws_kept (c c' : WebSocketClient) : Prop :=
  is_Some (t_conn (ws_tcp c')) /\ ws_conf c' = ws_conf c /\ ws_stream c' = ws_stream c.

Lemma ws_kept_trans c1 c2 c3 : ws_kept c1 c2 -> ws_kept c2 c3 -> ws_kept c1 c3.
Proof. intros (? & ? & ?) (? & ? & ?). split_and!; [done|congruence..]. Qed.

Lemma deadline_kept c (m : GoM conn unit) :
  is_Some (t_conn (ws_tcp c)) -> (forall k, exists k', m k = (Ok tt, k') /\ c_in k' = c_in k) ->
  exists c', on_wsconn m c = (Ok tt, c') /\ ws_kept c c'.
Proof.
  intros [k Hk] Hm. unfold on_wsconn, on_tcp, with_conn. rewrite Hk. destruct (Hm k) as (k' & -> & Hi).
  eexists. split; [reflexivity|]. unfold ws_kept, ws_stream. cbn. rewrite Hk, Hi. done.
Qed.

Lemma SetReadDeadline_in d k : exists k', SetReadDeadline d k = (Ok tt, k') /\ c_in k' = c_in k.
Proof. by eexists. Qed.
Lemma SetWriteDeadline_in d k : exists k', SetWriteDeadline d k = (Ok tt, k') /\ c_in k' = c_in k.
Proof. by eexists. Qed.

Lemma build_and_write_kept c op p :
  is_Some (t_conn (ws_tcp c)) ->
  exists r c', build_and_write op p c = (r, c') /\ returned r /\ ws_kept c c'.
Proof.
  intros [k Hk]. unfold build_and_write, draw, get, modify, ret, bind. cbv beta iota.
  destruct (buildClientWebSocketFrame _ _ _) as [frame|e].
  - unfold on_tcp. cbn [ws_tcp ws_drawn].
    destruct (write_full_spec (length frame) frame (ws_tcp c) k Hk (Nat.le_refl _))
      as (r & t & k' & n & E & Hk' & _ & Hi & Hr).
    unfold WriteFull. rewrite E. eexists _, _. split; [reflexivity|]. split; [by destruct r|].
    unfold ws_kept, ws_stream. cbn. rewrite Hk, Hk', Hi. done.
  - eexists _, _. split; [reflexivity|]. split; [done|]. unfold ws_kept, ws_stream. cbn. by rewrite Hk.
Qed.

Lemma writeFrameLocked_kept c op p :
  is_Some (t_conn (ws_tcp c)) ->
  exists r c', writeFrameLocked op p c = (r, c') /\ returned r /\ ws_kept c c'.
Proof.
  intros Hk. unfold writeFrameLocked, get, bind at 1. cbv beta iota.
  destruct (0 <? ws_timeout c); [|by apply build_and_write_kept].
  destruct (deadline_kept c _ Hk (SetWriteDeadline_in (Some (ws_timeout c)))) as (c1 & E1 & K1).
  rewrite (bind_Ok _ _ _ _ _ E1). destruct (build_and_write_kept c1 op p) as (r & c2 & E2 & Hr & K2); [apply K1|].
  destruct (deadline_kept c2 _ (proj1 K2) (SetWriteDeadline_in None)) as (c3 & E3 & K3).
  unfold deferred. rewrite E2, E3. exists r, c3. split_and!; [done|done|]. eauto using ws_kept_trans.
Qed.

Lemma ignore_kept {A} (m : GoM WebSocketClient A) c :
  (exists r c', m c = (r, c') /\ returned r /\ ws_kept c c') ->
  exists c', ignore m c = (Ok tt, c') /\ ws_kept c c'.
Proof.
  intros (r & c' & E & Hr & K). exists c'. split; [|done]. unfold ignore, catch, bind. rewrite E.
  by destruct r.
Qed.

Lemma WriteFrame_kept c op p :
  is_Some (t_conn (ws_tcp c)) -> exists r c', WriteFrame op p c = (r, c') /\ returned r /\ ws_kept c c'.
Proof.
  intros Hk. unfold WriteFrame, get, bind. destruct (ws_isClosed c); [by eexists _, c|].
  by apply writeFrameLocked_kept.
Qed.

Lemma Pong_kept c p :
  is_Some (t_conn (ws_tcp c)) -> exists r c', Pong p c = (r, c') /\ returned r /\ ws_kept c c'.
Proof.
  intros Hk. unfold Pong. destruct (125 <? zlen p); [by exists (Err (Errorf "websocket pong payload too large" [])), c|].
  by apply WriteFrame_kept.
Qed.

(** [Close] returns, keeps the connection's input and marks the client closed. *)
Lemma WS_Close_kept c :
  is_Some (t_conn (ws_tcp c)) ->
  exists r c', WS_Close c = (r, c') /\ returned r /\ ws_kept c c'.
Proof.
  intros Hk. unfold WS_Close, get, modify, bind at 1, bind at 1. cbv beta iota.
  assert (ws_kept c (ws_set_closed true c)) as K0 by done.
  destruct (ws_isClosed c); [by eexists _, _|].
  destruct (ignore_kept (writeCloseFrame 1000 (str "normal closure")) (ws_set_closed true c))
    as (c1 & E1 & K1); [by apply writeFrameLocked_kept|].
  rewrite (bind_Ok _ _ _ _ _ E1). pose proof (proj1 K1) as [k Hk1].
  unfold on_tcp, TCP_Close, get, modify, bind, with_conn. rewrite Hk1.
  assert (forall k' b, c_in k' = c_in k -> ws_kept c (ws_set_tcp (mkTCP (Some k') (t_timeout (ws_tcp c1)) b) c1)) as Hfin.
  { intros k' b Hi. apply (ws_kept_trans _ _ _ K0), (ws_kept_trans _ _ _ K1).
    unfold ws_kept, ws_stream. cbn. rewrite Hk1, Hi. done. }
  destruct (t_isClosed (ws_tcp c1)) eqn:Ht; cbn; (eexists _, _; split; [reflexivity|]; split; [done|]).
  - specialize (Hfin k true eq_refl). replace (ws_tcp c1) with (mkTCP (Some k) (t_timeout (ws_tcp c1)) true); [done|].
    destruct (ws_tcp c1); cbn in *. congruence.
  - apply Hfin. done.
Qed.

Lemma next_frame_returns c :
  is_Some (t_conn (ws_tcp c)) -> 0 < ws_maxPayloadSize c <= maxAlloc ->
  exists r c', next_frame c = (r, c') /\ is_Some (t_conn (ws_tcp c')) /\ ws_conf c' = ws_conf c /\
    match r with
    | Ok _ => (length (ws_stream c') < length (ws_stream c))%nat
    | Err _ => True
    | _ => False
    end.
Proof.
  intros Hk Hmax.
  assert (forall c, is_Some (t_conn (ws_tcp c)) -> 0 < ws_maxPayloadSize c <= maxAlloc ->
    exists r c', read_frame c = (r, c') /\ is_Some (t_conn (ws_tcp c')) /\ ws_conf c' = ws_conf c /\
    match r with Ok _ => (length (ws_stream c') < length (ws_stream c))%nat | Err _ => True | _ => False end) as Hread.
  { clear. intros c [k Hk] Hmax. unfold read_frame, ws_stream. rewrite Hk.
    destruct (ws_reader c) as [[buf err]|] eqn:Er.
    - destruct (read_frame_returns (S := bufio) (ws_maxPayloadSize c) (mkBufio buf err k) Hmax) as (r & b & -> & _ & Hr).
      eexists _, _. split; [reflexivity|]. cbn. split_and!; try done; by destruct r.
    - destruct (read_frame_returns (S := conn) (ws_maxPayloadSize c) k Hmax) as (r & k' & -> & _ & Hr).
      eexists _, _. split; [reflexivity|]. cbn. rewrite Er. split_and!; try done; by destruct r. }
  unfold next_frame, get, bind at 1. cbv beta iota. destruct (0 <? ws_readTimeout c).
  - destruct (deadline_kept c _ Hk (SetReadDeadline_in (Some (ws_readTimeout c)))) as (c1 & E1 & K1).
    rewrite (bind_Ok _ _ _ _ _ E1). destruct K1 as (K11 & K12 & K13).
    destruct (Hread c1 K11) as (r & c2 & E2 & K2 & C2 & Hr); [by injection K12 as _ _ -> _|].
    destruct (deadline_kept c2 _ K2 (SetReadDeadline_in None)) as (c3 & E3 & K31 & K32 & K33).
    unfold catch, deferred. rewrite E2, E3. destruct r as [f|e| |]; try done; cbn [snd].
    + exists (Ok f), c3. split_and!; try done; [congruence|]. by rewrite K33, <- K13.
    + eexists _, (ws_set_closed true c3). split; [reflexivity|]. split_and!; try done.
      unfold ws_conf in *. cbn. congruence.
  - unfold bind, ret, catch. destruct (Hread c Hk Hmax) as (r & c2 & E2 & K2 & C2 & Hr). rewrite E2.
    destruct r as [f|e| |]; try done; [by eexists _, _|]. by eexists _, (ws_set_closed true c2).
Qed.

(** Whatever the peer sends and however reads and writes fail,
    [ReadMessage] returns a message or an error: it neither panics nor loops,
    for every limit the run time can allocate. *)
Theorem ReadMessage_returns (c : WebSocketClient)
    (Hconn : is_Some (t_conn (ws_tcp c))) (Hmax : 0 < ws_maxPayloadSize c <= maxAlloc) :
  returned (fst (ReadMessage c)).
Proof.
  assert (forall fuel op acc c, is_Some (t_conn (ws_tcp c)) -> 0 < ws_maxPayloadSize c <= maxAlloc ->
    (length (ws_stream c) < fuel)%nat -> returned (fst (read_message fuel op acc c))) as Hgen.
  { clear. induction fuel as [|fuel IH]; intros op acc c Hk Hmax Hf; [lia|]. cbn [read_message].
    destruct (next_frame_returns c Hk Hmax) as (r & c1 & E & K1 & C1 & Hr).
    destruct r as [f|e| |]; [|by rewrite (bind_Err _ _ _ _ _ E)|done|done].
    rewrite (bind_Ok _ _ _ _ _ E). unfold on_frame, get, bind at 1. cbv beta iota zeta.
    assert (0 < ws_maxPayloadSize c1 <= maxAlloc) as Hmax1 by (injection C1 as _ _ -> _; done).
    case_bool_decide.
    { assert (exists c2, (if ws_disableAutoPong c1 then ret tt else ignore (Pong (Payload f))) c1 = (Ok tt, c2)
        /\ ws_kept c1 c2) as (c2 & E2 & K21 & K22 & K23).
      { destruct (ws_disableAutoPong c1); [by exists c1|]. by apply ignore_kept, Pong_kept. }
      rewrite (bind_Ok _ _ _ _ _ E2). apply IH; [done|by injection K22 as _ _ -> _|rewrite K23; lia]. }
    case_bool_decide; [done|]. case_bool_decide.
    { destruct (parseWebSocketClosePayload (Payload f)) as [code reason].
      destruct (ignore_kept (writeCloseFrame code reason) c1) as (c2 & E2 & _);
        [by apply writeFrameLocked_kept|]. by rewrite (bind_Ok _ _ _ _ _ E2). }
    repeat case_if; try done; apply IH; done || lia. }
  unfold ReadMessage, get, bind at 1. cbv beta iota. destruct (ws_isClosed c); [done|].
  apply Hgen; [done|done|lia].
Qed.
End live.

(** ** Witnesses *)

Definition demo_ws (inp : bytes) : WebSocketClient :=
  mkWS (mkTCP (Some (mkConn [mkRd inp None] [] [] None None false false)) 0 false) (Some ([], None))
    10 30 false 1000 false 0.

Lemma rand_counter_works : rand_works (H := rand_counter).
Proof. intros i. by eexists. Qed.

Lemma ReadMessage_assembles_witness :
  let fks := [(mkFrame false wsOpText false (str "Hel"), demo_key);
              (mkFrame true wsOpPing false (str "?"), demo_key);
              (mkFrame true wsOpContinuation true (str "lo"), demo_key)] in
  exists c', ReadMessage (demo_ws (wires fks ++ str "rest")) = (Ok (Some (mkMsg wsOpText (str "Hello")), None), c') /\
    ws_live false c' (str "rest") ([] ++ pongs false 0 [str "?"]) /\
    ws_conf c' = ws_conf (demo_ws (wires fks ++ str "rest")).
Proof.
  intros fks. apply (ReadMessage_assembles (demo_ws (wires fks ++ str "rest")) fks wsOpText (str "Hello")).
  - exact rand_counter_works.
  - repeat constructor; vm_compute; congruence.
  - eapply message_first; [by left|done|vm_compute; congruence|].
    apply continues_ping; [done|]. apply continues_last; [done|done|vm_compute; congruence].
  - eexists. do 6 (split; [reflexivity|]). split_and!; [reflexivity|reflexivity| |vm_compute; reflexivity].
    repeat constructor; vm_compute; congruence.
Defined.

Lemma pong_drops_fragments_witness :
  let f0 := mkFrame false wsOpText false (str "Hel") in
  let fp := mkFrame true wsOpPong false (str "!") in
  let f1 := mkFrame true wsOpContinuation false (str "lo") in
  exists c1 c2,
    ReadMessage (demo_ws (wires [(f0, demo_key); (fp, demo_key); (f1, demo_key)] ++ [])) =
      (Ok (Some (mkMsg wsOpPong (str "!")), None), c1) /\
    ReadMessage c1 = (Err (Errorf "unexpected websocket continuation frame" []), c2).
Proof.
  intros f0 fp f1.
  apply (pong_drops_fragments (demo_ws (wires [(f0, demo_key); (fp, demo_key); (f1, demo_key)] ++ []))
    f0 fp f1 demo_key demo_key demo_key [] []); try (repeat split; vm_compute; congruence).
  - by left.
  - eexists. do 6 (split; [reflexivity|]). split_and!; [reflexivity|reflexivity| |vm_compute; reflexivity].
    repeat constructor; vm_compute; congruence.
Defined.

Lemma peer_close_keeps_transport_witness :
  let f := mkFrame true wsOpClose false (be_put 2 1001 ++ str "bye") in
  exists c1 c2,
    ReadMessage (demo_ws (frame_wire f demo_key ++ [])) =
      (Ok (Some (mkMsg wsOpClose (Payload f)), Some (CloseError 1001 (str "bye"))), c1) /\
    WS_Close c1 = (Ok tt, c2) /\
    ws_live true c2 [] ([] ++ frame_wire (mkFrame true wsOpClose true (be_put 2 1001 ++ str "bye")) (key_at 0)).
Proof.
  intros f.
  apply (peer_close_keeps_transport (demo_ws (frame_wire f demo_key ++ [])) f demo_key [] []).
  - exact rand_counter_works.
  - repeat split; vm_compute; congruence.
  - reflexivity.
  - eexists. do 6 (split; [reflexivity|]). split_and!; [reflexivity|reflexivity| |vm_compute; reflexivity].
    repeat constructor; vm_compute; congruence.
Defined.

Lemma WS_Close_once_witness :
  exists c1 k1, WS_Close (demo_ws (str "x")) = (Ok tt, c1) /\ t_conn (ws_tcp c1) = Some k1 /\ c_closed k1 = true /\
    c_sent k1 = [] ++ frame_wire
      (mkFrame true wsOpClose true (be_put 2 1000 ++ str "normal closure")) (key_at 0) /\
    WS_Close c1 = (Ok tt, c1) /\ (forall op p, WriteFrame op p c1 = (Err ErrTCPClientClosed, c1)) /\
    ReadMessage c1 = (Err ErrTCPClientClosed, c1).
Proof.
  apply (WS_Close_once (demo_ws (str "x")) (str "x") []).
  - exact rand_counter_works.
  - eexists. do 6 (split; [reflexivity|]). split_and!; [reflexivity|reflexivity| |vm_compute; reflexivity].
    repeat constructor; vm_compute; congruence.
Defined.

Lemma ReadMessage_returns_witness : returned (fst (ReadMessage (demo_ws (str "garbage")))).
Proof.
  apply (ReadMessage_returns (demo_ws (str "garbage"))).
  - by eexists.
  - vm_compute. split; congruence.
Defined.
