(* ===== verification/Http1.v ===== *)
(** * Http1: HTTP/1.1 lines and headers

    The text layer shared by the HTTP client and the WebSocket handshake, from
    [network/http_client.go]: status lines, header blocks, header maps.  A Go
    map is a [gmap]; where the source ranges over one, the order is that of a
    [MapOrder], any permutation of the map. *)

From S2P Require Import Prelude Bytes GoStrings Conn Bufio.

Local Open Scope Z_scope.

Abbreviation headers := (gmap bytes bytes).

(** The order of one [range] over a map. *)
Class MapOrder := {
  range : headers -> list (bytes * bytes);
  range_perm m : range m ≡ₚ map_to_list m;
}.

#[export] Program Instance order_canonical : MapOrder := {| range := map_to_list |}.
Next Obligation. done. Qed.

Definition crlf : bytes := [Byte.x0d; Byte.x0a].
Definition newline : byte := Byte.x0a.

(** A header line as the client writes it. *)
Definition header_line (key value : bytes) : bytes := key ++ str ": " ++ value ++ crlf.

Section maps.
Context `{Unicode} `{MapOrder}.

Definition key_is (key : bytes) (kv : bytes * bytes) : bool := EqualFold (TrimSpace (fst kv)) key.

Definition hasHeader (h : headers) (key : bytes) : bool := existsb (key_is key) (range h).

Definition getHeader (h : headers) (key : bytes) : bytes :=
  match find (key_is key) (range h) with Some kv => snd kv | None => [] end.

(** Deleting while ranging visits every key that is left. *)
Definition removeHeader (h : headers) (key : bytes) : headers :=
  foldr (fun kv h => if key_is key kv then delete (fst kv) h else h) h (range h).

(** What the call appends to the buffer. *)
Definition writeHeaderIfMissing (h : headers) (key value : bytes) : bytes :=
  if hasHeader h key then [] else header_line key value.

(** The loop over the caller's headers: blank keys are skipped. *)
Definition write_headers (h : headers) : bytes :=
  concat ((fun kv => let key := TrimSpace (fst kv) in
                     if bool_decide (key = []) then []
                     else header_line key (TrimSpace (snd kv))) <$> range h).
End maps.

(** ** Reading *)

Definition readHTTPLine : GoM bufio bytes :=
  do '(line, err) <- ReadString newline;
  match err with
  | Some e => fail e
  | None => ret (TrimRight crlf line)
  end.

Definition parseHTTPStatusCode (statusLine : bytes) : Z + error :=
  match Fields statusLine with
  | _ :: p :: _ =>
      match Atoi p with
      | Some code => inl code
      | None => inr (Errorf "invalid HTTP status code: %q" [AQuote p])
      end
  | _ => inr (Errorf "invalid HTTP status line: %q" [AQuote statusLine])
  end.

(** A repeated key joins its values. *)
Definition add_header (h : headers) (key value : bytes) : headers :=
  match h !! key with
  | Some old => <[key := old ++ str ", " ++ value]> h
  | None => <[key := value]> h
  end.

(** The effect of one non-empty line. *)
Definition header_of_line (line : bytes) (h : headers) : headers :=
  match Index line (str ":") with
  | Some (S i) => add_header h (TrimSpace (take (S i) line)) (TrimSpace (drop (S (S i)) line))
  | _ => h
  end.

Fixpoint read_headers (fuel : nat) (h : headers) : GoM bufio headers :=
  match fuel with
  | O => fun s => (Diverge, s)
  | S fuel =>
      do line <- readHTTPLine;
      match line with
      | [] => ret h
      | _ => read_headers fuel (header_of_line line h)
      end
  end.

(** Every line takes at least one byte of the stream. *)
Definition readHTTPHeaders : GoM bufio headers :=
  do s <- get; read_headers (S (length (br_stream s))) ∅.

(** ** Lemmas *)

Lemma readHTTPLine_spec s :
  exists r s', readHTTPLine s = (r, s') /\ wside (b_conn s') = wside (b_conn s) /\
    match r with
    | Ok line => (length (br_stream s') < length (br_stream s))%nat /\
        (length (c_in (b_conn s')) <= length (c_in (b_conn s)))%nat
    | Err _ => (length (br_stream s') + length (c_in (b_conn s')) <=
                length (br_stream s) + length (c_in (b_conn s)))%nat
    | _ => False
    end.
Proof.
  destruct (ReadString_returns newline s) as (d & e & s' & E & Hw).
  unfold readHTTPLine. rewrite (bind_Ok _ _ _ _ _ E).
  apply read_string_events in E as Hev. apply read_string_stream in E as [E Hd]. cbn [app] in E.
  destruct e as [e|].
  { eexists _, _. split; [reflexivity|]. split; [done|]. rewrite E, length_app. lia. }
  eexists _, _. split; [reflexivity|]. split; [done|]. split; [|done]. rewrite E, length_app.
  specialize (Hd eq_refl). destruct d; [by apply not_elem_of_nil in Hd|]. simpl. lia.
Qed.

Lemma read_headers_returns fuel h s :
  (length (br_stream s) < fuel)%nat ->
  exists r s', read_headers fuel h s = (r, s') /\ wside (b_conn s') = wside (b_conn s) /\ returned r.
Proof.
  revert h s. induction fuel as [|fuel IH]; intros h s Hf; [lia|]. cbn [read_headers].
  destruct (readHTTPLine_spec s) as (r & s1 & E & Hw & Hr).
  destruct r as [line|e| |]; [|by rewrite (bind_Err _ _ _ _ _ E); eexists _, _|done|done].
  destruct Hr as [Hr _].
  rewrite (bind_Ok _ _ _ _ _ E). destruct line as [|b line]; [by eexists _, _|].
  destruct (IH (header_of_line (b :: line) h) s1) as (r & s2 & E2 & Hw2 & Hr2); [lia|].
  exists r, s2. split; [done|]. split; [congruence|done].
Qed.

Lemma readHTTPHeaders_returns s :
  exists r s', readHTTPHeaders s = (r, s') /\ wside (b_conn s') = wside (b_conn s) /\ returned r.
Proof. apply read_headers_returns. lia. Qed.

(** *** Lines *)

(** A line that [TrimRight] leaves alone. *)
Definition line_ok (a : bytes) : Prop :=
  (newline ∉ a) /\ (match last a with Some b => b <> Byte.x0d | None => True end).

#[global] Instance line_ok_dec a : Decision (line_ok a).
Proof. unfold line_ok. destruct (last a); apply _. Defined.

Lemma TrimRight_line a : line_ok a -> TrimRight crlf (a ++ crlf) = a.
Proof.
  intros [Hn Hl]. unfold TrimRight, crlf. rewrite reverse_app.
  cbn [reverse rev_append app drop_while]. rewrite !bool_decide_eq_true_2 by set_solver.
  destruct (reverse a) as [|b r] eqn:E.
  - apply (f_equal reverse) in E. by rewrite reverse_involutive in E.
  - apply (f_equal reverse) in E. rewrite reverse_involutive, reverse_cons in E. subst a.
    rewrite last_snoc in Hl. cbn [drop_while].
    rewrite bool_decide_eq_false_2; [apply reverse_cons|].
    unfold newline in Hn. intros Hin. apply elem_of_cons in Hin as [->|Hin]; [done|].
    apply list_elem_of_singleton in Hin as ->. apply Hn. set_solver.
Qed.

Lemma readHTTPLine_pending s a rest :
  line_ok a -> br_pending s (a ++ crlf ++ rest) ->
  exists s', readHTTPLine s = (Ok a, s') /\ br_pending s' rest /\ wside (b_conn s') = wside (b_conn s).
Proof.
  intros Ha Hp. destruct (ReadString_pending newline s (a ++ [Byte.x0d]) rest) as (s' & E & Hp' & Hw).
  { by rewrite <- app_assoc. }
  { intros Hin. apply elem_of_app in Hin as [Hin|Hin]; [by apply (proj1 Ha)|set_solver]. }
  exists s'. unfold readHTTPLine. rewrite (bind_Ok _ _ _ _ _ E). rewrite <- app_assoc.
  unfold ret. change ([Byte.x0d] ++ [newline]) with crlf. by rewrite TrimRight_line.
Qed.

Lemma readHTTPLine_eof s inp :
  newline ∉ inp -> br_pending s inp ->
  exists s', readHTTPLine s = (Err EOF, s') /\ br_pending s' [] /\ wside (b_conn s') = wside (b_conn s).
Proof.
  intros Hn Hp. destruct (ReadString_eof newline s inp Hp Hn) as (s' & E & Hp' & Hw).
  exists s'. unfold readHTTPLine. by rewrite (bind_Ok _ _ _ _ _ E).
Qed.

(** *** Header blocks *)

(** A header that survives being written and read. *)
Definition header_ok (kv : bytes * bytes) : Prop :=
  fst kv <> [] /\ TrimSpace (fst kv) = fst kv /\ TrimSpace (snd kv) = snd kv /\
  (Byte.x3a ∉ fst kv) /\ (newline ∉ fst kv) /\ (newline ∉ snd kv).

Definition header_block (hs : list (bytes * bytes)) : bytes :=
  concat ((fun kv => header_line (fst kv) (snd kv)) <$> hs).

Lemma trimmed_last s : trimmed s -> match last s with Some b => b <> Byte.x0d | None => True end.
Proof.
  intros [_ H]. destruct (reverse s) as [|b r] eqn:E.
  - apply (f_equal reverse) in E. rewrite reverse_involutive in E. by subst.
  - apply (f_equal reverse) in E. rewrite reverse_involutive, reverse_cons in E. subst s.
    rewrite last_snoc. intros ->. destruct r as [|b1 [|b2 r]]; done.
Qed.

Lemma header_line_ok kv :
  header_ok kv -> line_ok (fst kv ++ str ": " ++ snd kv).
Proof.
  intros (Hne & Hk & Hv & Hc & Hnk & Hnv). split.
  - intros Hin. apply elem_of_app in Hin as [?|[Hin|?]%elem_of_app]; try done.
    repeat (apply elem_of_cons in Hin as [?|Hin]; [done|]). by apply not_elem_of_nil in Hin.
  - rewrite app_assoc. destruct (snd kv) as [|b v] eqn:E.
    + rewrite app_nil_r. change (str ": ") with ([Byte.x3a] ++ [Byte.x20]).
      by rewrite app_assoc, last_snoc.
    + rewrite last_app_cons. pose proof (trimmed_last (b :: v)) as Hl.
      apply Hl. rewrite <- Hv. apply TrimSpace_trimmed.
Qed.

Lemma TrimSpace_space v : TrimSpace (Byte.x20 :: v) = TrimSpace v.
Proof. done. Qed.

Lemma header_of_line_ok kv h :
  header_ok kv -> header_of_line (fst kv ++ str ": " ++ snd kv) h = add_header h (fst kv) (snd kv).
Proof.
  intros (Hne & Hk & Hv & Hc & _). unfold header_of_line. destruct kv as [[|b k] v]; [done|].
  cbn [fst snd] in *. change (str ": " ++ v) with (Byte.x3a :: Byte.x20 :: v).
  change (str ":") with [Byte.x3a]. rewrite (Index_byte (b :: k)) by done. cbn [length].
  rewrite take_app_length' by done. rewrite Hk.
  replace (S (S (length k))) with (length (b :: k) + 1)%nat by (simpl; lia).
  rewrite drop_app_add. cbn [drop]. by rewrite ?drop_0, TrimSpace_space, Hv.
Qed.

Lemma read_headers_pending fuel h hs rest s :
  Forall header_ok hs -> (length hs < fuel)%nat ->
  br_pending s (header_block hs ++ crlf ++ rest) ->
  exists s', read_headers fuel h s = (Ok (foldl (fun h kv => add_header h (fst kv) (snd kv)) h hs), s') /\
    br_pending s' rest /\ wside (b_conn s') = wside (b_conn s).
Proof.
  revert h fuel s. induction hs as [|kv hs IH]; intros h fuel s Hok Hf Hp; destruct fuel as [|fuel]; try (simpl in Hf; lia).
  - destruct (readHTTPLine_pending s [] rest) as (s' & E & Hp' & Hw); [split; [set_solver|done]|done|].
    exists s'. cbn [read_headers foldl]. by rewrite (bind_Ok _ _ _ _ _ E).
  - apply Forall_cons in Hok as [Hkv Hok].
    destruct (readHTTPLine_pending s (fst kv ++ str ": " ++ snd kv) (header_block hs ++ crlf ++ rest))
      as (s1 & E & Hp1 & Hw1).
    + by apply header_line_ok.
    + unfold header_block in Hp. cbn [fmap list_fmap concat] in Hp. unfold header_line in Hp.
      rewrite <- !app_assoc in *. exact Hp.
    + destruct (IH (add_header h (fst kv) (snd kv)) fuel s1) as (s2 & E2 & Hp2 & Hw2);
        [done|simpl in Hf; lia|done|].
      exists s2. cbn [read_headers foldl]. rewrite (bind_Ok _ _ _ _ _ E).
      rewrite header_of_line_ok by done.
      destruct (fst kv ++ str ": " ++ snd kv) eqn:El.
      { destruct Hkv as [Hne _]. by apply app_nil in El as [? _]. }
      split; [done|]. split; [done|congruence].
Qed.

Lemma header_block_length hs : (length hs <= length (header_block hs))%nat.
Proof.
  unfold header_block. induction hs as [|kv hs IH]; [done|]. cbn [fmap list_fmap concat length].
  rewrite length_app. assert (0 < length (header_line (fst kv) (snd kv)))%nat; [|lia].
  unfold header_line. rewrite !length_app. simpl. lia.
Qed.

Lemma readHTTPHeaders_pending hs rest s :
  Forall header_ok hs -> br_pending s (header_block hs ++ crlf ++ rest) ->
  exists s', readHTTPHeaders s = (Ok (foldl (fun h kv => add_header h (fst kv) (snd kv)) ∅ hs), s') /\
    br_pending s' rest /\ wside (b_conn s') = wside (b_conn s).
Proof.
  intros Hok Hp. apply read_headers_pending; [done| |done].
  destruct Hp as (_ & _ & _ & Hs). unfold br_stream. rewrite Hs, !length_app.
  pose proof (header_block_length hs). lia.
Qed.

(** Distinct keys: the map is the list. *)
Lemma add_headers_distinct hs h :
  NoDup (fst <$> hs) -> (forall kv, kv ∈ hs -> h !! fst kv = None) ->
  foldl (fun h kv => add_header h (fst kv) (snd kv)) h hs = list_to_map hs ∪ h.
Proof.
  revert h. induction hs as [|[k v] hs IH]; intros h Hnd Hno.
  - simpl. by rewrite (left_id_L ∅ (∪)).
  - cbn [fmap list_fmap] in Hnd. apply NoDup_cons in Hnd as [Hk Hnd]. cbn [foldl fst snd].
    assert (h !! k = None) as Hk0 by (apply (Hno (k, v)); set_solver).
    assert (add_header h k v = <[k := v]> h) as -> by (unfold add_header; by rewrite Hk0).
    rewrite IH; [|done|].
    + cbn. rewrite <- insert_union_l, insert_union_r; [done|].
      apply not_elem_of_list_to_map_1. done.
    + intros kv Hin. rewrite lookup_insert_ne; [apply Hno; set_solver|].
      intros ->. apply Hk. apply list_elem_of_fmap. by exists kv.
Qed.

(** *** Looking headers up *)

Section lookup.
Context `{Unicode} `{MapOrder}.

Lemma elem_of_range (h : headers) k v : (k, v) ∈ range h <-> h !! k = Some v.
Proof. by rewrite range_perm, elem_of_map_to_list. Qed.

Lemma hasHeader_true h key :
  hasHeader h key = true <-> exists k v, h !! k = Some v /\ EqualFold (TrimSpace k) key = true.
Proof.
  unfold hasHeader. rewrite existsb_exists. split.
  - intros ([k v] & Hin & Hk). apply list_elem_of_In, elem_of_range in Hin. eauto.
  - intros (k & v & Hl & Hk). exists (k, v). split; [|done]. by apply list_elem_of_In, elem_of_range.
Qed.

(** A header that is present under one spelling is found, in any order. *)
Lemma getHeader_found h key k v :
  h !! k = Some v -> EqualFold (TrimSpace k) key = true ->
  (forall k' v', h !! k' = Some v' -> EqualFold (TrimSpace k') key = true -> k' = k) ->
  getHeader h key = v.
Proof.
  intros Hl Hk Hu. unfold getHeader. destruct (find (key_is key) (range h)) as [[k' v']|] eqn:E.
  - apply find_some in E as [Hin Hk']. apply list_elem_of_In, elem_of_range in Hin.
    rewrite (Hu k' v' Hin Hk') in Hin. cbn. congruence.
  - assert (key_is key (k, v) = false) as Hf
      by (apply (find_none _ _ E), list_elem_of_In; by apply elem_of_range).
    unfold key_is in Hf. cbn [fst] in Hf. congruence.
Qed.

Lemma getHeader_absent h key :
  hasHeader h key = false -> getHeader h key = [].
Proof.
  intros Hh. unfold getHeader. destruct (find (key_is key) (range h)) as [[k v]|] eqn:E; [|done].
  apply find_some in E as [Hin Hk]. unfold hasHeader in Hh.
  assert (existsb (key_is key) (range h) = true); [|congruence]. apply existsb_exists. eauto.
Qed.

Lemma lookup_removeHeader h key k v :
  removeHeader h key !! k = Some v <-> h !! k = Some v /\ EqualFold (TrimSpace k) key = false.
Proof.
  unfold removeHeader.
  assert (forall l (h0 : headers), foldr (fun kv h => if key_is key kv then delete kv.1 h else h) h0 l !! k = Some v <->
    h0 !! k = Some v /\ Forall (fun kv => kv.1 = k -> key_is key kv = false) l) as Hgen.
  { induction l as [|[k' v'] l IH]; intros h0; cbn [foldr].
    - split; [|tauto]. intros ?. split; [done|constructor].
    - rewrite Forall_cons. destruct (key_is key (k', v')) eqn:Ek; cbn [fst].
      + rewrite lookup_delete_Some, IH. split; [|naive_solver]. intros (Hne & ? & ?). naive_solver.
      + rewrite IH. naive_solver. }
  rewrite Hgen, Forall_forall. split; intros [Hl Hk]; (split; [done|]).
  - specialize (Hk (k, v)). apply Hk; [|done]. by apply elem_of_range.
  - intros [k' v'] _ E. cbn in E. by subst k'.
Qed.
End lookup.

(** The value of a name that was given these values so far. *)
Definition joined (vs : list bytes) : option bytes :=
  match vs with [] => None | _ => Some (Join vs (str ", ")) end.

Lemma Join_snoc vs v sep : vs <> [] -> Join (vs ++ [v]) sep = Join vs sep ++ sep ++ v.
Proof.
  induction vs as [|x vs IH]; [done|]. intros _. destruct vs as [|y vs]; [done|].
  change (Join ((x :: y :: vs) ++ [v]) sep) with (x ++ sep ++ Join ((y :: vs) ++ [v]) sep).
  rewrite IH by done. change (Join (x :: y :: vs) sep) with (x ++ sep ++ Join (y :: vs) sep).
  by rewrite <- !app_assoc.
Qed.

Lemma add_headers_lookup hs h k vs :
  h !! k = joined vs ->
  foldl (fun h kv => add_header h (fst kv) (snd kv)) h hs !! k =
    joined (vs ++ (snd <$> filter (fun kv => fst kv = k) hs)).
Proof.
  revert h vs. induction hs as [|[k' v] hs IH]; intros h vs Hh; [by rewrite app_nil_r|].
  cbn [foldl fst snd]. rewrite filter_cons. cbn [fst]. case_decide as Hk.
  - subst k'. cbn [fmap list_fmap snd]. rewrite cons_middle, app_assoc. apply IH.
    unfold add_header. rewrite Hh. destruct vs as [|x vs]; cbn [joined]; rewrite lookup_insert_eq; [done|].
    rewrite <- Join_snoc by done. done.
  - apply IH. unfold add_header. destruct (h !! k'); by rewrite lookup_insert_ne.
Qed.

(** The header block a peer writes is read back as the map of its
    headers, the values of a repeated name joined by a comma in order, and the
    bytes after the blank line are left. *)
Theorem readHTTPHeaders_correct (hs : list (bytes * bytes)) (rest : bytes) (s : bufio)
    (Hok : Forall header_ok hs) (Hp : br_pending s (header_block hs ++ crlf ++ rest)) :
  exists h s', readHTTPHeaders s = (Ok h, s') /\ br_pending s' rest /\
    (forall k, h !! k = joined (snd <$> filter (fun kv => fst kv = k) hs)).
Proof.
  destruct (readHTTPHeaders_pending hs rest s Hok Hp) as (s' & E & Hp' & _).
  eexists _, s'. split; [done|]. split; [done|]. intros k.
  by apply (add_headers_lookup hs ∅ k []).
Qed.

Lemma readHTTPHeaders_correct_witness :
  let hs := [(str "Host", str "a"); (str "Via", str "x"); (str "Via", str "y")] in
  let inp := header_block hs ++ crlf ++ str "body" in
  let s := NewReader (mkConn [mkRd (take 7 inp) None; mkRd (drop 7 inp) None] [] [] None None false false) in
  exists h s', readHTTPHeaders s = (Ok h, s') /\ br_pending s' (str "body") /\
    (forall k, h !! k = joined (snd <$> filter (fun kv => fst kv = k) hs)).
Proof.
  intros hs inp s. apply (readHTTPHeaders_correct hs (str "body") s).
  - repeat constructor; try (vm_compute; congruence); apply (bool_decide_eq_false_1 _); reflexivity.
  - split_and!; [reflexivity|reflexivity| |vm_compute; reflexivity].
    repeat constructor; vm_compute; congruence.
Defined.
