(* ===== verification/HttpBody.v ===== *)
(** * HttpBody: response bodies

    Models the body readers of [network/http_client.go]: the choice made from
    the headers ([buildHTTPBodyReader]), the chunked decoder, [io.LimitReader],
    and [io.ReadAll] on them.  The sizes of the buffers [io.ReadAll] passes are
    a parameter, so its growth policy does not matter. *)

From S2P Require Import Prelude Bytes GoStrings Conn Bufio Http1.

Local Open Scope Z_scope.

(** The kinds of [io.Reader] a body can be; the buffered reader is shared. *)
Inductive body_kind :=
| BodyChunked (currentRemaining : Z) (done : bool)
| BodyEmpty
| BodyLimited (n : Z)
| BodyRaw.

Record body := mkBody { bd_reader : bufio; bd_kind : body_kind }.

Definition set_kind (k : body_kind) : GoM body unit := modify (fun b => mkBody (bd_reader b) k).

(** Run an operation of the buffered reader and keep its error as a value. *)
Definition attempt {A} (m : GoM bufio A) : GoM body (A + error) := fun b =>
  match m (bd_reader b) with
  | (Ok a, s) => (Ok (inl a), mkBody s (bd_kind b))
  | (Err e, s) => (Ok (inr e), mkBody s (bd_kind b))
  | (Panic, s) => (Panic, mkBody s (bd_kind b))
  | (Diverge, s) => (Diverge, mkBody s (bd_kind b))
  end.

(** The trailer lines after the last chunk, up to the blank one. *)
Fixpoint skip_trailers (fuel : nat) : GoM bufio unit :=
  match fuel with
  | O => fun s => (Diverge, s)
  | S fuel =>
      do line <- readHTTPLine;
      match line with [] => ret tt | _ => skip_trailers fuel end
  end.

(** The text of a chunk size: what comes before a semicolon, trimmed. *)
Definition size_text (line : bytes) : bytes :=
  TrimSpace (match Index line (str ";") with Some i => take i line | None => line end).

(** The loop that fetches the next chunk header: [None] goes on to the data,
    [Some e] is returned with no bytes. *)
Definition next_chunk : GoM body (option error) :=
  do line <- attempt readHTTPLine;
  match line with
  | inr err => ret (Some err)
  | inl line =>
      match ParseInt (size_text line) 16 with
      | None => ret (Some (Errorf "invalid chunk size: %q" [AQuote (size_text line)]))
      | Some size =>
          if size =? 0 then
            do b <- get;
            do r <- attempt (skip_trailers (S (length (br_stream (bd_reader b)))));
            match r with
            | inr err => ret (Some err)
            | inl _ => set_kind (BodyChunked 0 true) ;; ret (Some EOF)
            end
          else if size <? 0 then ret (Some (Errorf "invalid negative chunk size" []))
          else set_kind (BodyChunked size false) ;; ret None
      end
  end.

(** The data part of [Read] for a chunk with [rem] bytes left. *)
Definition chunk_data (cap : nat) (rem : Z) : GoM body (bytes * option error) :=
  let cap := if rem <? Z.of_nat cap then Z.to_nat rem else cap in
  do r <- attempt (br_Read cap);
  match r with
  | inr e => ret ([], Some e)
  | inl (d, err) =>
      let rem := rem - zlen d in
      set_kind (BodyChunked rem false) ;;
      match err with
      | Some e => ret (d, Some e)
      | None =>
          if rem =? 0 then
            do r <- attempt (br_ReadFull 2);
            match r with
            | inr e => ret (d, Some e)
            | inl crlf2 =>
                if bool_decide (crlf2 = crlf) then ret (d, None)
                else ret (d, Some (Errorf "invalid chunk delimiter" []))
            end
          else ret (d, None)
      end
  end.

Definition chunked_Read (cap : nat) (rem : Z) (done : bool) : GoM body (bytes * option error) :=
  if done then ret ([], Some EOF)
  else
    do e <- if rem =? 0 then next_chunk else ret None;
    match e with
    | Some err => ret ([], Some err)
    | None =>
        do b <- get;
        match bd_kind b with
        | BodyChunked rem _ => chunk_data cap rem
        | _ => panic
        end
    end.

Definition plain_Read (cap : nat) : GoM body (bytes * option error) :=
  do r <- attempt (br_Read cap);
  match r with
  | inr e => ret ([], Some e)
  | inl r => ret r
  end.

Definition body_Read (cap : nat) : GoM body (bytes * option error) :=
  do b <- get;
  match bd_kind b with
  | BodyChunked rem done => chunked_Read cap rem done
  | BodyEmpty => ret ([], Some EOF)
  | BodyLimited n =>
      if n <=? 0 then ret ([], Some EOF)
      else
        do '(d, err) <- plain_Read (if n <? Z.of_nat cap then Z.to_nat n else cap);
        set_kind (BodyLimited (n - zlen d)) ;;
        ret (d, err)
  | BodyRaw => plain_Read cap
  end.

(** ** The choice of the reader *)

Section choice.
Context `{Unicode} `{MapOrder}.

Definition buildHTTPBodyReader (h : headers) : body_kind + error :=
  if Contains (ToLower (getHeader h (str "Transfer-Encoding"))) (str "chunked")
  then inl (BodyChunked 0 false)
  else
    let contentLength := getHeader h (str "Content-Length") in
    if bool_decide (contentLength = []) then inl BodyRaw
    else
      match Atoi (TrimSpace contentLength) with
      | None => inr (Errorf "invalid Content-Length: %s" [AStr contentLength])
      | Some n => if n <=? 0 then inl BodyEmpty else inl (BodyLimited n)
      end.
End choice.

(** ** [io.ReadAll] *)

(** [free n] is one less than the free space of the buffer once it holds [n]
    bytes; [limit] is the outer [io.LimitReader] of [MaxBodySize]. *)
Fixpoint read_all (fuel : nat) (free : nat -> nat) (limit : option Z) (acc : bytes)
    : GoM body (bytes * option error) :=
  match fuel with
  | O => fun b => (Diverge, b)
  | S fuel =>
      let cap := S (free (length acc)) in
      let eof := match limit with Some n => n <=? 0 | None => false end in
      do '(d, err) <- if eof then ret ([], Some EOF)
                      else body_Read (match limit with
                                      | Some n => if n <? Z.of_nat cap then Z.to_nat n else cap
                                      | None => cap
                                      end);
      let acc := acc ++ d in
      match err with
      | Some e => ret (acc, if bool_decide (e = EOF) then None else Some e)
      | None => read_all fuel free ((fun n => n - zlen d) <$> limit) acc
      end
  end.

(** Every read takes a byte, an event or an error of the script. *)
Definition body_fuel (b : body) : nat :=
  S (S (length (br_stream (bd_reader b)) + length (c_in (b_conn (bd_reader b))))).

Definition ReadAll (free : nat -> nat) (limit : option Z) : GoM body (bytes * option error) :=
  do b <- get; read_all (body_fuel b) free limit [].

(** ** Sources

    [Q b data] says that [b] hands out exactly [data] and then EOF, in pieces
    of any size; [E] is what holds of the body at the end. *)
Definition source (Q : body -> bytes -> Prop) (E : body -> Prop) : Prop :=
  forall b data cap, Q b data -> (0 < cap)%nat ->
  exists d e b', body_Read cap b = (Ok (d, e), b') /\
    ((e = None /\ d <> [] /\ (length d <= cap)%nat /\ exists data', data = d ++ data' /\ Q b' data') \/
     (e = Some EOF /\ d = [] /\ data = [] /\ E b')).

Lemma read_all_source Q E fuel free limit acc b data :
  source Q E -> Q b data -> (length data < fuel)%nat ->
  exists b', read_all fuel free limit acc b =
      (Ok (acc ++ match limit with None => data | Some n => take (Z.to_nat n) data end, None), b') /\
    (limit = None -> E b').
Proof.
  intros HS. revert limit acc b data. induction fuel as [|fuel IH]; intros limit acc b data HQ Hf; [lia|].
  cbn [read_all]. destruct (match limit with Some n => n <=? 0 | None => false end) eqn:Eeof.
  { destruct limit as [n|]; [|done]. bools. exists b. unfold bind at 1, ret at 1.
    rewrite bool_decide_eq_true_2 by done. replace (Z.to_nat n) with 0%nat by lia.
    rewrite take_0. split; done. }
  set (cap := match limit with Some n => if n <? Z.of_nat (S (free (length acc))) then Z.to_nat n else S (free (length acc))
              | None => S (free (length acc)) end).
  assert (0 < cap)%nat as Hcap.
  { unfold cap. destruct limit as [n|]; [|lia]. bools. case_if; lia. }
  destruct (HS b data cap HQ Hcap) as (d & e & b1 & E1 & Hcase).
  rewrite (bind_Ok _ _ _ _ _ E1). destruct Hcase as [(-> & Hd & Hdc & data' & -> & HQ')|(-> & -> & -> & HE)].
  - assert (0 < length d)%nat by (destruct d; [done|simpl; lia]). rewrite length_app in Hf.
    destruct (IH ((fun n => n - zlen d) <$> limit) (acc ++ d) b1 data' HQ' ltac:(lia)) as (b2 & E2 & H2).
    exists b2. split; [|by intros ->; apply H2]. rewrite E2. do 3 f_equal. rewrite <- app_assoc. f_equal.
    destruct limit as [n|]; [|done]. cbn. assert (length d <= Z.to_nat n)%nat.
    { revert Hdc. unfold cap. bools. destruct (n <? Z.of_nat _) eqn:E0; bools; lia. }
    rewrite take_app_ge by lia. f_equal. f_equal. unfold zlen. lia.
  - exists b1. rewrite bool_decide_eq_true_2 by done. rewrite app_nil_r. split; [|done].
    destruct limit; by rewrite ?take_nil, ?app_nil_r.
Qed.

Lemma attempt_ok {A} (m : GoM bufio A) b a s :
  m (bd_reader b) = (Ok a, s) -> attempt m b = (Ok (inl a), mkBody s (bd_kind b)).
Proof. intros E. unfold attempt. by rewrite E. Qed.

(** *** Bodies with a length *)

Lemma limited_source rest :
  source (fun b data => bd_kind b = BodyLimited (zlen data) /\ br_pending (bd_reader b) (data ++ rest))
         (fun b => br_pending (bd_reader b) rest).
Proof.
  intros b data cap [Hk Hp] Hcap. unfold body_Read, get, bind at 1. cbv beta iota. rewrite Hk.
  destruct (zlen data <=? 0) eqn:E0; bools.
  { destruct data; [|unfold zlen in E0; simpl in E0; lia]. eexists _, _, _. split; [reflexivity|]. by right. }
  set (cap' := if zlen data <? Z.of_nat cap then Z.to_nat (zlen data) else cap). assert (0 < cap' <= cap)%nat as Hcap'.
  { unfold cap'. case_if; lia. }
  assert (cap' <= length data)%nat as Hcd by (unfold cap', zlen in *; case_if; lia).
  destruct (br_Read_pending cap' (bd_reader b) _ (proj1 Hcap') Hp) as (d & e & s & E & _ & Hd & Hcase).
  unfold plain_Read. rewrite bind_assoc, (bind_Ok _ _ _ _ _ (attempt_ok _ _ _ _ E)).
  eexists d, e, _. split; [reflexivity|]. cbn [bd_kind bd_reader].
  destruct Hcase as [(-> & Hd0 & r & Er & Hp')|(_ & _ & Hnil & _)].
  - left. split_and!; [done|done|lia|].
    assert (exists data', data = d ++ data' /\ r = data' ++ rest) as (data' & -> & ->).
    { exists (drop (length d) data). rewrite <- (take_drop (length d) data), <- app_assoc in Er.
      apply app_inj_1 in Er as [E1 E2]; [|rewrite length_take; lia].
      split; [|done]. rewrite <- (take_drop (length d) data) at 1. by rewrite E1. }
    exists data'. split; [done|]. split; [|done]. f_equal. rewrite zlen_app. lia.
  - destruct data; [unfold zlen in E0; simpl in E0; lia|done].
Qed.

(** A stream that ends before its length is reached. *)
Lemma short_source :
  source (fun b data => (exists n, bd_kind b = BodyLimited n /\ zlen data < n) /\ br_pending (bd_reader b) data)
         (fun b => br_pending (bd_reader b) []).
Proof.
  intros b data cap [(n & Hk & Hn) Hp] Hcap. pose proof (zlen_nonneg data).
  unfold body_Read, get, bind at 1. cbv beta iota. rewrite Hk.
  rewrite (proj2 (Z.leb_gt n 0)) by lia. set (cap' := if n <? Z.of_nat cap then Z.to_nat n else cap).
  assert (0 < cap' <= cap)%nat as Hcap' by (unfold cap'; case_if; lia).
  destruct (br_Read_pending cap' (bd_reader b) _ (proj1 Hcap') Hp) as (d & e & s & E & _ & Hd & Hcase).
  unfold plain_Read. rewrite bind_assoc, (bind_Ok _ _ _ _ _ (attempt_ok _ _ _ _ E)).
  eexists d, e, _. split; [reflexivity|]. cbn [bd_kind bd_reader].
  destruct Hcase as [(-> & Hd0 & r & -> & Hp')|(-> & -> & -> & Hp')].
  - left. split_and!; [done|done|lia|]. exists r. split; [done|]. split; [|done].
    eexists. split; [done|]. rewrite zlen_app in Hn. lia.
  - by right.
Qed.

(** *** Chunked bodies *)

(** A chunked stream: the data it carries and what follows it. *)
Inductive chunked_wire : bytes -> bytes -> bytes -> Prop :=
| chunked_last t trailers rest :
    line_ok t -> ParseInt (size_text t) 16 = Some 0 ->
    Forall (fun l => line_ok l /\ l <> []) trailers ->
    chunked_wire (t ++ crlf ++ concat ((fun l => l ++ crlf) <$> trailers) ++ crlf ++ rest) [] rest
| chunked_more t d inp data rest :
    line_ok t -> ParseInt (size_text t) 16 = Some (zlen d) -> d <> [] ->
    chunked_wire inp data rest ->
    chunked_wire (t ++ crlf ++ d ++ crlf ++ inp) (d ++ data) rest.

Lemma skip_trailers_pending fuel trailers rest s :
  Forall (fun l => line_ok l /\ l <> []) trailers -> (length trailers < fuel)%nat ->
  br_pending s (concat ((fun l => l ++ crlf) <$> trailers) ++ crlf ++ rest) ->
  exists s', skip_trailers fuel s = (Ok tt, s') /\ br_pending s' rest.
Proof.
  revert fuel s. induction trailers as [|l ls IH]; intros fuel s Hls Hf Hp;
    (destruct fuel as [|fuel]; [simpl in Hf; lia|]).
  - destruct (readHTTPLine_pending s [] rest) as (s' & E & Hp' & _); [split; [set_solver|done]|done|].
    exists s'. cbn [skip_trailers]. by rewrite (bind_Ok _ _ _ _ _ E).
  - apply Forall_cons in Hls as [[Hl Hne] Hls].
    cbn [fmap list_fmap concat] in Hp. rewrite <- !app_assoc in Hp.
    destruct (readHTTPLine_pending s l _ Hl Hp) as (s1 & E & Hp1 & _).
    destruct (IH fuel s1) as (s2 & E2 & Hp2); [done|simpl in Hf; lia|done|].
    exists s2. cbn [skip_trailers]. rewrite (bind_Ok _ _ _ _ _ E). by destruct l.
Qed.

Lemma br_ReadFull_pending_app a rest s n :
  br_pending s (a ++ rest) -> length a = n ->
  exists s', br_ReadFull n s = (Ok a, s') /\ br_pending s' rest.
Proof.
  intros Hp <-. destruct (r_ReadFull_ok (S := bufio) (length a) s (a ++ rest)) as (s' & E & Hp'); [exact Hp|len|].
  rewrite take_app_length in E. rewrite drop_app_length in Hp'. eauto.
Qed.

(** Inside a chunk with [rem] bytes left, or between chunks. *)
Definition chunked_at (rest : bytes) (b : body) (data : bytes) : Prop :=
  exists rem inp, bd_kind b = BodyChunked rem false /\ br_pending (bd_reader b) inp /\
    ((rem = 0 /\ chunked_wire inp data rest) \/
     (exists d data' inp', rem = zlen d /\ d <> [] /\ inp = d ++ crlf ++ inp' /\ data = d ++ data' /\
        chunked_wire inp' data' rest)).

(** One read of data inside a chunk. *)
Lemma chunk_data_pending cap d inp' data' rest b :
  (0 < cap)%nat -> d <> [] -> br_pending (bd_reader b) (d ++ crlf ++ inp') -> chunked_wire inp' data' rest ->
  exists d1 b' data1, chunk_data cap (zlen d) b = (Ok (d1, None), b') /\ d1 <> [] /\ (length d1 <= cap)%nat /\
    d ++ data' = d1 ++ data1 /\ chunked_at rest b' data1.
Proof.
  intros Hcap Hd Hp Hw. unfold chunk_data. cbv zeta. set (cap' := if zlen d <? Z.of_nat cap then Z.to_nat (zlen d) else cap).
  assert (0 < length d)%nat by (destruct d; [done|simpl; lia]).
  assert (0 < cap' <= cap /\ cap' <= length d)%nat as [Hcap' Hcd].
  { unfold cap'. unfold zlen in *. case_if; lia. }
  destruct (br_Read_pending cap' (bd_reader b) _ (proj1 Hcap') Hp) as (d1 & e & s & E & _ & Hl & Hcase).
  rewrite (bind_Ok _ _ _ _ _ (attempt_ok _ _ _ _ E)). cbv beta iota zeta.
  destruct Hcase as [(-> & Hd1 & r & Er & Hp1)|(_ & _ & Hnil & _)]; [|by destruct d].
  assert (exists d2, d = d1 ++ d2 /\ r = d2 ++ crlf ++ inp') as (d2 & -> & ->).
  { exists (drop (length d1) d). rewrite <- (take_drop (length d1) d), <- app_assoc in Er.
    apply app_inj_1 in Er as [E1 E2]; [|rewrite length_take; lia].
    split; [|done]. rewrite <- (take_drop (length d1) d) at 1. by rewrite E1. }
  unfold set_kind, modify. unfold bind at 1. cbv beta iota. rewrite zlen_app.
  replace (zlen d1 + zlen d2 - zlen d1) with (zlen d2) by lia. cbn [bd_reader].
  destruct d2 as [|x d2].
  - change (zlen (@nil byte)) with 0. cbn [Z.eqb]. cbn [app] in Hp1.
    destruct (br_ReadFull_pending_app crlf inp' s 2%nat Hp1 eq_refl) as (s2 & E2 & Hp2).
    rewrite (bind_Ok _ _ (mkBody s _) _ _ (attempt_ok _ (mkBody s (BodyChunked 0 false)) _ _ E2)).
    rewrite bool_decide_eq_true_2 by done. eexists _, _, data'. split; [reflexivity|].
    rewrite app_nil_r. split_and!; try done; [lia|]. exists 0, inp'. split_and!; try done. by left.
  - rewrite (proj2 (Z.eqb_neq _ _)) by (unfold zlen; simpl; lia).
    eexists _, _, ((x :: d2) ++ data'). split; [reflexivity|]. rewrite <- app_assoc.
    split_and!; try done; [lia|]. exists (zlen (x :: d2)), ((x :: d2) ++ crlf ++ inp'). split_and!; try done.
    right. by exists (x :: d2), data', inp'.
Qed.

Lemma next_chunk_line t rest b n :
  line_ok t -> ParseInt (size_text t) 16 = Some n -> 0 < n ->
  br_pending (bd_reader b) (t ++ crlf ++ rest) ->
  exists s, next_chunk b = (Ok None, mkBody s (BodyChunked n false)) /\ br_pending s rest.
Proof.
  intros Ht Hn Hpos Hp. destruct (readHTTPLine_pending _ t rest Ht Hp) as (s & E & Hp' & _).
  exists s. split; [|done]. unfold next_chunk.
  rewrite (bind_Ok _ _ _ _ _ (attempt_ok _ _ _ _ E)), Hn.
  rewrite (proj2 (Z.eqb_neq n 0)), (proj2 (Z.ltb_ge n 0)) by lia. done.
Qed.

Lemma concat_lines_length (ls : list bytes) :
  (length ls <= length (concat ((fun l => l ++ crlf) <$> ls)))%nat.
Proof.
  induction ls as [|l ls IH]; [done|]. cbn [fmap list_fmap concat length]. rewrite !length_app. simpl. lia.
Qed.

Lemma next_chunk_last t trailers rest b :
  line_ok t -> ParseInt (size_text t) 16 = Some 0 ->
  Forall (fun l => line_ok l /\ l <> []) trailers ->
  br_pending (bd_reader b) (t ++ crlf ++ concat ((fun l => l ++ crlf) <$> trailers) ++ crlf ++ rest) ->
  exists s, next_chunk b = (Ok (Some EOF), mkBody s (BodyChunked 0 true)) /\ br_pending s rest.
Proof.
  intros Ht Hn Htr Hp. destruct (readHTTPLine_pending _ t _ Ht Hp) as (s & E & Hp' & _).
  destruct (skip_trailers_pending (S (length (br_stream s))) trailers rest s Htr) as (s2 & E2 & Hp2); [|done|].
  { destruct Hp' as (_ & _ & _ & Es). unfold br_stream. rewrite Es, !length_app.
    pose proof (concat_lines_length trailers). lia. }
  exists s2. split; [|done]. unfold next_chunk.
  rewrite (bind_Ok _ _ _ _ _ (attempt_ok _ _ _ _ E)), Hn. cbn [Z.eqb].
  unfold get, bind at 1. cbv beta iota. cbn [bd_reader].
  by rewrite (bind_Ok _ _ _ _ _ (attempt_ok _ (mkBody s (bd_kind b)) _ _ E2)).
Qed.

Lemma chunked_source rest : source (chunked_at rest) (fun b => br_pending (bd_reader b) rest).
Proof.
  intros b data cap (rem & inp & Hk & Hp & Hcase) Hcap.
  unfold body_Read, get, bind at 1. cbv beta iota. rewrite Hk. unfold chunked_Read.
  destruct Hcase as [(-> & Hw)|(d & data' & inp' & -> & Hd & -> & -> & Hw)].
  - cbn [Z.eqb]. destruct Hw as [t trailers rest Ht Hn Htr|t d inp data rest Ht Hn Hd Hw].
    + destruct (next_chunk_last t trailers rest b Ht Hn Htr Hp) as (s & E & Hp').
      rewrite (bind_Ok _ _ _ _ _ E). eexists _, _, _. split; [reflexivity|]. by right.
    + destruct (next_chunk_line t (d ++ crlf ++ inp) b (zlen d) Ht Hn) as (s & E & Hp'); [|done|].
      { destruct d; [done|unfold zlen; simpl; lia]. }
      rewrite (bind_Ok _ _ _ _ _ E). unfold get, bind at 1. cbv beta iota. cbn [bd_kind].
      destruct (chunk_data_pending cap d inp data rest (mkBody s (BodyChunked (zlen d) false)) Hcap Hd Hp' Hw)
        as (d1 & b' & data1 & E1 & Hd1 & Hl1 & Hdata & Hat).
      rewrite E1. eexists _, _, _. split; [reflexivity|]. left. eauto 6.
  - rewrite (proj2 (Z.eqb_neq _ _)) by (destruct d; [done|unfold zlen; simpl; lia]).
    unfold bind at 1, ret at 1, get, bind at 1. cbv beta iota. rewrite Hk.
    destruct (chunk_data_pending cap d inp' data' rest b Hcap Hd Hp Hw)
      as (d1 & b' & data1 & E1 & Hd1 & Hl1 & Hdata & Hat).
    rewrite E1. eexists _, _, _. split; [reflexivity|]. left. eauto 6.
Qed.

(** A chunk whose connection ends before its data is complete, from its size
    line on or inside its data. *)
Definition cut_chunk (t : bytes) (n : Z) (b : body) (data : bytes) : Prop :=
  (exists m, bd_kind b = BodyChunked m false /\ zlen data < m /\ br_pending (bd_reader b) data) \/
  (bd_kind b = BodyChunked 0 false /\ zlen data < n /\ br_pending (bd_reader b) (t ++ crlf ++ data)).

Lemma cut_chunk_data t n cap m data b :
  (0 < cap)%nat -> zlen data < m -> br_pending (bd_reader b) data ->
  exists d e b', chunk_data cap m b = (Ok (d, e), b') /\
    ((e = None /\ d <> [] /\ (length d <= cap)%nat /\ exists data', data = d ++ data' /\ cut_chunk t n b' data') \/
     (e = Some EOF /\ d = [] /\ data = [] /\ br_pending (bd_reader b') [])).
Proof.
  intros Hcap Hn Hp. pose proof (zlen_nonneg data).
  unfold chunk_data. cbv zeta. set (cap' := if m <? Z.of_nat cap then Z.to_nat m else cap).
  assert (0 < cap' <= cap)%nat as Hcap' by (unfold cap'; case_if; lia).
  destruct (br_Read_pending cap' (bd_reader b) _ (proj1 Hcap') Hp) as (d & e & s & E & _ & Hd & Hcase).
  rewrite (bind_Ok _ _ _ _ _ (attempt_ok _ _ _ _ E)). cbv beta iota. unfold set_kind, modify. unfold bind at 1. cbv beta iota.
  destruct Hcase as [(-> & Hd0 & r & -> & Hp')|(-> & -> & -> & Hp')].
  - rewrite zlen_app in Hn. pose proof (zlen_nonneg r). rewrite (proj2 (Z.eqb_neq (m - zlen d) 0)) by lia.
    eexists d, None, _. split; [reflexivity|].
    left. split_and!; [done|done|lia|]. exists r. split; [done|]. left. eexists. split; [done|]. split; [lia|done].
  - eexists [], (Some EOF), _. split; [reflexivity|]. by right.
Qed.

Lemma cut_chunk_source t n :
  line_ok t -> ParseInt (size_text t) 16 = Some n ->
  source (cut_chunk t n) (fun b => br_pending (bd_reader b) []).
Proof.
  intros Ht Hn b data cap HQ Hcap. pose proof (zlen_nonneg data).
  unfold body_Read, get, bind at 1. cbv beta iota. unfold chunked_Read.
  destruct HQ as [(m & Hk & Hm & Hp)|(Hk & Hm & Hp)]; rewrite Hk.
  - rewrite (proj2 (Z.eqb_neq m 0)) by lia. unfold bind at 1, ret at 1, get, bind at 1. cbv beta iota. rewrite Hk.
    by apply cut_chunk_data.
  - destruct (next_chunk_line t data b n Ht Hn ltac:(lia) Hp) as (s & E & Hp').
    cbn [Z.eqb]. rewrite (bind_Ok _ _ _ _ _ E). unfold get, bind at 1. cbv beta iota. cbn [bd_kind].
    by apply cut_chunk_data.
Qed.

Lemma ReadAll_source Q E free limit b data :
  source Q E -> Q b data -> (length data <= length (br_stream (bd_reader b)))%nat ->
  exists b', ReadAll free limit b =
      (Ok (match limit with None => data | Some n => take (Z.to_nat n) data end, None), b') /\
    (limit = None -> E b').
Proof.
  intros HS HQ Hl. unfold ReadAll, get, bind. cbv beta iota.
  apply (read_all_source Q E _ free limit [] b data HS HQ). unfold body_fuel. lia.
Qed.

Lemma chunked_wire_length inp data rest : chunked_wire inp data rest -> (length data <= length inp)%nat.
Proof. induction 1; rewrite ?length_app in *; simpl; lia. Qed.

(** A body in chunks is read back exactly, whatever sizes the peer chose,
    with or without extensions and trailers, however the network cuts the
    stream and whatever buffers the caller passes; what follows the last chunk
    is left.  A size limit keeps exactly the first bytes. *)
Theorem chunked_body_roundtrip (inp data rest : bytes) (free : nat -> nat) (limit : option Z) (s : bufio)
    (Hwire : chunked_wire inp data rest) (Hp : br_pending s inp) :
  exists b', ReadAll free limit (mkBody s (BodyChunked 0 false)) =
      (Ok (match limit with None => data | Some n => take (Z.to_nat n) data end, None), b') /\
    (limit = None -> br_pending (bd_reader b') rest).
Proof.
  apply (ReadAll_source (chunked_at rest) (fun b => br_pending (bd_reader b) rest)).
  - apply chunked_source.
  - exists 0, inp. split_and!; try done. by left.
  - destruct Hp as (_ & _ & _ & Es). unfold br_stream. cbn [bd_reader]. rewrite Es.
    by eapply chunked_wire_length.
Qed.

(** A body of a declared length is read back exactly and what follows it
    is left. *)
Theorem sized_body_roundtrip (data rest : bytes) (free : nat -> nat) (s : bufio)
    (Hp : br_pending s (data ++ rest)) :
  exists b', ReadAll free None (mkBody s (BodyLimited (zlen data))) = (Ok (data, None), b') /\
    br_pending (bd_reader b') rest.
Proof.
  destruct (ReadAll_source _ _ free None (mkBody s (BodyLimited (zlen data))) data (limited_source rest)) as (b' & E & H).
  - done.
  - destruct Hp as (_ & _ & _ & Es). unfold br_stream. cbn [bd_reader]. rewrite Es. len.
  - exists b'. auto.
Qed.

(** A connection that ends before the declared length, or inside a chunk,
    is not noticed: reading the body returns the part that came and no error. *)
Theorem truncated_body_accepted (data t : bytes) (n : Z) (free : nat -> nat) (s1 s2 : bufio)
    (Hshort : zlen data < n) (Hline : line_ok t) (Hsize : ParseInt (size_text t) 16 = Some n)
    (H1 : br_pending s1 data) (H2 : br_pending s2 (t ++ crlf ++ data)) :
  (exists b1, ReadAll free None (mkBody s1 (BodyLimited n)) = (Ok (data, None), b1)) /\
  (exists b2, ReadAll free None (mkBody s2 (BodyChunked 0 false)) = (Ok (data, None), b2)).
Proof.
  pose proof (zlen_nonneg data). split.
  - destruct (ReadAll_source _ _ free None (mkBody s1 (BodyLimited n)) data short_source) as (b' & E & _).
    + split; [by exists n|done].
    + destruct H1 as (_ & _ & _ & Es). unfold br_stream. cbn [bd_reader]. by rewrite Es.
    + by exists b'.
  - destruct (ReadAll_source _ _ free None (mkBody s2 (BodyChunked 0 false)) data (cut_chunk_source t n Hline Hsize))
      as (b' & E & _).
    + by right.
    + destruct H2 as (_ & _ & _ & Es). unfold br_stream. cbn [bd_reader]. rewrite Es. len.
    + by exists b'.
Qed.

(** *** Bodies that end with the connection *)

Lemma raw_source :
  source (fun b data => bd_kind b = BodyRaw /\ br_pending (bd_reader b) data)
         (fun b => br_pending (bd_reader b) []).
Proof.
  intros b data cap [Hk Hp] Hcap. unfold body_Read, get, bind at 1. cbv beta iota. rewrite Hk.
  destruct (br_Read_pending cap (bd_reader b) _ Hcap Hp) as (d & e & s & E & _ & Hd & Hcase).
  unfold plain_Read. rewrite (bind_Ok _ _ _ _ _ (attempt_ok _ _ _ _ E)).
  eexists d, e, _. split; [reflexivity|]. cbn [bd_kind bd_reader].
  destruct Hcase as [(-> & Hd0 & r & -> & Hp')|(-> & -> & -> & Hp')].
  - left. split_and!; [done|done|lia|]. exists r. by split.
  - by right.
Qed.

(** How a body is laid out for the reader that was chosen for it. *)
Definition body_wire (kind : body_kind) (wire data : bytes) : Prop :=
  match kind with
  | BodyChunked rem done => rem = 0 /\ done = false /\ exists rest, chunked_wire wire data rest
  | BodyLimited n => n = zlen data /\ exists rest, wire = data ++ rest
  | BodyRaw => wire = data
  | BodyEmpty => data = []
  end.

Lemma ReadAll_body kind wire data free limit s :
  body_wire kind wire data -> br_pending s wire ->
  exists b', ReadAll free limit (mkBody s kind) =
    (Ok (match limit with None => data | Some n => take (Z.to_nat n) data end, None), b').
Proof.
  intros Hb Hp. assert (br_stream s = wire) as Est by (by destruct Hp as (_ & _ & _ & ?)).
  destruct kind as [rem dn| |n|]; cbn in Hb.
  - destruct Hb as (-> & -> & rest & Hw).
    destruct (ReadAll_source (chunked_at rest) _ free limit (mkBody s (BodyChunked 0 false)) data
      (chunked_source rest)) as (b' & E & _); [|cbn; rewrite Est; by eapply chunked_wire_length|by exists b'].
    exists 0, wire. split_and!; try done. by left.
  - subst data. unfold ReadAll, get, bind, body_fuel, read_all, body_Read. cbv beta iota zeta.
    destruct limit as [n|]; [destruct (n <=? 0)|]; (eexists; cbn; rewrite ?take_nil; reflexivity).
  - destruct Hb as [-> [rest ->]].
    destruct (ReadAll_source _ _ free limit (mkBody s (BodyLimited (zlen data))) data (limited_source rest))
      as (b' & E & _); [done|cbn; rewrite Est; len|by exists b'].
  - subst wire. destruct (ReadAll_source _ _ free limit (mkBody s BodyRaw) data raw_source)
      as (b' & E & _); [done|cbn; by rewrite Est|by exists b'].
Qed.

(** ** Every stream *)

(** Between reads a chunk never owes a negative number of bytes. *)
Definition body_wf (b : body) : Prop :=
  match bd_kind b with BodyChunked rem _ => 0 <= rem | _ => True end.

(** What is left of the script. *)
Definition body_left (b : body) : nat :=
  length (br_stream (bd_reader b)) + length (c_in (b_conn (bd_reader b))).

(** [m] returns a value, only reads, and uses up script when [used] holds. *)
Definition reads {A} (m : GoM body A) (used : A -> Prop) (b : body) : Prop :=
  exists a b', m b = (Ok a, b') /\ body_wf b' /\
    wside (b_conn (bd_reader b')) = wside (b_conn (bd_reader b)) /\
    (body_left b' <= body_left b)%nat /\ (used a -> (body_left b' < body_left b)%nat).

Lemma br_Read_left cap s : (0 < cap)%nat ->
  exists d e s', br_Read cap s = (Ok (d, e), s') /\ wside (b_conn s') = wside (b_conn s) /\
    (length d <= cap)%nat /\
    (length (br_stream s') + length (c_in (b_conn s')) <= length (br_stream s) + length (c_in (b_conn s)))%nat /\
    (e = None -> length (br_stream s') + length (c_in (b_conn s')) < length (br_stream s) + length (c_in (b_conn s)))%nat.
Proof.
  intros Hcap. destruct (br_Read_spec cap s Hcap) as (d & e & s' & E & Hw & Hd & Hl & Hz).
  exists d, e, s'. apply br_Read_stream in E as Hst; [|done]. rewrite Hst, length_app.
  split_and!; try done; [lia|]. intros He. destruct d; [specialize (Hz He eq_refl)|]; simpl; lia.
Qed.

Lemma br_ReadFull_left n s : exists r s', br_ReadFull n s = (r, s') /\ wside (b_conn s') = wside (b_conn s) /\
  returned r /\
  (length (br_stream s') + length (c_in (b_conn s')) <= length (br_stream s) + length (c_in (b_conn s)))%nat.
Proof.
  destruct (br_ReadFull_returns n s) as (r & s' & E & Hw & Hr). exists r, s'. split_and!; [done|done|by destruct r|].
  revert E. unfold br_ReadFull, get, bind at 1. cbv beta iota. generalize (S (n + length (c_in (b_conn s)))) as fuel.
  clear Hw Hr. intros fuel. generalize (@nil byte) as got. revert n s.
  induction fuel as [|fuel IH]; intros n s got E; (destruct n as [|n]; [by injection E as <- <-|]).
  { by injection E as <- <-. }
  cbn [br_full] in E. destruct (br_Read_left (S n) s ltac:(lia)) as (d & e & s1 & E1 & _ & _ & Hle & _).
  rewrite (bind_Ok _ _ _ _ _ E1) in E. destruct (S n - length d)%nat; [injection E as <- <-; lia|].
  destruct e; [injection E as <- <-; lia|]. apply IH in E. lia.
Qed.

Lemma skip_trailers_left fuel s : (length (br_stream s) < fuel)%nat ->
  exists r s', skip_trailers fuel s = (r, s') /\ wside (b_conn s') = wside (b_conn s) /\
    returned r /\
    (length (br_stream s') + length (c_in (b_conn s')) <= length (br_stream s) + length (c_in (b_conn s)))%nat.
Proof.
  revert s. induction fuel as [|fuel IH]; intros s Hf; [lia|]. cbn [skip_trailers].
  destruct (readHTTPLine_spec s) as (r & s1 & E & Hw & Hr).
  destruct r as [line|e| |]; [|by rewrite (bind_Err _ _ _ _ _ E); eexists _, _|done|done]. destruct Hr as [Hr Hev].
  rewrite (bind_Ok _ _ _ _ _ E). destruct line; [eexists _, _; split_and!; [reflexivity|done|done|lia]|].
  destruct (IH s1) as (r & s2 & E2 & Hw2 & Hr2 & Hl2); [lia|]. exists r, s2. split_and!; [done|congruence|done|lia].
Qed.

Lemma reads_ret {A} (a : A) (U : A -> Prop) b : body_wf b -> ~ U a -> reads (ret a) U b.
Proof. intros Hb HU. exists a, b. split_and!; try done. Qed.

Lemma plain_Read_reads cap b :
  body_wf b -> (0 < cap)%nat -> reads (plain_Read cap) (fun r => snd r = None) b.
Proof.
  intros Hb Hcap. destruct (br_Read_left cap (bd_reader b) Hcap) as (d & e & s & E & Hw & Hd & Hl & Hs).
  unfold reads, plain_Read. rewrite (bind_Ok _ _ _ _ _ (attempt_ok _ _ _ _ E)). eexists (d, e), _.
  split; [reflexivity|]. unfold body_left, body_wf in *. cbn. by split_and!.
Qed.

Lemma next_chunk_reads b :
  body_wf b -> exists e b', next_chunk b = (Ok e, b') /\
    wside (b_conn (bd_reader b')) = wside (b_conn (bd_reader b)) /\
    (body_left b' <= body_left b)%nat /\ body_wf b' /\
    (e = None -> exists n, 0 < n /\ bd_kind b' = BodyChunked n false).
Proof.
  intros Hb. destruct (readHTTPLine_spec (bd_reader b)) as (r & s & E & Hw & Hr). unfold next_chunk.
  destruct r as [line|e| |]; try done.
  2: { unfold bind, attempt. rewrite E. eexists _, _. split; [reflexivity|]. unfold body_left. by split_and!. }
  rewrite (bind_Ok _ _ _ _ _ (attempt_ok _ _ _ _ E)). destruct Hr as [Hr Hev].
  assert (forall e, exists e' b', (ret (Some e) : GoM body (option error)) (mkBody s (bd_kind b)) = (Ok e', b') /\
    wside (b_conn (bd_reader b')) = wside (b_conn (bd_reader b)) /\
    (body_left b' <= body_left b)%nat /\ body_wf b' /\
    (e' = None -> exists n, 0 < n /\ bd_kind b' = BodyChunked n false)) as Hret.
  { intros e. eexists _, _. split; [reflexivity|]. unfold body_left. cbn. split_and!; try done. lia. }
  destruct (ParseInt (size_text line) 16) as [size|]; [|apply Hret].
  destruct (size =? 0) eqn:E0.
  - unfold get, bind at 1. cbv beta iota. cbn [bd_reader].
    destruct (skip_trailers_left (S (length (br_stream s))) s ltac:(lia)) as (r & s2 & E2 & Hw2 & Hr2 & Hl2).
    destruct r as [[]|e| |]; try done.
    + rewrite (bind_Ok _ _ _ _ _ (attempt_ok _ (mkBody s (bd_kind b)) _ _ E2)).
      eexists _, _. split; [reflexivity|]. unfold body_left. cbn. split_and!; try done; [congruence|lia].
    + unfold bind, attempt. cbn [bd_reader]. rewrite E2. eexists _, _. split; [reflexivity|].
      unfold body_left. cbn. split_and!; try done; [congruence|lia].
  - destruct (size <? 0) eqn:E1; bools; [apply Hret|]. eexists _, _. split; [reflexivity|].
    unfold body_left, body_wf. cbn. split_and!; try done; [lia|]. intros _. exists size. split; [lia|done].
Qed.

Lemma chunk_data_reads cap rem b :
  (0 < cap)%nat -> 0 < rem -> reads (chunk_data cap rem) (fun r => snd r = None) b.
Proof.
  intros Hcap Hrem. unfold reads, chunk_data. cbv zeta.
  set (cap' := if rem <? Z.of_nat cap then Z.to_nat rem else cap).
  assert (0 < cap')%nat as Hcap' by (unfold cap'; case_if; lia).
  assert (Z.of_nat cap' <= rem) as Hcr by (unfold cap'; case_if; lia).
  destruct (br_Read_left cap' (bd_reader b) Hcap') as (d & e & s & E & Hw & Hd & Hl & Hs).
  rewrite (bind_Ok _ _ _ _ _ (attempt_ok _ _ _ _ E)). cbv beta iota.
  unfold set_kind, modify. unfold bind at 1. cbv beta iota.
  assert (0 <= rem - zlen d) as Hpos by (unfold zlen; lia).
  destruct e as [e|].
  { eexists _, _. split; [reflexivity|]. unfold body_left, body_wf. cbn. by split_and!. }
  specialize (Hs eq_refl). case_if.
  2: { eexists _, _. split; [reflexivity|]. unfold body_left, body_wf. cbn. by split_and!. }
  destruct (br_ReadFull_left 2 s) as (r & s2 & E2 & Hw2 & Hr2 & Hl2). cbn [bd_reader].
  destruct r as [l|e| |]; try done.
  - rewrite (bind_Ok _ _ (mkBody s (BodyChunked (rem - zlen d) false)) _ _
      (attempt_ok _ (mkBody s (BodyChunked (rem - zlen d) false)) _ _ E2)).
    case_bool_decide; (eexists _, _; split; [reflexivity|]; unfold body_left, body_wf; cbn;
      split_and!; [done|congruence|lia|intros; lia]).
  - unfold bind, attempt. cbn [bd_reader]. rewrite E2. eexists _, _. split; [reflexivity|].
    unfold body_left, body_wf. cbn. split_and!; [done|congruence|lia|done].
Qed.

Lemma body_Read_reads cap b :
  body_wf b -> (0 < cap)%nat -> reads (body_Read cap) (fun r => snd r = None) b.
Proof.
  intros Hb Hcap. unfold reads, body_Read, get, bind at 1. cbv beta iota. destruct (bd_kind b) as [rem done| |n|] eqn:Hk.
  - unfold chunked_Read. destruct done; [by apply (reads_ret ([], Some EOF) (fun r => snd r = None))|].
    destruct (rem =? 0) eqn:E0.
    + destruct (next_chunk_reads b Hb) as (e & b1 & E & Hw & Hl & Hwf & Hn). rewrite (bind_Ok _ _ _ _ _ E).
      destruct e as [e|]; [eexists _, _; split; [reflexivity|]; split_and!; [done|done|lia|done]|].
      destruct (Hn eq_refl) as (m & Hm & Hk1). unfold get, bind at 1. cbv beta iota. rewrite Hk1.
      destruct (chunk_data_reads cap m b1 Hcap Hm) as (r & b2 & E2 & Hwf2 & Hw2 & Hl2 & Hu2).
      exists r, b2. split_and!; [done|done|congruence|lia|]. intros Hr. specialize (Hu2 Hr). lia.
    + bools. unfold bind at 1, ret at 1, get, bind at 1. cbv beta iota. rewrite Hk. apply chunk_data_reads; [done|].
      unfold body_wf in Hb. rewrite Hk in Hb. lia.
  - by apply (reads_ret ([], Some EOF) (fun r => snd r = None)).
  - case_if; [by apply (reads_ret ([], Some EOF) (fun r => snd r = None))|]. bools.
    set (cap' := if n <? Z.of_nat cap then Z.to_nat n else cap).
    assert (0 < cap')%nat as Hcap' by (unfold cap'; case_if; lia).
    destruct (plain_Read_reads cap' b Hb Hcap') as ([d e] & b1 & E & Hwf & Hw & Hl & Hu).
    rewrite (bind_Ok _ _ _ _ _ E). eexists _, _. split; [reflexivity|]. unfold body_wf, body_left in *. by split_and!.
  - by apply plain_Read_reads.
Qed.

(** Reading everything returns, whatever the stream, and only reads. *)
Lemma ReadAll_returns free limit b :
  body_wf b -> exists r b', ReadAll free limit b = (Ok r, b') /\
    wside (b_conn (bd_reader b')) = wside (b_conn (bd_reader b)).
Proof.
  intros Hb. unfold ReadAll, get, bind. cbv beta iota.
  assert (body_left b < body_fuel b)%nat as Hf by (unfold body_left, body_fuel; lia).
  revert Hf. generalize (body_fuel b) as fuel. generalize (@nil byte) as acc. intros acc fuel.
  revert limit acc b Hb. induction fuel as [|fuel IH]; intros limit acc b Hb Hf; [lia|]. cbn [read_all].
  destruct (match limit with Some n => n <=? 0 | None => false end) eqn:Eeof; [by eexists _, _|].
  set (cap := match limit with Some n => if n <? Z.of_nat (S (free (length acc))) then Z.to_nat n else S (free (length acc))
              | None => S (free (length acc)) end).
  assert (0 < cap)%nat as Hcap.
  { unfold cap. destruct limit as [n|]; [|lia]. bools. case_if; lia. }
  destruct (body_Read_reads cap b Hb Hcap) as ([d e] & b1 & E & Hwf & Hw & Hl & Hu).
  rewrite (bind_Ok _ _ _ _ _ E). cbv beta iota zeta. destruct e as [e|]; [by eexists _, _|].
  specialize (Hu eq_refl).
  destruct (IH ((fun n => n - zlen d) <$> limit) (acc ++ d) b1 Hwf) as (r & b2 & E2 & Hw2); [lia|].
  exists r, b2. split; [done|congruence].
Qed.

(** ** Witnesses *)

Definition demo_bufio (inp : bytes) : bufio :=
  NewReader (mkConn [mkRd (take 4 inp) None; mkRd (drop 4 inp) None] [] [] None None false false).

Lemma chunked_body_roundtrip_witness :
  let inp := str "5;x=y" ++ crlf ++ str "hello" ++ crlf ++ (str "A" ++ crlf ++ str " big world" ++ crlf ++
             (str "0" ++ crlf ++ (str "Trailer: 1" ++ crlf) ++ crlf ++ str "next")) in
  exists b', ReadAll (fun _ => 2%nat) None (mkBody (demo_bufio inp) (BodyChunked 0 false)) =
      (Ok (str "hello big world", None), b') /\
    (None (A := Z) = None -> br_pending (bd_reader b') (str "next")).
Proof.
  intros inp. apply (chunked_body_roundtrip inp (str "hello big world") (str "next") (fun _ => 2%nat) None).
  - apply (chunked_more (str "5;x=y") (str "hello") _ (str " big world")).
    + apply (bool_decide_eq_true_1 _). reflexivity.
    + reflexivity.
    + discriminate.
    + apply (chunked_more (str "A") (str " big world") _ []).
      * apply (bool_decide_eq_true_1 _). reflexivity.
      * reflexivity.
      * discriminate.
      * apply (chunked_last (str "0") [str "Trailer: 1"]).
        -- apply (bool_decide_eq_true_1 _). reflexivity.
        -- reflexivity.
        -- constructor; [split; [apply (bool_decide_eq_true_1 _); reflexivity|discriminate]|constructor].
  - split_and!; [reflexivity|reflexivity| |vm_compute; reflexivity].
    repeat constructor; vm_compute; congruence.
Defined.

Lemma sized_body_roundtrip_witness :
  exists b', ReadAll (fun n => n) None (mkBody (demo_bufio (str "hello" ++ str "next")) (BodyLimited 5)) =
      (Ok (str "hello", None), b') /\ br_pending (bd_reader b') (str "next").
Proof.
  apply (sized_body_roundtrip (str "hello") (str "next")).
  split_and!; [reflexivity|reflexivity| |vm_compute; reflexivity].
  repeat constructor; vm_compute; congruence.
Defined.

Lemma truncated_body_accepted_witness :
  (exists b1, ReadAll (fun _ => 511%nat) None (mkBody (demo_bufio (str "hello")) (BodyLimited 10)) =
     (Ok (str "hello", None), b1)) /\
  (exists b2, ReadAll (fun _ => 511%nat) None
     (mkBody (demo_bufio (str "a" ++ crlf ++ str "hello")) (BodyChunked 0 false)) =
     (Ok (str "hello", None), b2)).
Proof.
  apply (truncated_body_accepted (str "hello") (str "a") 10).
  - reflexivity.
  - apply (bool_decide_eq_true_1 _). reflexivity.
  - reflexivity.
  - split_and!; [reflexivity|reflexivity| |vm_compute; reflexivity].
    repeat constructor; vm_compute; congruence.
  - split_and!; [reflexivity|reflexivity| |vm_compute; reflexivity].
    repeat constructor; vm_compute; congruence.
Defined.
