(* ===== verification/HttpClient.v ===== *)
(** * HttpClient: requests, redirects and retries

    Models the rest of [network/http_client.go]: the request text, one request
    over a new connection ([doStreamOnce], [doOnce]), redirects, retries with
    their debug records, and the exported methods.  Decompression, the quoting
    of error texts, the growth of [io.ReadAll]'s buffer and the outcome of
    waiting between two attempts are parameters. *)

From S2P Require Import Prelude Bytes GoStrings NetAddr Conn Bufio Proxy HttpConnect Tcp Socks Dial Tunnel Http1 HttpBody.

Local Open Scope Z_scope.

Definition defaultHTTPUserAgent : bytes := str "DesKaOne/0.0.1".

(** ** Error texts *)

Section text.
(** [strconv.Quote]. *)
Context (Quote : bytes -> bytes).

Definition arg_text (a : fmtarg) : bytes :=
  match a with AInt z => Itoa z | AStr s => s | AQuote s => Quote s end.

(** [fmt.Sprintf] for the verbs d, s, q and w. *)
Fixpoint render (format : bytes) (args : list fmtarg) (wrapped : bytes) : bytes :=
  match format with
  | Byte.x25 :: Byte.x77 :: format => wrapped ++ render format args wrapped
  | Byte.x25 :: _ :: format =>
      match args with
      | a :: args => arg_text a ++ render format args wrapped
      | [] => render format [] wrapped
      end
  | b :: format => b :: render format args wrapped
  | [] => []
  end.

(** [err.Error()]. *)
Fixpoint error_text (e : error) : bytes :=
  match e with
  | Sentinel msg => str msg
  | Errorf format args => render (str format) args []
  | Wrapf format args inner => render (str format) args (error_text inner)
  | NetError _ msg => msg
  | CloseError code reason =>
      str "websocket closed: code=" ++ Itoa code ++
      (if bool_decide (reason = []) then [] else str " reason=" ++ reason)
  end.

Definition isRetryableHTTPError `{Unicode} (err : error) : bool :=
  if bool_decide (err = EOF) then true
  else if is_timeout err then true
  else
    let msg := ToLower (error_text err) in
    Contains msg (str "connection reset") || Contains msg (str "connection refused") ||
    Contains msg (str "timeout") || Contains msg (str "temporary") ||
    Contains msg (str "broken pipe") || Contains msg (str "proxy refused") ||
    Contains msg (str "socks connect failed").
End text.

(** ** Requests and responses *)

Record HTTPRequest := mkReq {
  rq_Method : bytes;
  rq_URL : bytes;
  rq_Headers : headers;
  rq_Body : bytes;
}.

Record HTTPResponse := mkResp {
  rs_StatusCode : Z;
  rs_Status : bytes;
  rs_Headers : headers;
  rs_Body : bytes;
}.

(** What [wrapDecompressReader] puts around the body. *)
Inductive decoder := Identity | Gzip | Deflate.

(** The open response: its connection is the one below the body reader;
    [st_isClosed] is the flag of its TCP client. *)
Record HTTPStreamResponse := mkStream {
  st_StatusCode : Z;
  st_Status : bytes;
  st_Headers : headers;
  st_Body : body;
  st_Decoder : decoder;
  st_isClosed : bool;
}.

Record HTTPDebugInfo := mkDebug {
  dbg_Method : bytes;
  dbg_URL : bytes;
  dbg_ProxyUsed : bool;
  dbg_StatusCode : Z;
  dbg_Error : option error;
  dbg_Attempt : Z;
}.

Record HTTPClient (P : Type) := mkHTTP {
  hc_Timeout : Z;
  hc_Picker : option (@picker P);
  hc_LocalBind : option LocalBindTCP;
  hc_UserAgent : bytes;
  hc_MaxRedirects : Z;
  hc_MaxRetries : Z;
  hc_RetryDelay : Z;
  hc_AutoDecompress : bool;
  hc_MaxBodySize : Z;
  hc_Debug : bool;
}.
Arguments mkHTTP {P}.
Arguments hc_Timeout {P}.
Arguments hc_Picker {P}.
Arguments hc_LocalBind {P}.
Arguments hc_UserAgent {P}.
Arguments hc_MaxRedirects {P}.
Arguments hc_MaxRetries {P}.
Arguments hc_RetryDelay {P}.
Arguments hc_AutoDecompress {P}.
Arguments hc_MaxBodySize {P}.
Arguments hc_Debug {P}.

Definition firstHTTPClientLocalBind (bind : list (option LocalBindTCP)) : option LocalBindTCP :=
  match bind with [] => None | b :: _ => b end.

Definition NewHTTPClient {P} (timeout : Z) (pick : option (@picker P))
    (localBind : list (option LocalBindTCP)) : HTTPClient P :=
  mkHTTP timeout pick (firstHTTPClientLocalBind localBind) defaultHTTPUserAgent
    5 0 300000000 true 0 false.

Definition cloneHTTPRequest (req : HTTPRequest) : HTTPRequest :=
  mkReq (rq_Method req) (rq_URL req) (rq_Headers req) (rq_Body req).

Definition isRedirectStatus (code : Z) : bool :=
  bool_decide (code ∈ [301; 302; 303; 307; 308]).

Section requests.
Context `{Unicode} `{MapOrder} `{NetURL}.

Definition resolveRedirectURL (currentURL location : bytes) : bytes + error :=
  match url_Parse currentURL with
  | inr e => inr e
  | inl base =>
      match url_Parse (TrimSpace location) with
      | inr e => inr e
      | inl next => inl (u_Resolve base next)
      end
  end.

Definition defaultPortByScheme (scheme : bytes) : Z :=
  if bool_decide (ToLower scheme = str "https") then 443 else 80.

Definition nextRedirectRequest (req : HTTPRequest) (nextURL : bytes) (statusCode : Z) : HTTPRequest :=
  let method := ToUpper (TrimSpace (rq_Method req)) in
  if (statusCode =? 303) ||
     (((statusCode =? 301) || (statusCode =? 302)) && bool_decide (method = str "POST"))
  then mkReq (str "GET") nextURL
         (removeHeader (removeHeader (removeHeader (rq_Headers req) (str "Content-Length"))
            (str "Content-Type")) (str "Host")) []
  else mkReq (rq_Method req) nextURL (removeHeader (rq_Headers req) (str "Host")) (rq_Body req).

(** The defaults a request gets unless the caller set them. *)
Definition default_headers (hostHeader userAgent : bytes) (body : bytes) (autoDecompress : bool)
    : list (bytes * bytes) :=
  [(str "Host", hostHeader);
   (str "User-Agent", if bool_decide (userAgent = []) then defaultHTTPUserAgent else userAgent);
   (str "Accept", str "*/*"); (str "Connection", str "close")] ++
  (if autoDecompress then [(str "Accept-Encoding", str "gzip, deflate")] else []) ++
  match body with [] => [] | _ => [(str "Content-Length", Itoa (zlen body))] end.

(** The path and the host header of a request to a URL. *)
Definition request_path (u : URL) : bytes :=
  if bool_decide (u_RequestURI u = []) then str "/" else u_RequestURI u.
Definition host_header (u : URL) : bytes :=
  if bool_decide (u_Host u = []) then u_Hostname u else u_Host u.

Definition buildRawHTTPRequest (method : bytes) (u : URL) (h : headers)
    (body userAgent : bytes) (autoDecompress : bool) : bytes :=
  let path := request_path u in
  let hostHeader := host_header u in
  method ++ str " " ++ path ++ str " HTTP/1.1" ++ crlf ++
  concat ((fun kv => writeHeaderIfMissing h (fst kv) (snd kv))
    <$> default_headers hostHeader userAgent body autoDecompress) ++
  write_headers h ++ crlf ++ body.

(** The decoder the response's headers ask for. *)
Definition wrapDecompressReader (h : headers) : decoder :=
  let encoding := ToLower (TrimSpace (getHeader h (str "Content-Encoding"))) in
  if bool_decide (encoding = str "gzip") then Gzip
  else if bool_decide (encoding = str "deflate") then Deflate
  else Identity.
End requests.

(** Decompression, as the SDK calls it: opening a gzip stream reads its header
    from the body; reading everything through the decoder is [inf_ReadAll].
    Both only read. *)
Class Inflate := {
  gzip_NewReader : GoM body unit;
  inf_Read : decoder -> nat -> GoM body (bytes * option error);
  inf_ReadAll : decoder -> (nat -> nat) -> option Z -> GoM body (bytes * option error);
  gzip_NewReader_reads b : exists r b', gzip_NewReader b = (r, b') /\ returned r /\
    wside (b_conn (bd_reader b')) = wside (b_conn (bd_reader b));
  inf_ReadAll_reads d free limit b : exists r b', inf_ReadAll d free limit b = (Ok r, b') /\
    wside (b_conn (bd_reader b')) = wside (b_conn (bd_reader b));
}.

(** What the client holds while a request runs. *)
Record hstate (P : Type) := mkH { h_world : world P; h_debug : list HTTPDebugInfo }.
Arguments mkH {P}.
Arguments h_world {P}.
Arguments h_debug {P}.

(** ** The context of a request

    What a request sees of a context: whether it is done before the wait behind
    attempt [i] is over, and [ctx.Err()] then. *)
Record Context_ := mkContext { ctx_Done : Z -> bool; ctx_Err : option error }.

Definition Canceled : error := Sentinel "context canceled".

(** [ctxDone]; the channel of [neverDone] is never ready. *)
Definition neverDone (_ : Z) : bool := false.
Definition ctxDone (ctx : option Context_) : Z -> bool :=
  match ctx with None => neverDone | Some ctx => ctx_Done ctx end.
Definition contextError (ctx : option Context_) : error :=
  match ctx with
  | None => Canceled
  | Some ctx => match ctx_Err ctx with Some err => err | None => Canceled end
  end.

(** The [select] between two attempts. *)
Definition ctx_wait (ctx : option Context_) (attempt : Z) : option error :=
  if ctxDone ctx attempt then Some (contextError ctx) else None.

(** [context.Background()]. *)
Definition Background : option Context_ := Some (mkContext neverDone None).

(** ** One request *)

Section client.
Context `{Unicode} `{MapOrder} `{NetURL} `{Net} `{Inflate} {P : Type}.
Context (Quote : bytes -> bytes) (free : nat -> nat).
(** Waiting before attempt [i+1]: [Some e] when the context ends first. *)
Context (wait : Z -> option error).
Implicit Types c : HTTPClient P.

(** [client.Close()] for a client whose connection is [k]. *)
Definition close_client (isClosed : bool) (k : conn) : GoM (world P) unit :=
  match t_conn (snd (TCP_Close (mkTCP (Some k) 0 isClosed))) with
  | Some k' => abandon k'
  | None => ret tt
  end.

(** Close the client and return the error. *)
Definition fail_closing {A} (isClosed : bool) (k : conn) (err : error) : GoM (world P) A :=
  close_client isClosed k ;; fail err.

(** Run a reader of the response; its errors close the client. *)
Definition reading {A B} (m : GoM bufio A) (s : bufio) (k : A -> bufio -> GoM (world P) B) : GoM (world P) B :=
  match m s with
  | (Ok a, s') => k a s'
  | (Err e, s') => fail_closing false (b_conn s') e
  | (Panic, _) => panic
  | (Diverge, _) => fun w => (Diverge, w)
  end.

(** From the response headers to the open response. *)
Definition open_body (c : HTTPClient P) (statusCode : Z) (statusLine : bytes) (h : headers) (s : bufio)
    : GoM (world P) HTTPStreamResponse :=
  match buildHTTPBodyReader h with
  | inr err => fail_closing false (b_conn s) err
  | inl kind =>
      let b := mkBody s kind in
      let d := if hc_AutoDecompress c then wrapDecompressReader h else Identity in
      match d with
      | Gzip =>
          match gzip_NewReader b with
          | (Ok _, b') => ret (mkStream statusCode statusLine h b' Gzip false)
          | (Err err, b') => fail_closing false (b_conn (bd_reader b')) err
          | (Panic, _) => panic
          | (Diverge, _) => fun w => (Diverge, w)
          end
      | _ => ret (mkStream statusCode statusLine h b d false)
      end
  end.

(** Send the request over the connected client and read the response's head. *)
Definition exchange (c : HTTPClient P) (client : TCPClient) (rawRequest : bytes)
    : GoM (world P) HTTPStreamResponse :=
  match WriteFull rawRequest client with
  | (Panic, _) => panic
  | (Diverge, _) => fun w => (Diverge, w)
  | (Err err, client') =>
      match t_conn client' with
      | Some k => fail_closing (t_isClosed client') k err
      | None => fail err
      end
  | (Ok _, client') =>
      match t_conn client' with
      | None => panic
      | Some k =>
          let k := if 0 <? hc_Timeout c then snd (SetReadDeadline (Some (hc_Timeout c)) k) else k in
          reading readHTTPLine (NewReader k) (fun statusLine s =>
            match parseHTTPStatusCode statusLine with
            | inr err => fail_closing false (b_conn s) err
            | inl statusCode =>
                reading readHTTPHeaders s (fun h s => open_body c statusCode statusLine h s)
            end)
      end
  end.

Definition doStreamOnce (c : HTTPClient P) (req : HTTPRequest) : GoM (world P) HTTPStreamResponse :=
  let method := ToUpper (TrimSpace (rq_Method req)) in
  let method := if bool_decide (method = []) then str "GET" else method in
  match url_Parse (TrimSpace (rq_URL req)) with
  | inr err => fail err
  | inl u =>
      let isTLS := bool_decide (u_Scheme u = str "https") in
      if negb (bool_decide (u_Scheme u = str "http")) && negb isTLS
      then fail (Errorf "unsupported URL scheme: %s" [AStr (u_Scheme u)])
      else if bool_decide (u_Hostname u = []) then fail (Errorf "empty URL host" [])
      else
        let port := if bool_decide (u_Port u = []) then Some (defaultPortByScheme (u_Scheme u))
                    else Atoi (u_Port u) in
        match port with
        | None => fail (Errorf "invalid URL port: %s" [AStr (u_Port u)])
        | Some port =>
            do client <- NewTCPClientAutoTLS (u_Hostname u) port (hc_Timeout c) (hc_Picker c) isTLS
                           [hc_LocalBind c];
            exchange c client (buildRawHTTPRequest method u (rq_Headers req) (rq_Body req)
              (hc_UserAgent c) (hc_AutoDecompress c))
        end
  end.

(** The [closeFn] of the response's body. *)
Definition close_body (c : HTTPClient P) (isClosed : bool) (b : body) : GoM (world P) unit :=
  let k := b_conn (bd_reader b) in
  close_client isClosed (if 0 <? hc_Timeout c then snd (SetReadDeadline None k) else k).

(** [Read] and [Close] of [httpBodyCloser]: closing the decoder leaves the
    connection alone. *)
Definition stream_body (b : body) (st : HTTPStreamResponse) : HTTPStreamResponse :=
  mkStream (st_StatusCode st) (st_Status st) (st_Headers st) b (st_Decoder st) (st_isClosed st).
Definition stream_Read (cap : nat) : GoM HTTPStreamResponse (bytes * option error) := fun st =>
  let '(r, b) := (match st_Decoder st with
                  | Identity => body_Read cap
                  | d => inf_Read d cap
                  end) (st_Body st) in
  (r, stream_body b st).
Definition stream_Close (c : HTTPClient P) (st : HTTPStreamResponse) : GoM (world P) unit :=
  close_body c (st_isClosed st) (st_Body st).

Definition doOnce (c : HTTPClient P) (req : HTTPRequest) : GoM (world P) HTTPResponse :=
  do st <- doStreamOnce c req;
  let limit := if 0 <? hc_MaxBodySize c then Some (hc_MaxBodySize c) else None in
  let '(r, b) := (match st_Decoder st with
                  | Identity => ReadAll free limit
                  | d => inf_ReadAll d free limit
                  end) (st_Body st) in
  close_body c (st_isClosed st) b ;;
  match r with
  | Ok (data, None) => ret (mkResp (st_StatusCode st) (st_Status st) (st_Headers st) data)
  | Ok (_, Some err) => fail err
  | Err err => fail err
  | Panic => panic
  | Diverge => fun w => (Diverge, w)
  end.

(** ** Redirects *)

Fixpoint redirects (n : nat) (c : HTTPClient P) (req : HTTPRequest) : GoM (world P) HTTPResponse :=
  match n with
  | O => fail (Errorf "too many redirects" [])
  | S n =>
      do res <- doOnce c req;
      if negb (isRedirectStatus (rs_StatusCode res)) then ret res
      else
        let location := getHeader (rs_Headers res) (str "Location") in
        if bool_decide (location = []) then ret res
        else
          match resolveRedirectURL (rq_URL req) location with
          | inr err => fail err
          | inl nextURL => redirects n c (nextRedirectRequest req nextURL (rs_StatusCode res))
          end
  end.

Definition doWithRedirects (c : HTTPClient P) (req : HTTPRequest) : GoM (world P) HTTPResponse :=
  redirects (S (Z.to_nat (hc_MaxRedirects c))) c (cloneHTTPRequest req).

Fixpoint stream_redirects (n : nat) (c : HTTPClient P) (req : HTTPRequest)
    : GoM (world P) HTTPStreamResponse :=
  match n with
  | O => fail (Errorf "too many redirects" [])
  | S n =>
      do res <- doStreamOnce c req;
      if negb (isRedirectStatus (st_StatusCode res)) then ret res
      else
        let location := getHeader (st_Headers res) (str "Location") in
        if bool_decide (location = []) then ret res
        else
          stream_Close c res ;;
          match resolveRedirectURL (rq_URL req) location with
          | inr err => fail err
          | inl nextURL => stream_redirects n c (nextRedirectRequest req nextURL (st_StatusCode res))
          end
  end.

Definition doStreamWithRedirects (c : HTTPClient P) (req : HTTPRequest)
    : GoM (world P) HTTPStreamResponse :=
  stream_redirects (S (Z.to_nat (hc_MaxRedirects c))) c (cloneHTTPRequest req).

(** ** Retries *)

Definition on_world {A} (m : GoM (world P) A) : GoM (hstate P) A := fun s =>
  let '(r, w) := m (h_world s) in (r, mkH w (h_debug s)).

(** The attempts from number [attempt] on, [n] of them; the result is a
    response, an error, or neither when no attempt is made. *)
Fixpoint attempts {R} (n : nat) (attempt : Z) (c : HTTPClient P) (req : HTTPRequest)
    (status : R -> Z) (once : GoM (world P) R) (lastErr : option error)
    : GoM (hstate P) (option R * option error) :=
  match n with
  | O => ret (None, lastErr)
  | S n => fun s =>
      match on_world once s with
      | (Panic, s) => (Panic, s)
      | (Diverge, s) => (Diverge, s)
      | (r, s) =>
          let err := match r with Err e => Some e | _ => None end in
          let info := mkDebug (rq_Method req) (rq_URL req) (bool_decide (is_Some (hc_Picker c)))
                        (match r with Ok res => status res | _ => 0 end) err (attempt + 1) in
          let s := if hc_Debug c then mkH (h_world s) (h_debug s ++ [info]) else s in
          match r with
          | Ok res => (Ok (Some res, None), s)
          | Err e =>
              if negb (isRetryableHTTPError Quote e) then (Ok (None, Some e), s)
              else if (attempt <? hc_MaxRetries c) && (0 <? hc_RetryDelay c)
              then match wait attempt with
                   | Some ctxErr => (Ok (None, Some ctxErr), s)
                   | None => attempts n (attempt + 1) c req status once (Some e) s
                   end
              else attempts n (attempt + 1) c req status once (Some e) s
          | _ => (Panic, s)
          end
      end
  end.

(** The response and the error [Do] returns. *)
Definition Do (c : HTTPClient P) (req : option HTTPRequest) : GoM (hstate P) (option HTTPResponse * option error) :=
  match req with
  | None => ret (None, Some (Errorf "nil HTTP request" []))
  | Some req =>
      let currentReq := cloneHTTPRequest req in
      attempts (Z.to_nat (hc_MaxRetries c + 1)) 0 c currentReq rs_StatusCode
        (doWithRedirects c currentReq) None
  end.

Definition DoStream (c : HTTPClient P) (req : option HTTPRequest)
    : GoM (hstate P) (option HTTPStreamResponse * option error) :=
  match req with
  | None => ret (None, Some (Errorf "nil HTTP request" []))
  | Some req =>
      let currentReq := cloneHTTPRequest req in
      attempts (Z.to_nat (hc_MaxRetries c + 1)) 0 c currentReq st_StatusCode
        (doStreamWithRedirects c currentReq) None
  end.

Definition Get (c : HTTPClient P) (rawURL : bytes) (h : headers) :=
  Do c (Some (mkReq (str "GET") rawURL h [])).
Definition Delete (c : HTTPClient P) (rawURL : bytes) (h : headers) :=
  Do c (Some (mkReq (str "DELETE") rawURL h [])).
Definition Post (c : HTTPClient P) (rawURL : bytes) (h : headers) (data : bytes) :=
  Do c (Some (mkReq (str "POST") rawURL h data)).
Definition Put (c : HTTPClient P) (rawURL : bytes) (h : headers) (data : bytes) :=
  Do c (Some (mkReq (str "PUT") rawURL h data)).
End client.

(** ** A request returns and leaks nothing *)

Section safety.
Context `{Unicode} `{MapOrder} `{NetURL} `{Net} `{Inflate} {P : Type}.
Context (Quote : bytes -> bytes) (free : nat -> nat) (wait : Z -> option error).
Implicit Types c : HTTPClient P.

Lemma fail_closing_safely {A} isClosed k err n (w : world P) :
  tidy (S n) w -> isClosed = false \/ spent k ->
  exists w', fail_closing (A := A) isClosed k err w = (Err err, w') /\ w_dialled w' = w_dialled w /\ tidy n w'.
Proof.
  intros Hw Hk. unfold fail_closing, close_client.
  destruct (TCP_Close_spent (mkTCP (Some k) 0 isClosed) k eq_refl Hk) as (k' & -> & Hk').
  eexists. split; [reflexivity|]. split; [done|]. by apply abandon_spent.
Qed.

(** [opening m]: from a world that holds the connection in use, [m] either
    succeeds still using it or fails having closed it, unless a write failed. *)
Definition opening {A} (Q : A -> Prop) (m : GoM (world P) A) : Prop :=
  forall n w, tidy (S n) w -> exists r w', m w = (r, w') /\ w_dialled w' = w_dialled w /\
    match r with
    | Ok a => tidy (S n) w' /\ Q a
    | Err _ => tidy n w'
    | _ => False
    end.

Lemma opening_fail_closing {A} (Q : A -> Prop) isClosed k err :
  isClosed = false \/ spent k -> opening Q (fail_closing isClosed k err).
Proof.
  intros Hk n w Hw. destruct (fail_closing_safely (A := A) isClosed k err n w Hw Hk) as (w' & E & Hd & Hw').
  by eexists _, _.
Qed.

Lemma opening_reading {A B} (m : GoM bufio A) s (k : A -> bufio -> GoM (world P) B) (Q : B -> Prop) :
  (exists r s', m s = (r, s') /\ returned r) -> (forall a s', opening Q (k a s')) -> opening Q (reading m s k).
Proof.
  intros (r & s' & E & Hr) Hk. unfold reading. rewrite E. destruct r as [a|e| |]; try done.
  apply opening_fail_closing. by left.
Qed.

(** An open response. *)
Definition open_response (st : HTTPStreamResponse) : Prop :=
  st_isClosed st = false /\ (st_Decoder st = Identity -> body_wf (st_Body st)).

Lemma opening_open_body c code line h s : opening open_response (open_body c code line h s).
Proof.
  unfold open_body. destruct (buildHTTPBodyReader h) as [kind|err] eqn:Ek; [|apply opening_fail_closing; by left].
  assert (body_wf (mkBody s kind)) as Hwf.
  { unfold body_wf. cbn [bd_kind]. destruct kind as [rem dn| | |]; try done. revert Ek.
    unfold buildHTTPBodyReader. cbv zeta. repeat case_match; intros; simplify_eq; lia. }
  cbv zeta. destruct (if hc_AutoDecompress c then _ else _) eqn:Ed.
  - intros n w Hw. eexists _, _. split; [reflexivity|]. by split_and!.
  - destruct (gzip_NewReader_reads (mkBody s kind)) as (r & b' & -> & Hr & _).
    destruct r as [[]|e| |]; try done; [|apply opening_fail_closing; by left].
    intros n w Hw. eexists _, _. split; [reflexivity|]. by split_and!.
  - intros n w Hw. eexists _, _. split; [reflexivity|]. by split_and!.
Qed.

Lemma opening_exchange c t raw : fresh_client t -> opening open_response (exchange c t raw).
Proof.
  intros (Hcl & k & Hk). unfold exchange.
  destruct (WriteFull_spent raw t k Hk Hcl) as (r & t' & k' & -> & Hk' & Hr).
  destruct r as [[]|err| |]; try done.
  2: { rewrite Hk'. by apply opening_fail_closing. }
  rewrite Hk'. apply opening_reading; [|intros line s].
  { destruct (readHTTPLine_spec (NewReader (if 0 <? hc_Timeout c then snd (SetReadDeadline (Some (hc_Timeout c)) k') else k')))
      as (r & s' & E & _ & Hr'). exists r, s'. split; [done|]. by destruct r. }
  destruct (parseHTTPStatusCode line); [|apply opening_fail_closing; by left].
  apply opening_reading; [|intros; apply opening_open_body].
  destruct (readHTTPHeaders_returns s) as (r & s' & E & _ & Hr'). eauto.
Qed.

Lemma safely_doStreamOnce c req :
  picker_returns (hc_Picker c) -> safely 1 1 open_response (doStreamOnce c req).
Proof.
  intros Hp. unfold doStreamOnce. cbv zeta.
  destruct (url_Parse _) as [u|e]; [|apply safely_fail].
  do 2 (case_if; [apply safely_fail|]). destruct (if bool_decide (u_Port u = []) then _ else _); [|apply safely_fail].
  intros n w Hw. set (m := NewTCPClientAutoTLS _ _ _ _ _ _). set (raw := buildRawHTTPRequest _ _ _ _ _ _).
  destruct (safely_NewTCPClientAutoTLS (u_Hostname u) z (hc_Timeout c) (hc_Picker c)
    (bool_decide (u_Scheme u = str "https")) [hc_LocalBind c] Hp n w Hw) as (r & w1 & E & Hl & Hr).
  fold m in E. unfold bind. rewrite E. destruct r as [t|e| |]; try done; [|by eexists _, _].
  destruct Hr as [Hw1 Ht]. destruct (opening_exchange c t raw Ht n w1 Hw1) as (r & w2 & E2 & Hd & Hr2).
  exists r, w2. split; [exact E2|]. rewrite Hd. split; [done|]. by destruct r.
Qed.

Lemma close_body_safely c b n (w : world P) :
  tidy (S n) w ->
  exists w', close_body c false b w = (Ok tt, w') /\ w_dialled w' = w_dialled w /\ tidy n w'.
Proof.
  intros Hw. unfold close_body, close_client. cbn.
  eexists. split; [reflexivity|]. split; [done|]. by apply abandon_shut.
Qed.

Lemma safely_doOnce c req :
  picker_returns (hc_Picker c) -> safely 0 1 (fun _ => True) (doOnce free c req).
Proof.
  intros Hp n w Hw. unfold doOnce.
  destruct (safely_doStreamOnce c req Hp n w Hw) as (r & w1 & E & Hl & Hr).
  unfold bind at 1. rewrite E. destruct r as [st|e| |]; try done; [|by eexists _, _].
  destruct Hr as [Hw1 [Hcl Hwf]]. set (limit := if 0 <? hc_MaxBodySize c then Some _ else None).
  assert (exists r b, (match st_Decoder st with Identity => ReadAll free limit | d => inf_ReadAll d free limit end)
    (st_Body st) = (Ok r, b)) as (r & b & Er).
  { destruct (st_Decoder st) eqn:Ed.
    - destruct (ReadAll_returns free limit (st_Body st) (Hwf eq_refl)) as (r & b & -> & _). eauto.
    - destruct (inf_ReadAll_reads Gzip free limit (st_Body st)) as (r & b & -> & _). eauto.
    - destruct (inf_ReadAll_reads Deflate free limit (st_Body st)) as (r & b & -> & _). eauto. }
  rewrite Er, Hcl. destruct (close_body_safely c b n w1 Hw1) as (w2 & E2 & Hd2 & Hw2).
  unfold bind. rewrite E2. destruct r as [data [err|]]; (eexists _, _; split; [reflexivity|]); rewrite Hd2; by split_and!.
Qed.

Lemma safely_redirects k c req :
  picker_returns (hc_Picker c) -> safely 0 k (fun _ => True) (redirects free k c req).
Proof.
  intros Hp. revert req. induction k as [|k IH]; intros req; [apply safely_fail|]. intros n w Hw.
  cbn [redirects]. destruct (safely_doOnce c req Hp n w Hw) as (r & w1 & E & Hl & Hr).
  unfold bind. rewrite E. destruct r as [res|e| |]; try done.
  2: { eexists _, _. split; [reflexivity|]. split; [lia|done]. }
  destruct Hr as [Hw1 _].
  assert (forall e : error, exists r w', (fail e : GoM (world P) HTTPResponse) w1 = (r, w') /\
    (length (w_dialled w') <= length (w_dialled w) + S k)%nat /\
    match r with Ok a => tidy (0 + n) w' /\ True | Err _ => tidy n w' | _ => False end) as Hfail.
  { intros e. eexists _, _. split; [reflexivity|]. split; [lia|done]. }
  assert (exists r w', (ret res : GoM (world P) HTTPResponse) w1 = (r, w') /\
    (length (w_dialled w') <= length (w_dialled w) + S k)%nat /\
    match r with Ok a => tidy (0 + n) w' /\ True | Err _ => tidy n w' | _ => False end) as Hret.
  { eexists _, _. split; [reflexivity|]. split; [lia|done]. }
  case_if; [exact Hret|]. cbv zeta. case_if; [exact Hret|].
  destruct (resolveRedirectURL _ _) as [next|e]; [|apply Hfail].
  destruct (IH (nextRedirectRequest req next (rs_StatusCode res)) n w1 Hw1) as (r & w2 & E2 & Hl2 & Hr2).
  exists r, w2. split; [done|]. split; [lia|done].
Qed.

Lemma attempts_safely {R} (status : R -> Z) (once : GoM (world P) R) (j d : nat) Q k i c req lastErr n s :
  safely j d Q once -> tidy n (h_world s) ->
  exists res err s', attempts Quote wait k i c req status once lastErr s = (Ok (res, err), s') /\
    (length (w_dialled (h_world s')) <= length (w_dialled (h_world s)) + k * d)%nat /\
    match res with
    | Some _ => err = None /\ tidy (j + n) (h_world s')
    | None => (is_Some lastErr \/ (0 < k)%nat -> is_Some err) /\ tidy n (h_world s')
    end.
Proof.
  intros Hs. revert i lastErr s. induction k as [|k IH]; intros i lastErr s Hw.
  { eexists _, _, _. split; [reflexivity|]. split; [lia|]. split; [|done]. intros [?|?]; [done|lia]. }
  cbn [attempts]. destruct (Hs n (h_world s) Hw) as (r & w' & E & Hl & Hr).
  unfold on_world. rewrite E. destruct r as [res|e| |]; try done.
  - eexists _, _, _. split; [reflexivity|]. destruct (hc_Debug c); cbn; destruct Hr; (split; [lia|done]).
  - set (s1 := if hc_Debug c then _ else _).
    assert (h_world s1 = w') as Es1 by (unfold s1; by destruct (hc_Debug c)).
    assert (forall e' : error, exists res err s', (Ok (None (A := R), Some e'), s1) = (Ok (res, err), s') /\
      (length (w_dialled (h_world s')) <= length (w_dialled (h_world s)) + S k * d)%nat /\
      match res with Some _ => err = None /\ tidy (j + n) (h_world s')
      | None => (is_Some lastErr \/ (0 < S k)%nat -> is_Some err) /\ tidy n (h_world s') end) as Hstop.
    { intros e'. eexists _, _, _. split; [reflexivity|]. rewrite Es1. split; [lia|]. split; [eauto|done]. }
    assert (exists res err s', attempts Quote wait k (i + 1) c req status once (Some e) s1 = (Ok (res, err), s') /\
      (length (w_dialled (h_world s')) <= length (w_dialled (h_world s)) + S k * d)%nat /\
      match res with Some _ => err = None /\ tidy (j + n) (h_world s')
      | None => (is_Some lastErr \/ (0 < S k)%nat -> is_Some err) /\ tidy n (h_world s') end) as Hgo.
    { destruct (IH (i + 1) (Some e) s1) as (res & err & s' & E' & Hl' & Hr'); [by rewrite Es1|].
      exists res, err, s'. split; [done|]. rewrite Es1 in Hl'. split; [lia|]. destruct res; [done|].
      destruct Hr' as [H1' H2']. split; [|done]. intros _. apply H1'. by left. }
    case_if; [apply Hstop|]. case_if; [|exact Hgo]. destruct (wait i); [apply Hstop|exact Hgo].
Qed.

(** C12: [Do] returns for every server, every proxy and every network, writes
    that fail among them, when the picker returns: it gives a response or an
    error and never both, but for a negative number of retries, with which it
    gives neither; of the connections it opened each has been closed, or a
    write on it has failed; and it has dialled at most once for each attempt
    and redirect allowed. *)
Theorem Do_safe (c : HTTPClient P) (req : option HTTPRequest) (n : nat) (s : hstate P)
    (Hpick : picker_returns (hc_Picker c)) (Hw : tidy n (h_world s)) :
  exists res err s', Do Quote free wait c req s = (Ok (res, err), s') /\
    match res, err with
    | Some _, Some _ => False
    | None, None => hc_MaxRetries c < 0 /\ is_Some req
    | _, _ => hc_MaxRetries c < 0 -> req = None
    end /\
    tidy n (h_world s') /\
    (length (w_dialled (h_world s')) <= length (w_dialled (h_world s)) +
       Z.to_nat (hc_MaxRetries c + 1) * S (Z.to_nat (hc_MaxRedirects c)))%nat.
Proof.
  unfold Do. destruct req as [req|].
  2: { eexists _, _, _. split; [reflexivity|]. split_and!; [done|done|lia]. }
  destruct (attempts_safely rs_StatusCode (doWithRedirects free c (cloneHTTPRequest req)) 0
    (S (Z.to_nat (hc_MaxRedirects c))) (fun _ => True) (Z.to_nat (hc_MaxRetries c + 1)) 0 c (cloneHTTPRequest req)
    None n s) as (res & err & s' & E & Hl & Hr); [by apply safely_redirects|done|].
  exists res, err, s'. split; [done|]. split_and!; [|by destruct res; destruct Hr|done].
  destruct (Z.ltb_spec (hc_MaxRetries c) 0) as [Hneg|Hpos].
  - replace (Z.to_nat (hc_MaxRetries c + 1)) with 0%nat in E by lia. injection E as <- <- _. by split.
  - destruct res as [res|].
    + destruct Hr as [-> _]. lia.
    + destruct Hr as [[e ->] _]; [right; lia|]. lia.
Qed.

(** With a negative number of retries [Do] makes no attempt and returns
    neither a response nor an error. *)
Theorem Do_nil_nil (c : HTTPClient P) (req : HTTPRequest) (s : hstate P) (Hretries : hc_MaxRetries c < 0) :
  Do Quote free wait c (Some req) s = (Ok (None, None), s).
Proof. unfold Do. replace (Z.to_nat (hc_MaxRetries c + 1)) with 0%nat by lia. done. Qed.
End safety.

(** ** A request end to end *)

Section end_to_end.
Context `{Unicode} `{MapOrder} `{NetURL} `{Net} `{Inflate} {P : Type}.
Context (Quote : bytes -> bytes) (free : nat -> nat) (wait : Z -> option error).
Implicit Types c : HTTPClient P.

(** The method a request is sent with. *)
Definition request_method (req : HTTPRequest) : bytes :=
  let method := ToUpper (TrimSpace (rq_Method req)) in
  if bool_decide (method = []) then str "GET" else method.

Lemma reading_ok {A B} (m : GoM bufio A) s (k : A -> bufio -> GoM (world P) B) a s' w :
  m s = (Ok a, s') -> reading m s k w = k a s' w.
Proof. intros E. unfold reading. by rewrite E. Qed.

(** The exchange on a connection whose server sends a complete response. *)
Lemma exchange_response c k raw statusLine code hs wire kind sent w :
  ready k (statusLine ++ crlf ++ header_block hs ++ crlf ++ wire) sent ->
  line_ok statusLine -> parseHTTPStatusCode statusLine = inl code -> Forall header_ok hs ->
  let h := foldl (fun h kv => add_header h (fst kv) (snd kv)) ∅ hs in
  buildHTTPBodyReader h = inl kind ->
  (if hc_AutoDecompress c then wrapDecompressReader h else Identity) = Identity ->
  exists s, exchange c (mkTCP (Some k) (hc_Timeout c) false) raw w =
      (Ok (mkStream code statusLine h (mkBody s kind) Identity false), w) /\
    br_pending s wire /\ c_sent (b_conn s) = sent ++ raw.
Proof.
  intros (Hc & Hwr & Hl & Hf & Hs) Hline Hcode Hhs h Hkind Hdec. unfold exchange.
  destruct (WriteFull_open raw (mkTCP (Some k) (hc_Timeout c) false) k eq_refl eq_refl Hc Hwr)
    as (k1 & -> & Hi1 & _ & Hs1 & Hc1). cbn [t_conn tcp_conn]. cbv zeta.
  set (k2 := if 0 <? hc_Timeout c then _ else k1).
  assert (br_pending (NewReader k2) (statusLine ++ crlf ++ header_block hs ++ crlf ++ wire) /\ c_sent k2 = sent ++ raw)
    as [Hp Hs2].
  { unfold k2. rewrite Hs in Hs1. destruct (0 <? hc_Timeout c); (split; [|done]); repeat split; cbn; rewrite ?Hi1; done. }
  destruct (readHTTPLine_pending _ _ _ Hline Hp) as (s1 & E1 & Hp1 & Hw1).
  rewrite (reading_ok _ _ _ _ _ _ E1), Hcode.
  destruct (readHTTPHeaders_pending hs wire s1 Hhs Hp1) as (s2 & E2 & Hp2 & Hw2).
  rewrite (reading_ok _ _ _ _ _ _ E2). fold h. unfold open_body. rewrite Hkind. cbv zeta. rewrite Hdec.
  exists s2. split; [done|]. split; [done|].
  rewrite Hw1 in Hw2. injection Hw2 as _ -> _ _ _. exact Hs2.
Qed.

(** The body of an opened stream, read to its end, and closing it. *)
Lemma stream_response c code statusLine h s1 kind wire data sent limit w1 :
  br_pending s1 wire -> body_wire kind wire data -> c_sent (b_conn s1) = sent ->
  exists b' k', ReadAll free limit (mkBody s1 kind) =
      (Ok (match limit with None => data | Some n => take (Z.to_nat n) data end, None), b') /\
    stream_Close c (mkStream code statusLine h b' Identity false) w1 = (Ok tt, snd (abandon k' w1)) /\
    c_closed k' = true /\ c_sent k' = sent.
Proof.
  intros Hp1 Hbody Hs1. destruct (ReadAll_body kind wire data free limit s1 Hbody Hp1) as (b' & E3).
  assert (wside (b_conn (bd_reader b')) = wside (b_conn s1)) as Hw3.
  { destruct (ReadAll_returns free limit (mkBody s1 kind)) as (r & b2 & E4 & Hw4).
    - destruct kind; try done. by destruct Hbody as (-> & _).
    - rewrite E3 in E4. injection E4 as _ <-. exact Hw4. }
  exists b', (set_closed true (if 0 <? hc_Timeout c then snd (SetReadDeadline None (b_conn (bd_reader b'))) else b_conn (bd_reader b'))).
  split; [done|]. split; [|split; [done|]].
  - unfold stream_Close, close_body, close_client. cbn. done.
  - injection Hw3 as _ Hsent _ _ _. destruct (0 <? hc_Timeout c); cbn; congruence.
Qed.

Lemma doOnce_response c req w w1 code statusLine h s1 kind wire data sent :
  doStreamOnce c req w = (Ok (mkStream code statusLine h (mkBody s1 kind) Identity false), w1) ->
  br_pending s1 wire -> body_wire kind wire data -> c_sent (b_conn s1) = sent ->
  exists k', doOnce free c req w = (Ok (mkResp code statusLine h
      (if 0 <? hc_MaxBodySize c then take (Z.to_nat (hc_MaxBodySize c)) data else data)), snd (abandon k' w1)) /\
    c_closed k' = true /\ c_sent k' = sent.
Proof.
  intros E2 Hp1 Hbody Hs1. set (limit := if 0 <? hc_MaxBodySize c then Some (hc_MaxBodySize c) else None).
  destruct (stream_response c code statusLine h s1 kind wire data sent limit w1 Hp1 Hbody Hs1) as (b' & k' & E3 & E4 & Hk).
  exists k'. split; [|done]. unfold doOnce. rewrite (bind_Ok _ _ _ _ _ E2). cbn [st_Decoder st_Body st_isClosed]. cbv zeta.
  fold limit. rewrite E3. rewrite (bind_Ok _ _ _ _ _ E4). unfold limit. by destruct (0 <? hc_MaxBodySize c).
Qed.

(** Where a request goes. *)
Definition request_target (c : HTTPClient P) (u : URL) (port : Z) : target (P := P) :=
  mkTarget (u_Hostname u) port (hc_Timeout c) (hc_Picker c) (firstLocalBind [hc_LocalBind c]).

Lemma doStreamOnce_response c req w u port isTLS statusLine wire code hs kind sent :
  url_Parse (TrimSpace (rq_URL req)) = inl u -> u_Scheme u = (if isTLS : bool then str "https" else str "http") ->
  (if bool_decide (u_Port u = []) then Some (if isTLS then 443 else 80) else Atoi (u_Port u)) = Some port ->
  target_ok (request_target c u port) ->
  online (request_target c u port) isTLS w (statusLine ++ crlf ++ header_block hs ++ crlf ++ wire) sent ->
  line_ok statusLine -> parseHTTPStatusCode statusLine = inl code -> Forall header_ok hs ->
  let h := foldl (fun h kv => add_header h (fst kv) (snd kv)) ∅ hs in
  buildHTTPBodyReader h = inl kind ->
  (if hc_AutoDecompress c then wrapDecompressReader h else Identity) = Identity ->
  exists s1 w1, doStreamOnce c req w = (Ok (mkStream code statusLine h (mkBody s1 kind) Identity false), w1) /\
    br_pending s1 wire /\ w_left w1 = w_left w /\
    c_sent (b_conn s1) = sent ++ buildRawHTTPRequest (request_method req) u (rq_Headers req) (rq_Body req)
      (hc_UserAgent c) (hc_AutoDecompress c).
Proof.
  intros Hurl Hscheme Hport Htarget Honline Hline Hcode Hhs h Hkind Hdec.
  destruct (online_connects _ isTLS w _ _ [hc_LocalBind c] Htarget eq_refl Honline) as (k & w1 & E1 & Hk & Hl1).
  set (raw := buildRawHTTPRequest _ _ _ _ _ _).
  destruct (exchange_response c k raw statusLine code hs wire kind sent w1 Hk Hline Hcode Hhs Hkind Hdec)
    as (s1 & E2 & Hp1 & Hs1). exists s1, w1. split_and!; try done.
  unfold doStreamOnce. cbv zeta. rewrite Hurl. cbn [tg_host tg_port tg_timeout tg_picker request_target] in E1.
  assert (bool_decide (u_Scheme u = str "https") = isTLS) as -> by (rewrite Hscheme; by destruct isTLS).
  assert (negb (bool_decide (u_Scheme u = str "http")) && negb isTLS = false) as -> by (rewrite Hscheme; by destruct isTLS).
  destruct Htarget as (_ & Hne & _). cbn in Hne. rewrite bool_decide_eq_false_2 by done.
  assert (defaultPortByScheme (u_Scheme u) = if isTLS then 443 else 80) as ->.
  { unfold defaultPortByScheme. rewrite Hscheme.
    destruct isTLS; rewrite ToLower_ascii by (repeat constructor); reflexivity. }
  rewrite Hport. unfold bind. rewrite E1. exact E2.
Qed.

Lemma Do_online (c : HTTPClient P) (req : HTTPRequest) (s : hstate P) (u : URL) (port : Z) (isTLS : bool)
    (statusLine wire data sent : bytes) (code : Z) (hs : list (bytes * bytes)) (kind : body_kind)
    (Hurl : url_Parse (TrimSpace (rq_URL req)) = inl u)
    (Hscheme : u_Scheme u = if isTLS then str "https" else str "http")
    (Hport : (if bool_decide (u_Port u = []) then Some (if isTLS then 443 else 80) else Atoi (u_Port u)) = Some port)
    (Htarget : target_ok (request_target c u port)) (Hretries : 0 <= hc_MaxRetries c)
    (Hserver : online (request_target c u port) isTLS (h_world s)
       (statusLine ++ crlf ++ header_block hs ++ crlf ++ wire) sent)
    (Hline : line_ok statusLine) (Hcode : parseHTTPStatusCode statusLine = inl code)
    (Hredirect : isRedirectStatus code = false) (Hhs : Forall header_ok hs)
    (Hkind : buildHTTPBodyReader (foldl (fun h kv => add_header h (fst kv) (snd kv)) ∅ hs) = inl kind)
    (Hdec : (if hc_AutoDecompress c then wrapDecompressReader
        (foldl (fun h kv => add_header h (fst kv) (snd kv)) ∅ hs) else Identity) = Identity)
    (Hbody : body_wire kind wire data) :
  exists s' k',
    Do Quote free wait c (Some req) s =
      (Ok (Some (mkResp code statusLine (foldl (fun h kv => add_header h (fst kv) (snd kv)) ∅ hs)
        (if 0 <? hc_MaxBodySize c then take (Z.to_nat (hc_MaxBodySize c)) data else data)), None), s') /\
    w_left (h_world s') = w_left (h_world s) ++ [k'] /\ c_closed k' = true /\
    c_sent k' = sent ++ buildRawHTTPRequest (request_method req) u (rq_Headers req) (rq_Body req)
      (hc_UserAgent c) (hc_AutoDecompress c).
Proof.
  destruct (doStreamOnce_response c req (h_world s) u port isTLS statusLine wire code hs kind sent)
    as (s1 & w1 & E1 & Hp1 & Hl1 & Hs1); try done.
  destruct (doOnce_response c req _ _ _ _ _ _ _ _ data _ E1 Hp1 Hbody Hs1) as (k' & E2 & Hc & Hs).
  set (res := mkResp _ _ _ _) in *.
  assert (doWithRedirects free c (cloneHTTPRequest req) (h_world s) = (Ok res, snd (abandon k' w1))) as E3.
  { unfold doWithRedirects. replace (cloneHTTPRequest (cloneHTTPRequest req)) with req by (by destruct req).
    cbn [redirects]. rewrite (bind_Ok _ _ _ _ _ E2). cbn [rs_StatusCode res]. by rewrite Hredirect. }
  exists (snd (Do Quote free wait c (Some req) s)), k'.
  unfold Do. replace (Z.to_nat (hc_MaxRetries c + 1)) with (S (Z.to_nat (hc_MaxRetries c))) by lia.
  cbn [attempts]. unfold on_world. rewrite E3. rewrite <- Hl1.
  split; [by destruct (hc_Debug c)|]. split; [by destruct (hc_Debug c)|]. done.
Qed.

(** C10: a request, plain or over TLS, directly or through a SOCKS5 or CONNECT
    proxy, to a server that answers with a status line that is not a redirect,
    headers and a body in any of the three framings that is not to be
    decompressed (it has no [Content-Encoding] that is known, or
    [AutoDecompress] is off), by a client that does not have a negative number of retries,
    gives back exactly that status, those headers and that body, the body cut
    to [MaxBodySize] bytes when that is positive; behind what the way there
    needed exactly the request text has been sent, over one connection, which
    is closed again. *)
Theorem Do_end_to_end (c : HTTPClient P) (req : HTTPRequest) (s : hstate P) (u : URL) (port : Z) (isTLS : bool)
    (statusLine wire data sent : bytes) (code : Z) (hs : list (bytes * bytes)) (kind : body_kind)
    (Hurl : url_Parse (TrimSpace (rq_URL req)) = inl u)
    (Hscheme : u_Scheme u = if isTLS then str "https" else str "http")
    (Hport : (if bool_decide (u_Port u = []) then Some (if isTLS then 443 else 80) else Atoi (u_Port u)) = Some port)
    (Htarget : target_ok (request_target c u port)) (Hretries : 0 <= hc_MaxRetries c)
    (Hserver : online (request_target c u port) isTLS (h_world s)
       (statusLine ++ crlf ++ header_block hs ++ crlf ++ wire) sent)
    (Hline : line_ok statusLine) (Hcode : parseHTTPStatusCode statusLine = inl code)
    (Hredirect : isRedirectStatus code = false) (Hhs : Forall header_ok hs)
    (Hkind : buildHTTPBodyReader (foldl (fun h kv => add_header h (fst kv) (snd kv)) ∅ hs) = inl kind)
    (Hdec : (if hc_AutoDecompress c then wrapDecompressReader
        (foldl (fun h kv => add_header h (fst kv) (snd kv)) ∅ hs) else Identity) = Identity)
    (Hbody : body_wire kind wire data) :
  exists s' k',
    Do Quote free wait c (Some req) s =
      (Ok (Some (mkResp code statusLine (foldl (fun h kv => add_header h (fst kv) (snd kv)) ∅ hs)
        (if 0 <? hc_MaxBodySize c then take (Z.to_nat (hc_MaxBodySize c)) data else data)), None), s') /\
    w_left (h_world s') = w_left (h_world s) ++ [k'] /\ c_closed k' = true /\
    c_sent k' = sent ++ buildRawHTTPRequest (request_method req) u (rq_Headers req) (rq_Body req)
      (hc_UserAgent c) (hc_AutoDecompress c).
Proof. by apply (Do_online c req s u port isTLS statusLine wire data sent code hs kind). Qed.

(** C11: a streamed response is complete too: under the assumptions of the
    theorem before (a status that is not a redirect, a body that is not to be
    decompressed, no negative number of retries) [DoStream] gives the status
    and the headers as the server sent them; [io.ReadAll] on its body, whatever
    the sizes of the buffers it reads with, gives exactly the body, uncut, and
    closing it then closes the one connection, over which exactly the request
    text was sent. *)
Theorem DoStream_end_to_end (c : HTTPClient P) (req : HTTPRequest) (s : hstate P) (u : URL) (port : Z) (isTLS : bool)
    (statusLine wire data sent : bytes) (code : Z) (hs : list (bytes * bytes)) (kind : body_kind)
    (Hurl : url_Parse (TrimSpace (rq_URL req)) = inl u)
    (Hscheme : u_Scheme u = if isTLS then str "https" else str "http")
    (Hport : (if bool_decide (u_Port u = []) then Some (if isTLS then 443 else 80) else Atoi (u_Port u)) = Some port)
    (Htarget : target_ok (request_target c u port)) (Hretries : 0 <= hc_MaxRetries c)
    (Hserver : online (request_target c u port) isTLS (h_world s)
       (statusLine ++ crlf ++ header_block hs ++ crlf ++ wire) sent)
    (Hline : line_ok statusLine) (Hcode : parseHTTPStatusCode statusLine = inl code)
    (Hredirect : isRedirectStatus code = false) (Hhs : Forall header_ok hs)
    (Hkind : buildHTTPBodyReader (foldl (fun h kv => add_header h (fst kv) (snd kv)) ∅ hs) = inl kind)
    (Hdec : (if hc_AutoDecompress c then wrapDecompressReader
        (foldl (fun h kv => add_header h (fst kv) (snd kv)) ∅ hs) else Identity) = Identity)
    (Hbody : body_wire kind wire data) :
  exists st s', DoStream Quote wait c (Some req) s = (Ok (Some st, None), s') /\
    (st_StatusCode st, st_Status st, st_Headers st) =
      (code, statusLine, foldl (fun h kv => add_header h (fst kv) (snd kv)) ∅ hs) /\
    w_left (h_world s') = w_left (h_world s) /\
    exists b' k', ReadAll free None (st_Body st) = (Ok (data, None), b') /\
      stream_Close c (stream_body b' st) (h_world s') = (Ok tt, snd (abandon k' (h_world s'))) /\
      c_closed k' = true /\
      c_sent k' = sent ++ buildRawHTTPRequest (request_method req) u (rq_Headers req) (rq_Body req)
        (hc_UserAgent c) (hc_AutoDecompress c).
Proof.
  destruct (doStreamOnce_response c req (h_world s) u port isTLS statusLine wire code hs kind sent)
    as (s1 & w1 & E1 & Hp1 & Hl1 & Hs1); try done.
  set (h := foldl _ _ _) in *. set (st := mkStream _ _ _ _ _ _) in *.
  assert (doStreamWithRedirects c (cloneHTTPRequest req) (h_world s) = (Ok st, w1)) as E3.
  { unfold doStreamWithRedirects. replace (cloneHTTPRequest (cloneHTTPRequest req)) with req by (by destruct req).
    cbn [stream_redirects]. rewrite (bind_Ok _ _ _ _ _ E1). cbn [st_StatusCode st]. by rewrite Hredirect. }
  assert (exists d, DoStream Quote wait c (Some req) s = (Ok (Some st, None), mkH w1 d)) as [d E4].
  { unfold DoStream. replace (Z.to_nat (hc_MaxRetries c + 1)) with (S (Z.to_nat (hc_MaxRetries c))) by lia.
    cbn [attempts]. unfold on_world. rewrite E3. destruct (hc_Debug c); by eexists. }
  exists st, (mkH w1 d). split; [done|]. split; [done|]. split; [done|].
  exact (stream_response c code statusLine h s1 kind wire data _ None w1 Hp1 Hbody Hs1).
Qed.
End end_to_end.

(** ** Redirected requests and header text *)

Section headers.
Context `{Unicode} `{MapOrder} `{NetURL}.

(** No header of this name, under any spelling. *)
Definition no_header (h : headers) (name : bytes) : Prop := hasHeader h name = false.

Lemma hasHeader_false h name :
  no_header h name <-> forall k v, h !! k = Some v -> EqualFold (TrimSpace k) name = false.
Proof.
  unfold no_header. rewrite <- not_true_iff_false, hasHeader_true. split.
  - intros Hn k v Hl. destruct (EqualFold (TrimSpace k) name) eqn:E; [|done]. exfalso. eauto.
  - intros Hn (k & v & Hl & Hk). by rewrite (Hn k v Hl) in Hk.
Qed.

(** A redirect never carries the old [Host] header over; a 303, or a 301
    or 302 that answers a POST, becomes a GET without body and without content
    headers; every other redirect keeps method and body.  All headers of other
    names are kept. *)
Theorem nextRedirectRequest_correct (req : HTTPRequest) (nextURL : bytes) (code : Z) :
  let next := nextRedirectRequest req nextURL code in
  let to_get := (code =? 303) || (((code =? 301) || (code =? 302)) &&
                  bool_decide (ToUpper (TrimSpace (rq_Method req)) = str "POST")) in
  rq_URL next = nextURL /\ no_header (rq_Headers next) (str "Host") /\
  (if to_get
   then rq_Method next = str "GET" /\ rq_Body next = [] /\
        no_header (rq_Headers next) (str "Content-Length") /\ no_header (rq_Headers next) (str "Content-Type")
   else rq_Method next = rq_Method req /\ rq_Body next = rq_Body req) /\
  (forall k v, EqualFold (TrimSpace k) (str "Host") = false ->
     EqualFold (TrimSpace k) (str "Content-Length") = false ->
     EqualFold (TrimSpace k) (str "Content-Type") = false ->
     rq_Headers next !! k = Some v <-> rq_Headers req !! k = Some v).
Proof.
  cbv zeta. unfold nextRedirectRequest. cbv zeta. rewrite !hasHeader_false.
  destruct ((code =? 303) || _) eqn:E; cbn [rq_URL rq_Method rq_Body rq_Headers]; rewrite ?hasHeader_false;
    (split; [done|]; split; [|split]).
  - intros k v. rewrite !lookup_removeHeader. tauto.
  - split_and!; try done; intros k v; rewrite !lookup_removeHeader; tauto.
  - intros k v. rewrite !lookup_removeHeader. tauto.
  - intros k v. rewrite lookup_removeHeader. tauto.
  - done.
  - intros k v. rewrite lookup_removeHeader. tauto.
Qed.

(** Header values are written as they are: a value that contains a line
    end adds a header of its own, so a request with the single header [k] is
    sent byte for byte as one with both headers. *)
Theorem header_injection (k v k2 v2 : bytes)
    (Hk : TrimSpace k = k /\ k <> [])
    (Htrim : TrimSpace (v ++ crlf ++ k2 ++ str ": " ++ v2) = v ++ crlf ++ k2 ++ str ": " ++ v2) :
  write_headers {[ k := v ++ crlf ++ k2 ++ str ": " ++ v2 ]} = header_line k v ++ header_line k2 v2.
Proof.
  unfold write_headers.
  assert (range {[ k := v ++ crlf ++ k2 ++ str ": " ++ v2 ]} = [(k, v ++ crlf ++ k2 ++ str ": " ++ v2)]) as ->.
  { apply Permutation_singleton_r. rewrite range_perm. by rewrite map_to_list_singleton. }
  cbn [fmap list_fmap concat fst snd]. destruct Hk as [-> Hne]. rewrite bool_decide_eq_false_2, Htrim by done.
  unfold header_line. rewrite app_nil_r, <- !app_assoc. done.
Qed.
End headers.

(** ** Witnesses *)

(** No compression. *)
#[export] Program Instance no_inflate : Inflate := {|
  gzip_NewReader := fail (Errorf "gzip: invalid header" []);
  inf_Read _ _ := ret ([], Some (Errorf "flate: corrupt input" []));
  inf_ReadAll _ _ _ := ret ([], Some (Errorf "flate: corrupt input" []));
|}.
Next Obligation. intros b. by eexists _, _. Qed.
Next Obligation. intros d free limit b. by eexists _, _. Qed.

Definition demo_chunks : bytes := str "5" ++ crlf ++ str "hello" ++ crlf ++ (str "0" ++ crlf ++ [] ++ crlf ++ []).
Definition demo_answer : bytes :=
  str "HTTP/1.1 200 OK" ++ crlf ++ header_block [(str "Transfer-Encoding", str "chunked")] ++ crlf ++ demo_chunks.

Lemma demo_chunks_wire : body_wire (BodyChunked 0 false) demo_chunks (str "hello").
Proof.
  split; [done|]. split; [done|]. exists []. apply (chunked_more (str "5") (str "hello") _ []).
  - apply (bool_decide_eq_true_1 _). reflexivity.
  - reflexivity.
  - discriminate.
  - apply (chunked_last (str "0") []); [apply (bool_decide_eq_true_1 _); reflexivity|reflexivity|constructor].
Qed.
Definition demo_client : HTTPClient unit := NewHTTPClient 10 None [].
Definition demo_request : HTTPRequest := mkReq (str "get") (str "http://example.com:8080") ∅ [].
Definition demo_state : hstate unit := mkH demo_world [].

Lemma Do_safe_witness :
  exists res err s', Do (H1 := simple_neturl) (H2 := demo_net demo_answer) (fun s => s) (fun _ => 511%nat) (fun _ => None)
      demo_client (Some demo_request) demo_state = (Ok (res, err), s') /\
    match res, err with
    | Some _, Some _ => False
    | None, None => hc_MaxRetries demo_client < 0 /\ is_Some (Some demo_request)
    | _, _ => hc_MaxRetries demo_client < 0 -> Some demo_request = None
    end /\
    tidy 0 (h_world s') /\
    (length (w_dialled (h_world s')) <= 0 + 1 * 6)%nat.
Proof.
  apply (Do_safe (H1 := simple_neturl) (H2 := demo_net demo_answer) (fun s => s) (fun _ => 511%nat) (fun _ => None)
    demo_client (Some demo_request) 0 demo_state).
  - exact I.
  - by split.
Defined.

Lemma Do_nil_nil_witness :
  let c := mkHTTP (P := unit) 10 None None [] 5 (-1) 0 true 0 false in
  Do (H1 := simple_neturl) (H2 := demo_net []) (fun s => s) (fun _ => 511%nat) (fun _ => None)
    c (Some demo_request) demo_state = (Ok (None, None), demo_state).
Proof. intros c. apply Do_nil_nil. reflexivity. Defined.

(** The same server behind a SOCKS5 proxy. *)
Definition demo_reply : bytes :=
  [Byte.x05; Byte.x00; Byte.x05; Byte.x00; Byte.x00; Byte.x01; Byte.x7f; Byte.x00; Byte.x00; Byte.x01; Byte.x04; Byte.x38].
Definition demo_proxied : HTTPClient unit := NewHTTPClient 10 (Some demo_picker) [].

Lemma demo_route (t : target (P := unit)) answer :
  tg_picker t = Some demo_picker -> socks5Args demo_cfg (tg_host t) (tg_port t) ->
  route (H0 := demo_net (demo_reply ++ answer)) t demo_world answer
    (socks5Transcript demo_cfg (tg_host t) (tg_port t) false).
Proof.
  intros Hp Ha. apply (route_socks5 (H0 := demo_net (demo_reply ++ answer)) t demo_world demo_cfg
    (mkConn [mkRd (demo_reply ++ answer) None] [] [] None None false false) (demo_reply ++ answer) false answer).
  - split; [reflexivity|]. rewrite Hp. by eexists _, _.
  - reflexivity.
  - exact Ha.
  - split; [reflexivity|]. repeat split; [by repeat constructor|]. cbn. by rewrite ?app_nil_r.
  - exists Byte.x01, [Byte.x7f; Byte.x00; Byte.x00; Byte.x01; Byte.x04; Byte.x38].
    split; [reflexivity|]. split; [left; split; reflexivity|done].
Qed.

Lemma Do_end_to_end_witness :
  exists s' k',
    Do (H1 := simple_neturl) (H2 := demo_net (demo_reply ++ demo_answer)) (fun s => s) (fun _ => 3%nat) (fun _ => None)
      demo_proxied (Some demo_request) demo_state =
      (Ok (Some (mkResp 200 (str "HTTP/1.1 200 OK") {[ str "Transfer-Encoding" := str "chunked" ]}
        (str "hello")), None), s') /\
    w_left (h_world s') = [] ++ [k'] /\ c_closed k' = true /\
    c_sent k' = socks5Transcript demo_cfg (str "example.com") 8080 false ++
      buildRawHTTPRequest (H1 := simple_neturl) (request_method demo_request)
      (mkSimpleURL (str "http") None (str "example.com:8080") : @URL simple_neturl) ∅ []
      defaultHTTPUserAgent true.
Proof.
  apply (Do_end_to_end (H1 := simple_neturl) (H2 := demo_net (demo_reply ++ demo_answer)) (fun s => s) (fun _ => 3%nat) (fun _ => None)
    demo_proxied demo_request demo_state (mkSimpleURL (str "http") None (str "example.com:8080"))
    8080 false (str "HTTP/1.1 200 OK") demo_chunks (str "hello") (socks5Transcript demo_cfg (str "example.com") 8080 false)
    200 [(str "Transfer-Encoding", str "chunked")] (BodyChunked 0 false)); try reflexivity.
  - split; [reflexivity|]. split; [discriminate|]. vm_compute; split; congruence.
  - apply online_plain. apply (demo_route (request_target (H1 := simple_neturl) demo_proxied
      (mkSimpleURL (str "http") None (str "example.com:8080")) 8080) demo_answer); [reflexivity|].
    vm_compute. repeat split; congruence.
  - apply (bool_decide_eq_true_1 _). reflexivity.
  - repeat constructor; try (vm_compute; congruence); apply (bool_decide_eq_false_1 _); reflexivity.
  - exact demo_chunks_wire.
Defined.

Lemma DoStream_end_to_end_witness :
  exists st s', DoStream (H1 := simple_neturl) (H2 := demo_net (demo_reply ++ demo_answer)) (fun s => s) (ctx_wait Background)
      demo_proxied (Some demo_request) demo_state = (Ok (Some st, None), s') /\
    (st_StatusCode st, st_Status st, st_Headers st) =
      (200, str "HTTP/1.1 200 OK", {[ str "Transfer-Encoding" := str "chunked" ]}) /\
    w_left (h_world s') = [] /\
    exists b' k', ReadAll (fun _ => 0%nat) None (st_Body st) = (Ok (str "hello", None), b') /\
      stream_Close demo_proxied (stream_body b' st) (h_world s') = (Ok tt, snd (abandon k' (h_world s'))) /\
      c_closed k' = true /\
      c_sent k' = socks5Transcript demo_cfg (str "example.com") 8080 false ++
        buildRawHTTPRequest (H1 := simple_neturl) (request_method demo_request)
        (mkSimpleURL (str "http") None (str "example.com:8080") : @URL simple_neturl) ∅ []
        defaultHTTPUserAgent true.
Proof.
  apply (DoStream_end_to_end (H1 := simple_neturl) (H2 := demo_net (demo_reply ++ demo_answer)) (fun s => s)
    (fun _ => 0%nat) (ctx_wait Background)
    demo_proxied demo_request demo_state (mkSimpleURL (str "http") None (str "example.com:8080"))
    8080 false (str "HTTP/1.1 200 OK") demo_chunks (str "hello") (socks5Transcript demo_cfg (str "example.com") 8080 false)
    200 [(str "Transfer-Encoding", str "chunked")] (BodyChunked 0 false)); try reflexivity.
  - split; [reflexivity|]. split; [discriminate|]. vm_compute; split; congruence.
  - apply online_plain. apply (demo_route (request_target (H1 := simple_neturl) demo_proxied
      (mkSimpleURL (str "http") None (str "example.com:8080")) 8080) demo_answer); [reflexivity|].
    vm_compute. repeat split; congruence.
  - apply (bool_decide_eq_true_1 _). reflexivity.
  - repeat constructor; try (vm_compute; congruence); apply (bool_decide_eq_false_1 _); reflexivity.
  - exact demo_chunks_wire.
Defined.

Lemma header_injection_witness :
  write_headers {[ str "X" := str "a" ++ crlf ++ str "Evil" ++ str ": " ++ str "1" ]} =
  header_line (str "X") (str "a") ++ header_line (str "Evil") (str "1").
Proof.
  apply (header_injection (str "X") (str "a") (str "Evil") (str "1")).
  - split; [reflexivity|discriminate].
  - reflexivity.
Defined.
