(* ===== verification/WsHandshake.v ===== *)
(** * WsHandshake: opening a WebSocket

    Models [NewWebSocketClient] and [handshake] of
    [network/websocket_client.go]: the upgrade request, the checks on the
    response, and the client they produce.  The pinger that a positive ping
    interval starts is a separate goroutine; [EndToEnd.open_session] adds it. *)

From S2P Require Import Prelude Bytes GoStrings Encoding NetAddr Conn Bufio Proxy HttpConnect Tcp Dial.
From S2P Require Import Http1 HttpClient WsFrame WsClient.

Local Open Scope Z_scope.

Definition websocketGUID : bytes := str "258EAFA5-E914-47DA-95CA-C5AB0DC85B11".

Record WebSocketConfig (P : Type) := mkWSConf {
  wc_Timeout : Z;
  wc_Picker : option (@picker P);
  wc_LocalBind : option LocalBindTCP;
  wc_Headers : headers;
  wc_UserAgent : bytes;
  wc_Compress : bool;
  wc_Protocols : list bytes;
  wc_PingInterval : Z;
  wc_PingPayload : bytes;
  wc_MaxPayloadSize : Z;
  wc_ReadTimeout : Z;
  wc_DisableAutoPong : bool;
}.
Arguments mkWSConf {P}.
Arguments wc_Timeout {P}.
Arguments wc_Picker {P}.
Arguments wc_LocalBind {P}.
Arguments wc_Headers {P}.
Arguments wc_UserAgent {P}.
Arguments wc_Compress {P}.
Arguments wc_Protocols {P}.
Arguments wc_PingInterval {P}.
Arguments wc_PingPayload {P}.
Arguments wc_MaxPayloadSize {P}.
Arguments wc_ReadTimeout {P}.
Arguments wc_DisableAutoPong {P}.

Definition computeWebSocketAccept (key : bytes) : bytes := base64 (sha1 (key ++ websocketGUID)).

(** The example of RFC 6455. *)
Example accept_rfc6455 :
  computeWebSocketAccept (str "dGhlIHNhbXBsZSBub25jZQ==") = str "s3pPLMBiTxaQ9kYGzzhZRbK+xOo=".
Proof. vm_compute. reflexivity. Qed.

Section handshake.
Context `{Unicode} `{MapOrder} `{NetURL} `{Rand} `{Net} {P : Type}.
Implicit Types conf : WebSocketConfig P.

Definition defaultWebSocketPort (scheme : bytes) : Z :=
  if bool_decide (ToLower scheme = str "wss") then 443 else 80.

Definition generateWebSocketKey : GoM WebSocketClient bytes :=
  do rnd <- draw 16;
  match rnd with
  | inl b => ret (base64 b)
  | inr err => fail err
  end.

(** The headers the client adds unless the caller set them. *)
Definition upgrade_headers (hostHeader key : bytes) (conf : WebSocketConfig P) : list (bytes * bytes) :=
  [(str "Host", hostHeader); (str "Upgrade", str "websocket"); (str "Connection", str "Upgrade");
   (str "Sec-WebSocket-Key", key); (str "Sec-WebSocket-Version", str "13");
   (str "User-Agent", if bool_decide (wc_UserAgent conf = []) then defaultHTTPUserAgent else wc_UserAgent conf)] ++
  (if wc_Compress conf
   then [(str "Sec-WebSocket-Extensions", str "permessage-deflate; client_max_window_bits")] else []) ++
  match wc_Protocols conf with
  | [] => []
  | ps => [(str "Sec-WebSocket-Protocol", Join ps (str ", "))]
  end.

Definition writeWSHeaderIfMissing (h : headers) (key value : bytes) : bytes :=
  if hasHeader h key then [] else key ++ str ": " ++ value ++ crlf.

Definition upgrade_request (u : URL) (key : bytes) (conf : WebSocketConfig P) : bytes :=
  str "GET " ++ request_path u ++ str " HTTP/1.1" ++ crlf ++
  concat ((fun kv => writeWSHeaderIfMissing (wc_Headers conf) (fst kv) (snd kv))
    <$> upgrade_headers (host_header u) key conf) ++
  write_headers (wc_Headers conf) ++ crlf.

(** An operation of the client's buffered reader. *)
Definition on_reader {A} (m : GoM bufio A) : GoM WebSocketClient A := fun c =>
  match t_conn (ws_tcp c), ws_reader c with
  | Some k, Some (buf, err) =>
      let '(r, b) := m (mkBufio buf err k) in
      (r, ws_set_reader (Some (b_buf b, b_err b)) (ws_set_tcp (tcp_conn (b_conn b) (ws_tcp c)) c))
  | _, _ => (Panic, c)
  end.

(** The checks on the response to the request with this key. *)
Definition check_upgrade (key : bytes) (h : headers) : option error :=
  let upgrade := getHeader h (str "Upgrade") in
  let connection := ToLower (getHeader h (str "Connection")) in
  if negb (EqualFold upgrade (str "websocket"))
  then Some (Errorf "invalid websocket Upgrade header: %q" [AQuote upgrade])
  else if negb (Contains connection (str "upgrade"))
  then Some (Errorf "invalid websocket Connection header: %q" [AQuote connection])
  else if bool_decide (TrimSpace (getHeader h (str "Sec-WebSocket-Accept")) = computeWebSocketAccept key)
  then None
  else Some (Errorf "invalid websocket accept key" []).

Definition read_upgrade (key : bytes) : GoM WebSocketClient unit :=
  do statusLine <- on_reader readHTTPLine;
  match parseHTTPStatusCode statusLine with
  | inr err => fail err
  | inl statusCode =>
      if negb (statusCode =? 101) then
        do h <- catch (on_reader readHTTPHeaders) (fun _ => ret ∅);
        fail (Errorf "websocket upgrade failed: status=%d location=%q"
                [AInt statusCode; AQuote (getHeader h (str "Location"))])
      else
        do h <- on_reader readHTTPHeaders;
        match check_upgrade key h with
        | Some err => fail err
        | None => ret tt
        end
  end.

Definition handshake (u : URL) (conf : WebSocketConfig P) : GoM WebSocketClient unit :=
  do key <- generateWebSocketKey;
  on_tcp (WriteFull (upgrade_request u key conf)) ;;
  do c <- get;
  let rest := modify (ws_set_reader (Some ([], None))) ;; read_upgrade key in
  if 0 <? ws_timeout c
  then on_wsconn (SetReadDeadline (Some (ws_timeout c))) ;;
       deferred (on_wsconn (SetReadDeadline None)) rest
  else rest.

(** The client before its handshake. *)
Definition new_client (tcp : TCPClient) (conf : WebSocketConfig P) (draws : nat) : WebSocketClient :=
  let readTimeout := if (wc_ReadTimeout conf =? 0) && (0 <? wc_PingInterval conf)
                     then int64 (wc_PingInterval conf * 3) else wc_ReadTimeout conf in
  let maxPayload := if wc_MaxPayloadSize conf <=? 0 then 16 * 1024 * 1024 else wc_MaxPayloadSize conf in
  mkWS tcp None (wc_Timeout conf) readTimeout false maxPayload (wc_DisableAutoPong conf) draws.

(** [draws] is the number of random draws made before. *)
Definition NewWebSocketClient (rawURL : bytes) (conf : WebSocketConfig P) (draws : nat)
    : GoM (world P) WebSocketClient :=
  match url_Parse (TrimSpace rawURL) with
  | inr err => fail err
  | inl u =>
      let isTLS := bool_decide (u_Scheme u = str "wss") in
      if negb (bool_decide (u_Scheme u = str "ws")) && negb isTLS
      then fail (Errorf "unsupported websocket scheme: %s" [AStr (u_Scheme u)])
      else if bool_decide (u_Hostname u = []) then fail (Errorf "empty websocket host" [])
      else
        let port := if bool_decide (u_Port u = []) then Some (defaultWebSocketPort (u_Scheme u))
                    else Atoi (u_Port u) in
        match port with
        | None => fail (Errorf "invalid websocket port: %s" [AStr (u_Port u)])
        | Some port =>
            do tcp <- NewTCPClientAutoTLS (u_Hostname u) port (wc_Timeout conf) (wc_Picker conf) isTLS
                        [wc_LocalBind conf];
            match handshake u conf (new_client tcp conf draws) with
            | (Ok _, c) => ret c
            | (Err err, c) =>
                match t_conn (snd (TCP_Close (ws_tcp c))) with
                | Some k => abandon k ;; fail err
                | None => fail err
                end
            | (Panic, _) => panic
            | (Diverge, _) => fun w => (Diverge, w)
            end
        end
  end.
End handshake.

(** ** The handshake with a server that answers *)

Section correct.
Context `{Unicode} `{MapOrder} `{NetURL} `{Rand} `{Net} {P : Type}.
Implicit Types conf : WebSocketConfig P.

Lemma on_reader_ok {A} (m : GoM bufio A) c k buf err a s :
  t_conn (ws_tcp c) = Some k -> ws_reader c = Some (buf, err) -> m (mkBufio buf err k) = (Ok a, s) ->
  on_reader m c = (Ok a, ws_set_reader (Some (b_buf s, b_err s)) (ws_set_tcp (tcp_conn (b_conn s) (ws_tcp c)) c)).
Proof. intros Hk Hr E. unfold on_reader. by rewrite Hk, Hr, E. Qed.

(** A read that leaves the write side alone keeps the client live. *)
Lemma on_reader_live {A} (m : GoM bufio A) cl c inp rest sent a :
  (forall s, br_pending s inp -> exists s', m s = (Ok a, s') /\ br_pending s' rest /\
     wside (b_conn s') = wside (b_conn s)) ->
  ws_live cl c inp sent -> is_Some (ws_reader c) ->
  exists c', on_reader m c = (Ok a, c') /\ ws_live cl c' rest sent /\ is_Some (ws_reader c') /\
    ws_conf c' = ws_conf c.
Proof.
  intros Hm (k & Hk & Ht & Hcl & Hwr & Hs & Hc & Hr) [[buf err] Er]. rewrite Er in Hr.
  destruct (Hm _ Hr) as (s' & E & Hp & Hw). rewrite (on_reader_ok _ _ _ _ _ _ _ Hk Er E).
  cbn [b_conn] in Hw. apply wside_inv in Hw as (Hw1 & Hw2 & Hw3).
  eexists. split; [reflexivity|]. split; [|split; [by eexists|done]].
  exists (b_conn s'). cbn. destruct s'. split_and!; try done; congruence.
Qed.

(** *** What the answer has to be

    The headers of an answer, as they are read. *)
Definition answer_headers (hs : list (bytes * bytes)) : headers :=
  foldl (fun h kv => add_header h (fst kv) (snd kv)) ∅ hs.

(** The server switches to the protocol and proves that it has read the key:
    RFC 6455, section 4.1. *)
Definition switches (key : bytes) (hs : list (bytes * bytes)) : Prop :=
  EqualFold (getHeader (answer_headers hs) (str "Upgrade")) (str "websocket") = true /\
  Contains (ToLower (getHeader (answer_headers hs) (str "Connection"))) (str "upgrade") = true /\
  TrimSpace (getHeader (answer_headers hs) (str "Sec-WebSocket-Accept")) =
    base64 (sha1 (key ++ str "258EAFA5-E914-47DA-95CA-C5AB0DC85B11")).

Lemma check_upgrade_spec key hs : check_upgrade key (answer_headers hs) = None <-> switches key hs.
Proof.
  unfold check_upgrade, switches. cbv zeta.
  destruct (EqualFold (getHeader (answer_headers hs) (str "Upgrade")) (str "websocket")); cbn [negb]; [|naive_solver].
  destruct (Contains (ToLower (getHeader (answer_headers hs) (str "Connection"))) (str "upgrade")); cbn [negb]; [|naive_solver].
  unfold computeWebSocketAccept, websocketGUID. case_bool_decide; naive_solver.
Qed.

(** What the client makes of a complete answer, and what it leaves unread. *)
Definition upgrade_result (key statusLine : bytes) (hs : list (bytes * bytes)) : outcome unit :=
  match parseHTTPStatusCode statusLine with
  | inr err => Err err
  | inl code =>
      if negb (code =? 101)
      then Err (Errorf "websocket upgrade failed: status=%d location=%q"
             [AInt code; AQuote (getHeader (answer_headers hs) (str "Location"))])
      else match check_upgrade key (answer_headers hs) with None => Ok tt | Some err => Err err end
  end.
Definition upgrade_rest (statusLine : bytes) (hs : list (bytes * bytes)) (rest : bytes) : bytes :=
  match parseHTTPStatusCode statusLine with inr _ => header_block hs ++ crlf ++ rest | inl _ => rest end.

Lemma upgrade_result_spec key statusLine hs :
  returned (upgrade_result key statusLine hs) /\
  (upgrade_result key statusLine hs = Ok tt <-> parseHTTPStatusCode statusLine = inl 101 /\ switches key hs).
Proof.
  unfold upgrade_result. destruct (parseHTTPStatusCode statusLine) as [code|err]; [|naive_solver].
  destruct (Z.eqb_spec code 101) as [->|Hne]; cbn [negb]; [|naive_solver]. rewrite <- check_upgrade_spec.
  destruct (check_upgrade _ _); naive_solver.
Qed.

Lemma read_upgrade_live cl c key statusLine hs rest sent :
  ws_live cl c (statusLine ++ crlf ++ header_block hs ++ crlf ++ rest) sent -> is_Some (ws_reader c) ->
  line_ok statusLine -> Forall header_ok hs ->
  exists c', read_upgrade key c = (upgrade_result key statusLine hs, c') /\
    ws_live cl c' (upgrade_rest statusLine hs rest) sent /\ ws_conf c' = ws_conf c.
Proof.
  intros Hl Hr Hline Hhs. unfold read_upgrade, upgrade_result, upgrade_rest.
  destruct (on_reader_live readHTTPLine cl c _ _ sent statusLine
    (fun s => readHTTPLine_pending s _ _ Hline) Hl Hr) as (c1 & E1 & Hl1 & Hr1 & Hc1).
  rewrite (bind_Ok _ _ _ _ _ E1). destruct (parseHTTPStatusCode statusLine) as [code|err]; [|by exists c1].
  destruct (on_reader_live readHTTPHeaders cl c1 _ _ sent _
    (fun s => readHTTPHeaders_pending hs rest s Hhs) Hl1 Hr1) as (c2 & E2 & Hl2 & Hr2 & Hc2).
  exists c2. split; [|split; [done|congruence]]. destruct (negb (code =? 101)).
  - unfold catch, bind. by rewrite E2.
  - rewrite (bind_Ok _ _ _ _ _ E2). fold (answer_headers hs). by destruct (check_upgrade _ _).
Qed.

(** A client whose connection is ready, whatever its reader. *)
Definition ready_client (cl : bool) (c : WebSocketClient) (inp sent : bytes) : Prop :=
  exists k, t_conn (ws_tcp c) = Some k /\ t_isClosed (ws_tcp c) = false /\ ws_isClosed c = cl /\ ready k inp sent.

Lemma ready_client_reader cl c inp sent :
  ready_client cl c inp sent -> ws_live cl (ws_set_reader (Some ([], None)) c) inp sent.
Proof.
  intros (k & Hk & Ht & Hcl & (Hc & Hwr & Hcut & Hf & Hs)). exists k. by repeat split.
Qed.

Lemma ready_client_deadline d cl c inp sent :
  ready_client cl c inp sent ->
  exists c', on_wsconn (SetReadDeadline d) c = (Ok tt, c') /\ ready_client cl c' inp sent /\ ws_conf c' = ws_conf c.
Proof.
  intros (k & Hk & Ht & Hcl & (Hc & Hwr & Hcut & Hf & Hs)). unfold on_wsconn, on_tcp, with_conn.
  rewrite Hk. eexists. split; [reflexivity|]. split; [|done]. eexists. split; [reflexivity|]. by repeat split.
Qed.

Lemma ready_client_write cl c inp sent b :
  ready_client cl c inp sent ->
  exists c', on_tcp (WriteFull b) c = (Ok tt, c') /\ ready_client cl c' inp (sent ++ b) /\ ws_conf c' = ws_conf c.
Proof.
  intros (k & Hk & Ht & Hcl & (Hc & Hwr & Hcut & Hf & Hs)). unfold on_tcp.
  destruct (WriteFull_open b _ k Hk Ht Hc Hwr) as (k1 & -> & Hi1 & Hw1 & Hs1 & Hc1).
  eexists. split; [reflexivity|]. split; [|done]. exists k1. rewrite Hs in Hs1.
  repeat split; rewrite ?Hi1; done.
Qed.

(** The handshake on a connection over which [sent] has been said before. *)
Lemma handshake_live (u : URL) (conf : WebSocketConfig P) (c : WebSocketClient) (k : conn)
    (statusLine rest rnd sent : bytes) (hs : list (bytes * bytes)) :
  t_conn (ws_tcp c) = Some k -> t_isClosed (ws_tcp c) = false ->
  ready k (statusLine ++ crlf ++ header_block hs ++ crlf ++ rest) sent ->
  rand_Read (ws_draws c) 16 = inl rnd ->
  line_ok statusLine -> Forall header_ok hs ->
  exists c', handshake u conf c = (upgrade_result (base64 rnd) statusLine hs, c') /\
    ws_live (ws_isClosed c) c' (upgrade_rest statusLine hs rest) (sent ++ upgrade_request u (base64 rnd) conf) /\
    ws_conf c' = ws_conf c.
Proof.
  intros Hk Ht Hserver Hrnd Hline Hhs.
  assert (ready_client (ws_isClosed c) (ws_drawn c) (statusLine ++ crlf ++ header_block hs ++ crlf ++ rest) sent)
    as Hl0 by (by exists k).
  unfold handshake. erewrite bind_Ok; [|by unfold generateWebSocketKey, draw, get, modify, ret, bind; rewrite Hrnd].
  destruct (ready_client_write _ _ _ _ (upgrade_request u (base64 rnd) conf) Hl0) as (c1 & E1 & Hl1 & Hc1).
  rewrite (bind_Ok _ _ _ _ _ E1). erewrite bind_Ok by reflexivity. cbv zeta.
  destruct (0 <? ws_timeout c1).
  - destruct (ready_client_deadline (Some (ws_timeout c1)) _ _ _ _ Hl1) as (c2 & E2 & Hl2 & Hc2).
    rewrite (bind_Ok _ _ _ _ _ E2).
    destruct (read_upgrade_live _ _ (base64 rnd) statusLine hs rest _ (ready_client_reader _ _ _ _ Hl2)
      (ex_intro _ _ eq_refl) Hline Hhs) as (c3 & E3 & Hl3 & Hc3).
    destruct (deadline_live _ c3 _ _ _ (SetReadDeadline_ok None) Hl3) as (c4 & E4 & Hl4 & Hc4 & _).
    exists c4. split; [|split; [done|exact (eq_trans Hc4 (eq_trans Hc3 (eq_trans Hc2 Hc1)))]].
    unfold deferred. erewrite bind_Ok by reflexivity. by rewrite E3, E4.
  - destruct (read_upgrade_live _ _ (base64 rnd) statusLine hs rest _ (ready_client_reader _ _ _ _ Hl1)
      (ex_intro _ _ eq_refl) Hline Hhs) as (c3 & E3 & Hl3 & Hc3).
    exists c3. split; [|split; [done|exact (eq_trans Hc3 Hc1)]]. by erewrite bind_Ok by reflexivity.
Qed.

(** The client sends the fields of RFC 6455 that the caller's headers do not
    have already, and then the caller's headers. *)
Definition opening_request (u : URL) (key : bytes) (conf : WebSocketConfig P) : bytes :=
  str "GET " ++ request_path u ++ str " HTTP/1.1" ++ crlf ++
  header_block (filter (fun kv => hasHeader (wc_Headers conf) (fst kv) = false)
    ([(str "Host", host_header u); (str "Upgrade", str "websocket"); (str "Connection", str "Upgrade");
      (str "Sec-WebSocket-Key", key); (str "Sec-WebSocket-Version", str "13");
      (str "User-Agent", if bool_decide (wc_UserAgent conf = []) then defaultHTTPUserAgent else wc_UserAgent conf)] ++
     (if wc_Compress conf
      then [(str "Sec-WebSocket-Extensions", str "permessage-deflate; client_max_window_bits")] else []) ++
     (if bool_decide (wc_Protocols conf = []) then []
      else [(str "Sec-WebSocket-Protocol", Join (wc_Protocols conf) (str ", "))]))) ++
  write_headers (wc_Headers conf) ++ crlf.

Lemma missing_block h fields :
  concat ((fun kv => writeWSHeaderIfMissing h (fst kv) (snd kv)) <$> fields) =
  header_block (filter (fun kv => hasHeader h (fst kv) = false) fields).
Proof.
  induction fields as [|kv fields IH]; [done|]. rewrite filter_cons. cbn [fmap list_fmap concat]. rewrite IH.
  unfold writeWSHeaderIfMissing. destruct (hasHeader h (fst kv)) eqn:E.
  - by rewrite decide_False.
  - by rewrite decide_True.
Qed.

Lemma upgrade_request_text u key conf : upgrade_request u key conf = opening_request u key conf.
Proof.
  unfold upgrade_request, opening_request. rewrite missing_block. unfold upgrade_headers.
  by destruct (wc_Protocols conf).
Qed.

End correct.

(** ** Opening a client returns and leaks nothing *)

Section safety.
Context `{Unicode} `{MapOrder} `{NetURL} `{Rand} `{Net} {P : Type}.
Implicit Types conf : WebSocketConfig P.

(** [reads m]: from a client with a connection and a reader, [m] returns, keeps
    both and does not close the connection or mark it closed. *)
Definition usable (c : WebSocketClient) : Prop :=
  is_Some (t_conn (ws_tcp c)) /\ is_Some (ws_reader c) /\ t_isClosed (ws_tcp c) = false.

Lemma on_reader_usable {A} (m : GoM bufio A) c :
  (forall s, exists r s', m s = (r, s') /\ returned r) -> usable c ->
  exists r c', on_reader m c = (r, c') /\ returned r /\ usable c'.
Proof.
  intros Hm ([k Hk] & [[buf err] Hr] & Ht). unfold on_reader. rewrite Hk, Hr.
  destruct (Hm (mkBufio buf err k)) as (r & s' & -> & Hret).
  eexists _, _. split; [reflexivity|]. split; [done|]. by split_and!; [eexists|eexists|].
Qed.

Lemma readHTTPLine_returned s : exists r s', readHTTPLine s = (r, s') /\ returned r.
Proof. destruct (readHTTPLine_spec s) as (r & s' & E & _ & Hr). exists r, s'. split; [done|]. by destruct r. Qed.

Lemma readHTTPHeaders_returned s : exists r s', readHTTPHeaders s = (r, s') /\ returned r.
Proof. destruct (readHTTPHeaders_returns s) as (r & s' & E & _ & Hr). eauto. Qed.

Lemma read_upgrade_usable key c :
  usable c -> exists r c', read_upgrade key c = (r, c') /\ returned r /\ usable c'.
Proof.
  intros Hc. unfold read_upgrade, bind.
  destruct (on_reader_usable readHTTPLine c readHTTPLine_returned Hc) as (r1 & c1 & -> & Hr1 & Hc1).
  destruct r1 as [line|e| |]; try done; [|by eexists _, _].
  destruct (parseHTTPStatusCode line) as [code|e]; [|by eexists _, _].
  destruct (on_reader_usable readHTTPHeaders c1 readHTTPHeaders_returned Hc1) as (r2 & c2 & E2 & Hr2 & Hc2).
  case_if; unfold catch; rewrite E2; destruct r2 as [h|e| |]; try done; try by eexists _, _.
  destruct (check_upgrade key h); by eexists _, _.
Qed.

Lemma deadline_usable c d :
  is_Some (t_conn (ws_tcp c)) -> exists k, on_wsconn (SetReadDeadline d) c = (Ok tt, ws_set_tcp (tcp_conn k (ws_tcp c)) c).
Proof. intros [k Hk]. unfold on_wsconn, on_tcp, with_conn. rewrite Hk. by eexists. Qed.

(** The handshake returns.  The client keeps its connection; when the client
    is marked closed the handshake failed and the connection is closed, or the
    request could not be written. *)
Lemma handshake_returns u conf c :
  fresh_client (ws_tcp c) ->
  exists r c', handshake u conf c = (r, c') /\ returned r /\
    (usable c' \/ (exists e, r = Err e) /\ exists k, t_conn (ws_tcp c') = Some k /\
      (t_isClosed (ws_tcp c') = false \/ spent k)).
Proof.
  intros (Ht & k & Hk). unfold handshake, generateWebSocketKey, draw, get, modify, ret, bind at 2, bind at 2, bind at 2.
  unfold bind at 1. cbv beta iota. destruct (rand_Read (ws_draws c) 16) as [rnd|e].
  2: { eexists _, _. split; [reflexivity|]. split; [done|]. right. split; [by eexists|]. exists k. by split; [|left]. }
  cbv beta iota. unfold bind at 1, on_tcp at 1. cbn [ws_tcp ws_drawn].
  destruct (WriteFull_spent (upgrade_request u (base64 rnd) conf) _ k Hk Ht) as (r1 & t1 & k1 & -> & Hk1 & Hr1).
  destruct r1 as [[]|e| |]; try done.
  2: { eexists _, _. split; [reflexivity|]. split; [done|]. right. split; [by eexists|]. by exists k1. }
  set (c1 := ws_set_tcp _ _). unfold bind at 1. cbv beta iota zeta.
  destruct (0 <? ws_timeout c1).
  - destruct (deadline_usable c1 (Some (ws_timeout c1))) as [k2 E2]; [by eexists|].
    rewrite (bind_Ok _ _ _ _ _ E2). unfold deferred, bind at 1. cbv beta iota.
    set (c3 := ws_set_reader _ _).
    destruct (read_upgrade_usable (base64 rnd) c3) as (r & c4 & -> & Hr & Hu4); [by split_and!; [eexists|eexists|]|].
    destruct Hu4 as (Hk4 & Hr4 & Ht4). destruct (deadline_usable c4 None Hk4) as [k5 E5]. rewrite E5.
    eexists _, _. split; [reflexivity|]. split; [done|]. left. by split_and!; [eexists| |].
  - unfold bind at 1. cbv beta iota.
    destruct (read_upgrade_usable (base64 rnd) (ws_set_reader (Some ([], None)) c1)) as (r & c4 & -> & Hr & Hu4);
      [by split_and!; [eexists|eexists|]|].
    eexists _, _. split; [reflexivity|]. split; [done|]. by left.
Qed.

(** No step of the handshake changes the settings. *)
Definition keeps_conf {A} (m : GoM WebSocketClient A) : Prop := forall c, ws_conf (snd (m c)) = ws_conf c.

Lemma keeps_ret {A} (a : A) : keeps_conf (ret a).
Proof. done. Qed.
Lemma keeps_fail {A} e : keeps_conf (fail e : GoM WebSocketClient A).
Proof. done. Qed.
Lemma keeps_get : keeps_conf get.
Proof. done. Qed.
Lemma keeps_bind {A B} (m : GoM WebSocketClient A) (k : A -> GoM WebSocketClient B) :
  keeps_conf m -> (forall a, keeps_conf (k a)) -> keeps_conf (bind m k).
Proof.
  intros Hm Hk c. specialize (Hm c). unfold bind. destruct (m c) as [[a|e| |] c1]; try done.
  rewrite <- Hm. apply Hk.
Qed.
Lemma keeps_catch {A} (m : GoM WebSocketClient A) h : keeps_conf m -> (forall e, keeps_conf (h e)) -> keeps_conf (catch m h).
Proof.
  intros Hm Hh c. specialize (Hm c). unfold catch. destruct (m c) as [[a|e| |] c1]; try done.
  rewrite <- Hm. apply Hh.
Qed.
Lemma keeps_deferred {A} d (m : GoM WebSocketClient A) : keeps_conf d -> keeps_conf m -> keeps_conf (deferred d m).
Proof.
  intros Hd Hm c. specialize (Hm c). unfold deferred. destruct (m c) as [r c1]. cbn in *. rewrite Hd. done.
Qed.
Lemma keeps_tcp {A} (m : GoM TCPClient A) : keeps_conf (on_tcp m).
Proof. intros c. unfold on_tcp. by destruct (m (ws_tcp c)). Qed.
Lemma keeps_wsconn {A} (m : GoM conn A) : keeps_conf (on_wsconn m).
Proof. intros c. unfold on_wsconn. destruct (t_conn (ws_tcp c)); [apply keeps_tcp|done]. Qed.
Lemma keeps_reader {A} (m : GoM bufio A) : keeps_conf (on_reader m).
Proof.
  intros c. unfold on_reader. destruct (t_conn (ws_tcp c)), (ws_reader c) as [[buf err]|]; try done.
  by destruct (m _).
Qed.

#[local] Hint Resolve keeps_ret keeps_fail keeps_get keeps_bind keeps_catch keeps_deferred keeps_tcp keeps_wsconn keeps_reader : go.

Lemma handshake_conf u conf : keeps_conf (handshake u conf).
Proof.
  assert (forall key, keeps_conf (read_upgrade key)) as Hread.
  { intros key. unfold read_upgrade. apply keeps_bind; [auto with go|]. intros line.
    destruct (parseHTTPStatusCode line) as [code|e]; [|auto with go].
    case_if; (apply keeps_bind; [auto with go|]); intros h; [auto with go|].
    destruct (check_upgrade key h); auto with go. }
  unfold handshake. apply keeps_bind.
  { unfold generateWebSocketKey, draw. apply keeps_bind; [by intros c|]. intros [b|e]; auto with go. }
  intros key. apply keeps_bind; [auto with go|]. intros _. apply keeps_bind; [auto with go|]. intros c.
  assert (keeps_conf (modify (ws_set_reader (Some ([], None))) ;; read_upgrade key)) as Hrest.
  { apply keeps_bind; [by intros c0|]. auto. }
  case_if; auto with go.
Qed.

(** What opening promises of a client: it can be read from, and its limit is
    the configured one. *)
Definition opened (conf : WebSocketConfig P) (c : WebSocketClient) : Prop :=
  usable c /\ ws_maxPayloadSize c = if wc_MaxPayloadSize conf <=? 0 then 16 * 1024 * 1024 else wc_MaxPayloadSize conf.

Lemma safely_NewWebSocketClient rawURL conf draws :
  picker_returns (wc_Picker conf) ->
  safely 1 1 (opened conf) (NewWebSocketClient rawURL conf draws).
Proof.
  intros Hpick. unfold NewWebSocketClient. cbv zeta.
  destruct (url_Parse _) as [u|e]; [|apply safely_fail].
  do 2 (case_if; [apply safely_fail|]). destruct (if bool_decide (u_Port u = []) then _ else _) as [port|]; [|apply safely_fail].
  intros n w Hw. unfold bind at 1.
  destruct (safely_NewTCPClientAutoTLS (u_Hostname u) port (wc_Timeout conf) (wc_Picker conf)
    (bool_decide (u_Scheme u = str "wss")) [wc_LocalBind conf] Hpick n w Hw) as (r & w1 & -> & Hl & Hr).
  destruct r as [t|e| |]; try done; [|by eexists _, _]. destruct Hr as [Hw1 Ht].
  pose proof (handshake_conf u conf (new_client t conf draws)) as Hconf.
  destruct (handshake_returns u conf (new_client t conf draws) Ht) as (r & c & Eh & Hret & Hc).
  rewrite Eh in Hconf |- *. cbn [snd] in Hconf. injection Hconf as _ _ Hmax _. destruct r as [[]|e| |]; try done.
  { eexists _, _. split; [reflexivity|]. destruct Hc as [Hc|[[e He] _]]; [by split_and!|done]. }
  assert (exists k, t_conn (ws_tcp c) = Some k /\ (t_isClosed (ws_tcp c) = false \/ spent k)) as (k & Hk & Hcl).
  { destruct Hc as [([k Hk] & _ & Htc)|[_ Hc]]; [|done]. exists k. by split; [|left]. }
  destruct (TCP_Close_spent _ k Hk Hcl) as (k' & -> & Hk').
  eexists _, _. split; [reflexivity|]. split; [done|]. by apply abandon_spent.
Qed.

(** C24: opening a WebSocket returns for every server, every proxy and every
    network, writes that fail among them, when the picker returns: it dials at
    most once and gives a client with an open reader, or an error after which
    the connection has been closed or a write on it has failed. *)
Theorem NewWebSocketClient_safe (rawURL : bytes) (conf : WebSocketConfig P) (draws n : nat) (w : world P)
    (Hpick : picker_returns (wc_Picker conf)) (Hw : tidy n w) :
  exists r w', NewWebSocketClient rawURL conf draws w = (r, w') /\
    (length (w_dialled w') <= length (w_dialled w) + 1)%nat /\
    match r with
    | Ok c => tidy (1 + n) w' /\ usable c
    | Err _ => tidy n w'
    | _ => False
    end.
Proof.
  destruct (safely_NewWebSocketClient rawURL conf draws Hpick n w Hw) as (r & w' & E & Hd & Hr).
  exists r, w'. split; [done|]. split; [done|]. destruct r; try done. by destruct Hr as [? [? _]].
Qed.
End safety.

(** ** Witnesses *)

Definition demo_upgrade : list (bytes * bytes) :=
  [(str "Upgrade", str "WebSocket"); (str "Connection", str "keep-alive, Upgrade");
   (str "Sec-WebSocket-Accept", str "ICX+Yqv66kxgM0FcWaLWlFLwTAI=")].
Definition demo_101 : bytes := str "HTTP/1.1 101 Switching Protocols" ++ crlf ++ header_block demo_upgrade ++ crlf ++ str "frames".
Definition demo_conf : WebSocketConfig unit := mkWSConf 5 None None ∅ [] false [str "chat"] 0 [] 0 0 false.


Lemma NewWebSocketClient_safe_witness :
  exists r w', NewWebSocketClient (H1 := simple_neturl) (H3 := demo_net demo_101) (str "ws://example.com")
      demo_conf 0 demo_world = (r, w') /\
    (length (w_dialled w') <= 0 + 1)%nat /\
    match r with
    | Ok c => tidy (1 + 0) w' /\ usable c
    | Err _ => tidy 0 w'
    | _ => False
    end.
Proof.
  apply (NewWebSocketClient_safe (H1 := simple_neturl) (H3 := demo_net demo_101) (str "ws://example.com")
    demo_conf 0 0 demo_world).
  - done.
  - by split.
Defined.
