(* ===== verification/Aes.v ===== *)
(** * Aes: the block cipher of the storage

    [crypto/aes] as FIPS 197 defines it and the CBC mode of [crypto/cipher],
    executable, with the published test vectors and the proof that decryption
    inverts encryption for every key. *)

From Stdlib Require Import Btauto.
From S2P Require Import Prelude Bytes.

(** ** Bytes as polynomials over GF(2) *)

Definition bits8 : Type := bool * (bool * (bool * (bool * (bool * (bool * (bool * bool)))))).

Definition map2_bits (f : bool -> bool -> bool) (x y : bits8) : bits8 :=
  let '(x0, (x1, (x2, (x3, (x4, (x5, (x6, x7))))))) := x in
  let '(y0, (y1, (y2, (y3, (y4, (y5, (y6, y7))))))) := y in
  (f x0 y0, (f x1 y1, (f x2 y2, (f x3 y3, (f x4 y4, (f x5 y5, (f x6 y6, f x7 y7))))))).

Definition bxor (a b : byte) : byte := Byte.of_bits (map2_bits xorb (Byte.to_bits a) (Byte.to_bits b)).

(** Multiplication by x modulo x^8 + x^4 + x^3 + x + 1. *)
Definition xtime (a : byte) : byte :=
  let '(b0, (b1, (b2, (b3, (b4, (b5, (b6, b7))))))) := Byte.to_bits a in
  Byte.of_bits (b7, (xorb b0 b7, (b1, (xorb b2 b7, (xorb b3 b7, (b4, (b5, b6))))))).

(** Multiplication by a constant, its bits lowest first. *)
Fixpoint gmul (c : list bool) (a : byte) : byte :=
  match c with
  | [] => Byte.x00
  | b :: c => bxor (if b then a else Byte.x00) (gmul c (xtime a))
  end.

Definition byte_bits (a : byte) : list bool :=
  let '(b0, (b1, (b2, (b3, (b4, (b5, (b6, b7))))))) := Byte.to_bits a in [b0; b1; b2; b3; b4; b5; b6; b7].

(** ** The S-box *)

Definition all_bytes : list byte := z2b ∘ Z.of_nat <$> seq 0 256.

(** The inverse in the field; zero for zero. *)
Definition ginv (a : byte) : byte :=
  default Byte.x00 (list_find (fun b => gmul (byte_bits a) b = Byte.x01) all_bytes ≫= fun '(_, b) => Some b).

Definition affine (a : byte) : byte :=
  let '(b0, (b1, (b2, (b3, (b4, (b5, (b6, b7))))))) := Byte.to_bits a in
  let x5 (a b c d e : bool) := xorb a (xorb b (xorb c (xorb d e))) in
  bxor Byte.x63 (Byte.of_bits
    (x5 b0 b4 b5 b6 b7, (x5 b1 b5 b6 b7 b0, (x5 b2 b6 b7 b0 b1, (x5 b3 b7 b0 b1 b2,
    (x5 b4 b0 b1 b2 b3, (x5 b5 b1 b2 b3 b4, (x5 b6 b2 b3 b4 b5, x5 b7 b3 b4 b5 b6)))))))).

Definition sbox : list byte := Eval vm_compute in (fun a => affine (ginv a)) <$> all_bytes.
Definition inv_sbox : list byte := Eval vm_compute in
  (fun a => default Byte.x00 (list_find (eq a) sbox ≫= fun '(i, _) => Some (z2b (Z.of_nat i)))) <$> all_bytes.

Definition sub_byte (a : byte) : byte := nth (Z.to_nat (b2z a)) sbox Byte.x00.
Definition inv_sub_byte (a : byte) : byte := nth (Z.to_nat (b2z a)) inv_sbox Byte.x00.

(** ** Rounds *)

Definition xor_bytes (a b : bytes) : bytes := zip_with bxor a b.

Definition mix_column (a b c d : byte) : bytes :=
  let m2 := xtime in let m3 x := bxor (xtime x) x in
  let x4 p q r s := bxor p (bxor q (bxor r s)) in
  [x4 (m2 a) (m3 b) c d; x4 a (m2 b) (m3 c) d; x4 a b (m2 c) (m3 d); x4 (m3 a) b c (m2 d)].

Definition mul9 := gmul [true; false; false; true].
Definition mul11 := gmul [true; true; false; true].
Definition mul13 := gmul [true; false; true; true].
Definition mul14 := gmul [false; true; true; true].

Definition inv_mix_column (a b c d : byte) : bytes :=
  let x4 p q r s := bxor p (bxor q (bxor r s)) in
  [x4 (mul14 a) (mul11 b) (mul13 c) (mul9 d); x4 (mul9 a) (mul14 b) (mul11 c) (mul13 d);
   x4 (mul13 a) (mul9 b) (mul14 c) (mul11 d); x4 (mul11 a) (mul13 b) (mul9 c) (mul14 d)].

Fixpoint columns (f : byte -> byte -> byte -> byte -> bytes) (s : bytes) : bytes :=
  match s with
  | a :: b :: c :: d :: s => f a b c d ++ columns f s
  | _ => s
  end.

Definition permute (p : list nat) (s : bytes) : bytes := (fun i => nth i s Byte.x00) <$> p.
Definition shift_rows : bytes -> bytes := permute [0; 5; 10; 15; 4; 9; 14; 3; 8; 13; 2; 7; 12; 1; 6; 11].
Definition inv_shift_rows : bytes -> bytes := permute [0; 13; 10; 7; 4; 1; 14; 11; 8; 5; 2; 15; 12; 9; 6; 3].

Fixpoint enc_rounds (ks : list bytes) (s : bytes) : bytes :=
  match ks with
  | [] => s
  | [k] => xor_bytes (shift_rows (sub_byte <$> s)) k
  | k :: ks => enc_rounds ks (xor_bytes (columns mix_column (shift_rows (sub_byte <$> s))) k)
  end.

Fixpoint dec_rounds (ks : list bytes) (s : bytes) : bytes :=
  match ks with
  | [] => s
  | [k] => inv_sub_byte <$> inv_shift_rows (xor_bytes s k)
  | k :: ks => inv_sub_byte <$> inv_shift_rows (columns inv_mix_column (xor_bytes (dec_rounds ks s) k))
  end.

(** The key schedule of a cipher: its round keys. *)
Definition encrypt_block (ks : list bytes) (s : bytes) : bytes :=
  match ks with
  | [] => s
  | k :: ks => enc_rounds ks (xor_bytes s k)
  end.
Definition decrypt_block (ks : list bytes) (s : bytes) : bytes :=
  match ks with
  | [] => s
  | k :: ks => xor_bytes (dec_rounds ks s) k
  end.

(** ** Key expansion *)

Definition rot_word (w : bytes) : bytes := drop 1 w ++ take 1 w.
Definition rcon (i : nat) : bytes := [Nat.iter (i - 1) xtime Byte.x01; Byte.x00; Byte.x00; Byte.x00].

(** The words of the schedule, last first, given the words before. *)
Fixpoint expand (n nk i : nat) (ws : list bytes) : list bytes :=
  match n with
  | O => ws
  | S n =>
      let prev := nth 0 ws [] in
      let t := if (i mod nk =? 0)%nat then xor_bytes (sub_byte <$> rot_word prev) (rcon (i / nk))
               else if (6 <? nk)%nat && (i mod nk =? 4)%nat then sub_byte <$> prev else prev in
      expand n nk (S i) (xor_bytes (nth (nk - 1) ws []) t :: ws)
  end.

Fixpoint chunks (k n : nat) (l : bytes) : list bytes :=
  match n with
  | O => []
  | S n => take k l :: chunks k n (drop k l)
  end.

(** [aes.NewCipher]: the round keys, for the three key sizes. *)
Definition NewCipher (key : bytes) : option (list bytes) :=
  let nk := (length key / 4)%nat in
  if bool_decide (length key = 16 \/ length key = 24 \/ length key = 32)%nat then
    let ws := reverse (expand (4 * (nk + 7) - nk) nk nk (reverse (chunks 4 nk key))) in
    Some (chunks 16 (nk + 7) (concat ws))
  else None.

Definition unhex_digit (b : byte) : Z :=
  let z := b2z b in (if z <? 58 then z - 48 else z - 87)%Z.
Fixpoint unhex (s : bytes) : bytes :=
  match s with
  | a :: b :: s => z2b (16 * unhex_digit a + unhex_digit b)%Z :: unhex s
  | _ => []
  end.

(** FIPS 197, appendix C. *)
Example aes_vectors :
  let plain := unhex (str "00112233445566778899aabbccddeeff") in
  let test key cipher := bool_decide
    ((fun ks => encrypt_block ks plain) <$> NewCipher (unhex (str key)) = Some (unhex (str cipher))) in
  test "000102030405060708090a0b0c0d0e0f" "69c4e0d86a7b0430d8cdb78070b4c55a" &&
  test "000102030405060708090a0b0c0d0e0f1011121314151617" "dda97ca4864cdfe06eaf70a0ec0d7191" &&
  test "000102030405060708090a0b0c0d0e0f101112131415161718191a1b1c1d1e1f" "8ea2b7ca516745bfeafc49904b496089" = true.
Proof. vm_compute. reflexivity. Qed.

(** ** CBC mode

    [CryptBlocks] of the encrypter and the decrypter of [crypto/cipher] for
    one message; [None] is the panic on input that is not full blocks. *)

Fixpoint cbc_encrypt (n : nat) (ks : list bytes) (iv data : bytes) : bytes :=
  match n with
  | O => []
  | S n =>
      let c := encrypt_block ks (xor_bytes (take 16 data) iv) in
      c ++ cbc_encrypt n ks c (drop 16 data)
  end.

Fixpoint cbc_decrypt (n : nat) (ks : list bytes) (iv data : bytes) : bytes :=
  match n with
  | O => []
  | S n =>
      let c := take 16 data in
      xor_bytes (decrypt_block ks c) iv ++ cbc_decrypt n ks c (drop 16 data)
  end.

Definition CBCEncrypt (ks : list bytes) (iv data : bytes) : option bytes :=
  if (length data mod 16 =? 0)%nat then Some (cbc_encrypt (length data / 16) ks iv data) else None.
Definition CBCDecrypt (ks : list bytes) (iv data : bytes) : option bytes :=
  if (length data mod 16 =? 0)%nat then Some (cbc_decrypt (length data / 16) ks iv data) else None.

(** ** Decryption inverts encryption *)

Lemma to_bits_inj a b : Byte.to_bits a = Byte.to_bits b -> a = b.
Proof. intros E. by rewrite <- (Byte.of_bits_to_bits a), E, Byte.of_bits_to_bits. Qed.

(** Equations between bytes built from [bxor] and [xtime], bit by bit. *)
Ltac byte_bits :=
  apply to_bits_inj; unfold gmul, bxor, xtime, map2_bits;
  repeat match goal with
  | a : byte |- _ => lazymatch goal with
      | |- context [Byte.to_bits a] =>
        let E := fresh in destruct (Byte.to_bits a) as (?&?&?&?&?&?&?&?) eqn:E; clear E; clear a
      end
  end;
  rewrite ?Byte.to_bits_of_bits; repeat (rewrite Byte.to_bits_of_bits; cbv beta iota);
  repeat (f_equal; try btauto).

Lemma bxor_comm a b : bxor a b = bxor b a.
Proof. byte_bits. Qed.
Lemma bxor_assoc a b c : bxor a (bxor b c) = bxor (bxor a b) c.
Proof. byte_bits. Qed.
Lemma bxor_cancel a b : bxor (bxor a b) b = a.
Proof. byte_bits. Qed.
Lemma xtime_bxor a b : xtime (bxor a b) = bxor (xtime a) (xtime b).
Proof. byte_bits. Qed.

Lemma inv_mix_mix a b c d :
  match mix_column a b c d with
  | [p; q; r; s] => inv_mix_column p q r s = [a; b; c; d]
  | _ => False
  end.
Proof.
  unfold mix_column, inv_mix_column, mul9, mul11, mul13, mul14.
  do 3 (f_equal; [byte_bits|]). f_equal. byte_bits.
Qed.

Lemma inv_sub_sub a : inv_sub_byte (sub_byte a) = a.
Proof. by destruct a. Qed.

Lemma inv_columns s : columns inv_mix_column (columns mix_column s) = s.
Proof.
  revert s. fix IH 1. intros [|a [|b [|c [|d s]]]]; try reflexivity. cbn [columns].
  pose proof (inv_mix_mix a b c d) as E. unfold mix_column in *. cbv zeta in *. cbn [app columns].
  by rewrite E, IH.
Qed.

Lemma columns_length f s :
  (forall a b c d, length (f a b c d) = 4) -> length (columns f s) = length s.
Proof.
  intros Hf. revert s. fix IH 1. intros [|a [|b [|c [|d s]]]]; try reflexivity. cbn [columns].
  rewrite length_app, Hf, IH. reflexivity.
Qed.

Lemma block16 (s : bytes) : length s = 16 -> exists a0 a1 a2 a3 a4 a5 a6 a7 a8 a9 a10 a11 a12 a13 a14 a15,
  s = [a0; a1; a2; a3; a4; a5; a6; a7; a8; a9; a10; a11; a12; a13; a14; a15].
Proof. intros Hs. do 16 (destruct s as [|? s]; [done|]). destruct s; [|done]. by repeat eexists. Qed.

Lemma inv_shift_shift s : length s = 16 -> inv_shift_rows (shift_rows s) = s.
Proof. intros (?&?&?&?&?&?&?&?&?&?&?&?&?&?&?&?&->)%block16. reflexivity. Qed.

Lemma shift_rows_length s : length (shift_rows s) = 16.
Proof. reflexivity. Qed.

Lemma xor_bytes_length a b : length a = length b -> length (xor_bytes a b) = length a.
Proof. intros E. unfold xor_bytes. rewrite length_zip_with. lia. Qed.

Lemma xor_bytes_cancel a b : length a = length b -> xor_bytes (xor_bytes a b) b = a.
Proof.
  revert b. induction a as [|x a IH]; intros [|y b] E; try done. cbn. f_equal; [apply bxor_cancel|]. apply IH. by injection E.
Qed.

Lemma xor_bytes_comm a b : xor_bytes a b = xor_bytes b a.
Proof.
  revert b. induction a as [|x a IH]; intros [|y b]; try done. cbn. f_equal; [apply bxor_comm|apply IH].
Qed.

Lemma inv_subs (s : bytes) : inv_sub_byte <$> (sub_byte <$> s) = s.
Proof. induction s as [|a s IH]; [done|]. cbn. f_equal; [apply inv_sub_sub|exact IH]. Qed.

Lemma dec_enc_rounds ks s :
  Forall (fun k => length k = 16) ks -> length s = 16 ->
  dec_rounds ks (enc_rounds ks s) = s /\ length (enc_rounds ks s) = 16.
Proof.
  revert s. induction ks as [|k ks IH]; intros s Hks Hs; [done|].
  apply Forall_cons in Hks as [Hk Hks]. destruct ks as [|k2 ks].
  - cbn [dec_rounds enc_rounds]. rewrite xor_bytes_cancel, inv_shift_shift, inv_subs;
      rewrite ?xor_bytes_length, ?shift_rows_length, ?length_fmap; done.
  - change (enc_rounds (k :: k2 :: ks) s) with
      (enc_rounds (k2 :: ks) (xor_bytes (columns mix_column (shift_rows (sub_byte <$> s))) k)).
    assert (length (columns mix_column (shift_rows (sub_byte <$> s))) = 16) as Hc
      by (by rewrite columns_length, shift_rows_length).
    destruct (IH (xor_bytes (columns mix_column (shift_rows (sub_byte <$> s))) k) Hks) as [E1 E2].
    { rewrite xor_bytes_length; congruence. }
    split; [|done]. set (t := enc_rounds (k2 :: ks) _) in *.
    change (dec_rounds (k :: k2 :: ks) t) with
      (inv_sub_byte <$> inv_shift_rows (columns inv_mix_column (xor_bytes (dec_rounds (k2 :: ks) t) k))).
    rewrite E1, xor_bytes_cancel, inv_columns, inv_shift_shift, inv_subs;
      rewrite ?length_fmap; congruence.
Qed.

Definition schedule (ks : list bytes) : Prop := Forall (fun k => length k = 16) ks.

Lemma decrypt_encrypt ks s : schedule ks -> length s = 16 -> decrypt_block ks (encrypt_block ks s) = s.
Proof.
  intros Hks Hs. destruct ks as [|k ks]; [done|]. apply Forall_cons in Hks as [Hk Hks]. cbn.
  destruct (dec_enc_rounds ks (xor_bytes s k) Hks) as [-> _]; [rewrite xor_bytes_length; congruence|].
  by rewrite xor_bytes_cancel by congruence.
Qed.

Lemma encrypt_length ks s : schedule ks -> length s = 16 -> length (encrypt_block ks s) = 16.
Proof.
  intros Hks Hs. destruct ks as [|k ks]; [done|]. apply Forall_cons in Hks as [Hk Hks]. cbn.
  apply dec_enc_rounds; [done|]. rewrite xor_bytes_length; congruence.
Qed.

(** Every key of a legal size has a schedule. *)
Lemma chunks_length k n l : length (chunks k n l) = n.
Proof. revert l. induction n as [|n IH]; intros l; [done|]. cbn. by rewrite IH. Qed.

Lemma chunks_full k n l : length l = n * k -> Forall (fun c => length c = k) (chunks k n l).
Proof.
  revert l. induction n as [|n IH]; intros l Hl; [constructor|]. cbn. constructor.
  - rewrite length_take. lia.
  - apply IH. rewrite length_drop. lia.
Qed.

Definition word (w : bytes) : Prop := length w = 4.

Lemma nth_word i ws : Forall word ws -> i < length ws -> word (nth i ws []).
Proof. intros Hw Hi. apply (proj1 (Forall_forall _ _) Hw), list_elem_of_In, nth_In, Hi. Qed.

Lemma expand_words n nk i ws :
  0 < nk <= length ws -> Forall word ws -> Forall word (expand n nk i ws) /\ length (expand n nk i ws) = n + length ws.
Proof.
  revert i ws. induction n as [|n IH]; intros i ws Hn Hw; [done|]. cbn [expand].
  set (t := if (i mod nk =? 0)%nat then _ else _).
  assert (word t) as Ht.
  { assert (word (nth 0 ws [])) as Hp by (apply nth_word; [done|lia]). unfold t.
    assert (word (rot_word (nth 0 ws []))) as Hr.
    { unfold rot_word, word in *. rewrite length_app, length_drop, length_take. lia. }
    repeat case_if; try done; unfold word in *; [rewrite xor_bytes_length; rewrite length_fmap; done|by rewrite length_fmap]. }
  assert (word (nth (nk - 1) ws [])) as Hq by (apply nth_word; [done|lia]).
  destruct (IH (S i) (xor_bytes (nth (nk - 1) ws []) t :: ws)) as [H1 H2].
  - cbn. lia.
  - constructor; [|done]. unfold word in *. rewrite xor_bytes_length; congruence.
  - split; [done|]. rewrite H2. cbn. lia.
Qed.

Lemma concat_words ws : Forall word ws -> length (concat ws) = 4 * length ws.
Proof. induction 1 as [|w ws Hw _ IH]; [done|]. cbn. rewrite length_app, IH, Hw. lia. Qed.

Lemma NewCipher_schedule key ks : NewCipher key = Some ks -> schedule ks.
Proof.
  unfold NewCipher. cbv zeta. case_bool_decide as Hk; [|done]. intros E. apply (inj Some) in E as <-.
  assert (exists nk, length key = nk * 4 /\ (length key / 4)%nat = nk /\ 0 < nk) as (nk & Hl & Hq & Hp).
  { destruct Hk as [-> |[-> | ->]]; [exists 4|exists 6|exists 8]; split_and!; (done || lia). }
  rewrite Hq. clear Hq Hk.
  apply chunks_full. pose proof (chunks_full 4 nk key Hl) as Hc.
  destruct (expand_words (4 * (nk + 7) - nk) nk nk (reverse (chunks 4 nk key))) as [H1 H2].
  - rewrite length_reverse, chunks_length. lia.
  - by rewrite Forall_reverse.
  - rewrite concat_words by (by rewrite Forall_reverse). rewrite length_reverse, H2, length_reverse, chunks_length. lia.
Qed.

Lemma NewCipher_sizes key :
  length key = 16 \/ length key = 24 \/ length key = 32 -> is_Some (NewCipher key).
Proof. intros Hk. unfold NewCipher. rewrite bool_decide_eq_true_2 by done. by eexists. Qed.

(** *** CBC *)

Lemma cbc_roundtrip n ks iv data :
  schedule ks -> length iv = 16 -> length data = n * 16 ->
  cbc_decrypt n ks iv (cbc_encrypt n ks iv data) = data /\ length (cbc_encrypt n ks iv data) = n * 16.
Proof.
  intros Hks. revert iv data. induction n as [|n IH]; intros iv data Hiv Hd; [by destruct data|].
  cbn [cbc_encrypt cbc_decrypt]. set (c := encrypt_block ks _).
  assert (length (xor_bytes (take 16 data) iv) = 16) as Hx
    by (rewrite xor_bytes_length; rewrite length_take; lia).
  assert (length c = 16) as Hc by (by apply encrypt_length).
  destruct (IH c (drop 16 data)) as [E1 E2]; [done|rewrite length_drop; lia|].
  rewrite take_app_length', drop_app_length' by done. split.
  - unfold c at 1. rewrite decrypt_encrypt, xor_bytes_cancel by (try done; rewrite length_take; lia).
    fold c. rewrite E1. apply take_drop.
  - rewrite length_app, E2. lia.
Qed.

Lemma CBC_roundtrip ks iv data :
  schedule ks -> length iv = 16 -> length data mod 16 = 0 ->
  exists c, CBCEncrypt ks iv data = Some c /\ CBCDecrypt ks iv c = Some data /\ length c = length data.
Proof.
  intros Hks Hiv Hd. assert (length data = length data / 16 * 16) as Hl.
  { pose proof (Nat.div_mod_eq (length data) 16). lia. }
  destruct (cbc_roundtrip (length data / 16) ks iv data Hks Hiv Hl) as [E1 E2].
  unfold CBCEncrypt, CBCDecrypt. rewrite Hd. cbn [Nat.eqb]. eexists. split; [reflexivity|].
  rewrite E2, <- Hl, Hd. cbn [Nat.eqb]. by rewrite E1.
Qed.
