(* ===== verification/Json.v ===== *)
(** * Json: Go values and their JSON form

    The dynamic values an [any] can hold and what the storage needs of
    [encoding/json].  The text format is a parameter: [JSON] states that
    marshalling and unmarshalling a value without loss gives its JSON image
    back, in which integers have become [float64].  A fragment of the format
    is implemented to show that the laws can hold. *)

From Stdlib Require Import SpecFloat.
From S2P Require Import Prelude Bytes GoStrings.

Local Set Warnings "-register-all".

(** ** [float64] *)

Definition float64 : Type := spec_float.

(** The nearest [float64], ties to even. *)
Definition float_of_int (n : Z) : float64 := binary_normalize 53 1024 n 0 false.

(** [int(f)]: truncation.  What a value outside the range of [int] becomes is
    left to the implementation. *)
Class FloatOverflow := float_overflow : float64 -> Z.
Definition float_to_int `{FloatOverflow} (f : float64) : Z :=
  match f with
  | S754_zero _ => 0%Z
  | S754_finite s m e =>
      let z := if (0 <=? e)%Z then Z.shiftl (Zpos m) e else Z.shiftr (Zpos m) (- e) in
      let z := if s then Z.opp z else z in
      if ((- 2 ^ 63 <=? z) && (z <? 2 ^ 63))%Z then z else float_overflow f
  | _ => float_overflow f
  end.

(** ** Values *)

(** A value of type [any].  [VList] is a [[]any] and [VMap] a [map[string]any];
    both can be nil.  [VOther] is a value of some other Go type. *)
Inductive goval :=
| VNil
| VBool (b : bool)
| VInt (n : Z)
| VFloat (f : float64)
| VString (s : bytes)
| VList (l : list goval)
| VNilList
| VMap (m : gmap bytes goval)
| VNilMap
| VOther (id : nat).

(** What a value reads back as. *)
Fixpoint json_image (v : goval) : goval :=
  match v with
  | VInt n => VFloat (float_of_int n)
  | VList l => VList (json_image <$> l)
  | VMap m => VMap (json_image <$> m)
  | VNilList | VNilMap => VNil
  | _ => v
  end.

Definition utf8_ok (s : bytes) : bool := bool_decide (concat (encode_rune <$> runes s) = s).

(** Values that JSON keeps: valid UTF-8, real [float64]s, nothing of another
    type. *)
Fixpoint json_safe (v : goval) : bool :=
  match v with
  | VNil | VNilList | VNilMap | VBool _ => true
  | VInt n => ((- 2 ^ 63 <=? n) && (n <? 2 ^ 63))%Z
  | VFloat f => valid_binary 53 1024 f
  | VString s => utf8_ok s
  | VList l => foldr (fun v b => json_safe v && b) true l
  | VMap m => map_fold (fun k v b => utf8_ok k && json_safe v && b) true m
  | VOther _ => false
  end.

Fixpoint json_depth (v : goval) : nat :=
  match v with
  | VList l => S (foldr (fun v n => Nat.max (json_depth v) n) 0 l)
  | VMap m => S (map_fold (fun _ v n => Nat.max (json_depth v) n) 0 m)
  | _ => 0
  end.

(** [encoding/json] keeps [v]: it is safe and within the nesting limit of the
    decoder. *)
Definition json_keeps (v : goval) : Prop := json_safe v = true /\ (Z.of_nat (json_depth v) <= 10000)%Z.

Class JSON := {
  json_Marshal : goval -> bytes + error;
  json_MarshalIndent : goval -> bytes + error;
  json_Unmarshal : bytes -> goval + error;
  json_roundtrip v b : json_keeps v -> json_Marshal v = inl b -> json_Unmarshal b = inl (json_image v);
  json_roundtrip_indent v b : json_keeps v -> json_MarshalIndent v = inl b -> json_Unmarshal b = inl (json_image v);
  json_null : json_Unmarshal (str "null") = inl VNil;
}.

(** [json.Unmarshal] into a [map[string]any] that is nil: null leaves it nil. *)
Definition unmarshal_map `{JSON} (b : bytes) : option (gmap bytes goval) + error :=
  match json_Unmarshal b with
  | inl VNil => inl None
  | inl (VMap m) => inl (Some m)
  | inl _ => inr (Errorf "json: cannot unmarshal value into Go value of type map[string]interface {}" [])
  | inr e => inr e
  end.

(** The same into a nil [[]any]. *)
Definition unmarshal_list `{JSON} (b : bytes) : goval + error :=
  match json_Unmarshal b with
  | inl VNil => inl VNilList
  | inl (VList l) => inl (VList l)
  | inl _ => inr (Errorf "json: cannot unmarshal value into Go value of type []interface {}" [])
  | inr e => inr e
  end.

(** ** Integers survive as [float64] *)

Section float.
Local Open Scope Z_scope.

Lemma digits2_low m : 2 ^ (Zpos (digits2_pos m) - 1) <= Zpos m.
Proof.
  induction m as [m IH|m IH|]; cbn [digits2_pos]; [| |done];
    rewrite Pos2Z.inj_succ; replace (Z.succ (Zpos (digits2_pos m)) - 1) with (Z.succ (Zpos (digits2_pos m) - 1)) by lia;
    rewrite Z.pow_succ_r by lia; lia.
Qed.

Lemma digits2_shift m k : digits2_pos (Pos.iter xO m k) = (digits2_pos m + k)%positive.
Proof.
  induction k as [|k IH] using Pos.peano_ind; [by rewrite Pos.add_1_r|].
  rewrite Pos.iter_succ. cbn [digits2_pos]. rewrite IH. lia.
Qed.

Lemma shift_value m k : Zpos (Pos.iter xO m k) = Zpos m * 2 ^ Zpos k.
Proof.
  induction k as [|k IH] using Pos.peano_ind; [simpl Pos.iter; lia|].
  rewrite Pos.iter_succ, Pos2Z.inj_xO, IH, Pos2Z.inj_succ, Z.pow_succ_r by lia. lia.
Qed.

Lemma round_exact s m e :
  Zpos (digits2_pos m) = 53 -> -1074 <= e <= 971 ->
  binary_round_aux 53 1024 s (Zpos m) e loc_Exact = S754_finite s m e.
Proof.
  intros Hd He. assert (fexp 53 1024 (53 + e) - e = 0) as E by (unfold fexp, emin; lia).
  unfold binary_round_aux, shr_fexp. cbn [Zdigits2]. rewrite Hd, E. cbn [shr shr_record_of_loc loc_of_shr_record round_nearest_even shr_m].
  cbn [Zdigits2]. rewrite Hd, E. cbn. by rewrite (proj2 (Z.leb_le _ _)) by lia.
Qed.

Lemma binary_round_exact s m :
  Zpos m < 2 ^ 53 -> exists m' e, binary_round 53 1024 s m 0 = S754_finite s m' (- e) /\ 0 <= e /\ Zpos m' = Zpos m * 2 ^ e.
Proof.
  intros Hm. assert (2 ^ (Zpos (digits2_pos m) - 1) < 2 ^ 53) as Hd by (pose proof (digits2_low m); lia).
  apply Z.pow_lt_mono_r_iff in Hd; [|lia|lia]. unfold binary_round, shl_align.
  assert (fexp 53 1024 (Zpos (digits2_pos m) + 0) = Zpos (digits2_pos m) - 53) as -> by (unfold fexp, emin; lia).
  rewrite Z.sub_0_r. destruct (Zpos (digits2_pos m) - 53) as [|k|k] eqn:E; [|lia|].
  - exists m, 0. rewrite round_exact by lia. split_and!; lia || done.
  - exists (Pos.iter xO m k), (Zpos k). rewrite round_exact by (rewrite ?digits2_shift; lia).
    split; [done|]. split; [lia|]. apply shift_value.
Qed.

Lemma float_to_int_of_int `{FloatOverflow} n : Z.abs n < 2 ^ 53 -> float_to_int (float_of_int n) = n.
Proof.
  intros Hn. unfold float_of_int.
  assert (n = 0 \/ exists s m, binary_normalize 53 1024 n 0 false = binary_round 53 1024 s m 0 /\
    n = if s then - Zpos m else Zpos m) as [-> |(s & m & -> & E)].
  { destruct n as [|m|m]; [by left|right; by exists false, m|right; by exists true, m]. }
  { done. }
  destruct (binary_round_exact s m) as (m' & e & -> & He & Hm); [destruct s; lia|].
  unfold float_to_int.
  assert ((if 0 <=? - e then Z.shiftl (Zpos m') (- e) else Z.shiftr (Zpos m') (- - e)) = Zpos m) as ->.
  { destruct (Z.leb_spec 0 (- e)).
    - assert (e = 0) as -> by lia. rewrite Z.shiftl_0_r. lia.
    - rewrite Z.opp_involutive, Z.shiftr_div_pow2, Hm by lia. apply Z.div_mul. lia. }
  rewrite <- E. rewrite (proj2 (Z.leb_le _ _)), (proj2 (Z.ltb_lt _ _)) by lia. done.
Qed.
End float.

(** ** A fragment of the format

    Null, and objects whose values are integers or strings of characters that
    need no escape. *)

Definition dquote : byte := Byte.x22.
Definition unescaped (b : byte) : bool :=
  ((32 <=? b2z b) && (b2z b <? 127))%Z && negb (bool_decide (b ∈ dquote :: str "\<>&")).

Definition text_of (v : goval) : option bytes :=
  match v with
  | VString s => if forallb unescaped s then Some (dquote :: s ++ [dquote]) else None
  | VInt n => if ((- 2 ^ 63 <=? n) && (n <? 2 ^ 63))%Z then Some (Itoa n) else None
  | _ => None
  end.

Definition pair_text (kv : bytes * goval) : option bytes :=
  if forallb unescaped (fst kv)
  then (fun v => dquote :: fst kv ++ [dquote; Byte.x3a] ++ v) <$> text_of (snd kv) else None.

Fixpoint pairs_text (l : list (bytes * goval)) : option bytes :=
  match l with
  | [] => None
  | [kv] => (fun t => t ++ str "}") <$> pair_text kv
  | kv :: l => t ← pair_text kv; r ← pairs_text l; Some (t ++ str "," ++ r)
  end.

Definition fragment_Marshal (v : goval) : bytes + error :=
  let unsupported := inr (Errorf "json: unsupported value" []) in
  match v with
  | VNil | VNilMap | VNilList => inl (str "null")
  | VMap m =>
      match map_to_list m with
      | [] => inl (str "{}")
      | l => match pairs_text l with Some t => inl (str "{" ++ t) | None => unsupported end
      end
  | _ => unsupported
  end.

Fixpoint span (p : byte -> bool) (l : bytes) : bytes * bytes :=
  match l with
  | [] => ([], [])
  | b :: l' => if p b then let '(x, y) := span p l' in (b :: x, y) else ([], l)
  end.

Definition parse_string (l : bytes) : option (bytes * bytes) :=
  match l with
  | b :: l => if bool_decide (b = dquote) then
                match span unescaped l with
                | (s, q :: rest) => if bool_decide (q = dquote) then Some (s, rest) else None
                | _ => None
                end
              else None
  | [] => None
  end.

Definition num_char (b : byte) : bool := is_digit (b2z b) || bool_decide (b = Byte.x2d).

Definition parse_value (l : bytes) : option (goval * bytes) :=
  match parse_string l with
  | Some (s, rest) => Some (VString s, rest)
  | None => let '(d, rest) := span num_char l in (fun n => (VFloat (float_of_int n), rest)) <$> Atoi d
  end.

Fixpoint parse_pairs (fuel : nat) (l : bytes) : option (list (bytes * goval)) :=
  match fuel with
  | O => None
  | S fuel =>
      match parse_string l with
      | Some (k, c :: l) =>
          if bool_decide (c = Byte.x3a) then
            match parse_value l with
            | Some (v, [b]) => if bool_decide (b = Byte.x7d) then Some [(k, v)] else None
            | Some (v, b :: l) => if bool_decide (b = Byte.x2c) then cons (k, v) <$> parse_pairs fuel l else None
            | _ => None
            end
          else None
      | _ => None
      end
  end.

Definition fragment_Unmarshal (b : bytes) : goval + error :=
  if bool_decide (b = str "null") then inl VNil
  else if bool_decide (b = str "{}") then inl (VMap ∅)
  else match b with
       | c :: l => if bool_decide (c = Byte.x7b) then
                     match parse_pairs (length l) l with
                     | Some kvs => inl (VMap (list_to_map kvs))
                     | None => inr (Errorf "invalid character" [])
                     end
                   else inr (Errorf "invalid character" [])
       | [] => inr (Errorf "unexpected end of JSON input" [])
       end.

Lemma span_app p l b rest : Forall (fun b => p b = true) l -> p b = false -> span p (l ++ b :: rest) = (l, b :: rest).
Proof. intros Hl Hb. induction Hl as [|x l Hx _ IH]; cbn; [by rewrite Hb|]. by rewrite Hx, IH. Qed.

Lemma parse_string_text s rest :
  forallb unescaped s = true -> parse_string (dquote :: s ++ dquote :: rest) = Some (s, rest).
Proof.
  intros Hs. unfold parse_string. rewrite bool_decide_eq_true_2 by done. rewrite span_app.
  - by rewrite bool_decide_eq_true_2.
  - apply Forall_forall. intros b Hb. rewrite forallb_forall in Hs. by apply Hs, list_elem_of_In.
  - reflexivity.
Qed.

Lemma Itoa_num n : Forall (fun b => num_char b = true) (Itoa n) /\ Itoa n <> [].
Proof.
  unfold Itoa. destruct (Z.ltb_spec n 0) as [Hn|Hn].
  - split; [|done]. constructor; [done|]. apply (Forall_impl _ _ _ (print_nat_digits (- n) ltac:(lia))).
    intros b Hb. unfold num_char. by rewrite Hb.
  - split; [|by apply print_nat_nonempty]. apply (Forall_impl _ _ _ (print_nat_digits n ltac:(lia))).
    intros b Hb. unfold num_char. by rewrite Hb.
Qed.

Lemma parse_value_text v t b rest :
  text_of v = Some t -> num_char b = false -> parse_value (t ++ b :: rest) = Some (json_image v, b :: rest).
Proof.
  intros Ht Hb. destruct v as [| |n| |s| | | | |]; try done; cbn [text_of] in Ht.
  - destruct ((- 2 ^ 63 <=? n) && (n <? 2 ^ 63))%Z eqn:Hr; [|done]. injection Ht as <-.
    destruct (Itoa_num n) as [Hd Hne]. unfold parse_value.
    assert (parse_string (Itoa n ++ b :: rest) = None) as ->.
    { destruct (Itoa n) as [|c d]; [done|]. apply Forall_cons in Hd as [Hc _]. cbn.
      rewrite bool_decide_eq_false_2; [done|]. intros ->. done. }
    rewrite span_app by done. bools. rewrite Atoi_Itoa; [done|]. unfold in_int64. lia.
  - destruct (forallb unescaped s) eqn:Hs; [|done]. injection Ht as <-. unfold parse_value.
    cbn [app]. rewrite <- app_assoc. cbn [app]. by rewrite parse_string_text.
Qed.

Lemma pair_text_spec kv t :
  pair_text kv = Some t -> exists v, text_of (snd kv) = Some v /\ forallb unescaped (fst kv) = true /\
    t = dquote :: fst kv ++ [dquote; Byte.x3a] ++ v.
Proof.
  unfold pair_text. destruct (forallb unescaped (fst kv)); [|done].
  destruct (text_of (snd kv)) as [v|]; [|done]. intros [= <-]. by exists v.
Qed.

Lemma parse_pairs_text l t fuel :
  pairs_text l = Some t -> (length l <= fuel)%nat ->
  parse_pairs fuel t = Some (prod_map id json_image <$> l).
Proof.
  revert t fuel. induction l as [|kv l IH]; intros t fuel Ht Hf; [done|]. destruct fuel as [|fuel]; [cbn in Hf; lia|].
  assert (forall v b rest, text_of (snd kv) = Some v -> forallb unescaped (fst kv) = true ->
    num_char b = false ->
    parse_pairs (S fuel) ((dquote :: fst kv ++ [dquote; Byte.x3a] ++ v) ++ b :: rest) =
    match rest with
    | [] => if bool_decide (b = Byte.x7d) then Some [(fst kv, json_image (snd kv))] else None
    | _ => if bool_decide (b = Byte.x2c) then cons (fst kv, json_image (snd kv)) <$> parse_pairs fuel rest else None
    end) as Hpair.
  { intros v b rest Hv Hk Hb. cbn [app]. rewrite <- app_assoc. cbn [app parse_pairs].
    rewrite parse_string_text by done. rewrite bool_decide_eq_true_2 by done.
    rewrite (parse_value_text _ _ _ _ Hv Hb). by destruct rest. }
  destruct l as [|kv2 l].
  - cbn [pairs_text] in Ht. destruct (pair_text kv) as [t1|] eqn:E1; [|done].
    assert (t = t1 ++ [Byte.x7d]) as -> by (by injection Ht).
    apply pair_text_spec in E1 as (v & Hv & Hk & ->). rewrite (Hpair v Byte.x7d []) by done. by destruct kv.
  - cbn [pairs_text] in Ht. destruct (pair_text kv) as [t1|] eqn:E1; [|done].
    change (match pairs_text (kv2 :: l) with Some r => Some (t1 ++ str "," ++ r) | None => None end = Some t) in Ht.
    destruct (pairs_text (kv2 :: l)) as [r|] eqn:E2; [|done].
    assert (t = t1 ++ Byte.x2c :: r) as -> by (by injection Ht). clear Ht.
    apply pair_text_spec in E1 as (v & Hv & Hk & ->).
    pose proof (IH r fuel eq_refl ltac:(cbn in *; lia)) as Hr.
    rewrite (Hpair v Byte.x2c r) by done. destruct r as [|c r]; [by destruct fuel|].
    rewrite Hr. by destruct kv.
Qed.

Lemma pairs_text_length l t : pairs_text l = Some t -> (length l < length t)%nat.
Proof.
  revert t. induction l as [|kv l IH]; intros t Ht; [done|]. destruct l as [|kv2 l]; cbn [pairs_text] in Ht.
  - destruct (pair_text kv) as [t1|] eqn:E1; [|done]. injection Ht as <-.
    apply pair_text_spec in E1 as (v & _ & _ & ->). rewrite length_app. cbn. lia.
  - destruct (pair_text kv) as [t1|] eqn:E1; [|done].
    change (match pairs_text (kv2 :: l) with Some r => Some (t1 ++ str "," ++ r) | None => None end = Some t) in Ht.
    destruct (pairs_text (kv2 :: l)) as [r|]; [|done]. assert (t = t1 ++ Byte.x2c :: r) as -> by (by injection Ht).
    specialize (IH r eq_refl). rewrite length_app. cbn in *. lia.
Qed.

Lemma fragment_roundtrip v b : fragment_Marshal v = inl b -> fragment_Unmarshal b = inl (json_image v).
Proof.
  unfold fragment_Marshal. destruct v as [| | | | | | |m| |]; try done; try (by intros [= <-]).
  destruct (map_to_list m) as [|kv l] eqn:El.
  { apply map_to_list_empty_iff in El as ->. by intros [= <-]. }
  destruct (pairs_text (kv :: l)) as [t|] eqn:Et; [|done]. intros [= <-].
  assert (exists c r, t = dquote :: c :: r) as (c & r & Hc).
  { assert (exists t1 t2, pair_text kv = Some t1 /\ t = t1 ++ t2) as (t1 & t2 & E1 & ->).
    { destruct l as [|kv2 l]; cbn [pairs_text] in Et; (destruct (pair_text kv) as [t1|]; [|done]).
      - exists t1, [Byte.x7d]. by injection Et.
      - change (match pairs_text (kv2 :: l) with Some r => Some (t1 ++ str "," ++ r) | None => None end = Some t) in Et.
        destruct (pairs_text (kv2 :: l)) as [r|]; [|done]. exists t1, (str "," ++ r). by injection Et. }
    apply pair_text_spec in E1 as (v & _ & _ & ->). destruct (fst kv); by eexists _, _. }
  unfold fragment_Unmarshal. change (str "{" ++ t) with (Byte.x7b :: t).
  rewrite bool_decide_eq_false_2, bool_decide_eq_false_2, bool_decide_eq_true_2 by (subst t; done).
  rewrite (parse_pairs_text (kv :: l)); [|done|apply pairs_text_length in Et; lia].
  cbn [json_image]. do 2 f_equal. rewrite <- El, list_to_map_fmap, list_to_map_to_list. done.
Qed.

#[export] Program Instance json_fragment : JSON := {|
  json_Marshal := fragment_Marshal;
  json_MarshalIndent := fragment_Marshal;
  json_Unmarshal := fragment_Unmarshal;
|}.
Next Obligation. intros v b _. apply fragment_roundtrip. Qed.
Next Obligation. intros v b _. apply fragment_roundtrip. Qed.
Next Obligation. reflexivity. Qed.

(** The x86-64 conversion. *)
#[export] Instance float_overflow_amd64 : FloatOverflow := fun _ => (- 2 ^ 63)%Z.
