(* ===== verification/WsListen.v ===== *)
(** * WsListen: listening on a WebSocket, pinging and JSON messages

    Models [Listen], [StartPing], [SendJSON] and [ReadJSON] of
    [network/websocket_client.go].  [Listen] and [StartPing] start goroutines
    that run beside each other, beside the goroutine that waits for the
    context, and beside whatever the callbacks and the rest of the program do
    with the client: each is a step relation, and between any two of its steps
    [ws_env] lets others write and close.  [Listen] is followed frame by frame,
    so a client can be closed in the middle of a message. *)

From S2P Require Import Prelude Bytes GoStrings Conn Bufio Tcp WsFrame WsClient Json.

Local Open Scope Z_scope.

(** The [Error] method of a [WebSocketCloseError]; a nil receiver is [None]. *)
Definition WebSocketCloseError_Error (e : option (Z * bytes)) : bytes :=
  match e with
  | None => str "websocket closed"
  | Some (code, reason) =>
      if negb (bool_decide (reason = []))
      then str "websocket closed: code=" ++ Itoa code ++ str " reason=" ++ reason
      else str "websocket closed: code=" ++ Itoa code
  end.

(** The calls [Listen] makes; a nil callback drops its calls. *)
Inductive ws_callback :=
| WsOnMessage (m : WebSocketMessage)
| WsOnError (e : error)
| WsOnDone.

(** How one round of the loop in [ReadMessage] ends. *)
Inductive turn :=
| Again (op : byte) (acc : bytes)
| Finish (a : answer).

(** Where the listening goroutine is: before a call of [ReadMessage]; in it,
    before the next frame and with a frame in hand; with the loop left, before
    each of the deferred calls [close(done)], [c.Close()] and [onDone()]. *)
Inductive wlpc :=
| WTop
| WRead (op : byte) (acc : bytes)
| WGot (op : byte) (acc : bytes) (frame : websocketFrame)
| WDefer
| WClosing
| WDone
| WStopped.

(** [wl_watching]: the goroutine that waits for the context is still there. *)
Record wlstate := mkWL {
  wl_pc : wlpc;
  wl_ws : WebSocketClient;
  wl_watching : bool;
  wl_out : list ws_callback;
}.

(** [close(done)] has been called. *)
Definition done_closed (pc : wlpc) : bool :=
  match pc with WClosing | WDone | WStopped => true | _ => false end.

(** What the loop does with what [ReadMessage] returned. *)
Definition on_answer (a : answer) : list ws_callback * wlpc :=
  match a with
  | (_, Some e) =>
      (match e with
       | CloseError _ _ => []
       | _ => if bool_decide (e = EOF) then [] else [WsOnError e]
       end, WDefer)
  | (Some m, None) => ([WsOnMessage m], WTop)
  | (None, None) => ([], WTop)
  end.

Definition wl_answer (a : answer) (c : WebSocketClient) (x : bool) (out : list ws_callback) : wlstate :=
  mkWL (snd (on_answer a)) c x (out ++ fst (on_answer a)).

Section listen.
Context `{Rand}.

Definition frame_turn (op : byte) (acc : bytes) (frame : websocketFrame) : GoM WebSocketClient turn :=
  on_frame (fun op acc => ret (Again op acc)) (fun a => ret (Finish a)) op acc frame.

(** The label says whether the context closes the client. *)
Inductive wl_step : bool -> wlstate -> wlstate -> Prop :=
| wl_cancel pc c out :
    wl_step true (mkWL pc c true out) (mkWL pc (snd (WS_Close c)) false out)
| wl_unwatch pc c out :
    done_closed pc = true -> wl_step false (mkWL pc c true out) (mkWL pc c false out)
| wl_closed c x out :
    ws_isClosed c = true ->
    wl_step false (mkWL WTop c x out) (wl_answer (None, Some ErrTCPClientClosed) c x out)
| wl_open c x out :
    ws_isClosed c = false -> wl_step false (mkWL WTop c x out) (mkWL (WRead Byte.x00 []) c x out)
| wl_frame op acc f c c' x out :
    next_frame c = (Ok f, c') -> wl_step false (mkWL (WRead op acc) c x out) (mkWL (WGot op acc f) c' x out)
| wl_frame_err op acc e c c' x out :
    next_frame c = (Err e, c') -> wl_step false (mkWL (WRead op acc) c x out) (wl_answer (None, Some e) c' x out)
| wl_again op acc f op' acc' c c' x out :
    frame_turn op acc f c = (Ok (Again op' acc'), c') ->
    wl_step false (mkWL (WGot op acc f) c x out) (mkWL (WRead op' acc') c' x out)
| wl_finish op acc f a c c' x out :
    frame_turn op acc f c = (Ok (Finish a), c') ->
    wl_step false (mkWL (WGot op acc f) c x out) (wl_answer a c' x out)
| wl_fail op acc f e c c' x out :
    frame_turn op acc f c = (Err e, c') ->
    wl_step false (mkWL (WGot op acc f) c x out) (wl_answer (None, Some e) c' x out)
| wl_defer c x out :
    wl_step false (mkWL WDefer c x out) (mkWL WClosing c x out)
| wl_close c x out :
    wl_step false (mkWL WClosing c x out) (mkWL WDone (snd (WS_Close c)) x out)
| wl_done c x out :
    wl_step false (mkWL WDone c x out) (mkWL WStopped c x (out ++ [WsOnDone])).

(** What other goroutines and the callbacks do to the client; a Go slice is
    never longer than [maxAlloc]. *)
Inductive ws_env : bool -> WebSocketClient -> WebSocketClient -> Prop :=
| env_write op p c : zlen p <= maxAlloc -> ws_env false c (snd (WriteFrame op p c))
| env_close c : ws_env true c (snd (WS_Close c)).

(** [wl_run calm n s s']: from [s] to [s'] in [n] steps of the listener and any
    number of steps of others.  In a calm run nobody closes the client: neither
    the context nor the others. *)
Inductive wl_run (calm : bool) : nat -> wlstate -> wlstate -> Prop :=
| run_nil s : wl_run calm 0 s s
| run_own n b s1 s2 s3 :
    wl_step b s1 s2 -> (calm = true -> b = false) ->
    wl_run calm n s2 s3 -> wl_run calm (S n) s1 s3
| run_env n b pc c c' x out s3 :
    ws_env b c c' -> (calm = true -> b = false) ->
    wl_run calm n (mkWL pc c' x out) s3 -> wl_run calm n (mkWL pc c x out) s3.

(** [ReadMessage] is a loop of such rounds. *)
Lemma read_message_turns fuel op acc c :
  read_message (S fuel) op acc c =
    (do frame <- next_frame;
     do t <- frame_turn op acc frame;
     match t with Again op' acc' => read_message fuel op' acc' | Finish a => ret a end) c.
Proof.
  cbn [read_message]. unfold bind at 1 2. destruct (next_frame c) as [[f|e| |] c1]; try done.
  unfold frame_turn, on_frame, get, bind. cbv beta iota zeta.
  destruct (parseWebSocketClosePayload (Payload f)) as [code reason].
  repeat first [case_bool_decide|case_if]; try done; cbn -[Pong writeCloseFrame ignore];
    (destruct (ignore _ c1) as [[]]; done).
Qed.
(** The listener alone, as a function: the next step of its own goroutine. *)
Definition wl_next (s : wlstate) : wlstate :=
  let '(mkWL pc c x out) := s in
  match pc with
  | WTop =>
      if ws_isClosed c then wl_answer (None, Some ErrTCPClientClosed) c x out
      else mkWL (WRead Byte.x00 []) c x out
  | WRead op acc =>
      match next_frame c with
      | (Ok f, c') => mkWL (WGot op acc f) c' x out
      | (Err e, c') => wl_answer (None, Some e) c' x out
      | _ => s
      end
  | WGot op acc f =>
      match frame_turn op acc f c with
      | (Ok (Again op' acc'), c') => mkWL (WRead op' acc') c' x out
      | (Ok (Finish a), c') => wl_answer a c' x out
      | (Err e, c') => wl_answer (None, Some e) c' x out
      | _ => s
      end
  | WDefer => mkWL WClosing c x out
  | WClosing => mkWL WDone (snd (WS_Close c)) x out
  | WDone => mkWL WStopped c x (out ++ [WsOnDone])
  | WStopped => s
  end.

Lemma wl_next_step s : wl_next s = s \/ wl_step false s (wl_next s).
Proof.
  destruct s as [pc c x out]. destruct pc; cbn [wl_next]; try (right; constructor; fail); try (by left).
  - right. destruct (ws_isClosed c) eqn:E; by constructor.
  - destruct (next_frame c) as [[f|e| |] c'] eqn:E; try (by left); right; by econstructor.
  - destruct (frame_turn _ _ _ c) as [[[op' acc'|a]|e| |] c'] eqn:E; try (by left); right; by econstructor.
Qed.

Lemma wl_exec_run calm k s : exists n, wl_run calm n s (Nat.iter k wl_next s).
Proof.
  revert s. induction k as [|k IH]; intros s; [exists 0%nat; constructor|].
  rewrite Nat.iter_succ_r. destruct (IH (wl_next s)) as [n Hn]. destruct (wl_next_step s) as [E|E].
  - rewrite E in Hn |- *. eauto.
  - exists (S n). by eapply run_own.
Qed.
End listen.

Definition wl_init (c : WebSocketClient) : wlstate := mkWL WTop c true [].

(** ** Every run *)

(** Messages only; then at most one error; then [onDone]. *)
Definition messages_only (out : list ws_callback) : Prop :=
  Forall (fun cb => match cb with WsOnMessage _ => True | _ => False end) out.
Definition calls_ok (pc : wlpc) (out : list ws_callback) : Prop :=
  match pc with
  | WTop | WRead _ _ | WGot _ _ _ => messages_only out
  | WDefer | WClosing | WDone =>
      exists ms es, out = ms ++ es /\ messages_only ms /\ (es = [] \/ exists e, es = [WsOnError e])
  | WStopped =>
      exists ms es, out = ms ++ es ++ [WsOnDone] /\ messages_only ms /\ (es = [] \/ exists e, es = [WsOnError e])
  end.

(** What reading needs of a client. *)
Definition ws_able (c : WebSocketClient) : Prop :=
  is_Some (t_conn (ws_tcp c)) /\ 0 < ws_maxPayloadSize c <= maxAlloc.

Section every_run.
Context `{Rand}.

Lemma ws_kept_able c c' : ws_kept c c' -> ws_able c -> ws_able c'.
Proof. intros (Hk & [= _ _ Hm _] & _) [_ Ha]. split; [done|by rewrite Hm]. Qed.

Lemma env_kept b c c' : ws_able c -> ws_env b c c' -> ws_kept c c'.
Proof.
  intros [Hk _] He. destruct He as [op p c0 _|c0].
  - by destruct (WriteFrame_kept c0 op p Hk) as (r & c1 & -> & _ & ?).
  - by destruct (WS_Close_kept c0 Hk) as (r & c1 & -> & _ & ?).
Qed.

(** A round on a frame returns and reads nothing. *)
Lemma frame_turn_kept op acc f c :
  ws_able c -> exists r c', frame_turn op acc f c = (r, c') /\ returned r /\ ws_kept c c'.
Proof.
  intros [Hk _]. unfold frame_turn, on_frame, get, bind at 1. cbv beta iota zeta.
  assert (ws_kept c c) as K0 by done.
  case_bool_decide.
  { assert (exists c1, (if ws_disableAutoPong c then ret tt else ignore (Pong (Payload f))) c = (Ok tt, c1) /\ ws_kept c c1)
      as (c1 & E1 & K1).
    { destruct (ws_disableAutoPong c); [by exists c|]. by apply ignore_kept, Pong_kept. }
    rewrite (bind_Ok _ _ _ _ _ E1). by eexists _, _. }
  case_bool_decide; [by eexists _, _|]. case_bool_decide.
  { destruct (parseWebSocketClosePayload (Payload f)) as [code reason].
    destruct (ignore_kept (writeCloseFrame code reason) c) as (c1 & E1 & K1); [by apply writeFrameLocked_kept|].
    rewrite (bind_Ok _ _ _ _ _ E1). by eexists _, _. }
  repeat case_if; by eexists _, _.
Qed.

Lemma next_frame_able c :
  ws_able c -> exists r c', next_frame c = (r, c') /\ returned r /\ ws_able c' /\
    (match r with Ok _ => (length (ws_stream c') < length (ws_stream c))%nat | _ => True end).
Proof.
  intros [Hk Hm]. destruct (next_frame_returns c Hk Hm) as (r & c' & E & Hk' & [= _ _ Hm' _] & Hr).
  exists r, c'. split_and!; [done|by destruct r|split; [done|by rewrite Hm']|by destruct r].
Qed.

(** The distance of the listener from its end. *)
Definition wl_weight (pc : wlpc) : nat :=
  match pc with WGot _ _ _ => 6 | WTop => 5 | WRead _ _ => 4 | WDefer => 3 | WClosing => 2 | WDone => 1 | WStopped => 0 end.
Definition wl_measure (s : wlstate) : nat :=
  (match wl_pc s with
   | WTop | WRead _ _ | WGot _ _ _ => 3 * length (ws_stream (wl_ws s))
   | _ => 0
   end + wl_weight (wl_pc s) + (if wl_watching s then 1 else 0))%nat.

Definition wl_inv (s : wlstate) : Prop := ws_able (wl_ws s) /\ calls_ok (wl_pc s) (wl_out s).

Lemma calls_answer a c x out : messages_only out -> calls_ok (snd (on_answer a)) (wl_out (wl_answer a c x out)).
Proof.
  intros Hout. unfold wl_answer. destruct a as [[m|] [e|]]; cbn.
  all: try (by apply Forall_app; repeat constructor).
  all: exists out; eexists; split; [reflexivity|]; split; [done|]; destruct e; eauto; case_bool_decide; eauto.
Qed.

Lemma weight_answer a : (wl_weight (snd (on_answer a)) <= 5)%nat.
Proof. destruct a as [[m|] [e|]]; cbn; lia. Qed.

Lemma measure_answer a c x out :
  (wl_measure (wl_answer a c x out) <= 3 * length (ws_stream c) + 5 + (if x then 1 else 0))%nat.
Proof. destruct a as [[m|] [e|]]; cbn; lia. Qed.

Lemma Err_measure e c x out : (wl_measure (wl_answer (None, Some e) c x out) <= 3 + (if x then 1 else 0))%nat.
Proof. cbn. lia. Qed.

Lemma calls_ok_step b s s' : wl_step b s s' -> calls_ok (wl_pc s) (wl_out s) -> calls_ok (wl_pc s') (wl_out s').
Proof.
  intros Hstep Hout. destruct Hstep; cbn [wl_pc wl_out] in *; try done; try by apply calls_answer.
  destruct Hout as (ms & es & -> & Hms & Hes). exists ms, es. by rewrite <- app_assoc.
Qed.

(** Each step of the listener comes nearer its end. *)
Lemma wl_step_able b s s' :
  ws_able (wl_ws s) -> wl_step b s s' -> ws_able (wl_ws s') /\ (wl_measure s' < wl_measure s)%nat.
Proof.
  intros Ha Hstep.
  assert (forall e c c' x out, ws_able c' ->
    ws_able (wl_ws (wl_answer (None, Some e) c' x out)) /\
    (wl_measure (wl_answer (None, Some e) c' x out) < 3 * length (ws_stream c) + 4 + (if x then 1 else 0))%nat) as Herr.
  { intros e c c' x out Hc'. split; [done|]. pose proof (Err_measure e c' x out). lia. }
  destruct Hstep as [pc c out|pc c out Hd|c x out Hc|c x out Hc|op acc f c c' x out E|op acc e c c' x out E
    |op acc f op' acc' c c' x out E|op acc f a c c' x out E|op acc f e c c' x out E|c x out|c x out|c x out];
    cbn [wl_pc wl_ws wl_out wl_watching] in *.
  - destruct (WS_Close_kept c (proj1 Ha)) as (r & c' & -> & _ & K). split; [by eapply ws_kept_able|].
    unfold wl_measure. cbn [wl_pc wl_ws wl_watching snd]. rewrite (proj2 (proj2 K)). lia.
  - split; [done|]. unfold wl_measure. cbn [wl_pc wl_ws wl_watching]. lia.
  - destruct (Herr ErrTCPClientClosed c c x out Ha) as [? Hm]. split; [done|].
    unfold wl_measure at 2. cbn [wl_pc wl_ws wl_watching wl_weight]. lia.
  - split; [done|]. unfold wl_measure. cbn [wl_pc wl_ws wl_watching wl_weight]. lia.
  - destruct (next_frame_able c Ha) as (r & c2 & E2 & _ & Ha' & Hlt). rewrite E2 in E. simplify_eq.
    split; [done|]. unfold wl_measure. cbn [wl_pc wl_ws wl_watching wl_weight]. lia.
  - destruct (next_frame_able c Ha) as (r & c2 & E2 & _ & Ha' & _). rewrite E2 in E. simplify_eq.
    by apply Herr.
  - destruct (frame_turn_kept op acc f c Ha) as (r & c2 & E2 & _ & K). rewrite E2 in E. simplify_eq.
    split; [by eapply ws_kept_able|]. unfold wl_measure. cbn [wl_pc wl_ws wl_watching wl_weight].
    rewrite (proj2 (proj2 K)). lia.
  - destruct (frame_turn_kept op acc f c Ha) as (r & c2 & E2 & _ & K). rewrite E2 in E. simplify_eq.
    split; [by eapply ws_kept_able|].
    pose proof (measure_answer a c' x out) as Hm. rewrite (proj2 (proj2 K)) in Hm.
    unfold wl_measure at 2. cbn [wl_pc wl_ws wl_watching wl_weight]. lia.
  - destruct (frame_turn_kept op acc f c Ha) as (r & c2 & E2 & _ & K). rewrite E2 in E. simplify_eq.
    destruct (Herr e c c' x out) as [? Hm]; [by eapply ws_kept_able|]. split; [done|].
    unfold wl_measure at 2. cbn [wl_pc wl_ws wl_watching wl_weight]. lia.
  - split; [done|]. unfold wl_measure. cbn. lia.
  - destruct (WS_Close_kept c (proj1 Ha)) as (r & c' & -> & _ & K).
    split; [by eapply ws_kept_able|]. unfold wl_measure. cbn. lia.
  - split; [done|]. unfold wl_measure. cbn. lia.
Qed.

Lemma wl_step_inv b s s' : wl_inv s -> wl_step b s s' -> wl_inv s' /\ (wl_measure s' < wl_measure s)%nat.
Proof.
  intros [Ha Hout] Hstep. destruct (wl_step_able _ _ _ Ha Hstep). split; [|done].
  split; [done|by eapply calls_ok_step].
Qed.

Lemma env_inv b pc c c' x out :
  ws_env b c c' -> wl_inv (mkWL pc c x out) ->
  wl_inv (mkWL pc c' x out) /\ wl_measure (mkWL pc c' x out) = wl_measure (mkWL pc c x out).
Proof.
  intros He [Ha Hout]. pose proof (env_kept _ _ _ Ha He) as K. split; [split; [by eapply ws_kept_able|done]|].
  unfold wl_measure. cbn [wl_pc wl_ws wl_watching]. by rewrite (proj2 (proj2 K)).
Qed.

Lemma wl_run_inv calm n s s' :
  wl_run calm n s s' -> wl_inv s -> wl_inv s' /\ (n + wl_measure s' <= wl_measure s)%nat.
Proof.
  induction 1 as [s|n b s1 s2 s3 Hs Hb _ IH|n b pc c c' x out s3 He Hb _ IH]; intros Hi.
  - split; [done|lia].
  - destruct (wl_step_inv _ _ _ Hi Hs) as [Hi2 Hm]. destruct (IH Hi2). split; [done|lia].
  - destruct (env_inv _ _ _ _ x out He Hi) as [Hi2 Hm]. destruct (IH Hi2). split; [done|lia].
Qed.

Lemma wl_progress s : wl_inv s -> wl_pc s <> WStopped \/ wl_watching s = true -> exists s', wl_step false s s'.
Proof.
  intros [Ha _] Hp. destruct s as [pc c x out]. cbn [wl_pc wl_ws wl_watching] in *.
  destruct pc as [|op acc|op acc f| | | |].
  - destruct (ws_isClosed c) eqn:E; eexists; by constructor.
  - destruct (next_frame_able c Ha) as ([f|e| |] & c2 & E2 & Hr & _); try done; eexists; by econstructor.
  - destruct (frame_turn_kept op acc f c Ha) as ([[op' acc'|a]|e| |] & c2 & E2 & Hr & _); try done; eexists;
      by econstructor.
  - eexists; constructor.
  - eexists; constructor.
  - eexists; constructor.
  - destruct Hp as [?| ->]; [done|]. eexists. by apply wl_unwatch.
Qed.
End every_run.

Section every_run_thm.
Context `{Rand}.

(** C28: in every run of [Listen], whatever the peer sends, whenever the context
    is cancelled and however other goroutines write and close meanwhile:
    [onDone] is called exactly once, last, when the goroutine ends; [onError]
    at most once, just before it, and messages only before both; until both
    goroutines are gone one of them can go on without waiting for the
    context, and together they make at most
    three steps per byte the peer sends and six more. *)
Theorem WsListen_correct (c : WebSocketClient) (n : nat) (s : wlstate)
    (Hc : ws_able c) (Hrun : wl_run false n (wl_init c) s) :
  calls_ok (wl_pc s) (wl_out s) /\
  (wl_pc s <> WStopped \/ wl_watching s = true -> exists s', wl_step false s s') /\
  (n <= 3 * length (ws_stream c) + 6)%nat.
Proof.
  destruct (wl_run_inv _ _ _ _ Hrun) as [Hi Hm]; [by split; [|constructor]|].
  split; [apply Hi|]. split; [by apply wl_progress|].
  unfold wl_measure, wl_init in Hm. cbn [wl_pc wl_ws wl_watching wl_weight] in Hm. lia.
Qed.
End every_run_thm.

(** ** What a well-behaved peer gets through

    [feeds max op acc fs rest ms]: with the fragments [acc] of a message with
    opcode [op] collected ([0] and none between messages), the frames [fs] carry
    the messages [ms].  They end the stream, or their last is a close frame and
    [rest] comes behind it.  A ping may come anywhere, a pong only between
    messages: RFC 6455 allows a server to send one among the fragments of a
    message too, but the client then loses the message (theorem
    [pong_drops_fragments] of [WsClient]), so such servers are left out here and
    wherever a theorem speaks of a feed. *)
Inductive feeds (max : Z) : byte -> bytes -> list websocketFrame -> bytes -> list WebSocketMessage -> Prop :=
| feeds_end op acc : feeds max op acc [] [] []
| feeds_close op acc f rest : Opcode f = wsOpClose -> feeds max op acc [f] rest []
| feeds_ping op acc f fs rest ms :
    Opcode f = wsOpPing -> feeds max op acc fs rest ms -> feeds max op acc (f :: fs) rest ms
| feeds_pong f fs rest ms :
    Opcode f = wsOpPong -> feeds max Byte.x00 [] fs rest ms ->
    feeds max Byte.x00 [] (f :: fs) rest (mkMsg wsOpPong (Payload f) :: ms)
| feeds_single f fs rest ms :
    Opcode f = wsOpText \/ Opcode f = wsOpBinary -> Fin f = true -> feeds max Byte.x00 [] fs rest ms ->
    feeds max Byte.x00 [] (f :: fs) rest (mkMsg (Opcode f) (Payload f) :: ms)
| feeds_first f fs rest ms :
    Opcode f = wsOpText \/ Opcode f = wsOpBinary -> Fin f = false -> zlen (Payload f) <= max ->
    feeds max (Opcode f) (Payload f) fs rest ms -> feeds max Byte.x00 [] (f :: fs) rest ms
| feeds_more op acc f fs rest ms :
    op <> Byte.x00 -> Opcode f = wsOpContinuation -> Fin f = false -> zlen (acc ++ Payload f) <= max ->
    feeds max op (acc ++ Payload f) fs rest ms -> feeds max op acc (f :: fs) rest ms
| feeds_last op acc f fs rest ms :
    op <> Byte.x00 -> Opcode f = wsOpContinuation -> Fin f = true -> zlen (acc ++ Payload f) <= max ->
    feeds max Byte.x00 [] fs rest ms ->
    feeds max op acc (f :: fs) rest (mkMsg op (acc ++ Payload f) :: ms).

Section delivery.
Context `{Rand} (Hrand : rand_works).

(** A write of another goroutine leaves the input alone. *)
Lemma WriteFrame_live c inp sent op p :
  zlen p <= maxAlloc -> ws_live false c inp sent ->
  exists sent', ws_live false (snd (WriteFrame op p c)) inp sent' /\ ws_conf (snd (WriteFrame op p c)) = ws_conf c.
Proof.
  intros Hp Hl. assert (ws_isClosed c = false) as Hcl by (by destruct Hl as (? & _ & _ & ? & _)).
  destruct (writeFrameLocked_live false c inp sent op p _ Hl (rand_key _ Hrand)) as (c' & E & Hl' & Hc' & _);
    [unfold maxAlloc in Hp; lia|].
  unfold WriteFrame, get, bind. rewrite Hcl, E. eauto.
Qed.

Lemma ws_live_flag b b' c inp sent : ws_live b c inp sent -> ws_live b' (ws_set_closed b' c) inp sent.
Proof. intros (k & ? & ? & ? & ? & ? & ? & ?). exists k. by split_and!. Qed.

(** A reader at the end of its stream. *)
Lemma read_frame_end {S : Type} `{ReaderLaws S} (max : Z) (s : S) :
  r_pending s [] ->
  exists s', readWebSocketFrameWithLimit max s = (Err EOF, s') /\ r_pending s' [] /\
    wside (r_conn s') = wside (r_conn s).
Proof.
  intros Hp. destruct (r_ReadFull_short 2 s [] Hp) as (s' & E & Hp'); [simpl; lia|].
  pose proof (read_frame_wside max s) as Hw.
  unfold readWebSocketFrameWithLimit in *. rewrite (bind_Err _ _ _ _ _ E) in *. eauto.
Qed.

(** At the end of the stream the next frame is [EOF]; the client is marked
    closed and its transport stays open. *)
Lemma read_frame_eof cl c sent :
  ws_live cl c [] sent -> exists c', read_frame c = (Err EOF, c') /\ ws_live cl c' [] sent /\ ws_conf c' = ws_conf c.
Proof.
  intros (k & Hk & Ht & Hcl & Hwr & Hs & Hc & Hr). unfold read_frame. rewrite Hk.
  destruct (ws_reader c) as [[buf err]|] eqn:Er.
  - destruct (read_frame_end (S := bufio) (ws_maxPayloadSize c) (mkBufio buf err k)) as (b & -> & Hp & Hw); [exact Hr|]. apply wside_inv in Hw as (? & ? & ?).
    eexists. split; [reflexivity|]. split; [|done]. exists (b_conn b). destruct b. cbn in *. split_and!; try done; congruence.
  - destruct (read_frame_end (S := conn) (ws_maxPayloadSize c) k) as (k' & -> & (? & ? & ?) & Hw); [done|]. apply wside_inv in Hw as (? & ? & ?).
    eexists. split; [reflexivity|]. split; [|done]. exists k'. cbn in *. rewrite Er. split_and!; try done; congruence.
Qed.

Lemma next_frame_eof cl c sent :
  ws_live cl c [] sent -> exists c', next_frame c = (Err EOF, c') /\ ws_live true c' [] sent.
Proof.
  intros Hl. unfold next_frame, get, bind at 1. cbv beta iota. destruct (0 <? ws_readTimeout c).
  - destruct (deadline_live cl c _ sent _ (SetReadDeadline_ok (Some (ws_readTimeout c))) Hl) as (c1 & E1 & Hl1 & _ & _).
    rewrite (bind_Ok _ _ _ _ _ E1). destruct (read_frame_eof cl c1 sent Hl1) as (c2 & E2 & Hl2 & _).
    destruct (deadline_live cl c2 _ sent _ (SetReadDeadline_ok None) Hl2) as (c3 & E3 & Hl3 & _ & _).
    unfold catch, deferred. rewrite E2, E3. eexists. split; [reflexivity|]. by eapply ws_live_flag.
  - unfold bind, ret, catch. destruct (read_frame_eof cl c sent Hl) as (c2 & -> & Hl2 & _).
    eexists. split; [reflexivity|]. by eapply ws_live_flag.
Qed.

(** A round on the next frame of the feed. *)
Definition turn_ok (max : Z) (fs : list websocketFrame) (rest : bytes) (ms : list WebSocketMessage)
    (t : turn) (cl : bool) : Prop :=
  match t with
  | Again op acc => cl = false /\ feeds max op acc fs rest ms
  | Finish (_, Some e) => cl = true /\ (exists code reason, e = CloseError code reason) /\ fs = [] /\ ms = []
  | Finish (Some m, None) => cl = false /\ exists ms', ms = m :: ms' /\ feeds max Byte.x00 [] fs rest ms'
  | Finish (None, None) => False
  end.

Lemma frame_turn_feeds max op acc f fs key rest ms c inp sent :
  feeds max op acc (f :: fs) rest ms -> frame_ok max f key -> ws_maxPayloadSize c = max ->
  ws_live false c inp sent ->
  exists t c' cl sent', frame_turn op acc f c = (Ok t, c') /\ turn_ok max fs rest ms t cl /\
    ws_live cl c' inp sent' /\ ws_conf c' = ws_conf c.
Proof.
  intros Hf Hok Hmax Hl. unfold frame_turn, on_frame, get, bind at 1. cbv beta iota zeta. rewrite Hmax.
  inversion Hf as [|? ? ? ? Ho|? ? ? ? ? ? Ho Hfs|? ? ? ? Ho Hfs|? ? ? ? Ho Hfin Hfs|? ? ? ? Ho Hfin Hle Hfs
    |? ? ? ? ? ? Hn Ho Hfin Hle Hfs|? ? ? ? ? ? Hn Ho Hfin Hle Hfs]; subst.
  - rewrite Ho. decide_consts. destruct (parseWebSocketClosePayload (Payload f)) as [code reason] eqn:Ep.
    assert (zlen reason <= zlen (Payload f)) as Hreason.
    { unfold parseWebSocketClosePayload in Ep. destruct (Payload f) as [|a [|b l]]; injection Ep as <- <-;
        unfold zlen; simpl; lia. }
    destruct (writeFrameLocked_live false c inp sent wsOpClose (be_put 2 (uwrap 16 code) ++ reason) _ Hl
      (rand_key _ Hrand)) as (c2 & E2 & L2 & C2 & _).
    { rewrite zlen_app. unfold zlen at 1. rewrite length_be_put. destruct Hok as (_ & _ & Ha & _).
      unfold maxAlloc in Ha. lia. }
    eexists (Finish _), _, true, _. split.
    { unfold ignore, writeCloseFrame, catch, modify, ret, bind. rewrite E2. reflexivity. }
    split; [by split_and!; eauto|]. split; [by eapply ws_live_flag|done].
  - rewrite Ho. decide_consts. destruct (auto_pong_live c inp sent (Payload f) [] Hrand Hl) as (c2 & i & E2 & L2 & C2 & _).
    rewrite (bind_Ok _ _ _ _ _ E2). eexists (Again _ _), _, false, _. by split_and!.
  - rewrite Ho. decide_consts. eexists (Finish _), _, false, _. split_and!; try done. cbn. eauto.
  - rewrite Hfin. eexists (Finish (Some (mkMsg (Opcode f) (Payload f)), None)), c, false, _.
    split; [by destruct Ho as [-> | ->]; decide_consts|]. split_and!; try done. cbn. eauto.
  - rewrite Hfin. cbn [app]. rewrite (proj2 (Z.ltb_ge _ _)) by lia. eexists (Again (Opcode f) (Payload f)), c, false, _.
    split; [by destruct Ho as [-> | ->]; decide_consts|]. by split_and!.
  - rewrite Ho, Hfin. decide_consts. rewrite bool_decide_eq_false_2, (proj2 (Z.ltb_ge _ _)) by (done || lia).
    by eexists (Again _ _), c, false, _.
  - rewrite Ho, Hfin. decide_consts. rewrite bool_decide_eq_false_2, (proj2 (Z.ltb_ge _ _)) by (done || lia).
    eexists (Finish _), c, false, _. split_and!; try done. cbn. eauto.
Qed.

(** What a run of the listener nobody disturbs has done and has still to do. *)
Definition feeding (max : Z) (ms : list WebSocketMessage) (pre : list websocketFrame) (op : byte) (acc : bytes)
    (c : WebSocketClient) (out : list ws_callback) : Prop :=
  exists done todo fks rest sent,
    ms = done ++ todo /\ out = WsOnMessage <$> done /\ feeds max op acc (pre ++ (fst <$> fks)) rest todo /\
    Forall (fun fk => frame_ok max (fst fk) (snd fk)) fks /\ Forall (fun f => exists key, frame_ok max f key) pre /\
    ws_maxPayloadSize c = max /\ ws_live false c (wires fks ++ rest) sent.

Definition deliver_inv (max : Z) (ms : list WebSocketMessage) (s : wlstate) : Prop :=
  match wl_pc s with
  | WTop => feeding max ms [] Byte.x00 [] (wl_ws s) (wl_out s)
  | WRead op acc => feeding max ms [] op acc (wl_ws s) (wl_out s)
  | WGot op acc f => feeding max ms [f] op acc (wl_ws s) (wl_out s)
  | WStopped => wl_out s = (WsOnMessage <$> ms) ++ [WsOnDone] /\ exists inp sent, ws_live true (wl_ws s) inp sent
  | _ => wl_out s = WsOnMessage <$> ms /\ exists inp sent, ws_live true (wl_ws s) inp sent
  end.

Lemma feeding_write max ms pre op acc c out o p :
  zlen p <= maxAlloc -> feeding max ms pre op acc c out -> feeding max ms pre op acc (snd (WriteFrame o p c)) out.
Proof.
  intros Hp (d & t & fks & rest & sent & ? & ? & ? & ? & ? & Hm & Hl).
  destruct (WriteFrame_live c _ _ o p Hp Hl) as (sent' & Hl' & [= _ _ Hm' _]).
  exists d, t, fks, rest, sent'. split_and!; try done. by rewrite Hm'.
Qed.

Lemma WriteFrame_flagged c inp sent o p : ws_live true c inp sent -> snd (WriteFrame o p c) = c.
Proof. intros (k & _ & _ & Hcl & _). unfold WriteFrame, get, bind. by rewrite Hcl. Qed.

Lemma WS_Close_flagged c inp sent : ws_live true c inp sent -> WS_Close c = (Ok tt, c).
Proof.
  intros (k & _ & _ & Hcl & _). unfold WS_Close, get, modify, bind, ret. rewrite Hcl.
  destruct c. cbn in *. by subst.
Qed.

(** The answer of a finished round. *)
Lemma deliver_answer max ms done todo fks rest a c x cl sent :
  ms = done ++ todo -> turn_ok max (fst <$> fks) rest todo (Finish a) cl ->
  Forall (fun fk => frame_ok max (fst fk) (snd fk)) fks -> ws_maxPayloadSize c = max ->
  ws_live cl c (wires fks ++ rest) sent ->
  deliver_inv max ms (wl_answer a c x (WsOnMessage <$> done)).
Proof.
  intros -> Ht Hok Hm Hl. destruct a as [[m|] [e|]]; cbn in Ht.
  - destruct Ht as (-> & (code & reason & ->) & Hfs & ->). split; [cbn; by rewrite !app_nil_r|eauto].
  - destruct Ht as (-> & ms' & -> & Hf). exists (done ++ [m]), ms', fks, rest, sent.
    split_and!; try done; [by rewrite <- app_assoc|by rewrite fmap_app].
  - destruct Ht as (-> & (code & reason & ->) & Hfs & ->). split; [cbn; by rewrite !app_nil_r|eauto].
  - done.
Qed.

Lemma deliver_step max ms s s' : wl_step false s s' -> deliver_inv max ms s -> deliver_inv max ms s'.
Proof.
  intros Hstep Hi. remember false as b eqn:Eb. revert Eb Hi.
  destruct Hstep as [pc c out|pc c out Hd|c x out Hc|c x out Hc|op acc f c c' x out E|op acc e c c' x out E
    |op acc f op' acc' c c' x out E|op acc f a c c' x out E|op acc f e c c' x out E|c x out|c x out|c x out];
    intros Eb Hi; unfold deliver_inv in Hi |- *; cbn [wl_pc wl_ws wl_out] in Hi |- *; try done.
  - destruct Hi as (d & t & fks & rest & sent & ? & ? & ? & ? & ? & ? & (k & _ & _ & Hcl & _)). congruence.
  - destruct Hi as (d & t & [|[f1 key] fks] & rest & sent & Hms & Hout & Hf & Hok & _ & Hm & Hl).
    + inversion Hf; subst. destruct (next_frame_eof _ _ _ Hl) as (c2 & E2 & _). congruence.
    + apply Forall_cons in Hok as [Hok1 Hok]. cbn [fst snd] in Hok1.
      unfold wires in Hl. cbn [fmap list_fmap concat fst snd] in Hl. rewrite <- app_assoc in Hl. rewrite <- Hm in Hok1.
      destruct (next_frame_live false c f1 key _ sent Hok1 Hl) as (c2 & E2 & Hl2 & [= _ _ Hm2 _] & _).
      rewrite E2 in E. simplify_eq. exists d, t, fks, rest, sent. rewrite Hm2. split_and!; try done.
      repeat constructor. by exists key.
  - destruct Hi as (d & t & [|[f1 key] fks] & rest & sent & Hms & Hout & Hf & Hok & _ & Hm & Hl).
    + inversion Hf; subst. destruct (next_frame_eof _ _ _ Hl) as (c2 & E2 & Hl2). rewrite E2 in E. simplify_eq.
      cbn -[bool_decide]. rewrite bool_decide_eq_true_2 by done. rewrite !app_nil_r. eauto.
    + apply Forall_cons in Hok as [Hok1 Hok]. cbn [fst snd] in Hok1.
      unfold wires in Hl. cbn [fmap list_fmap concat fst snd] in Hl. rewrite <- app_assoc in Hl. rewrite <- Hm in Hok1.
      destruct (next_frame_live false c f1 key _ sent Hok1 Hl) as (c2 & E2 & _). congruence.
  - destruct Hi as (d & t & fks & rest & sent & Hms & Hout & Hf & Hok & [[key Hkey] _]%Forall_cons & Hm & Hl).
    destruct (frame_turn_feeds _ _ _ _ _ _ _ _ c _ sent Hf Hkey Hm Hl) as (t1 & c1 & cl & sent1 & E1 & Ht & Hl1 & [= _ _ Hm1 _]).
    rewrite E1 in E. simplify_eq. destruct Ht as [-> Ht]. exists d, t, fks, rest, sent1. split_and!; done || congruence.
  - destruct Hi as (d & t & fks & rest & sent & Hms & Hout & Hf & Hok & [[key Hkey] _]%Forall_cons & Hm & Hl).
    destruct (frame_turn_feeds _ _ _ _ _ _ _ _ c _ sent Hf Hkey Hm Hl) as (t1 & c1 & cl & sent1 & E1 & Ht & Hl1 & [= _ _ Hm1 _]).
    rewrite E1 in E. simplify_eq. by eapply (deliver_answer _ _ d t fks rest a c' x cl sent1).
  - destruct Hi as (d & t & fks & rest & sent & Hms & Hout & Hf & Hok & [[key Hkey] _]%Forall_cons & Hm & Hl).
    destruct (frame_turn_feeds _ _ _ _ _ _ _ _ c _ sent Hf Hkey Hm Hl) as (t1 & c1 & cl & sent1 & E1 & _). congruence.
  - destruct Hi as (Hout & inp & sent & Hl). rewrite (WS_Close_flagged _ _ _ Hl). cbn. eauto.
  - destruct Hi as (-> & Hl). done.
Qed.

Lemma deliver_env max ms pc c c' x out :
  ws_env false c c' -> deliver_inv max ms (mkWL pc c x out) -> deliver_inv max ms (mkWL pc c' x out).
Proof.
  intros He Hi. remember false as b eqn:Eb. destruct He as [o p c Hp|c]; [|done]. unfold deliver_inv in *.
  cbn [wl_pc wl_ws wl_out] in *. destruct pc; try (by apply feeding_write);
    destruct Hi as (Hout & inp & sent & Hl); rewrite (WriteFrame_flagged _ _ _ o p Hl); eauto.
Qed.

Lemma deliver_run max ms n s s' : wl_run true n s s' -> deliver_inv max ms s -> deliver_inv max ms s'.
Proof.
  induction 1 as [s|n b s1 s2 s3 Hs Hb _ IH|n b pc c c' x out s3 He Hb _ IH]; intros Hi; [done| |].
  - rewrite (Hb eq_refl) in Hs. eauto using deliver_step.
  - rewrite (Hb eq_refl) in He. eauto using deliver_env.
Qed.

Lemma deliver_init c fks rest ms sent :
  Forall (fun fk => frame_ok (ws_maxPayloadSize c) (fst fk) (snd fk)) fks ->
  feeds (ws_maxPayloadSize c) Byte.x00 [] (fst <$> fks) rest ms ->
  ws_live false c (wires fks ++ rest) sent -> deliver_inv (ws_maxPayloadSize c) ms (wl_init c).
Proof. intros Hok Hf Hl. exists [], ms, fks, rest, sent. by split_and!. Qed.
End delivery.

Section delivery_thms.
Context `{Rand}.

(** The listener hands over exactly what a well-behaved peer sends: whatever
    messages it sends, however it cuts them into fragments, puts pings and
    pongs between and ends with a close frame or the end of the stream, and
    whatever other goroutines write meanwhile, when nobody closes the client
    the calls are those messages, in order, and then [onDone]. *)
Theorem WsListen_delivers (c : WebSocketClient) (fks : list (websocketFrame * bytes)) (rest sent : bytes)
    (ms : list WebSocketMessage) (n : nat) (s : wlstate)
    (Hrand : rand_works)
    (Hframes : Forall (fun fk => frame_ok (ws_maxPayloadSize c) (fst fk) (snd fk)) fks)
    (Hfeed : feeds (ws_maxPayloadSize c) Byte.x00 [] (fst <$> fks) rest ms)
    (Hlive : ws_live false c (wires fks ++ rest) sent)
    (Hrun : wl_run true n (wl_init c) s) (Hstop : wl_pc s = WStopped) :
  wl_out s = (WsOnMessage <$> ms) ++ [WsOnDone].
Proof.
  pose proof (deliver_run Hrand _ _ _ _ _ Hrun (deliver_init _ _ _ _ _ Hframes Hfeed Hlive)) as Hi.
  unfold deliver_inv in Hi. rewrite Hstop in Hi. apply Hi.
Qed.

(** The listener leaks its transport: when the peer has ended the stream or
    sent a close frame, the client is marked closed by the read, so the
    listener's own deferred [Close], and any later one, does nothing; the
    goroutines are gone and the connection is open for ever. *)
Theorem WsListen_leaks (c : WebSocketClient) (fks : list (websocketFrame * bytes)) (rest sent : bytes)
    (ms : list WebSocketMessage) (n : nat) (s : wlstate)
    (Hrand : rand_works)
    (Hframes : Forall (fun fk => frame_ok (ws_maxPayloadSize c) (fst fk) (snd fk)) fks)
    (Hfeed : feeds (ws_maxPayloadSize c) Byte.x00 [] (fst <$> fks) rest ms)
    (Hlive : ws_live false c (wires fks ++ rest) sent)
    (Hrun : wl_run true n (wl_init c) s) (Hstop : wl_pc s = WStopped) :
  WS_Close (wl_ws s) = (Ok tt, wl_ws s) /\
  exists k, t_conn (ws_tcp (wl_ws s)) = Some k /\ c_closed k = false.
Proof.
  pose proof (deliver_run Hrand _ _ _ _ _ Hrun (deliver_init _ _ _ _ _ Hframes Hfeed Hlive)) as Hi.
  unfold deliver_inv in Hi. rewrite Hstop in Hi. destruct Hi as (_ & inp & sent' & Hl).
  split; [by eapply WS_Close_flagged|]. destruct Hl as (k & ? & _ & _ & _ & _ & ? & _). eauto.
Qed.
End delivery_thms.

(** ** Pinging *)

Inductive ppc := PWaiting | PStopped.

(** The payload [StartPing] sends. *)
Definition ping_payload (payload : bytes) : bytes :=
  if 125 <? zlen payload then take 125 payload else payload.

Section ping.
Context `{Rand}.

(** The state the call of [StartPing] leaves: no goroutine without an interval. *)
Definition StartPing (interval : Z) (c : WebSocketClient) : ppc * WebSocketClient :=
  (if interval <=? 0 then PStopped else PWaiting, c).

(** The goroutine: the context is done, or the ticker ticks.  The label says
    whether it was a tick that sent a ping. *)
Inductive ping_step (payload : bytes) : bool -> ppc * WebSocketClient -> ppc * WebSocketClient -> Prop :=
| ping_ctx c : ping_step payload false (PWaiting, c) (PStopped, snd (WS_Close c))
| ping_closed c : ws_isClosed c = true -> ping_step payload false (PWaiting, c) (PStopped, c)
| ping_sent c c' :
    ws_isClosed c = false -> Ping (ping_payload payload) c = (Ok tt, c') ->
    ping_step payload true (PWaiting, c) (PWaiting, c')
| ping_failed c c' e :
    ws_isClosed c = false -> Ping (ping_payload payload) c = (Err e, c') ->
    ping_step payload false (PWaiting, c) (PStopped, snd (WS_Close c')).

(** [n] pings from the [i]-th random draw on. *)
Fixpoint ping_frames (payload : bytes) (i n : nat) : bytes :=
  match n with
  | O => []
  | S n => frame_wire (mkFrame true wsOpPing true (ping_payload payload)) (key_at i) ++ ping_frames payload (S i) n
  end.

Inductive ping_run (payload : bytes) : nat -> ppc * WebSocketClient -> ppc * WebSocketClient -> Prop :=
| ping_nil s : ping_run payload 0 s s
| ping_more n b s1 s2 s3 :
    ping_step payload b s1 s2 -> ping_run payload n s2 s3 ->
    ping_run payload (if b then S n else n) s1 s3.

Lemma ping_payload_length payload : zlen (ping_payload payload) <= 125.
Proof. unfold ping_payload. case_if; [|lia]. unfold zlen. rewrite length_take. lia. Qed.

Lemma Ping_payload payload c : Ping (ping_payload payload) c = WriteFrame wsOpPing (ping_payload payload) c.
Proof. unfold Ping. by rewrite (proj2 (Z.ltb_ge _ _)) by apply ping_payload_length. Qed.

(** What the pinger does to the client others may do: the listener's theorems
    hold beside it. *)
Lemma ping_step_env payload b pc c pc' c' :
  ping_step payload b (pc, c) (pc', c') ->
  c' = c \/ (exists b, ws_env b c c') \/ exists c1, ws_env false c c1 /\ ws_env true c1 c'.
Proof.
  assert (zlen (ping_payload payload) <= maxAlloc) as Hp.
  { pose proof (ping_payload_length payload). unfold maxAlloc. lia. }
  intros Hs. inversion Hs as [c0|c0 Hc|c0 c1 Hc E|c0 c1 e Hc E]; subst.
  - right. left. exists true. constructor.
  - by left.
  - right. left. exists false. rewrite Ping_payload in E.
    pose proof (env_write wsOpPing (ping_payload payload) c Hp) as He. by rewrite E in He.
  - right. right. exists c1. rewrite Ping_payload in E.
    pose proof (env_write wsOpPing (ping_payload payload) c Hp) as He. rewrite E in He. split; [done|constructor].
Qed.

(** A tick on a live client. *)
Lemma Ping_live payload c inp sent :
  rand_works -> ws_live false c inp sent ->
  exists c', Ping (ping_payload payload) c = (Ok tt, c') /\ ws_draws c' = S (ws_draws c) /\
    ws_live false c' inp (sent ++ frame_wire (mkFrame true wsOpPing true (ping_payload payload)) (key_at (ws_draws c))).
Proof.
  intros Hr Hl. pose proof (ping_payload_length payload). assert (ws_isClosed c = false) as Hcl by (by destruct Hl as (? & _ & _ & ? & _)).
  destruct (writeFrameLocked_live false c inp sent wsOpPing (ping_payload payload) _ Hl (rand_key _ Hr))
    as (c' & E & Hl' & _ & Hd); [lia|].
  exists c'. rewrite Ping_payload. unfold WriteFrame, get, bind. by rewrite Hcl, E.
Qed.

(** However often the ticker ticks, the pinger sends exactly that many
    pings, each with the first 125 bytes of its payload, and never the size
    error of [Ping]; it stops only when the context is done. *)
Theorem StartPing_correct (payload : bytes) (interval : Z) (c c' : WebSocketClient) (pc : ppc)
    (inp sent : bytes) (n : nat)
    (Hrand : rand_works) (Hint : 0 < interval) (Hlive : ws_live false c inp sent)
    (Hrun : ping_run payload n (StartPing interval c) (pc, c')) :
  match pc with
  | PWaiting => ws_live false c' inp (sent ++ ping_frames payload (ws_draws c) n)
  | PStopped => exists c1, ws_live false c1 inp (sent ++ ping_frames payload (ws_draws c) n) /\ c' = snd (WS_Close c1)
  end.
Proof.
  unfold StartPing in Hrun. rewrite (proj2 (Z.leb_gt _ _)) in Hrun by done.
  remember (PWaiting, c) as s eqn:Es. remember (pc, c') as s' eqn:Es'.
  revert c sent Hlive Es Es'. induction Hrun as [s|n b s1 s2 s3 Hs Hrun IH]; intros c sent Hl -> Es'.
  - injection Es' as <- <-. cbn. by rewrite app_nil_r.
  - assert (ws_isClosed c = false) as Hcl by (by destruct Hl as (? & _ & _ & ? & _)).
    destruct (Ping_live payload c inp sent Hrand Hl) as (c1 & E1 & Hd1 & Hl1).
    inversion Hs as [c0|c0 Hc|c0 c2 Hc E|c0 c2 e Hc E]; subst; try congruence.
    + inversion Hrun as [?|? ? ? ? ? Hs2 _]; subst; [|by inversion Hs2].
      exists c. cbn. by rewrite app_nil_r.
    + rewrite E1 in E. injection E as <-. cbn [ping_frames].
      specialize (IH c1 _ Hl1 eq_refl eq_refl). rewrite Hd1, <- app_assoc in IH. exact IH.
Qed.
End ping.

(** ** JSON messages *)

Section json.
Context `{Rand} `{JSON}.

Definition SendJSON (v : goval) : GoM WebSocketClient unit :=
  match json_Marshal v with
  | inr err => fail err
  | inl data => SendText data
  end.

(** [ReadJSON] into an [any]: the value decoded. *)
Definition ReadJSON : GoM WebSocketClient goval :=
  do r <- ReadMessage;
  match r with
  | (_, Some err) => fail err
  | (None, None) => fail EOF
  | (Some msg, None) =>
      if negb (bool_decide (m_Opcode msg = wsOpText)) && negb (bool_decide (m_Opcode msg = wsOpBinary))
      then fail (Errorf "websocket message is not JSON-compatible opcode: %d" [AInt (b2z (m_Opcode msg))])
      else match json_Unmarshal (m_Data msg) with
           | inl v => ret v
           | inr err => fail err
           end
  end.

(** The frame [SendJSON] puts on the wire. *)
Lemma SendJSON_live v data c inp sent :
  rand_works -> json_Marshal v = inl data -> zlen data <= maxAlloc -> ws_live false c inp sent ->
  exists c', SendJSON v c = (Ok tt, c') /\
    ws_live false c' inp (sent ++ frame_wire (mkFrame true wsOpText true data) (key_at (ws_draws c))).
Proof.
  intros Hr Hv Hlen Hl. assert (ws_isClosed c = false) as Hcl by (by destruct Hl as (? & _ & _ & ? & _)).
  destruct (writeFrameLocked_live false c inp sent wsOpText data _ Hl (rand_key _ Hr)) as (c' & E & Hl' & _ & _);
    [unfold maxAlloc in Hlen; lia|].
  exists c'. split; [|done]. unfold SendJSON, SendText, WriteFrame, get, bind. by rewrite Hv, Hcl, E.
Qed.

(** What one end sends with [SendJSON] the other end reads with
    [ReadJSON]: the receiver, whose unread input is what the sender has sent,
    gets the value as JSON keeps it, whatever the masks and the settings, and
    nothing is left over. *)
Theorem SendJSON_ReadJSON (v : goval) (data inp sent' : bytes) (c1 c2 : WebSocketClient)
    (Hrand : rand_works) (Hv : json_keeps v)
    (Hmar : json_Marshal v = inl data) (Hlen : zlen data <= maxAlloc)
    (Hmax : zlen data <= ws_maxPayloadSize c2)
    (Hlive1 : ws_live false c1 inp []) :
  exists c1' wire, SendJSON v c1 = (Ok tt, c1') /\ ws_live false c1' inp wire /\
    (ws_live false c2 wire sent' ->
     exists c2', ReadJSON c2 = (Ok (json_image v), c2') /\ ws_live false c2' [] sent').
Proof.
  destruct (SendJSON_live v data c1 inp [] Hrand Hmar Hlen Hlive1) as (c1' & E1 & Hl1).
  exists c1', (frame_wire (mkFrame true wsOpText true data) (key_at (ws_draws c1))).
  split; [done|]. split; [done|]. intros Hl2.
  destruct (read_message_whole (S (length (ws_stream c2))) (ws_maxPayloadSize c2) (ws_disableAutoPong c2) c2 Byte.x00
    [(mkFrame true wsOpText true data, key_at (ws_draws c1))] wsOpText data [] [] sent')
    as (c2' & E2 & Hl2' & _); try done.
  - constructor; [|constructor]. by split_and!; [|by eapply rand_Read_len, rand_key|exact Hlen|].
  - apply (message_single _ (mkFrame true wsOpText true data)); [by left|done].
  - cbn. lia.
  - unfold wires. cbn [fmap list_fmap concat fst snd]. by rewrite !app_nil_r.
  - exists c2'. cbn [pongs] in Hl2'. rewrite app_nil_r in Hl2'. split; [|done].
    assert (ReadMessage c2 = (Ok (Some (mkMsg wsOpText data), None), c2')) as Em.
    { unfold ReadMessage, get, bind at 1. cbv beta iota.
      by assert (ws_isClosed c2 = false) as -> by (by destruct Hl2 as (? & _ & _ & ? & _)). }
    unfold ReadJSON. rewrite (bind_Ok _ _ _ _ _ Em). cbn [m_Opcode m_Data]. decide_consts.
    by rewrite (json_roundtrip v data Hv Hmar).
Qed.

(** A pong makes [ReadJSON] fail: [ReadMessage] returns pongs as messages,
    so on a client that pings, the answer to the ping is an error of the next
    [ReadJSON], and the JSON message behind it is still unread. *)
Theorem ReadJSON_fails_on_pong (c : WebSocketClient) (f : websocketFrame) (key rest sent : bytes)
    (Hok : frame_ok (ws_maxPayloadSize c) f key) (Hop : Opcode f = wsOpPong)
    (Hlive : ws_live false c (frame_wire f key ++ rest) sent) :
  exists c', ReadJSON c = (Err (Errorf "websocket message is not JSON-compatible opcode: %d" [AInt 10]), c') /\
    ws_live false c' rest sent.
Proof.
  destruct (next_frame_live false c f key rest sent Hok Hlive) as (c1 & E1 & L1 & _ & _).
  exists c1. split; [|done].
  assert (ReadMessage c = (Ok (Some (mkMsg wsOpPong (Payload f)), None), c1)) as Em.
  { unfold ReadMessage, get, bind at 1. cbv beta iota.
    assert (ws_isClosed c = false) as -> by (by destruct Hlive as (? & _ & _ & ? & _)).
    cbn [read_message]. rewrite (bind_Ok _ _ _ _ _ E1). unfold on_frame, get, bind at 1. cbv beta iota zeta.
    rewrite Hop. by decide_consts. }
  unfold ReadJSON. rewrite (bind_Ok _ _ _ _ _ Em). cbn [m_Opcode]. by decide_consts.
Qed.
End json.

(** ** Witnesses *)

(** The peer's frames: a fragmented text with a ping inside, a pong, a close. *)
Definition demo_feed : list (websocketFrame * bytes) :=
  [(mkFrame false wsOpText false (str "Hel"), demo_key);
   (mkFrame true wsOpPing false (str "?"), demo_key);
   (mkFrame true wsOpContinuation true (str "lo"), demo_key);
   (mkFrame true wsOpPong false (str "!"), demo_key);
   (mkFrame true wsOpClose false [], demo_key)].
Definition demo_messages : list WebSocketMessage :=
  [mkMsg wsOpText (str "Hello"); mkMsg wsOpPong (str "!")].
Definition demo_client : WebSocketClient := demo_ws (wires demo_feed ++ []).

Lemma demo_ws_live inp : inp <> [] -> ws_live false (demo_ws inp) inp [].
Proof.
  intros Hne. eexists. do 6 (split; [reflexivity|]). split_and!; [reflexivity|reflexivity| |].
  - by repeat constructor.
  - cbn. by rewrite app_nil_r.
Qed.

Lemma demo_feed_ok : Forall (fun fk => frame_ok 1000 (fst fk) (snd fk)) demo_feed.
Proof. repeat constructor; vm_compute; congruence. Qed.

Lemma demo_feeds : feeds 1000 Byte.x00 [] (fst <$> demo_feed) [] demo_messages.
Proof.
  apply feeds_first; [by left|done|vm_compute; congruence|]. apply feeds_ping; [done|].
  apply (feeds_last 1000 wsOpText (str "Hel")); [done|done|done|vm_compute; congruence|].
  apply feeds_pong; [done|]. by apply feeds_close.
Qed.

Lemma demo_client_live : ws_live false demo_client (wires demo_feed ++ []) [].
Proof. apply demo_ws_live. vm_compute. congruence. Qed.

Lemma WsListen_correct_witness :
  let s := Nat.iter 5 wl_next (wl_init demo_client) in
  calls_ok (wl_pc s) (wl_out s) /\
  (wl_pc s <> WStopped \/ wl_watching s = true -> exists s', wl_step false s s').
Proof.
  intros s. destruct (wl_exec_run false 5 (wl_init demo_client)) as [n Hn].
  destruct (WsListen_correct demo_client n s) as (H1 & H2 & _); [|exact Hn|by split].
  split; [by eexists|vm_compute; split; congruence].
Defined.

Lemma WsListen_delivers_witness :
  wl_out (Nat.iter 20 wl_next (wl_init demo_client)) = (WsOnMessage <$> demo_messages) ++ [WsOnDone].
Proof.
  destruct (wl_exec_run true 20 (wl_init demo_client)) as [n Hn].
  apply (WsListen_delivers demo_client demo_feed [] [] demo_messages n _ rand_counter_works demo_feed_ok
    demo_feeds demo_client_live Hn). vm_compute. reflexivity.
Defined.

Lemma WsListen_leaks_witness :
  let s := Nat.iter 20 wl_next (wl_init demo_client) in
  WS_Close (wl_ws s) = (Ok tt, wl_ws s) /\
  exists k, t_conn (ws_tcp (wl_ws s)) = Some k /\ c_closed k = false.
Proof.
  intros s. destruct (wl_exec_run true 20 (wl_init demo_client)) as [n Hn].
  apply (WsListen_leaks demo_client demo_feed [] [] demo_messages n s rand_counter_works demo_feed_ok
    demo_feeds demo_client_live Hn). vm_compute. reflexivity.
Defined.

Lemma StartPing_correct_witness :
  ws_live false (snd (Ping (ping_payload (str "p")) (demo_ws (str "x")))) (str "x")
    ([] ++ ping_frames (str "p") 0 1).
Proof.
  set (c' := snd (Ping (ping_payload (str "p")) (demo_ws (str "x")))).
  apply (StartPing_correct (str "p") 20 (demo_ws (str "x")) c' PWaiting (str "x") [] 1 rand_counter_works).
  - done.
  - by apply demo_ws_live.
  - apply (ping_more (str "p") 0 true _ (PWaiting, c')); [|constructor].
    apply ping_sent; [reflexivity|]. unfold c'. vm_compute. reflexivity.
Defined.

Lemma SendJSON_ReadJSON_witness :
  exists c1' wire, SendJSON (VMap ∅) (demo_ws (str "x")) = (Ok tt, c1') /\ ws_live false c1' (str "x") wire /\
    (ws_live false (demo_ws (frame_wire (mkFrame true wsOpText true (str "{}")) (key_at 0))) wire [] ->
     exists c2', ReadJSON (demo_ws (frame_wire (mkFrame true wsOpText true (str "{}")) (key_at 0)))
       = (Ok (json_image (VMap ∅)), c2') /\ ws_live false c2' [] []).
Proof.
  apply (SendJSON_ReadJSON (VMap ∅) (str "{}")).
  - exact rand_counter_works.
  - by split.
  - vm_compute. reflexivity.
  - vm_compute. congruence.
  - vm_compute. congruence.
  - by apply demo_ws_live.
Defined.

Lemma ReadJSON_fails_on_pong_witness :
  let f := mkFrame true wsOpPong false (str "ping") in
  exists c', ReadJSON (demo_ws (frame_wire f demo_key ++ str "rest"))
    = (Err (Errorf "websocket message is not JSON-compatible opcode: %d" [AInt 10]), c') /\
    ws_live false c' (str "rest") [].
Proof.
  intros f. apply (ReadJSON_fails_on_pong _ f demo_key).
  - by repeat split.
  - reflexivity.
  - apply demo_ws_live. vm_compute. congruence.
Defined.
