(* ===== verification/EndToEnd.v ===== *)
(** * EndToEnd: a WebSocket session from the address to the callbacks

    Composes the parts of a WebSocket client the way [NewWebSocketClient] and
    [Listen] of [network/websocket_client.go] do: the dialler and its proxies
    behind the interface [online], the upgrade, the pinger it starts, and the
    listener's callbacks, against a server that accepts the upgrade and then
    sends frames. *)

From S2P Require Import Prelude Bytes GoStrings Encoding NetAddr Conn Bufio Proxy HttpConnect Tcp Socks Dial Tunnel.
From S2P Require Import Http1 HttpClient WsFrame WsClient WsHandshake WsListen.

Local Open Scope Z_scope.

Section session.
Context `{Unicode} `{MapOrder} `{NetURL} `{Rand} `{Net} {P : Type}.
Implicit Types conf : WebSocketConfig P.

(** The whole of [NewWebSocketClient]: the client, and the state of the pinger
    that a positive interval starts. *)
Definition open_session (rawURL : bytes) conf (draws : nat) : GoM (world P) (ppc * WebSocketClient) :=
  do c <- NewWebSocketClient rawURL conf draws;
  ret (if 0 <? wc_PingInterval conf then StartPing (wc_PingInterval conf) c else (PStopped, c)).

(** Where a session goes. *)
Definition session_target conf (u : URL) (port : Z) : target (P := P) :=
  mkTarget (u_Hostname u) port (wc_Timeout conf) (wc_Picker conf) (firstLocalBind [wc_LocalBind conf]).

(** The limit on a message. *)
Definition session_max conf : Z := if wc_MaxPayloadSize conf <=? 0 then 16 * 1024 * 1024 else wc_MaxPayloadSize conf.

Lemma NewWebSocketClient_online rawURL conf draws w u port isTLS statusLine hs rnd rest sent :
  url_Parse (TrimSpace rawURL) = inl u -> u_Scheme u = (if isTLS : bool then str "wss" else str "ws") ->
  (if bool_decide (u_Port u = []) then Some (if isTLS then 443 else 80) else Atoi (u_Port u)) = Some port ->
  target_ok (session_target conf u port) ->
  online (session_target conf u port) isTLS w (statusLine ++ crlf ++ header_block hs ++ crlf ++ rest) sent ->
  rand_Read draws 16 = inl rnd ->
  line_ok statusLine -> parseHTTPStatusCode statusLine = inl 101 -> Forall header_ok hs ->
  switches (base64 rnd) hs ->
  exists c w', NewWebSocketClient rawURL conf draws w = (Ok c, w') /\ w_left w' = w_left w /\
    ws_maxPayloadSize c = session_max conf /\
    ws_live false c rest (sent ++ opening_request u (base64 rnd) conf).
Proof.
  intros Hurl Hscheme Hport Htarget Honline Hrnd Hline Hcode Hhs Hcheck.
  destruct (online_connects _ isTLS w _ _ [wc_LocalBind conf] Htarget eq_refl Honline) as (k & w1 & E1 & Hk & Hl1).
  set (tcp := mkTCP (Some k) (wc_Timeout conf) false).
  destruct (handshake_live u conf (new_client tcp conf draws) k statusLine rest rnd sent hs) as (c & E2 & Hl & Hconf); try done.
  exists c, w1. unfold NewWebSocketClient. rewrite Hurl. cbv zeta.
  cbn [tg_host tg_port tg_timeout tg_picker session_target] in E1. fold tcp in E1.
  assert (bool_decide (u_Scheme u = str "wss") = isTLS) as -> by (rewrite Hscheme; by destruct isTLS).
  assert (negb (bool_decide (u_Scheme u = str "ws")) && negb isTLS = false) as -> by (rewrite Hscheme; by destruct isTLS).
  destruct Htarget as (_ & Hne & _). cbn in Hne. rewrite bool_decide_eq_false_2 by done.
  assert (defaultWebSocketPort (u_Scheme u) = if isTLS then 443 else 80) as ->.
  { unfold defaultWebSocketPort. rewrite Hscheme.
    destruct isTLS; rewrite ToLower_ascii by (repeat constructor); reflexivity. }
  rewrite (proj2 (proj2 (upgrade_result_spec (base64 rnd) statusLine hs))) in E2 by done.
  unfold upgrade_rest in Hl. rewrite Hcode, upgrade_request_text in Hl.
  rewrite Hport. unfold bind. rewrite E1, E2. split_and!; try done. by injection Hconf.
Qed.

End session.

(** ** Witness *)

(** The server of [WsListen] behind the upgrade of [WsHandshake] and the proxy
    of [Socks], for a client that pings. *)
Definition demo_pinging : WebSocketConfig unit := mkWSConf 5 (Some demo_picker) None ∅ [] false [] 20 (str "p") 1000 0 false.
Definition demo_line : bytes := str "HTTP/1.1 101 Switching Protocols".
Definition demo_stream : bytes := demo_line ++ crlf ++ header_block demo_upgrade ++ crlf ++ wires demo_feed ++ [].
Definition demo_url : @URL simple_neturl := mkSimpleURL (str "ws") None (str "example.com").

