(* ===== verification/WsReconnect.v ===== *)
(** * WsReconnect: the reconnecting WebSocket client

    Models [network/websocket_reconnect.go].  [Run] is a goroutine that opens a
    client, starts its listener, waits for the listener's end or for the
    context, and tries again.  Clients are pointers that outlive their round of
    the loop, so the state keeps every client opened, with its listener
    ([WsListen.wlstate]), and [client] is an index into them.  A step is one of
    [Run], of one of the listeners, of the context, or of other goroutines,
    which may write to and close any client they could get from [Current] or
    [OnConnect]; the pinger that [NewWebSocketClient] starts is one of these. *)

From S2P Require Import Prelude Bytes GoStrings NetAddr Conn Proxy Tcp Dial Http1 WsFrame WsClient WsHandshake Json WsListen.

Local Open Scope Z_scope.

Record ReconnectWebSocketClient (P : Type) := mkReconnect {
  rc_URL : bytes;
  rc_Config : WebSocketConfig P;
  rc_ReconnectDelay : Z;
  rc_MaxReconnects : Z;
}.
Arguments mkReconnect {P}.
Arguments rc_URL {P}.
Arguments rc_Config {P}.
Arguments rc_ReconnectDelay {P}.
Arguments rc_MaxReconnects {P}.

(** The delay is in nanoseconds. *)
Definition NewReconnectWebSocketClient {P} (rawURL : bytes) (config : WebSocketConfig P)
    : ReconnectWebSocketClient P :=
  mkReconnect rawURL config (2 * 1000000000) (-1).

(** The calls of the callbacks, in order; the numbers of the clients are for
    the reader, [OnDisconnect] gets the error only. *)
Inductive rcall :=
| ROnConnect (i : nat)
| ROnMessage (i : nat) (m : WebSocketMessage)
| ROnError (e : error)
| ROnDisconnect (i : nat) (e : option error).

(** Where [Run] is: at the head of the loop; before [NewWebSocketClient]; with
    its error; before [r.client = ws], [OnConnect], [ws.Listen]; in the
    [select]; before [OnDisconnect], the reset of [r.client], [ws.Close]; in
    [sleepContext]; gone. *)
Inductive rpc :=
| RTop
| RConnect
| RFailed (e : error)
| RStore (i : nat)
| RConnected (i : nat)
| RListen (i : nat)
| RWait (i : nat)
| RDisc (i : nat) (e : option error)
| RClear (i : nat)
| RClose (i : nat)
| RSleep
| RReturned.

Record rstate (P : Type) := mkR {
  r_pc : rpc;
  r_done : bool;
  r_reconnects : Z;
  r_world : world P;
  r_client : option nat;
  r_conns : list wlstate;
  r_calls : list rcall;
}.
Arguments mkR {P}.
Arguments r_pc {P}.
Arguments r_done {P}.
Arguments r_reconnects {P}.
Arguments r_world {P}.
Arguments r_client {P}.
Arguments r_conns {P}.
Arguments r_calls {P}.

(** What the listener has put into the channel [done]: [notifyOnce] lets the
    first of its two callbacks through. *)
Fixpoint done_value (out : list ws_callback) : option (option error) :=
  match out with
  | [] => None
  | WsOnMessage _ :: out => done_value out
  | WsOnError e :: _ => Some (Some e)
  | WsOnDone :: _ => Some None
  end.

(** The listener of client [i] has been started. *)
Definition started (pc : rpc) (i : nat) : bool :=
  match pc with
  | RStore j | RConnected j | RListen j => negb (Nat.eqb i j)
  | _ => true
  end.

(** The calls of [OnMessage] among new callbacks of listener [i]. *)
Definition new_messages (i : nat) (out out' : list ws_callback) : list rcall :=
  omap (fun cb => match cb with WsOnMessage m => Some (ROnMessage i m) | _ => None end)
    (drop (length out) out').

(** Apply [f] to the client of a listener. *)
Definition on_client (f : WebSocketClient -> WebSocketClient) (s : wlstate) : wlstate :=
  mkWL (wl_pc s) (f (wl_ws s)) (wl_watching s) (wl_out s).

(** What [sleepContext] waits for. *)
Inductive fired := TimerFired | CtxDone.

Definition sleepContext (d : Z) (first : fired) : bool :=
  if d <=? 0 then true else match first with CtxDone => false | TimerFired => true end.

Section run.
Context `{Unicode} `{MapOrder} `{NetURL} `{Rand} `{Net} {P : Type}.
Context (r : ReconnectWebSocketClient P).

Definition close_client (s : wlstate) : wlstate := on_client (fun c => snd (WS_Close c)) s.

(** [r.MaxReconnects >= 0 && reconnects > r.MaxReconnects]. *)
Definition exhausted (reconnects : Z) : bool :=
  (0 <=? rc_MaxReconnects r) && (rc_MaxReconnects r <? reconnects).

(** A step of [Run]; the label says whether it opens a client. *)
Inductive run_step : bool -> rstate P -> rstate P -> Prop :=
| r_ctx_done n w cl cs out :
    run_step false (mkR RTop true n w cl cs out)
      (mkR RReturned true n w cl (match cl with Some i => alter close_client i cs | None => cs end) out)
| r_exhausted n w cl cs out :
    exhausted n = true ->
    run_step false (mkR RTop false n w cl cs out) (mkR RReturned false n w cl cs out)
| r_again n w cl cs out :
    exhausted n = false ->
    run_step false (mkR RTop false n w cl cs out) (mkR RConnect false n w cl cs out)
| r_failed d n w cl cs out draws e w' :
    NewWebSocketClient (rc_URL r) (rc_Config r) draws w = (Err e, w') ->
    run_step true (mkR RConnect d n w cl cs out) (mkR (RFailed e) d n w' cl cs out)
| r_opened d n w cl cs out draws ws w' :
    NewWebSocketClient (rc_URL r) (rc_Config r) draws w = (Ok ws, w') ->
    run_step true (mkR RConnect d n w cl cs out) (mkR (RStore (length cs)) d n w' cl (cs ++ [wl_init ws]) out)
| r_on_error d n w cl cs out e :
    run_step false (mkR (RFailed e) d n w cl cs out) (mkR RSleep d (n + 1) w cl cs (out ++ [ROnError e]))
| r_store d n w cl cs out i :
    run_step false (mkR (RStore i) d n w cl cs out) (mkR (RConnected i) d n w (Some i) cs out)
| r_on_connect d n w cl cs out i :
    run_step false (mkR (RConnected i) d n w cl cs out) (mkR (RListen i) d n w cl cs (out ++ [ROnConnect i]))
| r_listen d n w cl cs out i :
    run_step false (mkR (RListen i) d n w cl cs out) (mkR (RWait i) d n w cl cs out)
| r_wait_ctx n w cl cs out i :
    run_step false (mkR (RWait i) true n w cl cs out) (mkR RReturned true n w cl (alter close_client i cs) out)
| r_wait_done d n w cl cs out i s e :
    cs !! i = Some s -> done_value (wl_out s) = Some e ->
    run_step false (mkR (RWait i) d n w cl cs out) (mkR (RDisc i e) d n w cl cs out)
| r_on_disconnect d n w cl cs out i e :
    run_step false (mkR (RDisc i e) d n w cl cs out) (mkR (RClear i) d n w cl cs (out ++ [ROnDisconnect i e]))
| r_clear d n w cl cs out i :
    run_step false (mkR (RClear i) d n w cl cs out)
      (mkR (RClose i) d n w (if bool_decide (cl = Some i) then None else cl) cs out)
| r_close d n w cl cs out i :
    run_step false (mkR (RClose i) d n w cl cs out) (mkR RSleep d (n + 1) w cl (alter close_client i cs) out)
| r_slept d n w cl cs out first :
    (first = CtxDone -> d = true) -> sleepContext (rc_ReconnectDelay r) first = true ->
    run_step false (mkR RSleep d n w cl cs out) (mkR RTop d n w cl cs out)
| r_sleep_ctx n w cl cs out :
    sleepContext (rc_ReconnectDelay r) CtxDone = false ->
    run_step false (mkR RSleep true n w cl cs out) (mkR RReturned true n w cl cs out).

(** A step of a listener; its watcher closes the client when the context is done. *)
Inductive conn_step : rstate P -> rstate P -> Prop :=
| r_conn pc d n w cl cs out i b s s' :
    cs !! i = Some s -> started pc i = true -> wl_step b s s' -> (b = true -> d = true) ->
    conn_step (mkR pc d n w cl cs out)
      (mkR pc d n w cl (<[i := s']> cs) (out ++ new_messages i (wl_out s) (wl_out s'))).

(** The context is cancelled, or other goroutines use a client; the label says
    whether this closes one. *)
Inductive other_step : bool -> rstate P -> rstate P -> Prop :=
| r_cancel pc n w cl cs out :
    other_step true (mkR pc false n w cl cs out) (mkR pc true n w cl cs out)
| r_env pc d n w cl cs out i b s c' :
    cs !! i = Some s -> ws_env b (wl_ws s) c' ->
    other_step b (mkR pc d n w cl cs out) (mkR pc d n w cl (<[i := on_client (fun _ => c') s]> cs) out).

(** [r_run calm a n s s']: a run with [n] steps of [Run], [a] of which open a
    client.  In a calm run neither the context nor others close a client. *)
Inductive r_run (calm : bool) : nat -> nat -> rstate P -> rstate P -> Prop :=
| rr_nil s : r_run calm 0 0 s s
| rr_run a n b s1 s2 s3 :
    run_step b s1 s2 -> r_run calm a n s2 s3 -> r_run calm (if b then S a else a) (S n) s1 s3
| rr_conn a n s1 s2 s3 : conn_step s1 s2 -> r_run calm a n s2 s3 -> r_run calm a n s1 s3
| rr_other a n b s1 s2 s3 :
    other_step b s1 s2 -> (calm = true -> b = false) -> r_run calm a n s2 s3 -> r_run calm a n s1 s3.

(** The call of [Run]. *)
Definition Run (w : world P) : rstate P := mkR RTop false 0 w None [] [].

(** The other methods.  [Current] gives the index of the client. *)
Definition Current (s : rstate P) : option nat := r_client s.

Definition with_client (m : GoM WebSocketClient unit) (i : nat) : GoM (rstate P) unit := fun s =>
  match r_conns s !! i with
  | None => (Panic, s)
  | Some l =>
      let '(res, c') := m (wl_ws l) in
      (res, mkR (r_pc s) (r_done s) (r_reconnects s) (r_world s) (r_client s)
              (<[i := on_client (fun _ => c') l]> (r_conns s)) (r_calls s))
  end.

Definition R_SendText (text : bytes) : GoM (rstate P) unit := fun s =>
  match Current s with
  | None => (Err ErrTCPClientClosed, s)
  | Some i => with_client (SendText text) i s
  end.

Definition R_SendJSON `{JSON} (v : goval) : GoM (rstate P) unit := fun s =>
  match Current s with
  | None => (Err ErrTCPClientClosed, s)
  | Some i => with_client (SendJSON v) i s
  end.

Definition R_Close : GoM (rstate P) unit := fun s =>
  match Current s with
  | None => (Ok tt, s)
  | Some i => with_client WS_Close i s
  end.
End run.

Section methods.
Context `{Rand} `{JSON} {P : Type}.

Lemma with_client_other (m : GoM WebSocketClient unit) b i (s : rstate P) :
  (forall c, snd (m c) = c \/ ws_env b c (snd (m c))) ->
  snd (with_client m i s) = s \/ other_step b s (snd (with_client m i s)).
Proof.
  intros Hm. unfold with_client. destruct (r_conns s !! i) as [l|] eqn:El; [|by left].
  specialize (Hm (wl_ws l)). destruct (m (wl_ws l)) as [res c']. destruct s as [pc d n w cl cs out]. cbn in *.
  destruct Hm as [->|Hm]; [|by right; eapply r_env].
  left. f_equal. apply list_insert_id. rewrite El. by destruct l.
Qed.

(** The methods are what the run relation lets other goroutines do. *)
Lemma R_methods_other (s : rstate P) text v :
  zlen text <= maxAlloc -> (forall data, json_Marshal v = inl data -> zlen data <= maxAlloc) ->
  (snd (R_SendText text s) = s \/ other_step false s (snd (R_SendText text s))) /\
  (snd (R_SendJSON v s) = s \/ other_step false s (snd (R_SendJSON v s))) /\
  (snd (R_Close s) = s \/ other_step true s (snd (R_Close s))).
Proof.
  intros Ht Hv. unfold R_SendText, R_SendJSON, R_Close. destruct (Current s) as [i|]; [|by split_and!; left].
  split_and!; apply with_client_other; intros c.
  - right. by apply env_write.
  - unfold SendJSON. destruct (json_Marshal v) as [data|e] eqn:E; [|by left]. right. apply env_write. auto.
  - right. constructor.
Qed.
End methods.

(** ** Ends *)

(** How far [Run] is from the head of its loop. *)
Definition run_weight (pc : rpc) : nat :=
  match pc with
  | RReturned => 0 | RTop => 1 | RSleep => 2 | RClose _ | RFailed _ => 3 | RClear _ => 4 | RDisc _ _ => 5
  | RWait _ => 6 | RListen _ => 7 | RConnected _ => 8 | RStore _ => 9 | RConnect => 10
  end.

(** In a round: past the checks at the head of the loop. *)
Definition in_round (pc : rpc) : bool :=
  match pc with RReturned | RTop | RSleep => false | _ => true end.

Section ends.
Context `{Unicode} `{MapOrder} `{NetURL} `{Rand} `{Net} {P : Type}.
Context (r : ReconnectWebSocketClient P).

(** Rounds that may still begin. *)
Definition rounds_left (s : rstate P) : nat :=
  let rem := Z.to_nat (rc_MaxReconnects r + 1 - r_reconnects s) in
  match r_pc s with
  | RReturned => 0
  | RTop | RSleep => rem
  | _ => rem - 1
  end.
(** Clients that may still be opened. *)
Definition opens_left (s : rstate P) : nat :=
  (rounds_left s + match r_pc s with RConnect => 1 | _ => 0 end)%nat.
Definition run_measure (s : rstate P) : nat := (run_weight (r_pc s) + 10 * rounds_left s)%nat.

Definition round_inv (s : rstate P) : Prop :=
  in_round (r_pc s) = true -> r_reconnects s <= rc_MaxReconnects r.

Lemma run_step_bounds b (s s' : rstate P) :
  0 <= rc_MaxReconnects r -> round_inv s -> run_step r b s s' ->
  round_inv s' /\ (run_measure s' < run_measure s)%nat /\ ((if b then 1 else 0) + opens_left s' <= opens_left s)%nat.
Proof.
  intros Hmax Hi Hs. unfold round_inv, run_measure, opens_left, rounds_left in *.
  destruct Hs; unfold exhausted in *; cbn [r_pc r_reconnects in_round run_weight] in *;
    try specialize (Hi eq_refl); bools; (split; [try done; try lia|split; lia]).
Qed.

(** After the cancellation only the round that has begun goes on. *)
Lemma run_step_cancelled b (s s' : rstate P) :
  r_done s = true -> run_step r b s s' ->
  r_done s' = true /\ (run_weight (r_pc s') < run_weight (r_pc s))%nat /\ (b = true -> r_pc s = RConnect).
Proof. intros Hd Hs. destruct Hs; cbn in *; (split; [done|split; [lia|done]]). Qed.

Lemma conn_step_frame (s s' : rstate P) :
  conn_step s s' -> r_pc s' = r_pc s /\ r_reconnects s' = r_reconnects s /\ r_done s' = r_done s.
Proof. by intros []. Qed.

Lemma other_step_frame b (s s' : rstate P) :
  other_step b s s' -> r_pc s' = r_pc s /\ r_reconnects s' = r_reconnects s /\ (r_done s = true -> r_done s' = true).
Proof. by intros []. Qed.

Lemma bounds_frame (s s' : rstate P) :
  r_pc s' = r_pc s -> r_reconnects s' = r_reconnects s ->
  (round_inv s -> round_inv s') /\ run_measure s' = run_measure s /\ opens_left s' = opens_left s.
Proof. intros E1 E2. unfold round_inv, run_measure, opens_left, rounds_left. by rewrite E1, E2. Qed.

Lemma r_run_bounds calm a n (s s' : rstate P) :
  0 <= rc_MaxReconnects r -> r_run r calm a n s s' -> round_inv s ->
  round_inv s' /\ (n + run_measure s' <= run_measure s)%nat /\ (a + opens_left s' <= opens_left s)%nat.
Proof.
  intros Hmax Hrun. induction Hrun as [s|a n b s1 s2 s3 Hs _ IH|a n s1 s2 s3 Hs _ IH|a n b s1 s2 s3 Hs _ _ IH]; intros Hi.
  - split; [done|lia].
  - destruct (run_step_bounds _ _ _ Hmax Hi Hs) as (Hi2 & Hm & Ha). destruct (IH Hi2) as (? & ? & ?).
    split; [done|]. destruct b; lia.
  - destruct (conn_step_frame _ _ Hs) as (E1 & E2 & _). destruct (bounds_frame s1 s2 E1 E2) as (Hi2 & Hm & Ha).
    rewrite <- Hm, <- Ha. auto.
  - destruct (other_step_frame _ _ _ Hs) as (E1 & E2 & _). destruct (bounds_frame s1 s2 E1 E2) as (Hi2 & Hm & Ha).
    rewrite <- Hm, <- Ha. auto.
Qed.

Lemma r_run_cancelled calm a n (s s' : rstate P) :
  r_run r calm a n s s' -> r_done s = true ->
  (n + run_weight (r_pc s') <= run_weight (r_pc s))%nat /\
  (a <= match r_pc s with RConnect => 1 | _ => 0 end)%nat.
Proof.
  induction 1 as [s|a n b s1 s2 s3 Hs _ IH|a n s1 s2 s3 Hs _ IH|a n b s1 s2 s3 Hs _ _ IH]; intros Hd.
  - split; lia.
  - destruct (run_step_cancelled _ _ _ Hd Hs) as (Hd2 & Hw & Hb). destruct (IH Hd2) as [Hn Ha].
    split; [lia|]. destruct b.
    + rewrite (Hb eq_refl). destruct Hs; cbn in *; try lia; congruence.
    + assert (r_pc s2 <> RConnect) as Hc by (destruct Hs; cbn in *; congruence).
      destruct (r_pc s2); try done; destruct (r_pc s1); lia.
  - destruct (conn_step_frame _ _ Hs) as (<- & _ & E). rewrite <- E in Hd. auto.
  - destruct (other_step_frame _ _ _ Hs) as (<- & _ & E). auto.
Qed.

(** *** [Run] is never stuck *)

(** The client of the round is open, the listeners' calls are in order and
    their clients can be read from. *)
Definition round_client (pc : rpc) : option nat :=
  match pc with
  | RStore i | RConnected i | RListen i | RWait i | RDisc i _ | RClear i | RClose i => Some i
  | _ => None
  end.
Definition sound (s : rstate P) : Prop :=
  Forall wl_inv (r_conns s) /\ (forall i, round_client (r_pc s) = Some i -> (i < length (r_conns s))%nat) /\
  exists m, tidy m (r_world s).

Lemma close_client_inv s : wl_inv s -> wl_inv (close_client s).
Proof.
  intros [Ha Hout]. split; [|done]. unfold close_client, on_client. cbn [wl_ws]. destruct (WS_Close_kept (wl_ws s) (proj1 Ha)) as (? & c' & -> & _ & K).
  by eapply ws_kept_able.
Qed.

Lemma Forall_alter_inv i cs : Forall wl_inv cs -> Forall wl_inv (alter close_client i cs).
Proof. intros Hcs. apply Forall_alter; [done|]. intros s _. apply close_client_inv. Qed.

(** What a run needs of its configuration: a picker that returns, and a limit
    on messages that a slice can have. *)
Definition run_sane : Prop :=
  picker_returns (wc_Picker (rc_Config r)) /\ wc_MaxPayloadSize (rc_Config r) <= maxAlloc.

Lemma opened_able conf ws : wc_MaxPayloadSize conf <= maxAlloc -> opened (P := P) conf ws -> ws_able ws.
Proof.
  intros Hm [(Hk & _ & _) Hs]. split; [done|]. rewrite Hs. unfold maxAlloc in *. case_if; lia.
Qed.

Lemma run_step_sound b (s s' : rstate P) : run_sane -> sound s -> run_step r b s s' -> sound s'.
Proof.
  intros (Hpick & Hmax) (Hcs & Hi & m & Hw) Hs. unfold sound.
  destruct Hs; cbn [r_pc r_conns r_world round_client] in *;
    try (split_and!; [try done; try by apply Forall_alter_inv|
      intros j Hj; simplify_eq; try (by apply Hi); rewrite ?length_alter; try by apply Hi|eauto]; fail).
  - split_and!; [destruct cl; [by apply Forall_alter_inv|done]|done|eauto].
  - destruct (safely_NewWebSocketClient (rc_URL r) (rc_Config r) draws Hpick m w Hw) as (r1 & w1 & E & _ & Hr).
    rewrite E in *. simplify_eq. split_and!; [done|done|eauto].
  - destruct (safely_NewWebSocketClient (rc_URL r) (rc_Config r) draws Hpick m w Hw) as (r1 & w1 & E & _ & Hr).
    rewrite E in *. simplify_eq. destruct Hr as [Hw' Ho]. split_and!.
    + apply Forall_app. split; [done|]. constructor; [|done]. split; [by eapply opened_able|constructor].
    + intros j [= <-]. rewrite length_app. cbn. lia.
    + eauto.
Qed.

Lemma conn_step_sound (s s' : rstate P) : sound s -> conn_step s s' -> sound s'.
Proof.
  intros (Hcs & Hi & Hw) Hstep. destruct Hstep as [pc d n w cl cs out i b l l' Hl Hst Hs Hb]. unfold sound.
  cbn [r_pc r_conns r_world] in *. split_and!; [|by rewrite length_insert|done].
  apply Forall_insert; [done|]. eapply wl_step_inv; [|done]. by eapply Forall_lookup_1.
Qed.

Lemma other_step_sound b (s s' : rstate P) : sound s -> other_step b s s' -> sound s'.
Proof.
  intros (Hcs & Hi & Hw) Hstep. destruct Hstep as [pc n w cl cs out|pc d n w cl cs out i b l c' Hl He]; unfold sound;
    cbn [r_pc r_conns r_world] in *; [done|].
  split_and!; [|by rewrite length_insert|done]. apply Forall_insert; [done|]. destruct l as [lpc lc lx lout].
  eapply env_inv; [done|]. by eapply Forall_lookup_1 in Hl.
Qed.

Lemma r_run_sound calm a n (s s' : rstate P) : run_sane -> r_run r calm a n s s' -> sound s -> sound s'.
Proof.
  intros Hsane. induction 1; intros Hs; eauto using run_step_sound, conn_step_sound, other_step_sound.
Qed.

Lemma done_value_app out1 out2 : messages_only out1 -> done_value (out1 ++ out2) = done_value out2.
Proof. induction 1 as [|[] ? Hx ? IH]; try done. Qed.

Lemma stopped_done out : calls_ok WStopped out -> is_Some (done_value out).
Proof.
  intros (ms & es & -> & Hms & Hes). rewrite (done_value_app _ _ Hms). destruct Hes as [->|[e ->]]; by eexists.
Qed.

Lemma run_progress (s : rstate P) :
  run_sane -> sound s -> r_pc s <> RReturned ->
  (exists b s', run_step r b s s') \/ exists s', conn_step s s'.
Proof.
  intros (Hpick & Hmax) (Hcs & Hi & m & Hw) Hpc. destruct s as [pc d n w cl cs out].
  cbn [r_pc r_conns r_world] in *.
  destruct pc as [| |e|i|i|i|i|i e|i|i| |]; try (left; eexists _, _; constructor; fail).
  - left. destruct d; [eexists _, _; constructor|]. destruct (exhausted r n) eqn:E; eexists _, _; by constructor.
  - destruct (safely_NewWebSocketClient (rc_URL r) (rc_Config r) 0 Hpick m w Hw) as (r1 & w1 & E & _ & Hr).
    left. destruct r1 as [ws|e| |]; try done; eexists _, _; by econstructor.
  - destruct (lookup_lt_is_Some_2 cs i (Hi i eq_refl)) as [l Hl].
    pose proof (Forall_lookup_1 _ _ _ _ Hcs Hl) as Hinv. destruct (wl_pc l) eqn:Epc.
    7: { left. destruct Hinv as [_ Hc]. rewrite Epc in Hc. destruct (stopped_done _ Hc) as [e He].
         eexists _, _. by eapply r_wait_done. }
    all: right; destruct (wl_progress l Hinv) as [l' Hs]; [left; congruence|]; eexists; by eapply r_conn.
  - left. eexists _, _. apply (r_slept _ _ _ _ _ _ _ TimerFired); [done|]. unfold sleepContext. by case_if.
  - done.
Qed.

(** C29: a client with a limit does not reconnect for ever, if its picker
    returns and a slice can have its payload limit: in every run, whatever the servers, the network, the context, the callbacks and other
    goroutines do, [Run] opens at most [MaxReconnects + 1] clients and takes at
    most ten steps of its own for each of them and one more, and until it has
    returned it can go on, or the listener it waits for can.  (How long the
    listener of a client that is open goes on is the server's choice.) *)
Theorem Reconnect_terminates (w : world P) (a n : nat) (s : rstate P)
    (Hsane : run_sane) (Hw : tidy 0 w) (Hmax : 0 <= rc_MaxReconnects r)
    (Hrun : r_run r false a n (Run w) s) :
  Z.of_nat a <= rc_MaxReconnects r + 1 /\ Z.of_nat n <= 10 * (rc_MaxReconnects r + 1) + 1 /\
  (r_pc s <> RReturned -> (exists b s', run_step r b s s') \/ exists s', conn_step s s').
Proof.
  destruct (r_run_bounds _ _ _ _ _ Hmax Hrun) as (_ & Hn & Ha); [done|].
  unfold run_measure, opens_left, rounds_left, Run in Hn, Ha. cbn [r_pc r_reconnects run_weight] in Hn, Ha.
  split; [lia|]. split; [lia|]. apply run_progress; [done|]. eapply (r_run_sound _ _ _ _ _ Hsane Hrun).
  split_and!; [constructor|done|eauto].
Qed.

(** C30: cancelling the context stops [Run], also without a limit, if the picker
    returns and a slice can have the payload limit: from any state in which the context is done it opens no further client, except the
    one it may just be opening, and returns within ten steps of its own, and
    until then it, or the listener it waits for, can go on. *)
Theorem Reconnect_cancelled (w : world P) (a0 n0 a n : nat) (s s' : rstate P)
    (Hsane : run_sane) (Hw : tidy 0 w) (Hrun0 : r_run r false a0 n0 (Run w) s) (Hdone : r_done s = true)
    (Hrun : r_run r false a n s s') :
  (a <= match r_pc s with RConnect => 1 | _ => 0 end)%nat /\ (n <= 10)%nat /\
  (r_pc s' <> RReturned -> (exists b s'', run_step r b s' s'') \/ exists s'', conn_step s' s'').
Proof.
  destruct (r_run_cancelled _ _ _ _ _ Hrun Hdone) as [Hn Ha].
  split; [done|]. split; [destruct (r_pc s); cbn in Hn; lia|].
  apply run_progress; [done|]. eapply (r_run_sound _ _ _ _ _ Hsane Hrun), (r_run_sound _ _ _ _ _ Hsane Hrun0).
  split_and!; [constructor|done|eauto].
Qed.
End ends.

(** ** Closing by hand *)

Section manual.
Context `{Unicode} `{MapOrder} `{NetURL} `{Rand} `{Net} {P : Type}.
Context (r : ReconnectWebSocketClient P).

Lemma r_run_trans calm a1 n1 a2 n2 (s1 s2 s3 : rstate P) :
  r_run r calm a1 n1 s1 s2 -> r_run r calm a2 n2 s2 s3 -> exists a n, r_run r calm a n s1 s3.
Proof.
  induction 1 as [s|a n b s1 s2' s3' Hs _ IH|a n s1 s2' s3' Hs _ IH|a n b s1 s2' s3' Hs Hb _ IH]; intros H23; [eauto|..];
    destruct (IH H23) as (a' & n' & Hr); eexists _, _; [by eapply rr_run|by eapply rr_conn|by eapply rr_other].
Qed.

(** Left alone, the listener [Run] waits for stops. *)
Lemma conn_stops pc d n w cl cs out i l :
  Forall wl_inv cs -> cs !! i = Some l -> started pc i = true ->
  exists cs' l' out', r_run r false 0 0 (mkR pc d n w cl cs out) (mkR pc d n w cl cs' out') /\
    cs' !! i = Some l' /\ wl_pc l' = WStopped /\ wl_inv l'.
Proof.
  remember (wl_measure l) as k eqn:Ek. revert l cs out Ek.
  induction (lt_wf k) as [k _ IH]. intros l cs out -> Hcs Hl Hst.
  pose proof (Forall_lookup_1 _ _ _ _ Hcs Hl) as Hinv.
  assert (wl_pc l = WStopped \/ wl_pc l <> WStopped) as [Hp|Hp] by (destruct (wl_pc l); auto).
  { exists cs, l, out. split_and!; try done. constructor. }
  destruct (wl_progress l Hinv) as [l1 Hs]; [by left|]. destruct (wl_step_inv _ _ _ Hinv Hs) as [Hinv1 Hlt].
  destruct (IH _ Hlt l1 (<[i := l1]> cs) (out ++ new_messages i (wl_out l) (wl_out l1)) eq_refl)
    as (cs' & l' & out' & Hr & Hl' & Hp' & Hi'); [by apply Forall_insert| |done|].
  { apply list_lookup_insert_eq. by eapply lookup_lt_Some. }
  exists cs', l', out'. split_and!; try done. eapply rr_conn; [|done]. by eapply r_conn.
Qed.

(** Closing the reconnecting client by hand does not stop it: after
    [Close], with attempts left, [Run] goes on to open the next client, though
    the context was never cancelled. *)
Theorem Close_reconnects (s : rstate P) (i : nat)
    (Hs : sound s) (Hpc : r_pc s = RWait i) (Hcl : r_client s = Some i) (Hd : r_done s = false)
    (Hleft : exhausted r (r_reconnects s + 1) = false) :
  exists a n s', r_run r false a n (snd (R_Close s)) s' /\ r_pc s' = RConnect /\ r_done s' = false.
Proof.
  destruct Hs as (Hcs & Hi & m & Hw). destruct s as [pc d n w cl cs out]. cbn in Hpc, Hcl, Hd, Hleft, Hcs, Hi. subst.
  destruct (lookup_lt_is_Some_2 cs i (Hi i eq_refl)) as [l Hl].
  unfold R_Close, with_client. cbn [Current r_client r_conns]. rewrite Hl.
  pose proof (Forall_lookup_1 _ _ _ _ Hcs Hl) as [Ha Hout].
  destruct (WS_Close_kept (wl_ws l) (proj1 Ha)) as (res & c' & -> & _ & K). cbn [snd r_pc r_done r_reconnects r_world r_client r_calls].
  set (cs1 := <[i := _]> cs).
  destruct (conn_stops (RWait i) false n w (Some i) cs1 out i (on_client (fun _ => c') l))
    as (cs2 & l2 & out2 & Hr & Hl2 & Hp2 & Hi2); [| |done|].
  { apply Forall_insert; [done|]. split; [by eapply ws_kept_able|done]. }
  { apply list_lookup_insert_eq. by eapply lookup_lt_Some. }
  destruct Hi2 as [_ Hc2]. rewrite Hp2 in Hc2. destruct (stopped_done _ Hc2) as [e He].
  eassert (exists a n', r_run r false a n' (mkR (RWait i) false n w (Some i) cs2 out2)
    (mkR RConnect false (n + 1) w _ (alter close_client i cs2) _)) as (a & n' & Hr2).
  { eexists _, _. eapply rr_run; [by eapply r_wait_done|]. eapply rr_run; [constructor|]. eapply rr_run; [constructor|].
    eapply rr_run; [constructor|]. eapply rr_run; [apply (r_slept _ _ _ _ _ _ _ TimerFired)|].
    - done.
    - unfold sleepContext. by case_if.
    - eapply rr_run; [by apply r_again|]. constructor. }
  destruct (r_run_trans _ _ _ _ _ _ _ _ Hr Hr2) as (a3 & n3 & Hr3). eexists _, _, _. split; [exact Hr3|done].
Qed.
End manual.

(** ** The order of the callbacks *)

(** Between clients, with [n] clients behind; or with client [n] connected. *)
Inductive phase := Idle (n : nat) | Inside (n : nat).

Definition phase_call (ph : phase) (call : rcall) : option phase :=
  match ph, call with
  | Idle n, ROnError _ => Some (Idle n)
  | Idle n, ROnConnect i => if Nat.eqb i n then Some (Inside n) else None
  | Inside n, ROnMessage i _ => if Nat.eqb i n then Some (Inside n) else None
  | Inside n, ROnDisconnect i _ => if Nat.eqb i n then Some (Idle (S n)) else None
  | _, _ => None
  end.

Definition phase_after (calls : list rcall) : option phase :=
  foldl (fun ph call => ph ≫= fun p => phase_call p call) (Some (Idle 0)) calls.

(** The messages handed over for client [i], and those its listener got. *)
Definition messages_of (i : nat) (calls : list rcall) : list WebSocketMessage :=
  omap (fun call => match call with ROnMessage j m => if Nat.eqb j i then Some m else None | _ => None end) calls.
Definition got_messages (out : list ws_callback) : list WebSocketMessage :=
  omap (fun cb => match cb with WsOnMessage m => Some m | _ => None end) out.

Lemma phase_after_snoc calls call : phase_after (calls ++ [call]) = phase_after calls ≫= fun p => phase_call p call.
Proof. unfold phase_after. by rewrite foldl_app. Qed.

Lemma done_value_more out new e : done_value out = Some e -> done_value (out ++ new) = Some e.
Proof. induction out as [|[] out IH]; cbn; try done. Qed.

Lemma messages_only_done out : messages_only out -> done_value out = None.
Proof. intros Hm. rewrite <- (app_nil_r out). by rewrite (done_value_app out []). Qed.

Lemma calls_ok_running pc out :
  calls_ok pc out -> done_value out <> None -> match pc with WTop | WRead _ _ | WGot _ _ _ => False | _ => True end.
Proof. destruct pc; cbn; try done; intros ? []; by apply messages_only_done. Qed.

Section order.
Context `{Unicode} `{MapOrder} `{NetURL} `{Rand} `{Net} {P : Type}.
Context (r : ReconnectWebSocketClient P).

(** A listener's calls only grow, and a finished one gets no more messages. *)
Lemma wl_step_out b s s' :
  wl_step b s s' -> calls_ok (wl_pc s) (wl_out s) ->
  exists new, wl_out s' = wl_out s ++ new /\ (done_value (wl_out s) <> None -> got_messages new = []).
Proof.
  intros Hs Hc. pose proof (calls_ok_running _ _ Hc) as Hrun.
  destruct Hs; cbn [wl_pc wl_out wl_answer] in *; try (exists []; by rewrite app_nil_r).
  all: try (eexists; split; [reflexivity|]; intros Hd; by destruct (Hrun Hd)).
Qed.

Lemma got_messages_app a b : got_messages (a ++ b) = got_messages a ++ got_messages b.
Proof. apply omap_app. Qed.

Lemma new_messages_app i out new : new_messages i out (out ++ new) = ROnMessage i <$> got_messages new.
Proof.
  unfold new_messages. rewrite drop_app_length. induction new as [|[] new IH]; cbn; [done| |done|done].
  f_equal. exact IH.
Qed.

Lemma messages_of_app i a b : messages_of i (a ++ b) = messages_of i a ++ messages_of i b.
Proof. apply omap_app. Qed.

Lemma messages_of_new i j ms : messages_of i (ROnMessage j <$> ms) = if Nat.eqb j i then ms else [].
Proof.
  induction ms as [|m ms IH]; [by destruct (Nat.eqb j i)|]. cbn. fold (messages_of i (ROnMessage j <$> ms)).
  rewrite IH. by destruct (Nat.eqb j i).
Qed.

Lemma phase_after_messages n calls ms :
  phase_after calls = Some (Inside n) -> phase_after (calls ++ (ROnMessage n <$> ms)) = Some (Inside n).
Proof.
  revert calls. induction ms as [|m ms IH]; intros calls Hp; cbn; [by rewrite app_nil_r|].
  rewrite cons_middle, app_assoc. apply IH. rewrite phase_after_snoc, Hp. cbn. by rewrite Nat.eqb_refl.
Qed.

(** The phase that belongs to each place of [Run], with [len] clients. *)
Definition phase_ok (pc : rpc) (ph : phase) (len : nat) : Prop :=
  match pc with
  | RTop | RConnect | RFailed _ | RSleep => ph = Idle len
  | RStore i | RConnected i => ph = Idle i /\ len = S i
  | RListen i | RWait i | RDisc i _ => ph = Inside i /\ len = S i
  | RClear i | RClose i => ph = Idle (S i) /\ len = S i
  | RReturned => ph = Idle len \/ exists i, ph = Inside i /\ len = S i
  end.
Definition behind (ph : phase) : nat := match ph with Idle n | Inside n => n end.

(** What the order depends on: where each listener is and what it has called. *)
Definition view (cs : list wlstate) : list (wlpc * list ws_callback) := (fun l => (wl_pc l, wl_out l)) <$> cs.

Record order_inv (pc : rpc) (ph : phase) (v : list (wlpc * list ws_callback)) (calls : list rcall) : Prop := {
  oi_after : phase_after calls = Some ph;
  oi_ok : phase_ok pc ph (length v);
  oi_calls : Forall (fun l => calls_ok (fst l) (snd l)) v;
  oi_behind : forall i l, v !! i = Some l -> (i < behind ph)%nat -> done_value (snd l) <> None;
  oi_disc : forall i e, pc = RDisc i e -> exists l, v !! i = Some l /\ done_value (snd l) = Some e;
  oi_msgs : forall i, messages_of i calls = default [] ((fun l => got_messages (snd l)) <$> v !! i);
  oi_errs : forall i e, ROnDisconnect i e ∈ calls -> exists l, v !! i = Some l /\ done_value (snd l) = Some e;
}.

Definition ordered (s : rstate P) : Prop := exists ph, order_inv (r_pc s) ph (view (r_conns s)) (r_calls s).

Lemma view_close i cs : view (alter close_client i cs) = view cs.
Proof.
  unfold view. apply list_eq. intros j. rewrite !list_lookup_fmap. destruct (decide (i = j)) as [->|Hne].
  - rewrite list_lookup_alter_eq. by destruct (cs !! j).
  - by rewrite list_lookup_alter_ne.
Qed.

Lemma view_env i cs s c : cs !! i = Some s -> view (<[i := on_client (fun _ => c) s]> cs) = view cs.
Proof.
  intros Hs. unfold view. rewrite list_fmap_insert. cbn. apply list_insert_id. by rewrite list_lookup_fmap, Hs.
Qed.

(** A move of [Run] that calls nothing and leaves the listeners alone. *)
Lemma order_move pc pc' ph v calls :
  order_inv pc ph v calls -> phase_ok pc' ph (length v) ->
  (forall i e, pc' = RDisc i e -> exists l, v !! i = Some l /\ done_value (snd l) = Some e) ->
  order_inv pc' ph v calls.
Proof. intros [] Hok Hd. by constructor. Qed.

(** A call of [Run]. *)
Lemma order_call pc pc' ph ph' v calls call :
  order_inv pc ph v calls -> phase_call ph call = Some ph' -> phase_ok pc' ph' (length v) ->
  (forall i e, pc' <> RDisc i e) -> (forall i m, call <> ROnMessage i m) ->
  (forall i l, v !! i = Some l -> (i < behind ph')%nat -> done_value (snd l) <> None) ->
  (forall i e, call = ROnDisconnect i e -> exists l, v !! i = Some l /\ done_value (snd l) = Some e) ->
  order_inv pc' ph' v (calls ++ [call]).
Proof.
  intros [Ha Hok Hc Hb Hdi Hm He] Hcall Hok' Hpc Hnm Hb' He'. constructor; try done.
  - rewrite phase_after_snoc, Ha. done.
  - intros i e ->. by destruct (Hpc i e).
  - intros i. rewrite messages_of_app, <- Hm. destruct call; cbn; rewrite ?app_nil_r; try done.
    by destruct (Hnm i0 m).
  - intros i e [Hin|Hin]%elem_of_app; [by apply He|]. apply list_elem_of_singleton in Hin. auto.
Qed.

Lemma run_step_ordered b s s' : run_step r b s s' -> ordered s -> ordered s'.
Proof.
  intros Hs [ph Hi]. pose proof (oi_ok _ _ _ _ Hi) as Hok.
  destruct Hs; cbn [r_pc r_conns r_calls phase_ok] in *; unfold ordered; cbn [r_pc r_conns r_calls];
    rewrite ?view_close.
  - exists ph. assert (view (match cl with Some i => alter close_client i cs | None => cs end) = view cs) as ->.
    { destruct cl; [apply view_close|done]. }
    eapply order_move; [done|by left|done].
  - exists ph. eapply order_move; [done|by left|done].
  - exists ph. by eapply order_move.
  - exists ph. by eapply order_move.
  - subst ph. exists (Idle (length cs)). destruct Hi as [Ha Hok Hc Hb Hdi Hm He].
    unfold view in *. rewrite length_fmap in *. rewrite fmap_app. constructor; try done.
    + cbn. rewrite length_app, length_fmap. cbn. split; [done|lia].
    + apply Forall_app. split; [done|]. repeat constructor.
    + intros i l Hl Hlt. cbn in Hlt. rewrite lookup_app_l in Hl by (by rewrite length_fmap). by apply (Hb i l).
    + intros i. rewrite Hm. destruct (decide (i < length cs)%nat) as [Hlt|Hge].
      * by rewrite lookup_app_l by (by rewrite length_fmap).
      * rewrite (lookup_ge_None_2 (_ <$> cs)) by (rewrite length_fmap; lia).
        destruct (decide (i = length cs)) as [->|Hne].
        -- rewrite lookup_app_r, length_fmap, Nat.sub_diag by (rewrite length_fmap; lia). done.
        -- rewrite (lookup_ge_None_2 (_ ++ _)); [done|]. rewrite length_app, length_fmap. cbn. lia.
    + intros i e Hin. destruct (He i e Hin) as (l & Hl & Hd). exists l. split; [|done]. by apply lookup_app_l_Some.
  - subst ph. eexists. eapply order_call; [done|reflexivity|done|done|done| |done]. apply (oi_behind _ _ _ _ Hi).
  - exists ph. by eapply order_move.
  - destruct Hok as [-> Hlen]. exists (Inside i). eapply order_call; [done| |done|done|done| |done].
    + cbn. by rewrite Nat.eqb_refl.
    + apply (oi_behind _ _ _ _ Hi).
  - exists ph. by eapply order_move.
  - exists ph. eapply order_move; [done|right; eauto|done].
  - exists ph. eapply order_move; [done|done|]. intros j e' [= <- <-]. exists (wl_pc s, wl_out s).
    split; [|done]. unfold view. rewrite list_lookup_fmap.
    match goal with Hl : cs !! i = Some _ |- _ => by rewrite Hl end.
  - destruct Hok as [-> Hlen]. exists (Idle (S i)).
    destruct (oi_disc _ _ _ _ Hi i e eq_refl) as (l & Hl & Hd). eapply order_call; [done| |done|done|done| |].
    + cbn. by rewrite Nat.eqb_refl.
    + intros j l' Hl' Hlt. cbn in Hlt. destruct (decide (j = i)) as [->|Hne]; [congruence|].
      apply (oi_behind _ _ _ _ Hi j); [done|cbn; lia].
    + intros j e' [= <- <-]. eauto.
  - exists ph. by eapply order_move.
  - destruct Hok as [-> Hlen]. exists (Idle (S i)). eapply order_move; [done|cbn; congruence|done].
  - exists ph. by eapply order_move.
  - exists ph. eapply order_move; [done|by left|done].
Qed.

(** Only the client of the phase can get new messages. *)
Lemma phase_current pc ph v calls i l :
  order_inv pc ph v calls -> v !! i = Some l -> started pc i = true -> done_value (snd l) = None -> ph = Inside i.
Proof.
  intros [_ Hok _ Hb _ _ _] Hl Hst Hd.
  assert (behind ph <= i)%nat as Hge.
  { destruct (decide (i < behind ph)%nat) as [Hlt|]; [|lia]. by destruct (Hb i l Hl Hlt). }
  apply lookup_lt_Some in Hl as Hlt.
  destruct pc as [| |e|j|j|j|j|j e|j|j| |]; cbn [phase_ok started] in Hok, Hst;
    try (apply negb_true_iff, Nat.eqb_neq in Hst); repeat match goal with H : _ /\ _ |- _ => destruct H end;
    subst; cbn [behind] in *; try (f_equal; lia); try lia.
  destruct Hok as [->|(j & -> & Hlen)]; cbn [behind] in *; [lia|]. f_equal; lia.
Qed.

Lemma conn_step_ordered (s s' : rstate P) : conn_step s s' -> ordered s -> ordered s'.
Proof.
  intros Hs [ph Hi]. destruct Hs as [pc d n w cl cs out i b l l' Hl Hst Hs Hb].
  unfold ordered. cbn [r_pc r_conns r_calls] in *. exists ph.
  assert (view cs !! i = Some (wl_pc l, wl_out l)) as Hv by (unfold view; by rewrite list_lookup_fmap, Hl).
  pose proof (Forall_lookup_1 _ _ _ _ (oi_calls _ _ _ _ Hi) Hv) as Hcl. cbn [fst snd] in Hcl.
  destruct (wl_step_out _ _ _ Hs Hcl) as (new & Eout & Hnew).
  rewrite Eout, new_messages_app. unfold view at 1. rewrite list_fmap_insert. fold (view cs). rewrite Eout.
  assert (got_messages new <> [] -> ph = Inside i) as Hph.
  { intros Hne. eapply phase_current; [done|done|done|]. cbn. destruct (done_value (wl_out l)) eqn:E; [|done].
    destruct Hne. by apply Hnew. }
  pose proof (lookup_lt_Some _ _ _ Hv) as Hlt.
  destruct Hi as [Ha Hok Hc Hbe Hdi Hm He]. constructor.
  - destruct (got_messages new) as [|m ms] eqn:En; [cbn; by rewrite app_nil_r|].
    rewrite Hph in Ha |- * by done. by apply phase_after_messages.
  - by rewrite length_insert.
  - apply Forall_insert; [done|]. cbn. rewrite <- Eout. by eapply calls_ok_step.
  - intros j lj Hj Hjlt. destruct (decide (j = i)) as [->|Hne].
    + rewrite list_lookup_insert_eq in Hj by done. injection Hj as <-. cbn.
      specialize (Hbe i _ Hv Hjlt). cbn in Hbe. destruct (done_value (wl_out l)) as [e|] eqn:E; [|done].
      by rewrite (done_value_more _ _ _ E).
    + rewrite list_lookup_insert_ne in Hj by done. by apply (Hbe j lj).
  - intros j e Hpc. destruct (Hdi j e Hpc) as (lj & Hj & Hd). destruct (decide (j = i)) as [->|Hne].
    + rewrite Hv in Hj. injection Hj as <-. eexists. rewrite list_lookup_insert_eq by done. split; [done|].
      by apply done_value_more.
    + exists lj. by rewrite list_lookup_insert_ne.
  - intros j. rewrite messages_of_app, messages_of_new, Hm. destruct (Nat.eqb_spec i j) as [->|Hne].
    + rewrite Hv, list_lookup_insert_eq by done. cbn. by rewrite got_messages_app.
    + by rewrite list_lookup_insert_ne, app_nil_r by done.
  - intros j e [Hin|Hin]%elem_of_app.
    2: { apply list_elem_of_fmap in Hin as (m & ? & _). done. }
    destruct (He j e Hin) as (lj & Hj & Hd). destruct (decide (j = i)) as [->|Hne].
    + rewrite Hv in Hj. injection Hj as <-. eexists. rewrite list_lookup_insert_eq by done. split; [done|].
      by apply done_value_more.
    + exists lj. by rewrite list_lookup_insert_ne.
Qed.

Lemma other_step_ordered b (s s' : rstate P) : other_step b s s' -> ordered s -> ordered s'.
Proof.
  intros Hs [ph Hi]. destruct Hs as [pc n w cl cs out|pc d n w cl cs out i b l c' Hl He]; exists ph;
    cbn [r_pc r_conns r_calls] in *; [done|]. by rewrite view_env.
Qed.

Lemma r_run_ordered calm a n (s s' : rstate P) : r_run r calm a n s s' -> ordered s -> ordered s'.
Proof. induction 1; eauto using run_step_ordered, conn_step_ordered, other_step_ordered. Qed.

(** C31: in every run the callbacks come in order: errors of failed attempts
    between clients; for each client in turn [OnConnect], then its messages,
    then at most one [OnDisconnect]; nothing of a client comes before its
    [OnConnect] or after its [OnDisconnect].  The messages of a client are
    exactly those its listener got, and the error of [OnDisconnect] is the one
    the listener reported, nil when it reported none. *)
Theorem Reconnect_calls_ordered (w : world P) (a n : nat) (s : rstate P)
    (Hrun : r_run r false a n (Run w) s) :
  (exists ph, phase_after (r_calls s) = Some ph) /\
  (forall i l, r_conns s !! i = Some l -> messages_of i (r_calls s) = got_messages (wl_out l)) /\
  (forall i e, ROnDisconnect i e ∈ r_calls s ->
     exists l, r_conns s !! i = Some l /\ done_value (wl_out l) = Some e).
Proof.
  destruct (r_run_ordered _ _ _ _ _ Hrun) as [ph Hi].
  { exists (Idle 0). constructor; try done. by intros i e ?%elem_of_nil. }
  destruct Hi as [Ha _ _ _ _ Hm He]. split; [eauto|]. unfold view in *. split.
  - intros i l Hl. rewrite Hm, list_lookup_fmap, Hl. done.
  - intros i e Hin. destruct (He i e Hin) as (l & Hl & Hd). rewrite list_lookup_fmap in Hl.
    destruct (r_conns s !! i) as [l'|]; [|done]. exists l'. split; [done|]. by injection Hl as <-.
Qed.
End order.

(** ** Connections the peer ends *)

Section leak.
Context `{Unicode} `{MapOrder} `{NetURL} `{Rand} `{Net} {P : Type}.
Context (r : ReconnectWebSocketClient P).

(** A client whose peer sends well-formed messages and then ends the stream or
    closes. *)
Definition fed (ws : WebSocketClient) : Prop :=
  exists fks rest ms sent,
    Forall (fun fk => frame_ok (ws_maxPayloadSize ws) (fst fk) (snd fk)) fks /\
    feeds (ws_maxPayloadSize ws) Byte.x00 [] (fst <$> fks) rest ms /\
    ws_live false ws (wires fks ++ rest) sent.

Definition peers_end : Prop := forall draws w ws w',
  NewWebSocketClient (rc_URL r) (rc_Config r) draws w = (Ok ws, w') -> fed ws.

Definition delivering (l : wlstate) : Prop := exists max ms, deliver_inv max ms l.

(** [Run] is still busy with client [i]. *)
Definition busy_with (pc : rpc) : option nat :=
  match pc with RStore i | RConnected i | RListen i | RWait i => Some i | _ => None end.

Definition leak_inv (s : rstate P) : Prop :=
  r_done s = false /\ Forall delivering (r_conns s) /\
  forall i l, r_conns s !! i = Some l -> busy_with (r_pc s) <> Some i -> wl_pc l = WStopped.

Lemma delivering_done l e : delivering l -> done_value (wl_out l) = Some e -> wl_pc l = WStopped.
Proof.
  intros (max & ms & Hi) Hd.
  assert (forall l : list WebSocketMessage, done_value (WsOnMessage <$> l) = None) as Hn by (by intros l1; induction l1).
  unfold deliver_inv in Hi.
  destruct (wl_pc l); try done; try (destruct Hi as (d & t & fks & rest & sent & _ & Ho & _); rewrite Ho, Hn in Hd; done);
    destruct Hi as [Ho _]; rewrite Ho, Hn in Hd; done.
Qed.

(** [Close] of a client whose listener has stopped does nothing. *)
Lemma delivering_open l :
  delivering l -> exists k, t_conn (ws_tcp (wl_ws l)) = Some k /\ c_closed k = false.
Proof.
  intros (max & ms & Hi). unfold deliver_inv in Hi.
  destruct (wl_pc l); try (destruct Hi as (d & t & fks & rest & sent & _ & _ & _ & _ & _ & _ & Hl));
    try (destruct Hi as (_ & inp & sent & Hl)); destruct Hl as (k & ? & _ & _ & _ & _ & ? & _); eauto.
Qed.

Lemma stopped_close l : delivering l -> wl_pc l = WStopped -> WS_Close (wl_ws l) = (Ok tt, wl_ws l).
Proof.
  intros (max & ms & Hi) Hp. unfold deliver_inv in Hi. rewrite Hp in Hi. destruct Hi as (_ & inp & sent & Hl).
  by eapply WS_Close_flagged.
Qed.

Lemma close_stopped i (cs : list wlstate) :
  (forall l, cs !! i = Some l -> delivering l /\ wl_pc l = WStopped) -> alter close_client i cs = cs.
Proof.
  intros Hl. apply list_eq. intros j. destruct (decide (i = j)) as [->|Hne]; [|by rewrite list_lookup_alter_ne].
  rewrite list_lookup_alter_eq. destruct (cs !! j) as [l|]; [|done]. cbn. f_equal.
  destruct (Hl l eq_refl) as [Hd Hp]. unfold close_client, on_client. rewrite (stopped_close l Hd Hp). by destruct l.
Qed.

Lemma run_step_leak b s s' : peers_end -> leak_inv s -> run_step r b s s' -> leak_inv s'.
Proof.
  intros Hpeer (Hd & Hcs & Hst) Hs. unfold leak_inv.
  assert (forall pc d n w cl cs out i, s = mkR pc d n w cl cs out -> busy_with pc <> Some i ->
    alter close_client i cs = cs) as Hclose.
  { intros pc d n w cl cs out i -> Hb. cbn in *. apply close_stopped. intros l Hl. split; [|by eapply Hst].
    by eapply Forall_lookup_1. }
  destruct Hs; cbn [r_pc r_conns r_done busy_with] in *; try done.
  - split_and!; [done| |].
    + apply Forall_app. split; [done|]. constructor; [|done].
      match goal with E : NewWebSocketClient _ _ _ _ = _ |- _ => destruct (Hpeer _ _ _ _ E) as (fks & rest & ms & sent & Hok & Hf & Hl) end.
      exists (ws_maxPayloadSize ws), ms. by eapply deliver_init.
    + intros i l Hl Hne. apply lookup_app_Some in Hl as [Hl|[Hge Hl]]; [by eapply Hst|].
      apply lookup_lt_Some in Hl as Hlt. cbn in Hlt. destruct Hne. f_equal. lia.
  - split_and!; [done|done|]. intros j l Hl _. destruct (decide (j = i)) as [->|Hne].
    + match goal with E : cs !! i = Some ?s |- _ => assert (l = s) as -> by congruence end.
      eapply delivering_done; [|done]. by eapply Forall_lookup_1.
    + eapply Hst; [done|]. congruence.
  - erewrite Hclose by done. done.
Qed.

Lemma wl_stopped_step s s' : wl_pc s = WStopped -> wl_step false s s' -> wl_pc s' = WStopped.
Proof. intros Hp Hs. remember false as b eqn:Eb. destruct Hs; cbn in *; congruence. Qed.

Lemma conn_step_leak (s s' : rstate P) : rand_works -> leak_inv s -> conn_step s s' -> leak_inv s'.
Proof.
  intros Hr (Hd & Hcs & Hst) Hs. destruct Hs as [pc d n w cl cs out i b l l' Hl Hsta Hs Hb].
  cbn [r_done r_conns r_pc] in *. subst d. destruct b; [by specialize (Hb eq_refl)|]. split_and!; [done| |]; cbn.
  - apply Forall_insert; [done|]. destruct (Forall_lookup_1 _ _ _ _ Hcs Hl) as (max & ms & Hi).
    exists max, ms. by eapply deliver_step.
  - intros j lj Hj Hne. destruct (decide (j = i)) as [->|Hij].
    + rewrite list_lookup_insert_eq in Hj by (by eapply lookup_lt_Some). injection Hj as <-.
      eapply wl_stopped_step; [|done]. by eapply Hst.
    + rewrite list_lookup_insert_ne in Hj by done. by eapply Hst.
Qed.

Lemma other_step_leak (s s' : rstate P) : rand_works -> leak_inv s -> other_step false s s' -> leak_inv s'.
Proof.
  intros Hr (Hd & Hcs & Hst) Hs. remember false as b eqn:Eb.
  destruct Hs as [pc n w cl cs out|pc d n w cl cs out i b l c' Hl He]; [done|]. subst b.
  cbn [r_done r_conns r_pc] in *. split_and!; [done| |]; cbn.
  - apply Forall_insert; [done|]. destruct (Forall_lookup_1 _ _ _ _ Hcs Hl) as (max & ms & Hi).
    exists max, ms. destruct l as [lpc lc lx lout]. by eapply deliver_env.
  - intros j lj Hj Hne. destruct (decide (j = i)) as [->|Hij].
    + rewrite list_lookup_insert_eq in Hj by (by eapply lookup_lt_Some). injection Hj as <-. by apply (Hst i l).
    + rewrite list_lookup_insert_ne in Hj by done. by eapply Hst.
Qed.

Lemma r_run_leak a n (s s' : rstate P) :
  rand_works -> peers_end -> r_run r true a n s s' -> leak_inv s -> leak_inv s'.
Proof.
  intros Hr Hp. induction 1 as [s|a n b s1 s2 s3 Hs _ IH|a n s1 s2 s3 Hs _ IH|a n b s1 s2 s3 Hs Hb _ IH];
    intros Hi; [done|eauto using run_step_leak|eauto using conn_step_leak|].
  rewrite (Hb eq_refl) in Hs. eauto using other_step_leak.
Qed.

(** Every reconnection leaks a connection: when the servers end their
    streams properly and nobody else closes anything, the transport of every
    client [Run] has ever opened is open for ever; those it is done with, and
    has closed, have no goroutine left, and closing them again does nothing. *)
Theorem Reconnect_leaks (w : world P) (a n : nat) (s : rstate P)
    (Hrand : rand_works) (Hpeer : peers_end) (Hrun : r_run r true a n (Run w) s) :
  Forall (fun l => exists k, t_conn (ws_tcp (wl_ws l)) = Some k /\ c_closed k = false) (r_conns s) /\
  forall i l, r_conns s !! i = Some l -> busy_with (r_pc s) <> Some i ->
    wl_pc l = WStopped /\ WS_Close (wl_ws l) = (Ok tt, wl_ws l).
Proof.
  destruct (r_run_leak _ _ _ _ Hrand Hpeer Hrun) as (_ & Hcs & Hst).
  { split_and!; [done|constructor|]. intros i l Hl. done. }
  split.
  - eapply Forall_impl; [done|]. apply delivering_open.
  - intros i l Hl Hne. pose proof (Hst i l Hl Hne) as Hp. split; [done|].
    eapply stopped_close; [|done]. by eapply Forall_lookup_1.
Qed.
End leak.

(** ** Witnesses *)

Section auto.
Context `{Unicode} `{MapOrder} `{NetURL} `{Rand} `{Net} {P : Type}.
Context (r : ReconnectWebSocketClient P).

(** One schedule as a function: [Run] goes on as long as it can, and when it
    waits its listener does. *)
Definition r_auto (s : rstate P) : rstate P :=
  let '(mkR pc d n w cl cs out) := s in
  match pc with
  | RTop => if d then s else mkR (if exhausted r n then RReturned else RConnect) d n w cl cs out
  | RConnect =>
      match NewWebSocketClient (rc_URL r) (rc_Config r) 0 w with
      | (Ok ws, w') => mkR (RStore (length cs)) d n w' cl (cs ++ [wl_init ws]) out
      | (Err e, w') => mkR (RFailed e) d n w' cl cs out
      | _ => s
      end
  | RFailed e => mkR RSleep d (n + 1) w cl cs (out ++ [ROnError e])
  | RStore i => mkR (RConnected i) d n w (Some i) cs out
  | RConnected i => mkR (RListen i) d n w cl cs (out ++ [ROnConnect i])
  | RListen i => mkR (RWait i) d n w cl cs out
  | RWait i =>
      match cs !! i with
      | None => s
      | Some l =>
          match done_value (wl_out l) with
          | Some e => mkR (RDisc i e) d n w cl cs out
          | None => mkR pc d n w cl (<[i := wl_next l]> cs) (out ++ new_messages i (wl_out l) (wl_out (wl_next l)))
          end
      end
  | RDisc i e => mkR (RClear i) d n w cl cs (out ++ [ROnDisconnect i e])
  | RClear i => mkR (RClose i) d n w (if bool_decide (cl = Some i) then None else cl) cs out
  | RClose i => mkR RSleep d (n + 1) w cl (alter close_client i cs) out
  | RSleep => mkR RTop d n w cl cs out
  | RReturned => s
  end.

Lemma r_auto_step s : r_auto s = s \/ (exists b, run_step r b s (r_auto s)) \/ conn_step s (r_auto s).
Proof.
  destruct s as [pc d n w cl cs out]. destruct pc as [| |e|i|i|i|i|i e|i|i| |]; cbn [r_auto]; try (by left);
    try (right; left; eexists; constructor; fail).
  - destruct d; [by left|]. right. left. destruct (exhausted r n) eqn:E; eexists; by constructor.
  - destruct (NewWebSocketClient _ _ _ w) as [[ws|e| |] w'] eqn:E; try (by left); right; left; eexists; by econstructor.
  - destruct (cs !! i) as [l|] eqn:El; [|by left]. destruct (done_value (wl_out l)) as [e|] eqn:Ed.
    + right. left. eexists. by eapply r_wait_done.
    + destruct (wl_next_step l) as [E|E].
      * left. rewrite E. f_equal; [by apply list_insert_id|]. unfold new_messages. rewrite drop_all. cbn. by rewrite app_nil_r.
      * right. right. by eapply r_conn.
  - right. left. eexists. apply (r_slept _ _ _ _ _ _ _ TimerFired); [done|]. unfold sleepContext. by case_if.
Qed.

Lemma r_auto_run calm k s : exists a n, r_run r calm a n s (Nat.iter k r_auto s).
Proof.
  revert s. induction k as [|k IH]; intros s; [eexists _, _; constructor|].
  rewrite Nat.iter_succ_r. destruct (IH (r_auto s)) as (a & n & Hn). destruct (r_auto_step s) as [E|[[b E]|E]].
  - rewrite E in Hn |- *. eauto.
  - eexists _, _. by eapply rr_run.
  - eexists _, _. by eapply rr_conn.
Qed.
End auto.

(** A random source that always gives the same bytes. *)
Definition rand_zero : Rand.
Proof.
  refine {| rand_Read i n := inl (replicate n Byte.x00) |}.
  intros i n b [= <-]. apply length_replicate.
Defined.

Definition demo_session : bytes :=
  str "HTTP/1.1 101 Switching Protocols" ++ crlf ++ header_block demo_upgrade ++ crlf ++ wires demo_feed.
Definition demo_reconnect : ReconnectWebSocketClient unit :=
  mkReconnect (str "ws://example.com") demo_conf 5 1.
Definition demo_auto (k : nat) : rstate unit :=
  Nat.iter k (r_auto (H1 := simple_neturl) (H2 := rand_zero) (H3 := demo_net demo_session) demo_reconnect) (Run demo_world).

Lemma demo_sane : run_sane demo_reconnect.
Proof. split; [done|vm_compute; congruence]. Qed.

(** Two sessions, each with its messages, then the limit. *)
Example demo_calls :
  r_pc (demo_auto 100) = RReturned /\
  r_calls (demo_auto 100) =
    concat ((fun i => [ROnConnect i; ROnMessage i (mkMsg wsOpText (str "Hello"));
                       ROnMessage i (mkMsg wsOpPong (str "!")); ROnDisconnect i None]) <$> [0%nat; 1%nat]).
Proof. vm_compute. done. Qed.

Lemma Reconnect_terminates_witness :
  exists a n, Z.of_nat a <= 2 /\ Z.of_nat n <= 21 /\
  (r_pc (demo_auto 30) <> RReturned ->
    (exists b s', run_step (H1 := simple_neturl) (H2 := rand_zero) (H3 := demo_net demo_session) demo_reconnect b (demo_auto 30) s') \/
    exists s', conn_step (H2 := rand_zero) (demo_auto 30) s').
Proof.
  destruct (r_auto_run (H1 := simple_neturl) (H2 := rand_zero) (H3 := demo_net demo_session) demo_reconnect false 30
    (Run demo_world)) as (a & n & Hn).
  exists a, n.
  apply (Reconnect_terminates (H1 := simple_neturl) (H2 := rand_zero) (H3 := demo_net demo_session) demo_reconnect
    demo_world a n (demo_auto 30)); [exact demo_sane|by split|done|exact Hn].
Defined.

(** The context is cancelled while the first client is listened to. *)
Definition demo_cancelled : rstate unit :=
  let '(mkR pc _ n w cl cs out) := demo_auto 6 in mkR pc true n w cl cs out.

Lemma Reconnect_cancelled_witness :
  (0 <= match r_pc demo_cancelled with RConnect => 1 | _ => 0 end)%nat /\ (0 <= 10)%nat /\
  (r_pc demo_cancelled <> RReturned ->
    (exists b s', run_step (H1 := simple_neturl) (H2 := rand_zero) (H3 := demo_net demo_session) demo_reconnect b demo_cancelled s') \/
    exists s', conn_step (H2 := rand_zero) demo_cancelled s').
Proof.
  assert (forall s, (exists a n, r_run (H1 := simple_neturl) (H2 := rand_zero) (H3 := demo_net demo_session)
      demo_reconnect false a n (Run demo_world) s) -> r_done s = false ->
    exists a n, r_run (H1 := simple_neturl) (H2 := rand_zero) (H3 := demo_net demo_session)
      demo_reconnect false a n (Run demo_world) (let '(mkR pc _ n w cl cs out) := s in mkR pc true n w cl cs out)) as Hc.
  { intros s (a & n & Hrun) Hd. exists a, n. induction Hrun as [s| | |].
    - destruct s. cbn in Hd. subst. eapply rr_other; [constructor|done|constructor].
    - eapply rr_run; [done|auto].
    - eapply rr_conn; [done|auto].
    - eapply rr_other; [done|done|auto]. }
  destruct (Hc (demo_auto 6)) as (a & n & Hrun); [apply r_auto_run|reflexivity|].
  apply (Reconnect_cancelled (H1 := simple_neturl) (H2 := rand_zero) (H3 := demo_net demo_session) demo_reconnect
    demo_world a n 0 0 demo_cancelled demo_cancelled); [exact demo_sane|by split|exact Hrun|reflexivity|constructor].
Defined.

Lemma Reconnect_calls_ordered_witness :
  (exists ph, phase_after (r_calls (demo_auto 30)) = Some ph) /\
  (forall i l, r_conns (demo_auto 30) !! i = Some l ->
     messages_of i (r_calls (demo_auto 30)) = got_messages (wl_out l)) /\
  (forall i e, ROnDisconnect i e ∈ r_calls (demo_auto 30) ->
     exists l, r_conns (demo_auto 30) !! i = Some l /\ done_value (wl_out l) = Some e).
Proof.
  destruct (r_auto_run (H1 := simple_neturl) (H2 := rand_zero) (H3 := demo_net demo_session) demo_reconnect false 30
    (Run demo_world)) as (a & n & Hn).
  apply (Reconnect_calls_ordered (H1 := simple_neturl) (H2 := rand_zero) (H3 := demo_net demo_session) demo_reconnect
    demo_world a n (demo_auto 30) Hn).
Defined.

Lemma demo_peers_end : peers_end (H1 := simple_neturl) (H2 := rand_zero) (H3 := demo_net demo_session) demo_reconnect.
Proof.
  intros draws w ws w' E. vm_compute in E. injection E as <- <-.
  exists demo_feed, [], demo_messages. eexists. split_and!.
  - repeat constructor; vm_compute; congruence.
  - cbn [ws_maxPayloadSize]. eapply feeds_first; [by left|done|vm_compute; congruence|]. apply feeds_ping; [done|].
    apply (feeds_last _ wsOpText (str "Hel")); [done|done|done|vm_compute; congruence|].
    apply feeds_pong; [done|]. by apply feeds_close.
  - eexists. do 6 (split; [reflexivity|]). split_and!; [reflexivity|reflexivity| |vm_compute; reflexivity].
    repeat constructor; vm_compute; congruence.
Qed.

Lemma Reconnect_leaks_witness :
  Forall (fun l => exists k, t_conn (ws_tcp (wl_ws l)) = Some k /\ c_closed k = false) (r_conns (demo_auto 100)) /\
  length (r_conns (demo_auto 100)) = 2%nat.
Proof.
  destruct (r_auto_run (H1 := simple_neturl) (H2 := rand_zero) (H3 := demo_net demo_session) demo_reconnect true 100
    (Run demo_world)) as (a & n & Hn).
  split; [|vm_compute; reflexivity].
  apply (Reconnect_leaks (H1 := simple_neturl) (H2 := rand_zero) (H3 := demo_net demo_session) demo_reconnect
    demo_world a n (demo_auto 100)); [intros i; by eexists|exact demo_peers_end|exact Hn].
Defined.

Lemma Close_reconnects_witness :
  exists a n s', r_run (H1 := simple_neturl) (H2 := rand_zero) (H3 := demo_net demo_session) demo_reconnect false a n
      (snd (R_Close (H2 := rand_zero) (demo_auto 6))) s' /\ r_pc s' = RConnect /\ r_done s' = false.
Proof.
  apply (Close_reconnects (H1 := simple_neturl) (H2 := rand_zero) (H3 := demo_net demo_session) demo_reconnect
    (demo_auto 6) 0).
  - destruct (r_auto_run (H1 := simple_neturl) (H2 := rand_zero) (H3 := demo_net demo_session) demo_reconnect false 6
      (Run demo_world)) as (a & n & Hn).
    apply (r_run_sound demo_reconnect _ _ _ _ _ demo_sane Hn). split_and!; [constructor|done|by exists 0%nat].
  - vm_compute. reflexivity.
  - vm_compute. reflexivity.
  - vm_compute. reflexivity.
  - vm_compute. reflexivity.
Defined.
