(* ===== verification/Sessions.v ===== *)
(** * Sessions: everything a reconnecting client delivers

    Composes the reconnecting client of [network/websocket_reconnect.go] with
    its listeners, over all its sessions: the calls of a run that nobody
    disturbs are, attempt errors aside, one session after the other, each from
    [OnConnect] over all the messages its server sends to [OnDisconnect]. *)

From S2P Require Import Prelude Bytes GoStrings NetAddr Conn Bufio Proxy Tcp Dial.
From S2P Require Import Http1 HttpClient WsFrame WsClient WsHandshake WsListen WsReconnect.

Local Open Scope Z_scope.

(** ** The calls of a run *)

Definition is_error (c : rcall) : bool := match c with ROnError _ => true | _ => false end.
(** The calls without the errors of failed attempts. *)
Definition quiet (calls : list rcall) : list rcall := filter (fun c => is_error c = false) calls.

Definition session (i : nat) (ms : list WebSocketMessage) : list rcall :=
  ROnConnect i :: (ROnMessage i <$> ms) ++ [ROnDisconnect i None].

Lemma quiet_snoc calls c : quiet (calls ++ [c]) = quiet calls ++ (if is_error c then [] else [c]).
Proof. unfold quiet. rewrite filter_app, filter_cons, filter_nil. by destruct (is_error c). Qed.

(** The first [n] sessions of [calls]. *)
Definition sessions (n : nat) (calls : list rcall) : list rcall :=
  concat ((fun i => session i (messages_of i calls)) <$> seq 0 n).

Lemma sessions_snoc n calls c :
  (forall i m, c = ROnMessage i m -> (n <= i)%nat) -> sessions n (calls ++ [c]) = sessions n calls.
Proof.
  intros Hc. unfold sessions. f_equal. apply list_fmap_ext. intros j i [-> Hi]%lookup_seq. f_equal.
  rewrite messages_of_app. destruct c; cbn; rewrite ?app_nil_r; try done.
  specialize (Hc i m eq_refl). by rewrite (proj2 (Nat.eqb_neq _ _)) by lia; rewrite app_nil_r.
Qed.

Lemma sessions_S n calls : sessions (S n) calls = sessions n calls ++ session n (messages_of n calls).
Proof. unfold sessions. rewrite seq_S, fmap_app, concat_app. cbn. by rewrite app_nil_r. Qed.

(** Nothing has been called for clients not yet connected. *)
Lemma messages_of_fresh calls ph i :
  phase_after calls = Some ph -> (match ph with Idle n => n <= i | Inside n => n < i end)%nat -> messages_of i calls = [].
Proof.
  revert ph. induction calls as [|c calls IH] using rev_ind; intros ph Hp Hi; [done|].
  rewrite phase_after_snoc in Hp. destruct (phase_after calls) as [ph0|] eqn:E0; [|done]. cbn in Hp.
  rewrite messages_of_app. destruct ph0 as [n|n], c as [j|j m|e|j e]; cbn [phase_call] in Hp; try done;
    try (destruct (Nat.eqb_spec j n) as [->|]; [|done]); injection Hp as <-; cbn [messages_of omap list_omap];
    rewrite ?app_nil_r; try (eapply IH; [done|]; cbn; lia).
  cbn. rewrite (proj2 (Nat.eqb_neq _ _)), app_nil_r by lia. by eapply IH.
Qed.

(** Calls in order, whose clients were all disconnected without an error, are
    those sessions. *)
Lemma calls_sessions calls ph :
  phase_after calls = Some ph -> (forall i e, ROnDisconnect i e ∈ calls -> e = None) ->
  quiet calls = sessions (behind ph) calls ++
    match ph with Idle _ => [] | Inside n => ROnConnect n :: (ROnMessage n <$> messages_of n calls) end.
Proof.
  revert ph. induction calls as [|c calls IH] using rev_ind; intros ph Hp He; [by injection Hp as <-|].
  rewrite phase_after_snoc in Hp. destruct (phase_after calls) as [ph0|] eqn:E0; [|done]. cbn in Hp.
  specialize (IH ph0 eq_refl (fun i e Hin => He i e (proj2 (elem_of_app _ _ _) (or_introl Hin)))).
  rewrite quiet_snoc, IH. destruct ph0 as [n|n], c as [i|i m|e|i e]; cbn [phase_call] in Hp; try done;
    try (destruct (Nat.eqb_spec i n) as [->|]; [|done]); injection Hp as <-; cbn [behind is_error].
  - rewrite sessions_snoc by done. rewrite messages_of_app, app_nil_r. cbn. rewrite app_nil_r.
    assert (messages_of n calls = []) as ->; [|done]. eapply messages_of_fresh; [exact E0|cbn; lia].
  - rewrite sessions_snoc by done. by rewrite app_nil_r.
  - rewrite sessions_snoc by (intros j m' [= <- _]; done). rewrite messages_of_app. cbn. rewrite Nat.eqb_refl.
    rewrite fmap_app, <- app_assoc. done.
  - assert (e = None) as -> by (apply (He n); apply elem_of_app; right; by apply list_elem_of_singleton).
    rewrite sessions_S, sessions_snoc by done. rewrite messages_of_app. cbn. rewrite !app_nil_r.
    unfold session. by rewrite <- app_assoc.
Qed.

(** ** Every attempt dials *)

Definition is_ok {A} (r : outcome A) : bool := match r with Ok _ => true | _ => false end.

Section dialled.
Context `{Unicode} `{MapOrder} `{NetURL} `{Rand} `{Net} {P : Type}.
Implicit Types w : world P.

(** [counts true m]: when [m] succeeds it has dialled; it never forgets a call. *)
Definition counts {A} (strict : bool) (m : GoM (world P) A) : Prop := forall w,
  (length (w_dialled w) <= length (w_dialled (snd (m w))))%nat /\
  (strict = true -> is_ok (fst (m w)) = true -> (length (w_dialled w) < length (w_dialled (snd (m w))))%nat).

Lemma counts_ret {A} (a : A) : counts false (ret a).
Proof. intros w. cbn. split; [lia|done]. Qed.
Lemma counts_fail {A} b e : counts b (fail e : GoM (world P) A).
Proof. intros w. cbn. split; [lia|done]. Qed.
Lemma counts_panic {A} b : counts b (panic : GoM (world P) A).
Proof. intros w. cbn. split; [lia|done]. Qed.
Lemma counts_diverge {A} b : counts b (fun w => (Diverge : outcome A, w)).
Proof. intros w. cbn. split; [lia|done]. Qed.
Lemma counts_abandon c : counts false (abandon (P := P) c).
Proof. intros w. cbn. split; [lia|done]. Qed.
Lemma counts_picker p : counts false (run_picker (P := P) p).
Proof. intros w. unfold run_picker. destruct (p (w_picker w)). cbn. split; [lia|done]. Qed.
Lemma counts_weaken {A} b (m : GoM (world P) A) : counts b m -> counts false m.
Proof. intros Hm w. destruct (Hm w). by split. Qed.
Lemma counts_direct b addr timeout lb : counts b (dialDirect (P := P) addr timeout lb).
Proof. intros w. rewrite dialDirect_dialled, length_app. cbn. split; [|intros _ _]; lia. Qed.

Lemma counts_bind {A B} b (m : GoM (world P) A) (k : A -> GoM (world P) B) :
  counts b m -> (forall a, counts false (k a)) -> counts b (bind m k).
Proof.
  intros Hm Hk w. destruct (Hm w) as [Hle Hlt]. unfold bind. destruct (m w) as [[a|e| |] w1]; cbn in *; try done.
  destruct (Hk a w1) as [Hle2 _]. split; [lia|]. intros -> _. specialize (Hlt eq_refl eq_refl). lia.
Qed.
Lemma counts_then {A B} b (m : GoM (world P) A) (k : A -> GoM (world P) B) :
  counts false m -> (forall a, counts b (k a)) -> counts b (bind m k).
Proof.
  intros Hm Hk w. destruct (Hm w) as [Hle _]. unfold bind. destruct (m w) as [[a|e| |] w1]; cbn in *; try done.
  destruct (Hk a w1) as [Hle2 Hlt2]. split; [lia|]. intros Hb Hok. specialize (Hlt2 Hb Hok). lia.
Qed.

#[local] Hint Resolve counts_ret counts_fail counts_panic counts_diverge counts_abandon counts_picker counts_direct : go.

(** Walks through the code; the dial is the first binding that matters. *)
Ltac counts_tac := repeat first
  [ progress (cbv zeta)
  | match goal with
    | |- counts _ (if _ then _ else _) => case_if
    | |- counts _ (match ?x with _ => _ end) => destruct x
    | |- counts false (bind _ _) => apply counts_bind; [|intros ?]
    | |- forall _, _ => intros ?
    end
  | solve [auto with go] ].

Lemma counts_proxy b cfg host port timeout lb : counts b (dialViaProxy (P := P) cfg host port timeout lb).
Proof.
  unfold dialViaProxy. destruct cfg as [cfg|]; [|auto with go]. do 3 (case_if; [auto with go|]). cbv zeta.
  apply counts_bind; [auto with go|]. intros c. counts_tac.
Qed.

Lemma counts_transport b host port timeout pick lb : counts b (dialTransport (P := P) host port timeout pick lb).
Proof.
  unfold dialTransport. cbv zeta. do 2 (case_if; [auto with go|]). destruct pick as [p|]; [|auto with go].
  apply counts_then; [auto with go|]. intros [cfg|]; [apply counts_proxy|auto with go].
Qed.

Lemma counts_TCP b host port timeout pick lb : counts b (NewTCPClient (P := P) host port timeout pick lb).
Proof. unfold NewTCPClient. apply counts_bind; [apply counts_transport|]. intros c. auto with go. Qed.

Lemma counts_client b host port timeout pick isTLS lb : counts b (NewTCPClientAutoTLS (P := P) host port timeout pick isTLS lb).
Proof.
  unfold NewTCPClientAutoTLS. destruct isTLS; [|apply counts_TCP]. unfold NewTLSClient. cbv zeta. case_if; [auto with go|].
  apply counts_bind; [apply counts_TCP|]. intros t. counts_tac.
Qed.

Lemma counts_open rawURL conf draws : counts true (NewWebSocketClient (P := P) rawURL conf draws).
Proof.
  unfold NewWebSocketClient. destruct (url_Parse _) as [u|e]; [|auto with go]. cbv zeta.
  do 2 (case_if; [auto with go|]). destruct (if bool_decide (u_Port u = []) then _ else _) as [port|]; [|auto with go].
  apply counts_bind; [apply counts_client|]. intros t. counts_tac.
Qed.
End dialled.

(** ** All sessions *)

Section delivers.
Context `{Unicode} `{MapOrder} `{NetURL} `{Rand} `{Net} {P : Type}.
Context (r : ReconnectWebSocketClient P) (feed : nat -> list WebSocketMessage).

(** The server that answers when [k] addresses have been dialled before sends
    the messages [feed k] within the client's limit, with pongs between
    messages only ([feeds]), and then ends the stream or closes; the network
    takes what the client writes to it. *)
Definition served : Prop := forall draws w ws w',
  NewWebSocketClient (rc_URL r) (rc_Config r) draws w = (Ok ws, w') ->
  exists fks rest sent,
    Forall (fun fk => frame_ok (ws_maxPayloadSize ws) (fst fk) (snd fk)) fks /\
    feeds (ws_maxPayloadSize ws) Byte.x00 [] (fst <$> fks) rest (feed (length (w_dialled w))) /\
    ws_live false ws (wires fks ++ rest) sent.

Lemma served_ends : served -> peers_end r.
Proof. intros Hs draws w ws w' E. destruct (Hs _ _ _ _ E) as (fks & rest & sent & ?). by exists fks, rest, (feed (length (w_dialled w))), sent. Qed.

Definition fed_by (k : nat) (l : wlstate) : Prop := exists max, deliver_inv max (feed k) l.

(** Which server each client has, in the order they were opened. *)
Definition served_by (ks : list nat) (s : rstate P) : Prop :=
  Forall2 fed_by ks (r_conns s) /\ StronglySorted lt ks /\
  Forall (fun k => (k < length (w_dialled (r_world s)))%nat) ks.

(** [Run] ends between two sessions. *)
Definition ends_idle (s : rstate P) : Prop :=
  r_pc s = RReturned -> phase_after (r_calls s) = Some (Idle (length (r_conns s))).

Definition run_inv (s : rstate P) : Prop :=
  leak_inv s /\ ordered s /\ ends_idle s /\ exists ks, served_by ks s.

(** The servers of the clients after a step of [Run]. *)
Lemma run_step_served b ks (s s' : rstate P) :
  served -> leak_inv s -> served_by ks s -> run_step r b s s' -> exists ks', served_by ks' s'.
Proof.
  intros Hserved (Hd & Hcs & Hst) (Hf & Hsort & Hlt) Hs.
  destruct Hs as [| | |d n w cl cs out draws e w' E|d n w cl cs out draws ws w' E| | | | | | | | |d n w cl cs out i| |];
    cbn [r_done r_conns r_world r_pc] in *; try done; try (by exists ks).
  - exists ks. split_and!; try done. cbn [r_world]. destruct (counts_open (rc_URL r) (rc_Config r) draws w) as [Hle _].
    rewrite E in Hle. cbn in Hle. eapply Forall_impl; [exact Hlt|]. intros k Hk. cbn in Hk. lia.
  - destruct (counts_open (rc_URL r) (rc_Config r) draws w) as [_ Hgrow]. rewrite E in Hgrow. specialize (Hgrow eq_refl eq_refl).
    cbn in Hgrow. exists (ks ++ [length (w_dialled w)]). destruct (Hserved _ _ _ _ E) as (fks & rest & sent & Hok & Hfd & Hl).
    split_and!; cbn [r_conns r_world].
    + apply Forall2_app; [done|]. constructor; [|constructor]. exists (ws_maxPayloadSize ws). by eapply deliver_init.
    + by apply StronglySorted_snoc.
    + apply Forall_app. split; [|by constructor]. eapply Forall_impl; [exact Hlt|]. intros k Hk. cbn in Hk. lia.
  - exists ks. unfold served_by. cbn [r_conns r_world]. rewrite (close_stopped i cs); [done|].
    intros l Hl. split; [by eapply Forall_lookup_1|by eapply Hst].
Qed.

Lemma conn_step_served ks (s s' : rstate P) :
  rand_works -> leak_inv s -> served_by ks s -> conn_step s s' -> served_by ks s'.
Proof.
  intros Hr (Hd & _) (Hf & Hsort & Hlt) Hs. destruct Hs as [pc d n w cl cs out i b l l' Hl Hsta Hs Hb].
  cbn [r_done r_conns r_world] in *. subst d. destruct b; [by specialize (Hb eq_refl)|].
  split_and!; try done. cbn [r_conns]. destruct (Forall2_lookup_r _ _ _ _ _ Hf Hl) as (k & Hk & max & Hi).
  rewrite <- (list_insert_id ks i k Hk). apply Forall2_insert; [done|]. exists max. by eapply deliver_step.
Qed.

Lemma other_step_served ks (s s' : rstate P) :
  rand_works -> served_by ks s -> other_step false s s' -> served_by ks s'.
Proof.
  intros Hr (Hf & Hsort & Hlt) Hs. remember false as b eqn:Eb.
  destruct Hs as [pc n w cl cs out|pc d n w cl cs out i b l c' Hl He]; [done|]. subst b.
  split_and!; try done. cbn [r_conns] in *. destruct (Forall2_lookup_r _ _ _ _ _ Hf Hl) as (k & Hk & max & Hi).
  rewrite <- (list_insert_id ks i k Hk). apply Forall2_insert; [done|]. exists max. destruct l as [lpc lc lx lout].
  by eapply deliver_env.
Qed.

(** No call comes when [Run] has ended between two sessions. *)
Lemma idle_stays calls new n ph :
  phase_after calls = Some (Idle n) -> phase_after (calls ++ new) = Some ph ->
  Forall (fun c => exists i m, c = ROnMessage i m) new -> new = [].
Proof.
  intros Hp Hp2 Hn. destruct Hn as [|c new (i & m & ->) _]; [done|]. exfalso.
  assert (foldl (fun ph call => ph ≫= fun p => phase_call p call) None new = None) as Hnone by (clear; by induction new).
  unfold phase_after in *. rewrite foldl_app, Hp in Hp2. cbn in Hp2. congruence.
Qed.

Lemma new_messages_only i out out' : Forall (fun c => exists j m, c = ROnMessage j m) (new_messages i out out').
Proof. unfold new_messages. induction (drop (length out) out') as [|[] l IH]; cbn; try done. constructor; [by eexists _, _|done]. Qed.

Lemma run_inv_step b (s s' : rstate P) : served -> run_inv s -> run_step r b s s' -> run_inv s'.
Proof.
  intros Hserved (Hleak & Hord & _ & ks & Hks) Hs. split_and!.
  - eapply run_step_leak; [by apply served_ends|done|done].
  - by eapply run_step_ordered.
  - destruct Hleak as [Hd _], Hord as [ph [Ha Hok _ _ _ _ _]]. unfold view in Hok. rewrite length_fmap in Hok.
    intros Hr. destruct Hs; cbn [r_pc r_done r_calls r_conns phase_ok] in *; try done. by rewrite Ha, Hok.
  - by eapply run_step_served.
Qed.

Lemma run_inv_conn (s s' : rstate P) : rand_works -> run_inv s -> conn_step s s' -> run_inv s'.
Proof.
  intros Hr (Hleak & Hord & Hidle & ks & Hks) Hs. split_and!.
  - by eapply conn_step_leak.
  - by eapply conn_step_ordered.
  - pose proof (conn_step_ordered _ _ Hs Hord) as [ph [Ha _ _ _ _ _ _]].
    destruct Hs as [pc d n w cl cs out i b l l' Hl Hsta Hs Hb]. unfold ends_idle in *. cbn [r_pc r_calls r_conns] in *.
    intros ->. specialize (Hidle eq_refl). rewrite length_insert.
    rewrite (idle_stays _ _ _ _ Hidle Ha (new_messages_only _ _ _)) in Ha |- *. by rewrite app_nil_r.
  - exists ks. by eapply conn_step_served.
Qed.

Lemma run_inv_other (s s' : rstate P) : rand_works -> run_inv s -> other_step false s s' -> run_inv s'.
Proof.
  intros Hr (Hleak & Hord & Hidle & ks & Hks) Hs. split_and!.
  - by eapply other_step_leak.
  - by eapply other_step_ordered.
  - unfold ends_idle in *. destruct Hs; cbn [r_pc r_calls r_conns] in *; [done|]. by rewrite length_insert.
  - exists ks. by eapply other_step_served.
Qed.

Lemma run_inv_run a n (s s' : rstate P) : rand_works -> served -> r_run r true a n s s' -> run_inv s -> run_inv s'.
Proof.
  intros Hr Hs. induction 1 as [s|a n b s1 s2 s3 Hstep _ IH|a n s1 s2 s3 Hstep _ IH|a n b s1 s2 s3 Hstep Hb _ IH];
    intros Hi; [done|eauto using run_inv_step|eauto using run_inv_conn|].
  rewrite (Hb eq_refl) in Hstep. eauto using run_inv_other.
Qed.

Lemma run_inv_start (w : world P) : run_inv (Run w).
Proof.
  split_and!.
  - split_and!; [done|constructor|]. by intros i l Hl.
  - exists (Idle 0). constructor; try done. by intros i e ?%elem_of_nil.
  - done.
  - exists []. by repeat constructor.
Qed.

(** What a client's listener has got and said when it has stopped. *)
Lemma fed_by_stopped k l :
  fed_by k l -> wl_pc l = WStopped -> got_messages (wl_out l) = feed k /\ done_value (wl_out l) = Some None.
Proof.
  intros [max Hi] Hp. unfold deliver_inv in Hi. rewrite Hp in Hi. destruct Hi as [-> _].
  induction (feed k) as [|m ms [IH1 IH2]]; [done|]. cbn in *. by split; [f_equal|].
Qed.

(** C35: a reconnecting client delivers everything: when the servers it reaches
    send their messages, fragmented in any way, with pings anywhere but pongs
    only between messages (a message with a pong among its fragments is lost,
    see [WsClient]), and then end, and when nobody else closes anything, a run that
    has returned has called back, attempt errors aside, with one session after
    the other, each [OnConnect], then exactly the messages of its server in
    order, then [OnDisconnect] without an error; no server's messages come
    twice. *)
Theorem Reconnect_delivers (w : world P) (a n : nat) (s : rstate P)
    (Hrand : rand_works) (Hserved : served) (Hrun : r_run r true a n (Run w) s) (Hret : r_pc s = RReturned) :
  exists ks, StronglySorted lt ks /\ length ks = length (r_conns s) /\
    quiet (r_calls s) = concat (imap (fun i k => session i (feed k)) ks).
Proof.
  destruct (run_inv_run _ _ _ _ Hrand Hserved Hrun (run_inv_start w)) as ((_ & _ & Hst) & [ph Hord] & Hidle & ks & Hf & Hsort & _).
  exists ks. pose proof (Forall2_length _ _ _ Hf) as Hlen. split_and!; [done|done|].
  assert (forall i l, r_conns s !! i = Some l -> exists k, ks !! i = Some k /\ got_messages (wl_out l) = feed k /\
    done_value (wl_out l) = Some None) as Hl.
  { intros i l Hl. destruct (Forall2_lookup_r _ _ _ _ _ Hf Hl) as (k & Hk & Hfed). exists k. split; [done|].
    apply fed_by_stopped; [done|]. eapply Hst; [done|]. by rewrite Hret. }
  rewrite (calls_sessions _ _ (Hidle Hret)).
  - cbn [behind]. rewrite app_nil_r. unfold sessions. f_equal. apply list_eq. intros i.
    rewrite list_lookup_fmap, list_lookup_imap. destruct (r_conns s !! i) as [l|] eqn:El.
    + destruct (Hl i l El) as (k & -> & Hg & _). rewrite lookup_seq_lt by (by eapply lookup_lt_Some). cbn.
      do 2 f_equal. rewrite (oi_msgs _ _ _ _ Hord i). unfold view. by rewrite list_lookup_fmap, El.
    + apply lookup_ge_None in El. rewrite lookup_seq_ge by done. by rewrite (lookup_ge_None_2 ks) by lia.
  - intros i e Hin. destruct (oi_errs _ _ _ _ Hord i e Hin) as (v & Hv & Hd). unfold view in Hv.
    rewrite list_lookup_fmap in Hv. destruct (r_conns s !! i) as [l|] eqn:El; [|done]. injection Hv as <-.
    destruct (Hl i l El) as (_ & _ & _ & Hn). cbn in Hd. congruence.
Qed.
End delivers.

(** ** Witness *)

Lemma demo_served :
  served (H1 := simple_neturl) (H2 := rand_zero) (H3 := demo_net demo_session) demo_reconnect (fun _ => demo_messages).
Proof.
  intros draws w ws w' E. vm_compute in E. injection E as <- <-. exists demo_feed, []. eexists. split_and!.
  - repeat constructor; vm_compute; congruence.
  - cbn [ws_maxPayloadSize]. eapply feeds_first; [by left|done|vm_compute; congruence|]. apply feeds_ping; [done|].
    apply (feeds_last _ wsOpText (str "Hel")); [done|done|done|vm_compute; congruence|].
    apply feeds_pong; [done|]. by apply feeds_close.
  - eexists. do 6 (split; [reflexivity|]). split_and!; [reflexivity|reflexivity| |vm_compute; reflexivity].
    repeat constructor; vm_compute; congruence.
Qed.

Lemma Reconnect_delivers_witness :
  exists ks, StronglySorted lt ks /\ length ks = 2%nat /\
    quiet (r_calls (demo_auto 100)) = concat (imap (fun i _ => session i demo_messages) ks).
Proof.
  destruct (r_auto_run (H1 := simple_neturl) (H2 := rand_zero) (H3 := demo_net demo_session) demo_reconnect true 100
    (Run demo_world)) as (a & n & Hn).
  apply (Reconnect_delivers (H1 := simple_neturl) (H2 := rand_zero) (H3 := demo_net demo_session) demo_reconnect
    (fun _ => demo_messages) demo_world a n (demo_auto 100)).
  - intros i. by eexists.
  - exact demo_served.
  - exact Hn.
  - vm_compute. reflexivity.
Defined.
