(* ===== verification/Console.v ===== *)
(** * Console: programs that print

    What the programs under [cmd] and [examples] share: a program is an
    operation on a state together with the lines it has printed.  [panic(err)]
    and the use of a nil pointer are [Panic]; [log.Fatal] is [Err], after which
    nothing runs, deferred calls included. *)

From S2P Require Import Prelude Bytes.

Local Open Scope Z_scope.

Record console (S : Type) := mkCon { con_state : S; con_lines : list bytes }.
Arguments mkCon {S}.
Arguments con_state {S}.
Arguments con_lines {S}.

Definition Println {S} (line : bytes) : GoM (console S) unit :=
  modify (fun s => mkCon (con_state s) (con_lines s ++ [line])).
Definition run {S A} (m : GoM S A) : GoM (console S) A := fun s =>
  let '(r, s') := m (con_state s) in (r, mkCon s' (con_lines s)).

Lemma run_Ok {S A} (m : GoM S A) s l a s' : m s = (Ok a, s') -> run m (mkCon s l) = (Ok a, mkCon s' l).
Proof. intros E. unfold run. cbn [con_state]. by rewrite E. Qed.

(** [if err != nil { panic(err) }]. *)
Definition or_panic {S A} (m : GoM S A) : GoM S A := catch m (fun _ => panic).

Lemma or_panic_Ok {S A} (m : GoM S A) s a s' : m s = (Ok a, s') -> or_panic m s = (Ok a, s').
Proof. intros E. unfold or_panic, catch. by rewrite E. Qed.

(** [time.Second]. *)
Definition second : Z := 1000000000.
