(* ===== verification/NetExamples.v ===== *)
(** * NetExamples: the programs that show the network packages

    Models [cmd/http_client_example/main.go] and
    [cmd/websocket_client_example/main.go] as clients of [HttpClient],
    [WsClient], [WsListen] and [WsReconnect].  A program is an operation on a
    state together with the lines it has printed; [panic(err)] and the use of a
    nil pointer are [Panic]. *)

From S2P Require Import Prelude Bytes GoStrings Encoding NetAddr Conn Bufio Proxy HttpConnect Tcp Socks Dial Tunnel.
From S2P Require Import Http1 HttpBody HttpClient WsFrame WsClient WsHandshake Json WsListen EndToEnd WsReconnect Console.

Local Open Scope Z_scope.

(** ** [http_client_example] *)

Section http_example.
Context `{Unicode} `{MapOrder} `{NetURL} `{Net} `{Inflate}.
Context (Quote : bytes -> bytes) (free : nat -> nat).

Definition ipify : bytes := str "https://api.ipify.org?format=json".

(** What both functions do with the answer; a nil response is dereferenced. *)
Definition report (r : option HTTPResponse * option error) : GoM (console (hstate unit)) unit :=
  match r with
  | (_, Some _) | (None, None) => panic
  | (Some res, None) => Println (Itoa (rs_StatusCode res)) ;; Println (rs_Body res)
  end.

Definition direct_client : HTTPClient unit := NewHTTPClient (15 * second) None [].
Definition direct : GoM (console (hstate unit)) unit :=
  do r <- run (Get Quote free (ctx_wait Background) direct_client ipify ∅);
  report r.

Definition proxy_client (cfg : ProxyConfig) : HTTPClient unit := NewHTTPClient (15 * second) (Some (SinglePick (Some cfg))) [].
Definition withProxy : GoM (console (hstate unit)) unit :=
  match ParseProxyConfig (str "socks5://206.123.156.211:4996") with
  | inr _ => panic
  | inl cfg =>
      do r <- run (Get Quote free (ctx_wait Background) (proxy_client cfg) ipify
                    {[ str "Accept" := str "application/json" ]});
      report r
  end.

Definition http_main : GoM (console (hstate unit)) unit :=
  Println (str "=== Direct Connection ===") ;;
  direct ;;
  Println (Byte.x0a :: str "=== Via Proxy ===") ;;
  withProxy.

(** [serves c u port isTLS w code data]: a client [c] that asks for [u] in the
    world [w] reaches a server that answers with this status, not a redirect,
    and this body, not compressed. *)
Definition serves (c : HTTPClient unit) (u : URL) (port : Z) (isTLS : bool) (w : world unit) (code : Z) (data : bytes) : Prop :=
  exists statusLine hs kind wire sent,
    let h := foldl (fun h kv => add_header h (fst kv) (snd kv)) ∅ hs in
    online (request_target c u port) isTLS w (statusLine ++ crlf ++ header_block hs ++ crlf ++ wire) sent /\
    line_ok statusLine /\ parseHTTPStatusCode statusLine = inl code /\ isRedirectStatus code = false /\
    Forall header_ok hs /\ buildHTTPBodyReader h = inl kind /\ wrapDecompressReader h = Identity /\
    body_wire kind wire data.

(** A default client gets what is served. *)
Lemma Get_served pick u port isTLS w d l code data h :
  let c := NewHTTPClient (15 * second) pick [] in
  url_Parse (TrimSpace ipify) = inl u -> u_Scheme u = (if isTLS : bool then str "https" else str "http") ->
  (if bool_decide (u_Port u = []) then Some (if isTLS then 443 else 80) else Atoi (u_Port u)) = Some port ->
  target_ok (request_target c u port) -> serves c u port isTLS w code data ->
  exists s', (do r <- run (Get Quote free (ctx_wait Background) c ipify h); report r) (mkCon (mkH w d) l) =
      (Ok tt, mkCon s' (l ++ [Itoa code; data])) /\
    exists k, w_left (h_world s') = w_left w ++ [k] /\ c_closed k = true.
Proof.
  intros c Hurl Hscheme Hport Htarget (statusLine & hs & kind & wire & sent & Hon & Hline & Hcode & Hred & Hhs & Hkind & Hdec & Hbody).
  destruct (Do_online Quote free (ctx_wait Background) c (mkReq (str "GET") ipify h []) (mkH w d) u port isTLS
    statusLine wire data sent code hs kind) as (s' & k & E & Hl & Hk & _); try done.
  exists s'. split; [|by exists k]. rewrite (bind_Ok _ _ _ _ _ (run_Ok _ _ _ _ _ E)).
  unfold report, Println, modify, bind, ret. cbn [con_state con_lines rs_StatusCode rs_Body]. by rewrite <- app_assoc.
Qed.

(** The HTTP example prints the status and the body of the site's answer, once
    from a direct connection and once through its proxy, and has closed both
    connections. *)
Theorem http_example_prints (u : URL) (cfg : ProxyConfig) (w : world unit) (code1 code2 : Z) (data1 data2 : bytes)
    (Hurl : url_Parse (TrimSpace ipify) = inl u) (Hscheme : u_Scheme u = str "https") (Hport : u_Port u = [])
    (Hhost : u_Hostname u = str "api.ipify.org")
    (Hproxy : ParseProxyConfig (str "socks5://206.123.156.211:4996") = inl cfg)
    (Hdirect : serves direct_client u 443 true w code1 data1)
    (Hvia : forall w', serves (proxy_client cfg) u 443 true w' code2 data2) :
  exists s', http_main (mkCon (mkH w []) []) =
      (Ok tt, mkCon s' [str "=== Direct Connection ==="; Itoa code1; data1;
                        Byte.x0a :: str "=== Via Proxy ==="; Itoa code2; data2]) /\
    exists k1 k2, w_left (h_world s') = w_left w ++ [k1; k2] /\ c_closed k1 = true /\ c_closed k2 = true.
Proof.
  assert (forall pick : option (picker (P := unit)), target_ok (request_target (NewHTTPClient (15 * second) pick []) u 443)) as Ht.
  { intros pick. unfold target_ok, request_target. cbn [tg_host tg_port]. rewrite Hhost. split; [reflexivity|]. split; [done|lia]. }
  assert ((if bool_decide (u_Port u = []) then Some 443 else Atoi (u_Port u)) = Some 443) as Hp by (by rewrite Hport).
  destruct (Get_served None u 443 true w [] [str "=== Direct Connection ==="] code1 data1 ∅ Hurl Hscheme Hp (Ht _) Hdirect)
    as (s1 & E1 & k1 & Hl1 & Hk1).
  destruct (Get_served (Some (SinglePick (Some cfg))) u 443 true (h_world s1) (h_debug s1)
    ([str "=== Direct Connection ==="; Itoa code1; data1] ++ [Byte.x0a :: str "=== Via Proxy ==="]) code2 data2
    {[ str "Accept" := str "application/json" ]} Hurl Hscheme Hp (Ht _) (Hvia _)) as (s2 & E2 & k2 & Hl2 & Hk2).
  exists s2. split; [|exists k1, k2; by rewrite Hl2, Hl1, <- app_assoc].
  unfold http_main. erewrite bind_Ok by reflexivity. unfold direct. rewrite (bind_Ok _ _ _ _ _ E1).
  erewrite bind_Ok by reflexivity. unfold withProxy. rewrite Hproxy. destruct s1. exact E2.
Qed.
End http_example.

(** *** Witness: a site behind a cipher that changes nothing *)

Definition demo_body : bytes := str "HTTP/1.1 200 OK" ++ crlf ++ header_block [(str "Content-Length", str "2")] ++ crlf ++ str "{}".
Definition demo_proxy : ProxyConfig := mkProxyConfig ProxyTypeSOCKS5 (str "206.123.156.211") 4996 None None.
#[program] Definition demo_sites : Net := {|
  net_Dial _ addr _ _ :=
    inl (mkConn [mkRd (if bool_decide (addr = str "206.123.156.211:4996") then demo_reply ++ demo_body else demo_body) None]
      [] [] None None false false);
  net_TLS _ c := (inl (mkConn (c_in c) [] [] None None false false), c);
  net_IP4 _ := None;
|}.
Next Obligation. by intros ? ? ? ? ? [= <-]. Qed.
Next Obligation. by intros ? ? ? ? [= <- _]. Qed.
Definition demo_urls : NetURL := {|
  URL := simple_url;
  url_Parse s := if bool_decide (s = ipify) then inl (mkSimpleURL (str "https") None (str "api.ipify.org"))
                 else @url_Parse simple_neturl s;
  u_Scheme := @u_Scheme simple_neturl;
  u_User := @u_User simple_neturl;
  u_Host := @u_Host simple_neturl;
  u_RequestURI := @u_RequestURI simple_neturl;
  u_Resolve := @u_Resolve simple_neturl;
|}.
Definition demo_site : @URL demo_urls := mkSimpleURL (str "https") None (str "api.ipify.org").

Lemma demo_serves (c : HTTPClient unit) w :
  (exists sent, route (H0 := demo_sites) (request_target (H1 := demo_urls) c demo_site 443) w demo_body sent) ->
  serves (H1 := demo_urls) (H2 := demo_sites) c demo_site 443 true w 200 (str "{}").
Proof.
  intros [sent Hr]. exists (str "HTTP/1.1 200 OK"), [(str "Content-Length", str "2")], (BodyLimited 2), (str "{}"), [].
  split_and!; try reflexivity.
  - eapply (online_tls (H0 := demo_sites)); [exact Hr|]. intros k sent' (? & ? & Hcut & Hf & ?). eexists _, _. split; [reflexivity|].
    by repeat split.
  - apply (bool_decide_eq_true_1 _). reflexivity.
  - repeat constructor; try (vm_compute; congruence); apply (bool_decide_eq_false_1 _); reflexivity.
  - split; [reflexivity|]. by exists [].
Qed.

Lemma http_example_prints_witness :
  exists s', http_main (H1 := demo_urls) (H2 := demo_sites) (fun s => s) (fun _ => 7%nat) (mkCon (mkH demo_world []) []) =
      (Ok tt, mkCon s' [str "=== Direct Connection ==="; str "200"; str "{}";
                        Byte.x0a :: str "=== Via Proxy ==="; str "200"; str "{}"]) /\
    exists k1 k2, w_left (h_world s') = [] ++ [k1; k2] /\ c_closed k1 = true /\ c_closed k2 = true.
Proof.
  apply (http_example_prints (H1 := demo_urls) (H2 := demo_sites) (fun s => s) (fun _ => 7%nat) demo_site demo_proxy
    demo_world 200 200 (str "{}") (str "{}")); try reflexivity.
  - apply demo_serves. exists []. eapply route_direct; [exact I|]. split; [reflexivity|].
    repeat split. repeat constructor; vm_compute; congruence.
  - intros w. apply demo_serves.
    exists (socks5Transcript demo_proxy (str "api.ipify.org") 443 false).
    apply (route_socks5 (H0 := demo_sites) (request_target (H1 := demo_urls) (proxy_client demo_proxy) demo_site 443) w demo_proxy
      (mkConn [mkRd (demo_reply ++ demo_body) None] [] [] None None false false) (demo_reply ++ demo_body) false demo_body).
    + split; [reflexivity|]. by eexists _, _.
    + reflexivity.
    + vm_compute. repeat split; congruence.
    + split; [reflexivity|]. repeat split. repeat constructor; vm_compute; congruence.
    + exists Byte.x01, [Byte.x7f; Byte.x00; Byte.x00; Byte.x01; Byte.x04; Byte.x38].
      split; [reflexivity|]. split; [left; split; reflexivity|done].
Defined.

(** ** [websocket_client_example] *)

Section ws_example.
Context `{Unicode} `{MapOrder} `{NetURL} `{Rand} `{Net} `{JSON}.
Context (Quote : bytes -> bytes).

(** *** [autoPing] *)

Definition echo_url : bytes := str "wss://echo.websocket.org".
Definition ping_conf : WebSocketConfig unit :=
  mkWSConf (15 * second) None None ∅ [] false [] (20 * second) (str "ping") (8 * 1024 * 1024) (60 * second) false.

(** The value of the local struct type it sends. *)
Definition hello : goval := VOther 0.

(** [msg] is a pointer. *)
Definition print_message {S} (msg : option WebSocketMessage) : GoM (console S) unit :=
  match msg with
  | None => panic
  | Some m => Println (str "opcode: " ++ Itoa (b2z (m_Opcode m))) ;; Println (str "data: " ++ m_Data m)
  end.

(** An error other than EOF panics. *)
Definition read_and_print : GoM (console WebSocketClient) unit :=
  do r <- run (catch ReadMessage (fun err => ret (None, Some err)));
  let '(msg, err) := r in
  if bool_decide (err = None \/ err = Some EOF) then print_message msg else panic.

Definition autoPing_session : GoM (console WebSocketClient) unit :=
  deferred (run (ignore WS_Close))
    (read_and_print ;;
     or_panic (run (SendJSON hello)) ;;
     read_and_print).

(** The pinger that opening starts sleeps for 20 seconds and is not followed. *)
Definition autoPing (draws : nat) : GoM (console (world unit)) unit :=
  do r <- or_panic (run (open_session echo_url ping_conf draws));
  fun s => let '(r, s') := autoPing_session (mkCon (snd r) (con_lines s)) in (r, mkCon (con_state s) (con_lines s')).

(** *** [autoReconnect] *)

Definition autoReconnect_client : ReconnectWebSocketClient unit :=
  let conf := mkWSConf (15 * second) None None ∅ [] false [] (20 * second) [] (8 * 1024 * 1024) (60 * second) false in
  let rws := NewReconnectWebSocketClient echo_url conf in
  mkReconnect (rc_URL rws) (rc_Config rws) (3 * second) (-1).

(** What its callbacks print; [fmt.Println] of an error is its text. *)
Definition reconnect_line (c : rcall) : bytes :=
  match c with
  | ROnConnect _ => str "connected"
  | ROnMessage _ m => str "message: " ++ m_Data m
  | ROnError e => str "error: " ++ error_text Quote e
  | ROnDisconnect _ None => str "disconnected: <nil>"
  | ROnDisconnect _ (Some e) => str "disconnected: " ++ error_text Quote e
  end.

(** *** [brdtnet] *)

Definition brdtnet_url : bytes := str "wss://proxyjs.brdtnet.com".
Definition brdtnet_conf : WebSocketConfig unit :=
  mkWSConf (15 * second) None None ∅
    (str "Dalvik/2.1.0 (Linux; U; Android 8.1.0; Redmi 3X Build/OPM7.181205.001)") false []
    0 [] (8 * 1024 * 1024) (60 * second) false.

Definition callback_lines (cb : ws_callback) : list bytes :=
  match cb with
  | WsOnMessage m => [str "opcode: " ++ Itoa (b2z (m_Opcode m)); str "data: " ++ m_Data m]
  | WsOnError e => [str "error: " ++ error_text Quote e]
  | WsOnDone => [str "disconnected"]
  end.

(** The listener it starts; the rest is [select {}]. *)
Definition brdtnet (draws : nat) : GoM (console (world unit)) wlstate :=
  do r <- or_panic (run (open_session brdtnet_url brdtnet_conf draws));
  ret (wl_init (snd r)).

Definition ws_main (draws : nat) : GoM (console (world unit)) wlstate :=
  Println (Byte.x0a :: str "=== Brdtnet Proxy ===") ;; brdtnet draws.

(** The screen in a state of the listener. *)
Definition screen (lines : list bytes) (s : wlstate) : list bytes := lines ++ concat (callback_lines <$> wl_out s).

(** A site that accepts the upgrade with the first key and then sends [rest]. *)
Definition upgrades (u : URL) (conf : WebSocketConfig unit) (draws : nat) (w : world unit) (rest : bytes) : Prop :=
  exists statusLine hs rnd sent,
    online (session_target conf u 443) true w (statusLine ++ crlf ++ header_block hs ++ crlf ++ rest) sent /\
    rand_Read draws 16 = inl rnd /\ line_ok statusLine /\ parseHTTPStatusCode statusLine = inl 101 /\
    Forall header_ok hs /\
    switches (base64 rnd) hs.

Lemma open_session_upgrades rawURL u conf draws w rest l :
  url_Parse (TrimSpace rawURL) = inl u -> u_Scheme u = str "wss" -> u_Port u = [] ->
  target_ok (session_target conf u 443) -> upgrades u conf draws w rest ->
  exists p c w' sent, or_panic (run (open_session rawURL conf draws)) (mkCon w l) = (Ok (p, c), mkCon w' l) /\
    ws_maxPayloadSize c = session_max conf /\ ws_live false c rest sent.
Proof.
  intros Hurl Hscheme Hport Ht (statusLine & hs & rnd & sent & Hon & Hrnd & Hline & Hcode & Hhs & Hcheck).
  destruct (NewWebSocketClient_online rawURL conf draws w u 443 true statusLine hs rnd rest sent)
    as (c & w' & E & _ & Hm & Hl); try done; [by rewrite Hport|].
  assert (exists p, open_session rawURL conf draws w = (Ok (p, c), w')) as [p Es].
  { unfold open_session, StartPing. rewrite (bind_Ok _ _ _ _ _ E). destruct (0 <? wc_PingInterval conf); by eexists. }
  exists p, c, w', (sent ++ opening_request u (base64 rnd) conf). split; [|by split]. by apply or_panic_Ok, run_Ok.
Qed.

(** The WebSocket example prints opcode and data of every message the server
    sends, in order, and that it was disconnected, when nobody closes its
    client. *)
Theorem ws_example_prints (u : URL) (draws : nat) (w : world unit) (fks : list (websocketFrame * bytes)) (rest : bytes)
    (ms : list WebSocketMessage)
    (Hurl : url_Parse (TrimSpace brdtnet_url) = inl u) (Hscheme : u_Scheme u = str "wss") (Hport : u_Port u = [])
    (Hhost : u_Hostname u = str "proxyjs.brdtnet.com") (Hrand : rand_works)
    (Hserver : upgrades u brdtnet_conf draws w (wires fks ++ rest))
    (Hframes : Forall (fun fk => frame_ok (session_max brdtnet_conf) (fst fk) (snd fk)) fks)
    (Hfeed : feeds (session_max brdtnet_conf) Byte.x00 [] (fst <$> fks) rest ms) :
  exists s0 w', ws_main draws (mkCon w []) = (Ok s0, mkCon w' [Byte.x0a :: str "=== Brdtnet Proxy ==="]) /\
    forall n s, wl_run true n s0 s -> wl_pc s = WStopped ->
      screen [Byte.x0a :: str "=== Brdtnet Proxy ==="] s =
        (Byte.x0a :: str "=== Brdtnet Proxy ===") ::
        concat ((fun m => [str "opcode: " ++ Itoa (b2z (m_Opcode m)); str "data: " ++ m_Data m]) <$> ms) ++
        [str "disconnected"].
Proof.
  destruct (open_session_upgrades brdtnet_url u brdtnet_conf draws w (wires fks ++ rest)
    [Byte.x0a :: str "=== Brdtnet Proxy ==="] Hurl Hscheme Hport) as (p & c & w' & sent & E & Hm & Hl); [|done|].
  { unfold target_ok, session_target. cbn [tg_host tg_port]. rewrite Hhost. split; [reflexivity|]. split; [done|lia]. }
  exists (wl_init c), w'. split.
  { unfold ws_main. erewrite bind_Ok by reflexivity. unfold brdtnet. by rewrite (bind_Ok _ _ _ _ _ E). }
  intros n s Hrun Hstop. rewrite <- Hm in Hframes, Hfeed.
  pose proof (deliver_run Hrand _ _ _ _ _ Hrun (deliver_init _ _ _ _ _ Hframes Hfeed Hl)) as Hd.
  unfold deliver_inv in Hd. rewrite Hstop in Hd. destruct Hd as [Hout _]. unfold screen.
  rewrite Hout, fmap_app, concat_app, <- list_fmap_compose. done.
Qed.

(** [autoPing] passes an EOF on and uses the nil message that comes with it: on
    a server that ends the stream it panics. *)
Theorem autoPing_panics (u : URL) (draws : nat) (w : world unit)
    (Hurl : url_Parse (TrimSpace echo_url) = inl u) (Hscheme : u_Scheme u = str "wss") (Hport : u_Port u = [])
    (Hhost : u_Hostname u = str "echo.websocket.org")
    (Hserver : upgrades u ping_conf draws w []) :
  exists w', autoPing draws (mkCon w []) = (Panic, mkCon w' []).
Proof.
  destruct (open_session_upgrades echo_url u ping_conf draws w [] [] Hurl Hscheme Hport)
    as (p & c & w' & sent & E & _ & Hl); [|done|].
  { unfold target_ok, session_target. cbn [tg_host tg_port]. rewrite Hhost. split; [reflexivity|]. split; [done|lia]. }
  exists w'. unfold autoPing. rewrite (bind_Ok _ _ _ _ _ E). cbn [snd con_lines con_state].
  destruct (next_frame_eof _ _ _ Hl) as (c1 & E1 & _).
  assert (ReadMessage c = (Err EOF, c1)) as Er.
  { unfold ReadMessage, get, bind at 1. cbv beta iota.
    assert (ws_isClosed c = false) as -> by (by destruct Hl as (? & _ & _ & ? & _)).
    cbn [read_message]. by rewrite (bind_Err _ _ _ _ _ E1). }
  assert (read_and_print (mkCon c []) = (Panic, mkCon c1 [])) as Ep.
  { unfold read_and_print. erewrite bind_Ok; [|apply run_Ok; unfold catch; by rewrite Er].
    cbv beta iota. by rewrite bool_decide_eq_true_2 by (by right). }
  unfold autoPing_session, deferred, bind at 1. rewrite Ep. unfold run. cbn [con_state con_lines].
  by destruct (ignore WS_Close c1).
Qed.
End ws_example.

(** *** Witnesses *)

(** The only host answers with [inp], over the same cipher. *)
#[program] Definition demo_host (inp : bytes) : Net := {|
  net_Dial _ _ _ _ := inl (mkConn [mkRd inp None] [] [] None None false false);
  net_TLS _ c := (inl (mkConn (c_in c) [] [] None None false false), c);
  net_IP4 _ := None;
|}.
Next Obligation. by intros ? ? ? ? ? ? [= <-]. Qed.
Next Obligation. by intros ? ? ? ? ? [= <- _]. Qed.
Definition demo_accepts (rest : bytes) : bytes := demo_line ++ crlf ++ header_block demo_upgrade ++ crlf ++ rest.

Lemma demo_upgrades (u : @URL simple_neturl) (conf : WebSocketConfig unit) rest :
  wc_Picker conf = None ->
  upgrades (H1 := simple_neturl) (H3 := demo_host (demo_accepts rest)) u conf 0 demo_world rest.
Proof.
  intros Hp. exists demo_line, demo_upgrade, (replicate 16 (z2b 0)), []. split_and!; try reflexivity.
  - eapply (online_tls (H0 := demo_host (demo_accepts rest))) with (wire := demo_accepts rest).
    + eapply (route_direct (H0 := demo_host (demo_accepts rest))).
      * unfold picks_none, session_target. cbn [tg_picker]. by rewrite Hp.
      * split; [reflexivity|]. repeat split; [repeat constructor; vm_compute; congruence|]. cbn. by rewrite app_nil_r.
    + intros k sent' (? & ? & Hcut & Hf & ?). eexists _, _. split; [reflexivity|]. by repeat split.
  - apply (bool_decide_eq_true_1 _). reflexivity.
  - repeat constructor; try (vm_compute; congruence); apply (bool_decide_eq_false_1 _); vm_compute; reflexivity.
  - split; [vm_compute; reflexivity|]. split; vm_compute; reflexivity.
Qed.

(** A greeting and a close. *)
Definition demo_greeting : list (websocketFrame * bytes) :=
  [(mkFrame true wsOpText false (str "hi"), demo_key); (mkFrame true wsOpClose false [], demo_key)].

Lemma ws_example_prints_witness :
  exists s0 w', ws_main (H1 := simple_neturl) (H3 := demo_host (demo_accepts (wires demo_greeting ++ []))) 0
      (mkCon demo_world []) = (Ok s0, mkCon w' [Byte.x0a :: str "=== Brdtnet Proxy ==="]) /\
    forall n s, wl_run true n s0 s -> wl_pc s = WStopped ->
      screen (fun s => s) [Byte.x0a :: str "=== Brdtnet Proxy ==="] s =
        [Byte.x0a :: str "=== Brdtnet Proxy ==="; str "opcode: 1"; str "data: hi"; str "disconnected"].
Proof.
  apply (ws_example_prints (H1 := simple_neturl) (H3 := demo_host (demo_accepts (wires demo_greeting ++ []))) (fun s => s)
    (mkSimpleURL (str "wss") None (str "proxyjs.brdtnet.com")) 0 demo_world demo_greeting [] [mkMsg wsOpText (str "hi")]);
    try reflexivity.
  - exact rand_counter_works.
  - by apply demo_upgrades.
  - repeat constructor; vm_compute; congruence.
  - apply (feeds_single _ (mkFrame true wsOpText false (str "hi"))); [by left|done|]. by apply feeds_close.
Defined.

Lemma autoPing_panics_witness :
  exists w', autoPing (H1 := simple_neturl) (H3 := demo_host (demo_accepts [])) 0 (mkCon demo_world []) = (Panic, mkCon w' []).
Proof.
  apply (autoPing_panics (H1 := simple_neturl) (H3 := demo_host (demo_accepts []))
    (mkSimpleURL (str "wss") None (str "echo.websocket.org"))); try reflexivity. by apply demo_upgrades.
Defined.
