(* ===== verification/Storage.v ===== *)
(** * Storage: the encrypted key-value file

    Models [storage/storage.go]: a map of JSON values kept in a file that is
    encrypted with AES in CBC mode and padded as PKCS #7, with the previous
    file kept as a backup.  The lock makes every method one atomic step.  The
    disk has files by their paths and directories by their cleaned paths; a
    read can fail; a write needs the directory of its file, can fail, and then
    leaves what it wrote of the file. *)

From S2P Require Import Prelude Bytes GoStrings Paths Json Aes.

Local Open Scope Z_scope.

(** ** The disk *)

(** A write that fails: before it opened the file, or after it truncated it
    and wrote some bytes. *)
Record wfault := mkFault { wf_err : error; wf_kept : option nat }.

(** The files; the directories, and those that cannot be made, because of
    permissions or because a file is in the way; what becomes of the next
    reads of files and of the next writes, after which all succeed. *)
Record disk := mkDisk {
  d_files : gmap bytes bytes;
  d_dirs : gset bytes;
  d_barred : gset bytes;
  d_rfaults : list (option error);
  d_faults : list (option wfault);
}.

Definition ErrNotExist : error := Sentinel "file does not exist".

(** The working directory and the root are always there. *)
Definition dir_exists (d : disk) (dir : bytes) : bool :=
  bool_decide (dir = str ".") || bool_decide (dir = str "/") || bool_decide (dir ∈ d_dirs d).

Definition os_ReadFile (path : bytes) : GoM disk bytes := fun d =>
  match d_files d !! path with
  | None => (Err ErrNotExist, d)
  | Some b =>
      match d_rfaults d with
      | f :: rs =>
          (match f with Some err => Err err | None => Ok b end,
           mkDisk (d_files d) (d_dirs d) (d_barred d) rs (d_faults d))
      | [] => (Ok b, d)
      end
  end.

Definition os_WriteFile (path data : bytes) : GoM disk unit := fun d =>
  let fs := d_files d in
  if negb (dir_exists d (filepath_Dir path)) then (Err ErrNotExist, d)
  else
    match d_faults d with
    | Some f :: ws =>
        let fs' := match wf_kept f with Some n => <[path := take n data]> fs | None => fs end in
        (Err (wf_err f), mkDisk fs' (d_dirs d) (d_barred d) (d_rfaults d) ws)
    | None :: ws => (Ok tt, mkDisk (<[path := data]> fs) (d_dirs d) (d_barred d) (d_rfaults d) ws)
    | [] => (Ok tt, mkDisk (<[path := data]> fs) (d_dirs d) (d_barred d) (d_rfaults d) [])
    end.

(** [os.MkdirAll] makes the missing directories on the way, as far as it can. *)
Fixpoint mkdirs (dirs : list bytes) : GoM disk unit := fun d =>
  match dirs with
  | [] => (Ok tt, d)
  | dir :: dirs =>
      if dir_exists d dir then mkdirs dirs d
      else if bool_decide (dir ∈ d_barred d) then (Err (Errorf "mkdir %s" [AStr dir]), d)
      else mkdirs dirs (mkDisk (d_files d) ({[dir]} ∪ d_dirs d) (d_barred d) (d_rfaults d) (d_faults d))
  end.
Definition os_MkdirAll (dir : bytes) : GoM disk unit := fun d =>
  if dir_exists d dir then (Ok tt, d) else mkdirs (ancestors dir) d.

(** ** Padding *)

Definition pkcs7Pad (b : bytes) (blockSize : Z) : bytes :=
  let p := blockSize - Z.rem (zlen b) blockSize in
  b ++ replicate (Z.to_nat p) (z2b p).

(** The byte [i] from the end. *)
Definition from_end (b : bytes) (i : nat) : byte := nth (length b - 1 - i) b Byte.x00.

Definition pkcs7Unpad (b : bytes) (blockSize : Z) : bytes + error :=
  if (zlen b =? 0) || negb (Z.rem (zlen b) blockSize =? 0)
  then inr (Errorf "invalid padding size" [])
  else
    let p := b2z (from_end b 0) in
    if (p =? 0) || (blockSize <? p) || (zlen b <? p) then inr (Errorf "invalid padding" [])
    else if forallb (fun i => bool_decide (from_end b i = z2b p)) (seq 0 (Z.to_nat p))
    then inl (take (length b - Z.to_nat p) b)
    else inr (Errorf "invalid padding" []).

(** ** Names and keys *)

(** [filepath.Ext] and what is before it; [rest] is the path backwards. *)
Fixpoint strip_rev (rest : bytes) : option bytes :=
  match rest with
  | [] => None
  | b :: rest =>
      if bool_decide (b = Byte.x2f) then None
      else if bool_decide (b = Byte.x2e) then Some rest
      else strip_rev rest
  end.
Definition stripExt (p : bytes) : bytes :=
  match strip_rev (reverse p) with
  | Some rest => reverse rest
  | None => p
  end.

(** [hex.DecodeString]. *)
Definition unhex_val (b : byte) : option Z :=
  match digit_val b with
  | Some d => if d <? 16 then Some d else None
  | None => None
  end.
Fixpoint hex_DecodeString (s : bytes) : bytes + error :=
  match s with
  | [] => inl []
  | [a] => match unhex_val a with
           | Some _ => inr (Sentinel "encoding/hex: odd length hex string")
           | None => inr (Errorf "encoding/hex: invalid byte: %d" [AInt (b2z a)])
           end
  | a :: b :: s =>
      match unhex_val a, unhex_val b with
      | None, _ => inr (Errorf "encoding/hex: invalid byte: %d" [AInt (b2z a)])
      | _, None => inr (Errorf "encoding/hex: invalid byte: %d" [AInt (b2z b)])
      | Some x, Some y =>
          match hex_DecodeString s with
          | inl r => inl (z2b (16 * x + y) :: r)
          | inr e => inr e
          end
      end
  end.

Definition defaultKey : bytes := str "381a0130d76c062f9f0219ee485ee3f2".

(** ** The storage *)

(** [s_store] is a Go map, which can be nil. *)
Record Storage := mkStorage {
  s_Path : bytes;
  s_BackupPath : bytes;
  s_Key : bytes;
  s_store : option (gmap bytes goval);
}.

Definition NewWithKey (path keyHex : bytes) : Storage + error :=
  let keyHex := if bool_decide (keyHex = []) then defaultKey else keyHex in
  match hex_DecodeString keyHex with
  | inr err => inr err
  | inl key =>
      if bool_decide (length key = 16 \/ length key = 24 \/ length key = 32)%nat
      then inl (mkStorage path (stripExt path ++ str ".backup.bin") key (Some ∅))
      else inr (Errorf "key must be 16/24/32 bytes (32/48/64 hex)" [])
  end.

Definition New (path : bytes) : Storage + error := NewWithKey path defaultKey.

(** A storage, the disk it is on and the random draws made so far. *)
Record env := mkEnv { e_storage : Storage; e_disk : disk; e_draws : nat }.

Definition set_store (m : option (gmap bytes goval)) (e : env) : env :=
  let s := e_storage e in
  mkEnv (mkStorage (s_Path s) (s_BackupPath s) (s_Key s) m) (e_disk e) (e_draws e).
Definition store (e : env) : option (gmap bytes goval) := s_store (e_storage e).

Definition on_disk {A} (m : GoM disk A) : GoM env A := fun e =>
  let '(r, d) := m (e_disk e) in (r, mkEnv (e_storage e) d (e_draws e)).

(** [s.store[key]]: a nil map has no keys, a missing key gives nil. *)
Definition lookup_store (e : env) (key : bytes) : option goval := store e ≫= lookup key.
(** [s.store[key] = v]: a nil map panics. *)
Definition assign (key : bytes) (v : goval) : GoM env unit := fun e =>
  match store e with
  | Some m => (Ok tt, set_store (Some (<[key := v]> m)) e)
  | None => (Panic, e)
  end.
Definition store_value (m : option (gmap bytes goval)) : goval :=
  match m with Some m => VMap m | None => VNilMap end.

Section storage.
Context `{JSON} `{Rand} `{FloatOverflow}.

(** [io.ReadFull(rand.Reader, iv)], whose error is ignored. *)
Definition iv_at (draws : nat) : bytes :=
  match rand_Read draws 16 with inl b => b | inr _ => replicate 16 Byte.x00 end.
Definition draw_iv : GoM env bytes := fun e =>
  (Ok (iv_at (e_draws e)), mkEnv (e_storage e) (e_disk e) (S (e_draws e))).

(** A read whose error is looked at, not returned. *)
Definition try_read (path : bytes) : GoM env (option bytes) :=
  catch (do b <- on_disk (os_ReadFile path); ret (Some b)) (fun _ => ret None).

(** When the file is there its bytes, or none if it cannot be read, become the
    backup. *)
Definition backup : GoM env unit :=
  do e <- get;
  let s := e_storage e in
  match d_files (e_disk e) !! s_Path s with
  | Some _ =>
      do b <- try_read (s_Path s);
      ignore (on_disk (os_WriteFile (s_BackupPath s) (default [] b)))
  | None => ret tt
  end.

Definition save : GoM env unit :=
  do e <- get;
  let s := e_storage e in
  match json_Marshal (store_value (s_store s)) with
  | inr err => fail err
  | inl raw =>
      do iv <- draw_iv;
      match NewCipher (s_Key s) with
      | None => panic
      | Some block =>
          match CBCEncrypt block iv (pkcs7Pad raw 16) with
          | None => panic
          | Some pad => backup ;; on_disk (os_WriteFile (s_Path s) (iv ++ pad))
          end
      end
  end.

Definition decryptToStore (blob : bytes) : GoM env unit :=
  do e <- get;
  if zlen blob <? 16 then fail (Errorf "invalid blob" [])
  else
    match NewCipher (s_Key (e_storage e)) with
    | None => panic
    | Some block =>
        match CBCDecrypt block (take 16 blob) (drop 16 blob) with
        | None => panic
        | Some data =>
            match pkcs7Unpad data 16 with
            | inr err => fail err
            | inl plain =>
                match unmarshal_map plain with
                | inr err => fail err
                | inl obj => modify (set_store obj)
                end
            end
        end
    end.

Definition reset : GoM env unit := modify (set_store (Some ∅)) ;; save.

Definition ensureParent (path : bytes) : GoM env unit :=
  ignore (on_disk (os_MkdirAll (filepath_Dir path))).

(** Reading the file, or else the backup; or a new file. *)
Definition load_files : GoM env unit :=
  do e <- get;
  let s := e_storage e in
  do r <- try_read (s_Path s);
  match r with
  | Some b =>
      if 16 <? zlen b then
        catch (decryptToStore b) (fun _ =>
          do fr <- try_read (s_BackupPath s);
          match fr with
          | Some fb => catch (decryptToStore fb) (fun _ => reset)
          | None => reset
          end)
      else reset
  | None => reset
  end.

Definition Initialize : GoM env unit :=
  do e <- get;
  ensureParent (s_Path (e_storage e)) ;;
  ensureParent (s_BackupPath (e_storage e)) ;;
  load_files.

(** *** Reading *)

Definition Storage_Get (e : env) (key : bytes) : goval := default VNil (lookup_store e key).

Definition GetString (e : env) (key : bytes) : bytes * bool :=
  match lookup_store e key with
  | Some (VString s) => (s, true)
  | _ => ([], false)
  end.

Definition GetInt (e : env) (key : bytes) : Z * bool :=
  match lookup_store e key with
  | Some (VFloat f) => (float_to_int f, true)
  | Some (VString s) => match Atoi s with Some n => (n, true) | None => (0, false) end
  | _ => (0, false)
  end.

Definition GetBool (e : env) (key : bytes) : bool * bool :=
  match lookup_store e key with
  | Some (VBool b) => (b, true)
  | _ => (false, false)
  end.

Definition GetJSON (e : env) (key : bytes) : gmap bytes goval :=
  match lookup_store e key with
  | Some (VMap m) => m
  | _ => ∅
  end.

Definition GetListData (e : env) (key : bytes) : list goval :=
  match lookup_store e key with
  | Some (VList l) => l
  | _ => []
  end.

Definition GetStringList (e : env) (key : bytes) : list bytes :=
  omap (fun v => match v with VString s => Some s | _ => None end) (GetListData e key).

(** Into a variable of the caller's, which [unmarshal] decodes; the error of
    [json.Marshal] is dropped and leaves no bytes. *)
Definition GetJSONInto {T} (unmarshal : bytes -> T + error) (e : env) (key : bytes) : T + error :=
  unmarshal (match json_Marshal (VMap (GetJSON e key)) with inl b => b | inr _ => [] end).

(** [slicePtr]: the caller's variable is a pointer to a slice. *)
Definition GetListJSONInto {T} (slicePtr : bool) (unmarshal : bytes -> list T + error) (e : env) (key : bytes)
    : list T + error :=
  if negb slicePtr then inr (Errorf "out must be pointer to slice" [])
  else
    match lookup_store e key with
    | None => inl []
    | Some v =>
        match v with
        | VList _ | VNilList =>
            match json_Marshal v with
            | inl b => unmarshal b
            | inr err => inr err
            end
        | _ => inr (Errorf "value for key %q is not a list" [AQuote key])
        end
    end.

(** The keys, in the order a [range] visits them. *)
Definition Storage_Keys (e : env) : list bytes :=
  match store e with
  | Some m => fst <$> map_to_list m
  | None => []
  end.

(** *** Writing *)

Definition Set_ (key : bytes) (value : goval) : GoM env unit := assign key value ;; save.

(** A value as JSON reads it back, handed on. *)
Definition through_json {A} (value : goval) (decode : bytes -> A + error) (k : A -> GoM env unit) : GoM env unit :=
  match json_Marshal value with
  | inr err => fail err
  | inl b => match decode b with inr err => fail err | inl v => k v end
  end.

Definition SetStruct (key : bytes) (value : goval) : GoM env unit :=
  match value with
  | VMap _ | VNilMap => assign key value ;; save
  | _ => through_json value unmarshal_map (fun m => assign key (store_value m) ;; save)
  end.

Definition SetListStruct (key : bytes) (value : goval) : GoM env unit :=
  through_json value unmarshal_list (fun arr => assign key arr ;; save).

Definition SetAuto (key : bytes) (value : goval) : GoM env unit :=
  through_json value json_Unmarshal (fun v => assign key v ;; save).

Definition Storage_Delete (key : bytes) : GoM env unit :=
  do e <- get;
  match store e with
  | Some m => match m !! key with
              | Some _ => modify (set_store (Some (delete key m))) ;; save
              | None => ret tt
              end
  | None => ret tt
  end.

Definition Clear : GoM env unit := reset.

Definition RestoreFromBackup : GoM env unit :=
  do e <- get;
  do b <- on_disk (os_ReadFile (s_BackupPath (e_storage e)));
  decryptToStore b ;; save.

(** *** Import and export *)

Definition ExportJSON (e : env) : bytes + error :=
  json_MarshalIndent (VMap (default ∅ (store e))).

Definition ExportJSONToFile (path : bytes) : GoM env unit :=
  do e <- get;
  match ExportJSON e with
  | inr err => fail err
  | inl b => ensureParent path ;; on_disk (os_WriteFile path b)
  end.

Definition ImportJSON (data : bytes) : GoM env unit :=
  match unmarshal_map data with
  | inr err => fail err
  | inl obj => modify (set_store obj) ;; save
  end.

Definition ImportJSONFile (path : bytes) : GoM env unit :=
  do b <- on_disk (os_ReadFile path); ImportJSON b.

Definition assign_all (obj : gmap bytes goval) : GoM env unit := fun e =>
  match store e with
  | Some m => (Ok tt, set_store (Some (obj ∪ m)) e)
  | None => if (size obj =? 0)%nat then (Ok tt, e) else (Panic, e)
  end.

Definition MergeJSON (data : bytes) : GoM env unit :=
  match unmarshal_map data with
  | inr err => fail err
  | inl obj => assign_all (default ∅ obj) ;; save
  end.

Definition MergeJSONFile (path : bytes) : GoM env unit :=
  do b <- on_disk (os_ReadFile path); MergeJSON b.
End storage.

(** ** Padding is exact *)

Lemma from_end_pad p x k i : (i < k)%nat -> from_end (p ++ replicate k x) i = x.
Proof.
  intros Hi. unfold from_end. apply nth_lookup_Some. rewrite lookup_app_r by len.
  apply lookup_replicate. split; [done|len].
Qed.

(** A list whose last [k] bytes are [x]. *)
Lemma from_end_all b x k :
  (k <= length b)%nat -> (forall i, (i < k)%nat -> from_end b i = x) ->
  b = take (length b - k) b ++ replicate k x.
Proof.
  intros Hk Hx. rewrite <- (take_drop (length b - k) b) at 1. f_equal.
  apply list_eq_same_length with k; [len|len|]. intros i y z Hi Hy Hz.
  apply lookup_replicate in Hz as [-> _]. rewrite lookup_drop in Hy.
  rewrite <- (Hx (k - 1 - i)%nat) by lia. unfold from_end.
  replace (length b - 1 - (k - 1 - i))%nat with (length b - k + i)%nat by lia.
  symmetry. by apply nth_lookup_Some.
Qed.

Lemma pad_amount l n : 0 < n -> 0 <= l -> 0 < n - Z.rem l n <= n.
Proof. intros Hn Hl. pose proof (Z.rem_bound_pos l n Hl Hn). lia. Qed.

(** A whole number of blocks, of which the last [p] bytes are padding. *)
Lemma pad_blocks l p n : 0 < p <= n -> 0 <= l -> n - Z.rem l n = p <-> Z.rem (l + p) n = 0.
Proof.
  intros Hp Hl. rewrite !Z.rem_mod_nonneg by lia.
  pose proof (Z.mod_pos_bound l n ltac:(lia)) as Hb. split; intros E.
  - subst p. rewrite Z.add_comm, <- (Z.add_mod_idemp_r _ l) by lia.
    replace (n - l mod n + l mod n) with (1 * n) by lia. apply Z_mod_mult.
  - rewrite <- Z.add_mod_idemp_l in E by lia. apply Z.mod_divide in E as [q E]; [|lia].
    assert (0 < q) by nia. assert (q < 2) by nia. assert (q = 1) as -> by lia. lia.
Qed.

Lemma pkcs7_spec b p blockSize :
  0 < blockSize < 256 -> pkcs7Unpad b blockSize = inl p <-> b = pkcs7Pad p blockSize.
Proof.
  intros Hsize.
  unfold pkcs7Unpad, pkcs7Pad. cbv zeta. split.
  - case_if; [done|]. set (k := b2z (from_end b 0)) in *. case_if; [done|]. case_if; [|done].
    intros [= <-]. bools. assert (0 < k) by (pose proof (b2z_range (from_end b 0)); lia).
    unfold zlen in *. rename select (forallb _ _ = true) into Hall.
    assert (b = take (length b - Z.to_nat k) b ++ replicate (Z.to_nat k) (z2b k)) as Eb.
    { apply from_end_all; [lia|]. intros i Hi. rewrite forallb_forall in Hall.
      specialize (Hall i). apply (bool_decide_eq_true_1 _). apply Hall, in_seq. lia. }
    rewrite length_take.
    replace (Z.of_nat ((length b - Z.to_nat k) `min` length b)) with (Z.of_nat (length b) - k) by lia.
    assert (blockSize - Z.rem (Z.of_nat (length b) - k) blockSize = k) as ->; [|done].
    apply pad_blocks; [lia|lia|]. replace (Z.of_nat (length b) - k + k) with (Z.of_nat (length b)) by lia. lia.
  - intros ->. pose proof (pad_amount (zlen p) blockSize ltac:(lia) (zlen_nonneg p)) as Hk.
    set (k := blockSize - Z.rem (zlen p) blockSize) in *.
    assert (zlen (p ++ replicate (Z.to_nat k) (z2b k)) = zlen p + k) as El.
    { unfold zlen. rewrite length_app, length_replicate. lia. }
    pose proof (zlen_nonneg p). rewrite El.
    assert (Z.rem (zlen p + k) blockSize = 0) as -> by (apply pad_blocks; [lia|lia|done]).
    rewrite from_end_pad, b2z_z2b, Z.mod_small by lia.
    rewrite (proj2 (Z.eqb_neq _ _)), (proj2 (Z.eqb_neq k 0)), (proj2 (Z.ltb_ge blockSize k)), (proj2 (Z.ltb_ge _ k)) by lia.
    cbn [orb negb Z.eqb]. rewrite (proj2 (forallb_forall _ _)).
    + rewrite take_app_length'; [done|]. rewrite length_app, length_replicate. lia.
    + intros i Hi%in_seq. apply (bool_decide_eq_true_2 _). apply from_end_pad. lia.
Qed.

(** [pkcs7Unpad] accepts exactly what [pkcs7Pad] produces: it gives [p]
    back on the padding of [p], and rejects every other input. *)
Theorem pkcs7_exact (b p : bytes) (blockSize : Z) (Hsize : 0 < blockSize < 256) :
  pkcs7Unpad b blockSize = inl p <-> b = pkcs7Pad p blockSize.
Proof. by apply pkcs7_spec. Qed.

(** ** What a file holds *)

Definition usable_key (key : bytes) : Prop := (length key = 16 \/ length key = 24 \/ length key = 32)%nat.

(** The two paths differ and the key is one that [NewCipher] takes. *)
Definition wf_storage (s : Storage) : Prop := usable_key (s_Key s) /\ s_BackupPath s <> s_Path s.

Lemma strip_rev_spec r rest : strip_rev r = Some rest ->
  exists ext, r = ext ++ Byte.x2e :: rest /\ (Byte.x2e ∉ ext) /\ (Byte.x2f ∉ ext).
Proof.
  revert rest. induction r as [|b r IH]; intros rest; [done|]. cbn.
  case_bool_decide as H1; [done|]. case_bool_decide as H2.
  - intros [= ->]. exists []. subst b. split_and!; [done|set_solver..].
  - intros (ext & -> & He & Hs)%IH. exists (b :: ext). split_and!; [done|set_solver..].
Qed.

Lemma NewWithKey_wf path keyHex s : NewWithKey path keyHex = inl s -> wf_storage s /\ s_Path s = path /\ s_store s = Some ∅.
Proof.
  unfold NewWithKey. cbv zeta. destruct (hex_DecodeString _) as [key|]; [|done].
  case_bool_decide as Hk; [|done]. intros [= <-]. split; [|done]. split; [done|].
  change (stripExt path ++ str ".backup.bin" <> path). unfold stripExt.
  destruct (strip_rev (reverse path)) as [rest|] eqn:E.
  - apply strip_rev_spec in E as (ext & E & He & _). intros Hc.
    apply (f_equal reverse) in Hc. rewrite reverse_app, reverse_involutive, E in Hc.
    change (reverse (str ".backup.bin")) with (reverse (str "bin") ++ Byte.x2e :: reverse (str ".backup")) in Hc.
    rewrite <- app_assoc in Hc. cbn [app] in Hc.
    assert (reverse (str "bin") = ext /\ reverse (str ".backup") ++ rest = rest) as [_ Hr].
    { revert Hc. clear -He. generalize (reverse (str ".backup") ++ rest). intros t Hc.
      assert (Byte.x2e ∉ reverse (str "bin")) as Hb by (apply (bool_decide_eq_false_1 _); reflexivity).
      revert Hc Hb He. generalize (reverse (str "bin")). intros l. revert ext.
      induction l as [|x l IH]; intros [|y ext] Hc Hb He; cbn in Hc; simplify_eq; [done|set_solver|set_solver|].
      destruct (IH ext) as [-> ->]; try done; set_solver. }
    apply (f_equal length) in Hr. rewrite length_app in Hr. change (length (reverse (str ".backup"))) with 7%nat in Hr. lia.
  - intros Hc. apply (f_equal length) in Hc. rewrite length_app in Hc. change (length (str ".backup.bin")) with 11%nat in Hc. lia.
Qed.

(** The two files are in the same directory. *)
Lemma backup_beside path : filepath_Dir (stripExt path ++ str ".backup.bin") = filepath_Dir path.
Proof.
  assert (Byte.x2f ∉ str ".backup.bin") as Hs by (apply (bool_decide_eq_false_1 _); reflexivity).
  rewrite filepath_Dir_app by done. unfold stripExt. destruct (strip_rev (reverse path)) as [rest|] eqn:E; [|done].
  apply strip_rev_spec in E as (ext & E & _ & Hx). apply (f_equal reverse) in E.
  rewrite reverse_involutive, reverse_app, reverse_cons, <- app_assoc in E. rewrite E.
  rewrite filepath_Dir_app; [done|]. rewrite elem_of_app, elem_of_reverse. set_solver.
Qed.

Lemma NewWithKey_beside path keyHex s :
  NewWithKey path keyHex = inl s -> filepath_Dir (s_BackupPath s) = filepath_Dir (s_Path s).
Proof.
  unfold NewWithKey. cbv zeta. destruct (hex_DecodeString _) as [key|]; [|done].
  case_bool_decide; [|done]. intros [= <-]. apply backup_beside.
Qed.

(** ** Directories *)

(** [MkdirAll] makes a directory unless one on the way to it cannot be made. *)
Definition can_make (d : disk) (dir : bytes) : Prop :=
  dir_exists d dir = true \/ Forall (fun a => a ∉ d_barred d) (ancestors dir).

(** Directories were added. *)
Definition more_dirs (d d' : disk) : Prop :=
  d_files d' = d_files d /\ d_rfaults d' = d_rfaults d /\ d_faults d' = d_faults d /\ d_barred d' = d_barred d /\ d_dirs d ⊆ d_dirs d'.

Lemma more_dirs_exists d d' dir : more_dirs d d' -> dir_exists d dir = true -> dir_exists d' dir = true.
Proof.
  intros (_ & _ & _ & _ & Hd). unfold dir_exists. rewrite !orb_true_iff, !bool_decide_eq_true. set_solver.
Qed.

Lemma more_dirs_can d d' dir : more_dirs d d' -> can_make d dir -> can_make d' dir.
Proof.
  intros Hm [He|Hf]; [left; by eapply more_dirs_exists|]. right. by destruct Hm as (_ & _ & _ & -> & _).
Qed.

Lemma more_dirs_add d dir : more_dirs d (mkDisk (d_files d) ({[dir]} ∪ d_dirs d) (d_barred d) (d_rfaults d) (d_faults d)).
Proof. split_and!; try done. cbn. set_solver. Qed.

Lemma more_dirs_trans d1 d2 d3 : more_dirs d1 d2 -> more_dirs d2 d3 -> more_dirs d1 d3.
Proof. intros (? & ? & ? & ? & ?) (? & ? & ? & ? & ?). split_and!; try congruence. set_solver. Qed.

Lemma mkdirs_ok dirs d : Forall (fun a => a ∉ d_barred d) dirs ->
  exists d', mkdirs dirs d = (Ok tt, d') /\ more_dirs d d' /\ Forall (fun a => dir_exists d' a = true) dirs.
Proof.
  revert d. induction dirs as [|dir dirs IH]; intros d Hb; cbn [mkdirs].
  { exists d. by split_and!. }
  apply Forall_cons in Hb as [Hdir Hb]. destruct (dir_exists d dir) eqn:Ed.
  - destruct (IH d Hb) as (d' & -> & Hm & Hall). exists d'. split_and!; try done. constructor; [|done].
    by eapply more_dirs_exists.
  - rewrite bool_decide_eq_false_2 by done. set (d1 := mkDisk _ _ _ _ _).
    destruct (IH d1 Hb) as (d' & -> & Hm & Hall). exists d'. split; [done|].
    assert (more_dirs d d1) as Hm1 by apply more_dirs_add. split; [by eapply more_dirs_trans|].
    constructor; [|done]. eapply more_dirs_exists; [exact Hm|]. unfold dir_exists, d1. cbn.
    rewrite !orb_true_iff, !bool_decide_eq_true. set_solver.
Qed.

Lemma MkdirAll_ok dir d : can_make d dir ->
  exists d', os_MkdirAll dir d = (Ok tt, d') /\ more_dirs d d' /\ dir_exists d' dir = true.
Proof.
  unfold os_MkdirAll. destruct (dir_exists d dir) eqn:Ed; [exists d; by split_and!|].
  intros [He|Hf]; [congruence|]. destruct (mkdirs_ok _ d Hf) as (d' & -> & Hm & Hall). exists d'. split_and!; try done.
  unfold ancestors in Hall. apply Forall_app in Hall as [_ Hall]. by apply Forall_cons in Hall as [? _].
Qed.

(** A directory that cannot be made is not. *)
Lemma mkdirs_barred dirs dir d : dir ∈ d_barred d -> dir_exists d dir = false ->
  more_dirs d (snd (mkdirs dirs d)) /\ dir_exists (snd (mkdirs dirs d)) dir = false.
Proof.
  revert d. induction dirs as [|a dirs IH]; intros d Hb He; cbn [mkdirs]; [by split_and!|].
  destruct (dir_exists d a) eqn:Ea; [by apply IH|]. case_bool_decide as Hin; [by split_and!|].
  set (d1 := mkDisk _ _ _ _ _). destruct (IH d1) as [Hm Hd]; [done| |].
  - unfold dir_exists in *. cbn. rewrite !orb_false_iff, !bool_decide_eq_false in *. set_solver.
  - split; [|done]. eapply more_dirs_trans; [apply more_dirs_add|exact Hm].
Qed.

Section persistence.
Context `{JSON} `{Rand} `{FloatOverflow}.

(** A file from which every storage with this key reads this store. *)
Definition holds (key blob : bytes) (obj : option (gmap bytes goval)) : Prop :=
  16 < zlen blob /\
  forall e, s_Key (e_storage e) = key -> decryptToStore blob e = (Ok tt, set_store obj e).

(** What a store reads back as. *)
Definition store_image (m : option (gmap bytes goval)) : option (gmap bytes goval) :=
  (fun m : gmap bytes goval => json_image <$> m) <$> m.

Definition store_saves (m : option (gmap bytes goval)) : Prop :=
  json_keeps (store_value m) /\ exists raw, json_Marshal (store_value m) = inl raw.

(** The disk after [save] wrote [blob]. *)
Definition saved (s : Storage) (blob : bytes) (d : disk) : disk :=
  mkDisk (<[s_Path s := blob]> (match d_files d !! s_Path s with
    | Some b => <[s_BackupPath s := b]> (d_files d)
    | None => d_files d
    end)) (d_dirs d) (d_barred d) [] [].

(** Nothing fails and the directories of the two files are there. *)
Definition working (s : Storage) (d : disk) : Prop :=
  d_rfaults d = [] /\ d_faults d = [] /\ dir_exists d (filepath_Dir (s_Path s)) = true /\
  dir_exists d (filepath_Dir (s_BackupPath s)) = true.

Lemma ensureParent_makes path e : can_make (e_disk e) (filepath_Dir path) ->
  exists d', ensureParent path e = (Ok tt, mkEnv (e_storage e) d' (e_draws e)) /\ more_dirs (e_disk e) d' /\
    dir_exists d' (filepath_Dir path) = true.
Proof.
  intros Hc. destruct (MkdirAll_ok _ _ Hc) as (d' & E & Hm & Hd). exists d'. split; [|done].
  unfold ensureParent, ignore, catch, bind, on_disk, ret. by rewrite E.
Qed.

(** [Initialize] goes on with the directories there. *)
Lemma Initialize_prepares e : d_rfaults (e_disk e) = [] -> d_faults (e_disk e) = [] ->
  can_make (e_disk e) (filepath_Dir (s_Path (e_storage e))) ->
  can_make (e_disk e) (filepath_Dir (s_BackupPath (e_storage e))) ->
  exists d', working (e_storage e) d' /\ more_dirs (e_disk e) d' /\
    Initialize e = load_files (mkEnv (e_storage e) d' (e_draws e)).
Proof.
  intros Hrf Hf Hp Hb. destruct (ensureParent_makes (s_Path (e_storage e)) e Hp) as (d1 & E1 & Hm1 & Hd1).
  destruct (ensureParent_makes (s_BackupPath (e_storage e)) (mkEnv (e_storage e) d1 (e_draws e))) as (d2 & E2 & Hm2 & Hd2).
  { by eapply more_dirs_can. }
  exists d2. unfold working. split_and!.
  - destruct Hm1 as (_ & Hf1 & _). destruct Hm2 as (_ & Hf2 & _). cbn in Hf2. congruence.
  - destruct Hm1 as (_ & _ & Hf1 & _). destruct Hm2 as (_ & _ & Hf2 & _). cbn in Hf2. congruence.
  - by eapply more_dirs_exists.
  - done.
  - by eapply more_dirs_trans.
  - unfold Initialize, get, bind. by rewrite E1, E2.
Qed.

Lemma ensureParent_barred path e : dir_exists (e_disk e) (filepath_Dir path) = false ->
  filepath_Dir path ∈ d_barred (e_disk e) ->
  exists d', ensureParent path e = (Ok tt, mkEnv (e_storage e) d' (e_draws e)) /\ more_dirs (e_disk e) d' /\
    dir_exists d' (filepath_Dir path) = false.
Proof.
  intros He Hb. destruct (mkdirs_barred (ancestors (filepath_Dir path)) _ _ Hb He) as [Hm Hd].
  assert (forall dirs d, returned (fst (mkdirs dirs d))) as Hr.
  { induction dirs as [|a dirs IH]; intros d; cbn [mkdirs]; [done|]. repeat (case_match; try done). }
  specialize (Hr (ancestors (filepath_Dir path)) (e_disk e)).
  unfold ensureParent, ignore, catch, bind, on_disk, os_MkdirAll, ret. rewrite He.
  destruct (mkdirs _ _) as [[] d']; try done; by exists d'.
Qed.

(** Reads that work. *)
Lemma read_works path e : d_rfaults (e_disk e) = [] ->
  on_disk (os_ReadFile path) e =
    (match d_files (e_disk e) !! path with Some b => Ok b | None => Err ErrNotExist end, e).
Proof.
  intros Hr. unfold on_disk, os_ReadFile. rewrite Hr. destruct e as [st d n]. cbn. by destruct (d_files d !! path).
Qed.

Lemma try_read_works path e : d_rfaults (e_disk e) = [] -> try_read path e = (Ok (d_files (e_disk e) !! path), e).
Proof.
  intros Hr. unfold try_read, catch, bind. rewrite read_works by done. by destruct (d_files (e_disk e) !! path).
Qed.

Lemma try_read_missing path e : d_files (e_disk e) !! path = None -> try_read path e = (Ok None, e).
Proof.
  intros Hn. unfold try_read, catch, bind, on_disk, os_ReadFile. rewrite Hn. by destruct e.
Qed.

Lemma write_works path data e : d_faults (e_disk e) = [] -> dir_exists (e_disk e) (filepath_Dir path) = true ->
  on_disk (os_WriteFile path data) e =
    (Ok tt, mkEnv (e_storage e) (mkDisk (<[path := data]> (d_files (e_disk e))) (d_dirs (e_disk e)) (d_barred (e_disk e))
       (d_rfaults (e_disk e)) []) (e_draws e)).
Proof. intros Hf Hd. unfold on_disk, os_WriteFile. by rewrite Hd, Hf. Qed.

Lemma saved_working s blob d : working s d -> working s (saved s blob d).
Proof. by intros (_ & _ & Hp & Hb). Qed.

Lemma ensureParent_there path e : dir_exists (e_disk e) (filepath_Dir path) = true -> ensureParent path e = (Ok tt, e).
Proof.
  intros Hd. unfold ensureParent, ignore, catch, bind, on_disk, os_MkdirAll, ret. rewrite Hd. by destruct e.
Qed.

Lemma Initialize_there e : working (e_storage e) (e_disk e) -> Initialize e = load_files e.
Proof.
  intros (_ & _ & Hp & Hb). unfold Initialize, get, bind. by rewrite !ensureParent_there.
Qed.

Lemma pkcs7Pad_blocks raw : (length (pkcs7Pad raw 16) mod 16 = 0)%nat /\ (0 < length (pkcs7Pad raw 16))%nat.
Proof.
  unfold pkcs7Pad. pose proof (pad_amount (zlen raw) 16 ltac:(lia) (zlen_nonneg raw)) as Hk.
  set (k := 16 - Z.rem (zlen raw) 16) in *.
  assert (Z.rem (zlen raw + k) 16 = 0) as Hr by (apply pad_blocks; [lia|apply zlen_nonneg|done]).
  rewrite Z.rem_mod_nonneg in Hr by (pose proof (zlen_nonneg raw); lia).
  rewrite length_app, length_replicate. unfold zlen in *. split; [|lia].
  apply Nat2Z.inj. rewrite Nat2Z.inj_mod, Nat2Z.inj_add, Z2Nat.id by lia. exact Hr.
Qed.

Lemma iv_length draws : length (iv_at draws) = 16%nat.
Proof. unfold iv_at. destruct (rand_Read draws 16) eqn:E; [by apply rand_Read_len in E|done]. Qed.

(** The format of a file: an initialisation vector, then the padded JSON text
    encrypted with AES in CBC mode. *)
Definition encrypts (key raw blob : bytes) : Prop :=
  exists block iv c, NewCipher key = Some block /\ length iv = 16%nat /\
    CBCEncrypt block iv (pkcs7Pad raw 16) = Some c /\ blob = iv ++ c.

(** A file of this format is read as its text is. *)
Lemma encrypts_reads key raw blob : encrypts key raw blob ->
  16 < zlen blob /\
  forall e, s_Key (e_storage e) = key ->
    decryptToStore blob e = match unmarshal_map raw with inl obj => (Ok tt, set_store obj e) | inr err => (Err err, e) end.
Proof.
  intros (ks & iv & c & Eks & Hiv & Ec & ->). pose proof (NewCipher_schedule _ _ Eks) as Hs.
  destruct (pkcs7Pad_blocks raw) as [Hm Hp].
  destruct (CBC_roundtrip ks iv (pkcs7Pad raw 16) Hs Hiv Hm) as (c' & Ec' & Ed & El).
  rewrite Ec in Ec'. injection Ec' as <-.
  split; [unfold zlen; rewrite length_app; lia|]. intros e' Hk'. unfold decryptToStore, get, bind. cbv beta iota.
  unfold zlen. rewrite length_app. rewrite (proj2 (Z.ltb_ge _ _)) by lia. rewrite Hk', Eks.
  rewrite take_app_length', drop_app_length', Ed by done.
  rewrite (proj2 (pkcs7_spec (pkcs7Pad raw 16) raw 16 ltac:(lia)) eq_refl).
  by destruct (unmarshal_map raw).
Qed.

(** [save] encrypts the map's text and writes it after it has made the backup. *)
Lemma save_text e raw :
  usable_key (s_Key (e_storage e)) -> json_Marshal (store_value (store e)) = inl raw ->
  exists blob, save e = (backup ;; on_disk (os_WriteFile (s_Path (e_storage e)) blob))
      (mkEnv (e_storage e) (e_disk e) (S (e_draws e))) /\
    encrypts (s_Key (e_storage e)) raw blob.
Proof.
  intros Hk Hraw. unfold save, get, bind at 1. cbv beta iota zeta. fold (store e). rewrite Hraw.
  unfold draw_iv, bind at 1. cbv beta iota. pose proof (iv_length (e_draws e)) as Hiv. set (iv := iv_at (e_draws e)) in *.
  destruct (NewCipher_sizes _ Hk) as [ks Eks]. rewrite Eks. pose proof (NewCipher_schedule _ _ Eks) as Hs.
  destruct (CBC_roundtrip ks iv (pkcs7Pad raw 16) Hs Hiv (proj1 (pkcs7Pad_blocks raw))) as (c & Ec & _). rewrite Ec.
  exists (iv ++ c). split; [done|]. by exists ks, iv, c.
Qed.

(** A map that JSON cannot encode is not saved: nothing is drawn or written. *)
Lemma save_fails e err : json_Marshal (store_value (store e)) = inr err -> save e = (Err err, e).
Proof. intros He. unfold save, get, bind at 1. cbv beta iota zeta. fold (store e). by rewrite He. Qed.

(** On a disk that works the file becomes the backup and the text the file. *)
Lemma save_writes e raw :
  usable_key (s_Key (e_storage e)) -> working (e_storage e) (e_disk e) -> json_Marshal (store_value (store e)) = inl raw ->
  exists blob, save e = (Ok tt, mkEnv (e_storage e) (saved (e_storage e) blob (e_disk e)) (S (e_draws e))) /\
    encrypts (s_Key (e_storage e)) raw blob.
Proof.
  intros Hk (Hrf & Hf & Hdp & Hdb) Hs. destruct (save_text e raw Hk Hs) as (blob & -> & Hh). exists blob. split; [|done].
  unfold backup, get, bind, saved. cbn [e_storage e_disk e_draws].
  destruct (d_files (e_disk e) !! s_Path (e_storage e)) as [b|] eqn:Eb.
  - rewrite try_read_works by done. cbn [e_disk]. rewrite Eb. change (default [] (Some b)) with b.
    unfold ignore, catch, bind. rewrite write_works by done. cbn beta iota. unfold ret. rewrite write_works by done.
    cbn [e_disk e_storage e_draws d_files d_dirs d_barred d_rfaults]. by rewrite Hrf.
  - unfold ret. rewrite write_works by done. cbn [e_disk e_storage e_draws]. by rewrite Hrf.
Qed.

(** The text of a map that JSON keeps reads as the map's image, and so does a
    file that encrypts it. *)
Lemma kept_text m raw : json_keeps (store_value m) -> json_Marshal (store_value m) = inl raw ->
  unmarshal_map raw = inl (store_image m).
Proof. intros Hk Hr. unfold unmarshal_map. rewrite (json_roundtrip _ _ Hk Hr). by destruct m. Qed.

Lemma encrypts_holds key raw blob obj : encrypts key raw blob -> unmarshal_map raw = inl obj -> holds key blob obj.
Proof.
  intros He Hu. destruct (encrypts_reads _ _ _ He) as [Hl Hr]. split; [done|].
  intros e Hk. by rewrite (Hr e Hk), Hu.
Qed.

(** [save] writes a blob that holds the map, after it has made the backup. *)
Lemma save_blob e :
  usable_key (s_Key (e_storage e)) -> store_saves (store e) ->
  exists blob, save e = (backup ;; on_disk (os_WriteFile (s_Path (e_storage e)) blob))
      (mkEnv (e_storage e) (e_disk e) (S (e_draws e))) /\
    holds (s_Key (e_storage e)) blob (store_image (store e)).
Proof.
  intros Hk [Hkeep [raw Hraw]]. destruct (save_text e raw Hk Hraw) as (blob & E & He). exists blob.
  split; [exact E|]. eapply encrypts_holds; [exact He|by apply kept_text].
Qed.

Lemma save_ok e :
  usable_key (s_Key (e_storage e)) -> working (e_storage e) (e_disk e) -> store_saves (store e) ->
  exists blob, save e = (Ok tt, mkEnv (e_storage e) (saved (e_storage e) blob (e_disk e)) (S (e_draws e))) /\
    holds (s_Key (e_storage e)) blob (store_image (store e)).
Proof.
  intros Hk Hw [Hkeep [raw Hraw]]. destruct (save_writes e raw Hk Hw Hraw) as (blob & E & He). exists blob.
  split; [exact E|]. eapply encrypts_holds; [exact He|by apply kept_text].
Qed.

(** A directory that cannot be made: the error of [MkdirAll] is dropped, the
    file cannot be written, and [Initialize] reports that. *)
Lemma Initialize_no_directory e :
  usable_key (s_Key (e_storage e)) -> store_saves (Some ∅) ->
  filepath_Dir (s_BackupPath (e_storage e)) = filepath_Dir (s_Path (e_storage e)) ->
  dir_exists (e_disk e) (filepath_Dir (s_Path (e_storage e))) = false ->
  filepath_Dir (s_Path (e_storage e)) ∈ d_barred (e_disk e) ->
  d_files (e_disk e) !! s_Path (e_storage e) = None ->
  exists e', Initialize e = (Err ErrNotExist, e') /\ d_files (e_disk e') = d_files (e_disk e).
Proof.
  intros Hk Hs Hsame He Hb Hnone. destruct (ensureParent_barred (s_Path (e_storage e)) e He Hb) as (d1 & E1 & Hm1 & He1).
  destruct (ensureParent_barred (s_BackupPath (e_storage e)) (mkEnv (e_storage e) d1 (e_draws e))) as (d2 & E2 & Hm2 & He2).
  { cbn [e_disk]. by rewrite Hsame. }
  { cbn [e_disk]. rewrite Hsame. by destruct Hm1 as (_ & _ & _ & -> & _). }
  cbn [e_storage e_draws e_disk] in E2, Hm2. rewrite Hsame in He2.
  assert (d_files d2 = d_files (e_disk e)) as Hfiles by (destruct Hm1, Hm2; congruence).
  unfold Initialize, get, bind. rewrite E1, E2. unfold load_files, get, bind. cbn [e_disk e_storage].
  rewrite try_read_missing by (cbn [e_disk]; by rewrite Hfiles). unfold reset, modify, bind.
  destruct (save_blob (set_store (Some ∅) (mkEnv (e_storage e) d2 (e_draws e))) Hk Hs) as (blob & -> & _).
  unfold backup, get, bind. cbn [e_storage e_disk e_draws set_store s_Path]. rewrite Hfiles, Hnone.
  unfold on_disk, os_WriteFile, ret. cbn [e_storage e_disk e_draws]. rewrite He2. cbn [negb]. by eexists.
Qed.

(** The storage reopened on this disk. *)
Definition reopen (s : Storage) (d : disk) (draws : nat) : env :=
  mkEnv (mkStorage (s_Path s) (s_BackupPath s) (s_Key s) (Some ∅)) d draws.

Lemma Initialize_file e b : working (e_storage e) (e_disk e) -> d_files (e_disk e) !! s_Path (e_storage e) = Some b ->
  Initialize e =
    (if 16 <? zlen b then
       catch (decryptToStore b) (fun _ =>
         do fr <- try_read (s_BackupPath (e_storage e));
         match fr with Some fb => catch (decryptToStore fb) (fun _ => reset) | None => reset end)
     else reset) e.
Proof.
  intros Hw Hb. rewrite Initialize_there by done. unfold load_files, get, bind at 1 2. cbv beta iota zeta.
  by rewrite try_read_works, Hb by apply Hw.
Qed.

Lemma Initialize_reads e blob obj :
  d_files (e_disk e) !! s_Path (e_storage e) = Some blob -> holds (s_Key (e_storage e)) blob obj ->
  working (e_storage e) (e_disk e) -> Initialize e = (Ok tt, set_store obj e).
Proof.
  intros Hf [Hlen Hh] Hw. rewrite (Initialize_file e blob) by done. rewrite (proj2 (Z.ltb_lt _ _)) by done. unfold catch. by rewrite (Hh e eq_refl).
Qed.

(** A [Set] on a working disk is persistent: the storage reopened on the
    disk it leaves reads exactly the new map, as JSON gives it back, and the
    backup file is what the file was before. *)
Theorem Set_persists (e : env) (m : gmap bytes goval) (key : bytes) (v : goval) (draws : nat)
    (Hwf : wf_storage (e_storage e)) (Hm : store e = Some m) (Hdisk : working (e_storage e) (e_disk e))
    (Hsave : store_saves (Some (<[key := v]> m))) :
  exists e1 e2, Set_ key v e = (Ok tt, e1) /\ store e1 = Some (<[key := v]> m) /\
    Initialize (reopen (e_storage e) (e_disk e1) draws) = (Ok tt, e2) /\
    store e2 = Some (json_image <$> <[key := v]> m) /\ e_disk e2 = e_disk e1 /\
    (forall b, d_files (e_disk e) !! s_Path (e_storage e) = Some b ->
       d_files (e_disk e1) !! s_BackupPath (e_storage e) = Some b).
Proof.
  destruct Hwf as [Hk Hp]. unfold Set_, assign, bind. rewrite Hm.
  set (e0 := set_store (Some (<[key := v]> m)) e).
  destruct (save_ok e0 Hk Hdisk Hsave) as (blob & -> & Hh). eexists _, _. split; [reflexivity|].
  split; [done|]. split; [eapply Initialize_reads; [apply lookup_insert_eq|exact Hh|exact (saved_working (e_storage e) blob (e_disk e) Hdisk)]|].
  split; [done|]. split; [done|]. intros b Hb. cbn in *. rewrite Hb, lookup_insert_ne by done.
  apply lookup_insert_eq.
Qed.

(** [RestoreFromBackup] undoes a [Set]: it brings back the map the file
    held before, in memory and in the file. *)
Theorem restore_undoes_Set (e : env) (m : gmap bytes goval) (key b : bytes) (v : goval)
    (old : option (gmap bytes goval))
    (Hwf : wf_storage (e_storage e)) (Hm : store e = Some m) (Hdisk : working (e_storage e) (e_disk e))
    (Hfile : d_files (e_disk e) !! s_Path (e_storage e) = Some b) (Hold : holds (s_Key (e_storage e)) b old)
    (Hsave : store_saves (Some (<[key := v]> m))) (Hresave : store_saves old) :
  exists e1 e2 blob, Set_ key v e = (Ok tt, e1) /\ RestoreFromBackup e1 = (Ok tt, e2) /\ store e2 = old /\
    d_files (e_disk e2) !! s_Path (e_storage e) = Some blob /\ holds (s_Key (e_storage e)) blob (store_image old).
Proof.
  destruct Hwf as [Hk Hp]. unfold Set_, assign, bind at 1. rewrite Hm.
  set (e0 := set_store (Some (<[key := v]> m)) e).
  destruct (save_ok e0 Hk Hdisk Hsave) as (blob & -> & Hh).
  set (e1 := mkEnv _ _ _).
  assert (d_files (e_disk e1) !! s_BackupPath (e_storage e1) = Some b) as Hb.
  { cbn in *. rewrite Hfile, lookup_insert_ne by done. apply lookup_insert_eq. }
  destruct Hold as [_ Hold].
  destruct (save_ok (set_store old e1) Hk (saved_working (e_storage e) blob (e_disk e) Hdisk) Hresave) as (blob2 & E2 & Hh2).
  exists e1. eexists _, blob2. split; [reflexivity|]. split.
  - unfold RestoreFromBackup, get, bind. rewrite read_works, Hb by done. rewrite (Hold e1 eq_refl). exact E2.
  - split; [done|]. split; [apply lookup_insert_eq|exact Hh2].
Qed.

(** A file that was cut short is not recovered from the backup.  Of at
    most 16 bytes it makes [Initialize] start empty and overwrite the backup
    with the cut file; of more, but not whole blocks, it makes it panic. *)
Theorem cut_file_loses_backup (e : env) (b : bytes)
    (Hwf : wf_storage (e_storage e)) (Hdisk : working (e_storage e) (e_disk e))
    (Hfile : d_files (e_disk e) !! s_Path (e_storage e) = Some b) (Hempty : store_saves (Some ∅)) :
  if zlen b <=? 16
  then exists e', Initialize e = (Ok tt, e') /\ store e' = Some ∅ /\
    d_files (e_disk e') !! s_BackupPath (e_storage e) = Some b
  else zlen b mod 16 <> 0 -> fst (Initialize e) = Panic.
Proof.
  destruct Hwf as [Hk Hp]. rewrite (Initialize_file e b) by done. case_if.
  - rewrite (proj2 (Z.ltb_ge _ _)) by lia.
    destruct (save_ok (set_store (Some ∅) e) Hk Hdisk Hempty) as (blob & E & _).
    unfold reset, modify, bind. rewrite E. eexists. split; [reflexivity|]. split; [done|].
    cbn. rewrite Hfile, lookup_insert_ne by done. apply lookup_insert_eq.
  - intros Hmod. rewrite (proj2 (Z.ltb_lt _ _)) by lia. unfold catch, decryptToStore, get, bind. cbv beta iota.
    rewrite (proj2 (Z.ltb_ge _ _)) by lia. destruct (NewCipher_sizes _ Hk) as [ks ->].
    unfold CBCDecrypt. destruct (Nat.eqb_spec (length (drop 16 b) mod 16) 0) as [E|]; [|done].
    destruct Hmod. unfold zlen in *. rewrite length_drop in E.
    apply (f_equal Z.of_nat) in E. rewrite Nat2Z.inj_mod, Nat2Z.inj_sub in E by lia. 
    change (Z.of_nat 16) with 16 in E. rewrite <- (Z_mod_plus_full (Z.of_nat (length b) - 16) 1 16) in E.
    by replace (Z.of_nat (length b) - 16 + 1 * 16) with (Z.of_nat (length b)) in E by lia.
Qed.

Lemma try_read_fails path e err rs b : d_files (e_disk e) !! path = Some b -> d_rfaults (e_disk e) = Some err :: rs ->
  try_read path e = (Ok None, mkEnv (e_storage e)
    (mkDisk (d_files (e_disk e)) (d_dirs (e_disk e)) (d_barred (e_disk e)) rs (d_faults (e_disk e))) (e_draws e)).
Proof. intros Hb Hr. unfold try_read, catch, bind, on_disk, os_ReadFile. by rewrite Hb, Hr. Qed.

(** A file that cannot be read when the storage is opened is lost, and its
    backup with it: [Initialize] takes the error for a missing file, reports
    success and writes an empty map; and as the file is there but cannot be
    read either when it is to become the backup, the backup is emptied. *)
Theorem read_error_loses_both (e : env) (b : bytes) (err1 err2 : error)
    (Hwf : wf_storage (e_storage e))
    (Hreads : d_rfaults (e_disk e) = [Some err1; Some err2]) (Hwrites : d_faults (e_disk e) = [])
    (Hdir : dir_exists (e_disk e) (filepath_Dir (s_Path (e_storage e))) = true)
    (Hbeside : filepath_Dir (s_BackupPath (e_storage e)) = filepath_Dir (s_Path (e_storage e)))
    (Hfile : d_files (e_disk e) !! s_Path (e_storage e) = Some b) (Hempty : store_saves (Some ∅)) :
  exists e' blob, Initialize e = (Ok tt, e') /\ store e' = Some ∅ /\
    d_files (e_disk e') !! s_BackupPath (e_storage e) = Some [] /\
    d_files (e_disk e') !! s_Path (e_storage e) = Some blob /\ holds (s_Key (e_storage e)) blob (Some ∅).
Proof.
  destruct Hwf as [Hk Hp]. unfold Initialize, get, bind at 1. cbn beta iota.
  unfold bind. rewrite !ensureParent_there by (rewrite ?Hbeside; done).
  unfold load_files, get, bind. cbv beta iota zeta. rewrite (try_read_fails _ _ _ _ _ Hfile Hreads).
  unfold reset, modify, bind. set (e0 := set_store _ _).
  destruct (save_blob e0 Hk Hempty) as (blob & -> & Hh). unfold backup, get, bind. cbv beta iota zeta.
  cbn [e_disk e_storage e_draws e0 set_store s_Path s_BackupPath d_files]. rewrite Hfile.
  rewrite (try_read_fails _ _ err2 [] b) by done. cbn [e_disk e_storage e_draws d_files d_dirs d_barred d_faults].
  unfold ignore, catch, bind. rewrite write_works by (cbn; rewrite ?Hbeside; done). unfold ret.
  rewrite write_works by done. eexists _, blob. split; [reflexivity|]. cbn [e_disk d_files e_storage].
  assert (store_image (Some ∅) = Some ∅) as Hi by (unfold store_image; cbn; by rewrite fmap_empty).
  change (store e0) with (Some (∅ : gmap bytes goval)) in Hh. rewrite Hi in Hh.
  split_and!; [done| |apply lookup_insert_eq|exact Hh]. rewrite lookup_insert_ne by done. apply lookup_insert_eq.
Qed.

(** A value that JSON cannot encode (a channel, NaN) is kept: [Set] reports the
    error, but the value stays in memory, and from then on every other [Set]
    fails too and reaches neither file. *)
Theorem unencodable_sticks (e : env) (m : gmap bytes goval) (key : bytes) (v : goval)
    (Hm : store e = Some m)
    (Hbad : forall m' : gmap bytes goval, m' !! key = Some v -> exists err, json_Marshal (VMap m') = inr err) :
  exists err e1, Set_ key v e = (Err err, e1) /\ Storage_Get e1 key = v /\ e_disk e1 = e_disk e /\
    forall key' v', key' <> key -> exists err' e2, Set_ key' v' e1 = (Err err', e2) /\
      Storage_Get e2 key' = v' /\ e_disk e2 = e_disk e.
Proof.
  destruct (Hbad (<[key := v]> m)) as [err Herr]; [apply lookup_insert_eq|].
  exists err, (set_store (Some (<[key := v]> m)) e). split_and!.
  - unfold Set_, assign, bind. rewrite Hm. by apply save_fails.
  - unfold Storage_Get, lookup_store. cbn. by rewrite lookup_insert_eq.
  - done.
  - intros key' v' Hne. destruct (Hbad (<[key' := v']> (<[key := v]> m))) as [err' Herr'].
    { rewrite lookup_insert_ne by done. apply lookup_insert_eq. }
    exists err', (set_store (Some (<[key' := v']> (<[key := v]> m))) e). split_and!.
    + unfold Set_, assign, bind. cbn. by rewrite Herr'.
    + unfold Storage_Get, lookup_store. cbn. by rewrite lookup_insert_eq.
    + done.
Qed.

(** Importing the JSON text null succeeds and leaves the storage without a
    map, in memory and on disk: every later [Set] panics, also after the
    storage is reopened. *)
Theorem import_null_breaks_Set (e : env) (draws : nat)
    (Hwf : wf_storage (e_storage e)) (Hdisk : working (e_storage e) (e_disk e)) (Hnull : store_saves None) :
  exists e1 e2, ImportJSON (str "null") e = (Ok tt, e1) /\
    (forall key v, fst (Set_ key v e1) = Panic) /\
    Initialize (reopen (e_storage e) (e_disk e1) draws) = (Ok tt, e2) /\
    (forall key v, fst (Set_ key v e2) = Panic).
Proof.
  destruct Hwf as [Hk Hp]. unfold ImportJSON, unmarshal_map. rewrite json_null. unfold modify, bind.
  destruct (save_ok (set_store None e) Hk Hdisk Hnull) as (blob & -> & Hh).
  eexists _, _. split; [reflexivity|]. split; [done|].
  split; [eapply Initialize_reads; [apply lookup_insert_eq|exact Hh|exact (saved_working (e_storage e) blob (e_disk e) Hdisk)]|]. done.
Qed.

(** An integer put into the storage cannot be read by [GetInt] until the
    storage is reopened: only then has JSON turned it into the [float64] that
    [GetInt] looks for. *)
Theorem int_needs_reopen (e : env) (m : gmap bytes goval) (key : bytes) (n : Z) (draws : nat)
    (Hwf : wf_storage (e_storage e)) (Hm : store e = Some m) (Hdisk : working (e_storage e) (e_disk e))
    (Hn : Z.abs n < 2 ^ 53) (Hsave : store_saves (Some (<[key := VInt n]> m))) :
  exists e1 e2, Set_ key (VInt n) e = (Ok tt, e1) /\ GetInt e1 key = (0, false) /\
    Initialize (reopen (e_storage e) (e_disk e1) draws) = (Ok tt, e2) /\ GetInt e2 key = (n, true).
Proof.
  destruct Hwf as [Hk Hp]. unfold Set_, assign, bind. rewrite Hm.
  set (e0 := set_store (Some (<[key := VInt n]> m)) e).
  destruct (save_ok e0 Hk Hdisk Hsave) as (blob & -> & Hh). eexists _, _. split; [reflexivity|].
  split; [unfold GetInt, lookup_store; cbn; by rewrite lookup_insert_eq|].
  split; [eapply Initialize_reads; [apply lookup_insert_eq|exact Hh|exact (saved_working (e_storage e) blob (e_disk e) Hdisk)]|].
  unfold GetInt, lookup_store. cbn. rewrite lookup_fmap, lookup_insert_eq. cbn. by rewrite float_to_int_of_int.
Qed.

(** An export makes its directory, and importing the file, into any storage,
    puts the map there as JSON keeps it. *)
Lemma export_import (e : env) (m : gmap bytes goval) (path b : bytes) :
  store e = Some m -> json_keeps (VMap m) -> json_MarshalIndent (VMap m) = inl b ->
  d_faults (e_disk e) = [] -> can_make (e_disk e) (filepath_Dir path) ->
  exists e1, ExportJSONToFile path e = (Ok tt, e1) /\ store e1 = Some m /\
    d_files (e_disk e1) = <[path := b]> (d_files (e_disk e)) /\
    forall e2, d_rfaults (e_disk e2) = [] -> d_files (e_disk e2) !! path = Some b ->
      ImportJSONFile path e2 = save (set_store (Some (json_image <$> m)) e2).
Proof.
  intros Hm Hkeep Hb Hf Hc. destruct (ensureParent_makes path e Hc) as (d' & E & (Hfs & _ & Hfa & _) & Hd).
  assert (ExportJSON e = inl b) as He by (unfold ExportJSON; rewrite Hm; exact Hb).
  unfold ExportJSONToFile, get, bind. rewrite He, E. unfold on_disk, os_WriteFile. cbn [e_disk e_storage e_draws]. rewrite Hd, Hfa, Hf. cbn [negb].
  eexists. split; [reflexivity|]. split_and!; [done|cbn; by rewrite Hfs|].
  intros e2 Hr2 H2. unfold ImportJSONFile, ImportJSON, bind. rewrite read_works, H2 by done. unfold unmarshal_map. rewrite (json_roundtrip_indent _ _ Hkeep Hb). done.
Qed.
End persistence.

(** ** Reading into a slice *)

(** A list read into a [[]any] is the list as JSON keeps it. *)
Lemma GetListJSONInto_image `{JSON} (e : env) (key : bytes) (l : list goval) (b : bytes)
    (Hkey : lookup_store e key = Some (VList l)) (Hkeeps : json_keeps (VList l)) (Hb : json_Marshal (VList l) = inl b) :
  GetListJSONInto true (fun b => match unmarshal_list b with
                                 | inl (VList l) => inl l
                                 | inl _ => inl []
                                 | inr err => inr err
                                 end) e key = inl (json_image <$> l).
Proof.
  unfold GetListJSONInto, unmarshal_list. rewrite Hkey, Hb. cbn [negb]. by rewrite (json_roundtrip _ b Hkeeps Hb).
Qed.

(** ** [token_store.go]

    The interface a client of tokens needs; the storage is one.  [GlobalStore]
    is nil until a program sets it. *)
Class TokenStore (S : Type) := TokenStore_GetString : S -> bytes -> bytes * bool.
#[export] Instance Storage_TokenStore : TokenStore env := GetString.
Definition GlobalStore : option Storage := None.

(** Through the interface a token is found exactly when a string is stored. *)
Lemma token_found (e : env) (key token : bytes) :
  TokenStore_GetString e key = (token, true) <-> lookup_store e key = Some (VString token).
Proof.
  unfold TokenStore_GetString, Storage_TokenStore, GetString. destruct (lookup_store e key) as [[]|]; naive_solver.
Qed.

(** ** Witnesses *)

Definition demo_storage : Storage :=
  mkStorage (str "db.bin") (str "db.backup.bin") (replicate 16 Byte.x01) (Some {[ str "a" := VString (str "1") ]}).
Definition demo_env : env := mkEnv demo_storage (mkDisk ∅ ∅ ∅ [] []) 0.

Lemma demo_wf : wf_storage demo_storage.
Proof. split; [by left|done]. Qed.

Lemma demo_works files : working demo_storage (mkDisk files ∅ ∅ [] []).
Proof. split_and!; reflexivity. Qed.

Lemma demo_saves m : json_keeps (store_value m) -> is_Some (match json_Marshal (store_value m) with inl b => Some b | inr _ => None end) ->
  store_saves m.
Proof. intros Hk [b Hb]. split; [done|]. destruct (json_Marshal _) as [raw|]; [by exists raw|done]. Qed.

Ltac demo_saves := apply demo_saves; [split; vm_compute; congruence|vm_compute; by eexists].

Lemma pkcs7_exact_witness : pkcs7Unpad (str "hello" ++ replicate 11 Byte.x0b) 16 = inl (str "hello").
Proof. apply (pkcs7_exact (str "hello" ++ replicate 11 Byte.x0b) (str "hello") 16); [lia|reflexivity]. Defined.

Lemma Set_persists_witness :
  let m : gmap bytes goval := {[ str "a" := VString (str "1") ]} in
  exists e1 e2, Set_ (str "n") (VInt 7) demo_env = (Ok tt, e1) /\ store e1 = Some (<[str "n" := VInt 7]> m) /\
    Initialize (reopen demo_storage (e_disk e1) 9) = (Ok tt, e2) /\
    store e2 = Some (json_image <$> <[str "n" := VInt 7]> m) /\ e_disk e2 = e_disk e1 /\
    (forall b, d_files (e_disk demo_env) !! str "db.bin" = Some b ->
       d_files (e_disk e1) !! str "db.backup.bin" = Some b).
Proof.
  intros m. apply (Set_persists demo_env m (str "n") (VInt 7) 9 demo_wf eq_refl (demo_works _)). demo_saves.
Defined.

(** The storage after a [Set]. *)
Definition demo_map : gmap bytes goval := <[str "b" := VString (str "2")]> {[ str "a" := VString (str "1") ]}.
Definition demo_env1 : env := snd (Set_ (str "b") (VString (str "2")) demo_env).

Lemma demo_env1_file :
  exists blob, demo_env1 = mkEnv (mkStorage (str "db.bin") (str "db.backup.bin") (replicate 16 Byte.x01) (Some demo_map))
      (mkDisk {[ str "db.bin" := blob ]} ∅ ∅ [] []) 1 /\ holds (replicate 16 Byte.x01) blob (Some demo_map).
Proof.
  destruct (save_ok (set_store (Some demo_map) demo_env)) as (blob & E & Hh); [by left|apply demo_works|demo_saves|].
  exists blob. split; [|exact Hh]. unfold demo_env1.
  change (Set_ (str "b") (VString (str "2")) demo_env) with (save (set_store (Some demo_map) demo_env)).
  rewrite E. reflexivity.
Qed.

Lemma restore_undoes_Set_witness :
  exists e1 e2 blob, Set_ (str "b") (VString (str "3")) demo_env1 = (Ok tt, e1) /\ RestoreFromBackup e1 = (Ok tt, e2) /\
    store e2 = Some demo_map /\
    d_files (e_disk e2) !! s_Path (e_storage demo_env1) = Some blob /\
    holds (s_Key (e_storage demo_env1)) blob (store_image (Some demo_map)).
Proof.
  destruct demo_env1_file as (blob & E & Hh).
  apply (restore_undoes_Set demo_env1 demo_map (str "b") blob (VString (str "3")) (Some demo_map)); rewrite ?E.
  - exact demo_wf.
  - reflexivity.
  - apply demo_works.
  - apply lookup_insert_eq.
  - exact Hh.
  - demo_saves.
  - demo_saves.
Defined.

Lemma cut_file_loses_backup_witness :
  let e := mkEnv demo_storage (mkDisk {[ str "db.bin" := str "cut"; str "db.backup.bin" := str "precious" ]} ∅ ∅ [] []) 0 in
  exists e', Initialize e = (Ok tt, e') /\ store e' = Some ∅ /\
    d_files (e_disk e') !! str "db.backup.bin" = Some (str "cut").
Proof.
  intros e. apply (cut_file_loses_backup e (str "cut") demo_wf (demo_works _) eq_refl). demo_saves.
Defined.

Lemma read_error_loses_both_witness :
  let busy := Errorf "input/output error" [] in
  let files := {[ str "db.bin" := str "precious"; str "db.backup.bin" := str "older" ]} in
  let e := mkEnv demo_storage (mkDisk files ∅ ∅ [Some busy; Some busy] []) 0 in
  exists e' blob, Initialize e = (Ok tt, e') /\ store e' = Some ∅ /\
    d_files (e_disk e') !! str "db.backup.bin" = Some [] /\
    d_files (e_disk e') !! str "db.bin" = Some blob /\ holds (replicate 16 Byte.x01) blob (Some ∅).
Proof.
  intros busy files e.
  apply (read_error_loses_both e (str "precious") busy busy demo_wf eq_refl eq_refl eq_refl eq_refl eq_refl). demo_saves.
Defined.

Lemma import_null_breaks_Set_witness :
  exists e1 e2, ImportJSON (str "null") demo_env = (Ok tt, e1) /\
    (forall key v, fst (Set_ key v e1) = Panic) /\
    Initialize (reopen demo_storage (e_disk e1) 9) = (Ok tt, e2) /\
    (forall key v, fst (Set_ key v e2) = Panic).
Proof. apply (import_null_breaks_Set demo_env 9 demo_wf (demo_works _)). demo_saves. Defined.

Lemma int_needs_reopen_witness :
  exists e1 e2, Set_ (str "n") (VInt 7) demo_env = (Ok tt, e1) /\ GetInt e1 (str "n") = (0, false) /\
    Initialize (reopen demo_storage (e_disk e1) 9) = (Ok tt, e2) /\ GetInt e2 (str "n") = (7, true).
Proof.
  apply (int_needs_reopen demo_env {[ str "a" := VString (str "1") ]} (str "n") 7 9 demo_wf eq_refl (demo_works _)); [lia|].
  demo_saves.
Defined.
