(* ===== verification/StorageRefine.v ===== *)
(** * StorageRefine: the encrypted storage is a persistent map with one undo

    The specification of [storage/storage.go] for its callers: a map in
    memory, the JSON text the file holds and the JSON text the backup holds, as
    far as they exist.  Every operation of [Storage] on a disk that works
    implements its operation on these three, in any sequence, restarts of the
    program and values that JSON cannot encode among them.  On a disk that
    fails, one failing write never loses both the old and the new contents. *)

From Stdlib Require Import Floats.SpecFloat.
From S2P Require Import Prelude Bytes GoStrings Paths Aes Json Storage.

Local Open Scope Z_scope.

(** ** The specification *)

(** A Go map, which can be nil. *)
Definition table : Type := option (gmap bytes goval).

(** The map in memory and the texts on disk. *)
Record pmap := mkPM { pm_mem : table; pm_file : option bytes; pm_back : option bytes }.

Inductive op :=
| OpSet (key : bytes) (v : goval)
| OpSetAuto (key : bytes) (v : goval)
| OpSetStruct (key : bytes) (v : goval)
| OpSetListStruct (key : bytes) (v : goval)
| OpDelete (key : bytes)
| OpClear
| OpImport (data : bytes)
| OpMerge (data : bytes)
| OpRestore
| OpReopen
| OpGet (key : bytes)
| OpGetString (key : bytes).

(** What an operation returns. *)
Inductive answer := Done | Value (v : goval) | Text (s : bytes) (ok : bool).

(** What an operation is to do: answer, load a map, put a map and save it, fail
    or crash. *)
Inductive effect := Keep (a : answer) | Load (m : table) | Save (m : table) | Fails (err : error) | Crashes.

Section spec.
Context `{JSON}.

Definition put_key (key : bytes) (v : goval) (m : table) : effect :=
  match m with Some m => Save (Some (<[key := v]> m)) | None => Crashes end.

(** A value is put as JSON reads it back. *)
Definition put_through {A} (key : bytes) (v : goval) (decode : bytes -> A + error) (inject : A -> goval) (m : table) : effect :=
  match json_Marshal v with
  | inl b => match decode b with inl v' => put_key key (inject v') m | inr err => Fails err end
  | inr err => Fails err
  end.

(** A program that starts reads the file, or else the backup, or else starts
    with an empty map and saves it. *)
Definition start (p : pmap) : effect :=
  match pm_file p with
  | None => Save (Some ∅)
  | Some raw =>
      match unmarshal_map raw with
      | inl m => Load m
      | inr _ =>
          match pm_back p with
          | None => Save (Some ∅)
          | Some raw => match unmarshal_map raw with inl m => Load m | inr _ => Save (Some ∅) end
          end
      end
  end.

Definition effect_of (o : op) (p : pmap) : effect :=
  match o with
  | OpSet key v => put_key key v (pm_mem p)
  | OpSetAuto key v => put_through key v json_Unmarshal id (pm_mem p)
  | OpSetStruct key v =>
      match v with
      | VMap _ | VNilMap => put_key key v (pm_mem p)
      | _ => put_through key v unmarshal_map store_value (pm_mem p)
      end
  | OpSetListStruct key v => put_through key v unmarshal_list id (pm_mem p)
  | OpDelete key =>
      match pm_mem p with
      | Some m => match m !! key with Some _ => Save (Some (delete key m)) | None => Keep Done end
      | None => Keep Done
      end
  | OpClear => Save (Some ∅)
  | OpImport data => match unmarshal_map data with inl obj => Save obj | inr err => Fails err end
  | OpMerge data =>
      match unmarshal_map data with
      | inl obj =>
          match pm_mem p with
          | Some m => Save (Some (default ∅ obj ∪ m))
          | None => if (size (default ∅ obj) =? 0)%nat then Save None else Crashes
          end
      | inr err => Fails err
      end
  | OpRestore =>
      match pm_back p with
      | Some raw => match unmarshal_map raw with inl m => Save m | inr err => Fails err end
      | None => Fails ErrNotExist
      end
  | OpReopen => start p
  | OpGet key => Keep (Value (default VNil (pm_mem p ≫= lookup key)))
  | OpGetString key => Keep (match pm_mem p ≫= lookup key with Some (VString s) => Text s true | _ => Text [] false end)
  end.

Definition with_mem (m : table) (p : pmap) : pmap := mkPM m (pm_file p) (pm_back p).

(** Saving makes the old file the backup and the text of the map the file.  A
    map that has no text is an error: it stays in memory and nothing is
    written. *)
Definition spec_save (p : pmap) : outcome answer * pmap :=
  match json_Marshal (store_value (pm_mem p)) with
  | inl raw => (Ok Done, mkPM (pm_mem p) (Some raw) (match pm_file p with Some f => Some f | None => pm_back p end))
  | inr err => (Err err, p)
  end.

Definition spec_op (o : op) (p : pmap) : outcome answer * pmap :=
  match effect_of o p with
  | Keep a => (Ok a, p)
  | Load m => (Ok Done, with_mem m p)
  | Save m => spec_save (with_mem m p)
  | Fails err => (Err err, p)
  | Crashes => (Panic, p)
  end.

(** The caller goes on after an error and not after a panic. *)
Fixpoint run_ops {S} (step : op -> S -> outcome answer * S) (ops : list op) (s : S) : list (outcome answer) * S :=
  match ops with
  | [] => ([], s)
  | o :: ops =>
      match step o s with
      | (Panic, s') => ([Panic], s')
      | (Diverge, s') => ([Diverge], s')
      | (r, s') => let '(rs, s'') := run_ops step ops s' in (r :: rs, s'')
      end
  end.

(** A map that JSON keeps is the map a restart finds, integers as [float64]. *)
Lemma spec_persists p :
  json_keeps (store_value (pm_mem p)) -> fst (spec_save p) = Ok Done ->
  effect_of OpReopen (snd (spec_save p)) = Load (store_image (pm_mem p)).
Proof.
  intros Hk. unfold spec_save. destruct (json_Marshal _) as [raw|err] eqn:E; [|done]. intros _.
  cbn [effect_of snd]. unfold start. cbn [pm_file]. by rewrite (kept_text _ _ Hk E).
Qed.
End spec.

(** ** The implementation *)

Section implementation.
Context `{JSON} `{Rand} `{FloatOverflow}.

(** [OpReopen] is a new program that opens the same files. *)
Definition run_op (o : op) : GoM env answer :=
  match o with
  | OpSet key v => Set_ key v ;; ret Done
  | OpSetAuto key v => SetAuto key v ;; ret Done
  | OpSetStruct key v => SetStruct key v ;; ret Done
  | OpSetListStruct key v => SetListStruct key v ;; ret Done
  | OpDelete key => Storage_Delete key ;; ret Done
  | OpClear => Clear ;; ret Done
  | OpImport data => ImportJSON data ;; ret Done
  | OpMerge data => MergeJSON data ;; ret Done
  | OpRestore => RestoreFromBackup ;; ret Done
  | OpReopen => modify (fun e => reopen (e_storage e) (e_disk e) (e_draws e)) ;; Initialize ;; ret Done
  | OpGet key => do e <- get; ret (Value (Storage_Get e key))
  | OpGetString key => do e <- get; ret (let '(s, ok) := GetString e key in Text s ok)
  end.

(** A file, as far as it exists, encrypts a text. *)
Definition file_is (key : bytes) (file : option bytes) (text : option bytes) : Prop :=
  match file, text with
  | Some b, Some raw => encrypts key raw b
  | None, None => True
  | _, _ => False
  end.

(** The map in memory is the storage's; the two files encrypt the two texts. *)
Definition refines (p : pmap) (e : env) : Prop :=
  wf_storage (e_storage e) /\ working (e_storage e) (e_disk e) /\ store e = pm_mem p /\
  file_is (s_Key (e_storage e)) (d_files (e_disk e) !! s_Path (e_storage e)) (pm_file p) /\
  file_is (s_Key (e_storage e)) (d_files (e_disk e) !! s_BackupPath (e_storage e)) (pm_back p).

Lemma refines_mem m p e : refines p e -> refines (with_mem m p) (set_store m e).
Proof. intros (Hwf & Hf & _ & Hfile & Hback). by split_and!. Qed.

(** One result implements another: the same answer, and related states. *)
Definition agree (r : outcome answer * env) (spec : outcome answer * pmap) : Prop :=
  fst r = fst spec /\ refines (snd spec) (snd r).

(** [save] implements [spec_save]. *)
Lemma save_refines p e : refines p e -> agree ((save ;; ret Done) e) (spec_save p).
Proof.
  intros Hr. pose proof Hr as ([Hk Hp] & Hf & Hm & Hfile & Hback). unfold agree, spec_save, bind. rewrite <- Hm.
  destruct (json_Marshal (store_value (store e))) as [raw|err] eqn:Ej; [|by rewrite (save_fails e err Ej)].
  destruct (save_writes e raw Hk Hf Ej) as (blob & E & Hh). rewrite E. split; [reflexivity|].
  unfold refines. cbn [snd fst e_storage e_disk d_faults saved pm_mem pm_file pm_back d_files ret].
  split_and!; [done|by apply saved_working|done|..].
  - by rewrite lookup_insert_eq.
  - rewrite lookup_insert_ne by done.
    destruct (d_files (e_disk e) !! s_Path (e_storage e)) as [b|] eqn:Eb; destruct (pm_file p) as [f|]; try done.
    by rewrite lookup_insert_eq.
Qed.

(** *** Each operation *)

Definition implements (o : op) : Prop := forall p e, refines p e -> agree (run_op o e) (spec_op o p).

(** The operations that save, from the state in which they call [save]. *)
Lemma saving m p e (k : GoM env unit) :
  refines p e -> k e = save (set_store m e) -> agree ((k ;; ret Done) e) (spec_save (with_mem m p)).
Proof.
  intros Hr Hk. pose proof (save_refines _ _ (refines_mem m p e Hr)) as Ha. unfold bind in *. by rewrite Hk.
Qed.

(** What an effect is to the caller. *)
Definition spec_effect (f : effect) (p : pmap) : outcome answer * pmap :=
  match f with
  | Keep a => (Ok a, p)
  | Load m => (Ok Done, with_mem m p)
  | Save m => spec_save (with_mem m p)
  | Fails err => (Err err, p)
  | Crashes => (Panic, p)
  end.

Lemma spec_op_effect o p : spec_op o p = spec_effect (effect_of o p) p.
Proof. done. Qed.

Lemma assign_save key v p e :
  refines p e -> agree (((assign key v ;; save) ;; ret Done) e) (spec_effect (put_key key v (pm_mem p)) p).
Proof.
  intros Hr. assert (store e = pm_mem p) as Hm by apply Hr. unfold put_key. destruct (pm_mem p) as [m|] eqn:Ep; cbn [spec_effect].
  - apply saving; [done|]. unfold assign, bind. by rewrite Hm.
  - unfold agree, assign, bind. by rewrite Hm.
Qed.

Lemma through_save {A} key v (decode : bytes -> A + error) (inject : A -> goval) p e :
  refines p e ->
  agree ((through_json v decode (fun x => assign key (inject x) ;; save) ;; ret Done) e)
    (spec_effect (put_through key v decode inject (pm_mem p)) p).
Proof.
  intros Hr. unfold through_json, put_through. destruct (json_Marshal v) as [b|err]; [|done].
  destruct (decode b) as [x|err]; [|done]. by apply assign_save.
Qed.

Lemma set_store_same e : set_store (store e) e = e.
Proof. by destruct e as [[] ? ?]. Qed.

Lemma reopen_refines p e : refines p e -> refines (with_mem (Some ∅) p) (reopen (e_storage e) (e_disk e) (e_draws e)).
Proof. intros (Hwf & Hf & _ & Hfile & Hback). by split_and!. Qed.

(** What [Initialize] finds on a working disk. *)
Lemma Initialize_start p e : refines p e ->
  (exists m, start p = Load m /\ Initialize e = (Ok tt, set_store m e)) \/
  (start p = Save (Some ∅) /\ Initialize e = save (set_store (Some ∅) e)).
Proof.
  intros (_ & Hw & _ & Hfile & Hback). unfold start. rewrite Initialize_there by done.
  unfold load_files, get, bind. cbv beta iota zeta.
  destruct (d_files (e_disk e) !! s_Path (e_storage e)) as [b|] eqn:Ef; destruct (pm_file p) as [raw|]; try done;
    cbn [file_is] in Hfile; rewrite try_read_works, Ef by apply Hw; [|by right].
  destruct (encrypts_reads _ _ _ Hfile) as [Hl Hd]. rewrite (proj2 (Z.ltb_lt _ _)) by done. unfold catch at 1 3.
  rewrite (Hd e eq_refl). destruct (unmarshal_map raw) as [m|err]; [left; by exists m|].
  destruct (d_files (e_disk e) !! s_BackupPath (e_storage e)) as [fb|] eqn:Eb; destruct (pm_back p) as [raw'|]; try done;
    cbn [file_is] in Hback; rewrite try_read_works, Eb by apply Hw; [|by right].
  destruct (encrypts_reads _ _ _ Hback) as [_ Hd']. unfold catch. rewrite (Hd' e eq_refl).
  destruct (unmarshal_map raw') as [m|]; [left; by exists m|by right].
Qed.

Lemma reopen_implements : implements OpReopen.
Proof.
  intros p e Hr. pose proof (reopen_refines p e Hr) as Hr'. pose proof (Initialize_start _ _ Hr') as Hi.
  rewrite spec_op_effect. cbn [effect_of run_op]. change (start (with_mem (Some ∅) p)) with (start p) in Hi.
  change (agree ((Initialize ;; ret Done) (reopen (e_storage e) (e_disk e) (e_draws e))) (spec_effect (start p) p)).
  set (e0 := reopen _ _ _) in *.
  destruct Hi as [(m & -> & Hi)|[-> Hi]].
  - unfold agree, bind. rewrite Hi. split; [done|]. apply (refines_mem m) in Hr'. exact Hr'.
  - exact (saving (Some ∅) _ e0 Initialize Hr' Hi).
Qed.

Lemma restore_implements : implements OpRestore.
Proof.
  intros p e Hr. pose proof Hr as (_ & Hw & _ & _ & Hback). rewrite spec_op_effect. cbn [effect_of run_op].
  destruct (d_files (e_disk e) !! s_BackupPath (e_storage e)) as [b|] eqn:Ef; destruct (pm_back p) as [raw|]; try done;
    cbn [file_is] in Hback.
  - destruct (encrypts_reads _ _ _ Hback) as [_ Hd]. destruct (unmarshal_map raw) as [m|err] eqn:Eu.
    + apply saving; [done|]. unfold RestoreFromBackup, get, bind. by rewrite read_works, Ef, (Hd e eq_refl) by apply Hw.
    + unfold agree, RestoreFromBackup, get, bind. by rewrite read_works, Ef, (Hd e eq_refl) by apply Hw.
  - unfold agree, RestoreFromBackup, get, bind. by rewrite read_works, Ef by apply Hw.
Qed.

Lemma merge_implements data : implements (OpMerge data).
Proof.
  intros p e Hr. assert (store e = pm_mem p) as Hm by apply Hr. rewrite spec_op_effect. cbn [effect_of run_op]. unfold MergeJSON.
  destruct (unmarshal_map data) as [obj|err]; [|done]. destruct (pm_mem p) as [m|] eqn:Ep.
  - apply saving; [done|]. unfold assign_all, bind. by rewrite Hm.
  - destruct (size (default ∅ obj) =? 0)%nat eqn:Es.
    + apply saving; [done|]. unfold assign_all, bind. rewrite Hm, Es, <- Hm. by rewrite set_store_same.
    + unfold agree, assign_all, bind. by rewrite Hm, Es.
Qed.

Lemma delete_implements key : implements (OpDelete key).
Proof.
  intros p e Hr. assert (store e = pm_mem p) as Hm by apply Hr. rewrite spec_op_effect. cbn [effect_of run_op].
  destruct (pm_mem p) as [m|] eqn:Ep; [destruct (m !! key) as [v|] eqn:Ek|].
  - apply saving; [done|]. unfold Storage_Delete, get, bind. by rewrite Hm, Ek.
  - unfold agree, Storage_Delete, get, bind. by rewrite Hm, Ek.
  - unfold agree, Storage_Delete, get, bind. by rewrite Hm.
Qed.

Lemma set_struct_implements key v : implements (OpSetStruct key v).
Proof.
  intros p e Hr. rewrite spec_op_effect. cbn [effect_of run_op]. unfold SetStruct.
  destruct v; try (by apply assign_save); by apply through_save.
Qed.

Lemma op_implements o : implements o.
Proof.
  destruct o as [key v|key v|key v|key v|key| |data|data| | |key|key].
  - intros p e Hr. by apply assign_save.
  - intros p e Hr. by apply (through_save key v json_Unmarshal id).
  - apply set_struct_implements.
  - intros p e Hr. by apply (through_save key v unmarshal_list id).
  - apply delete_implements.
  - intros p e Hr. by apply saving.
  - intros p e Hr. rewrite spec_op_effect. cbn [effect_of run_op]. unfold ImportJSON.
    destruct (unmarshal_map data) as [obj|err]; [|done]. by apply saving.
  - apply merge_implements.
  - apply restore_implements.
  - apply reopen_implements.
  - intros p e Hr. assert (store e = pm_mem p) as Hm by apply Hr.
    split; [|done]. cbn. unfold Storage_Get, lookup_store. by rewrite Hm.
  - intros p e Hr. assert (store e = pm_mem p) as Hm by apply Hr.
    split; [|done]. cbn. unfold GetString, lookup_store. rewrite Hm. by destruct (pm_mem p ≫= lookup key) as [[]|].
Qed.

Lemma run_refines ops p e :
  refines p e ->
  exists e', run_ops run_op ops e = (fst (run_ops spec_op ops p), e') /\ refines (snd (run_ops spec_op ops p)) e'.
Proof.
  revert p e. induction ops as [|o ops IH]; intros p e Hr; [by exists e|].
  destruct (op_implements o p e Hr) as [E1 Hr1]. cbn [run_ops].
  destruct (run_op o e) as [r' e1]. destruct (spec_op o p) as [r p1]. cbn [fst snd] in *. subst r'.
  destruct (IH p1 e1 Hr1) as (e2 & E2 & Hr2).
  destruct (run_ops spec_op ops p1) as [rs p2]. cbn [fst snd] in *. rewrite E2. destruct r; by eexists.
Qed.

(** The first [Initialize] makes the directory; the rest is as if it had been
    there. *)
Lemma reopen_prepares e : d_rfaults (e_disk e) = [] -> d_faults (e_disk e) = [] ->
  can_make (e_disk e) (filepath_Dir (s_Path (e_storage e))) ->
  filepath_Dir (s_BackupPath (e_storage e)) = filepath_Dir (s_Path (e_storage e)) ->
  exists d', working (e_storage e) d' /\ d_files d' = d_files (e_disk e) /\
    run_op OpReopen e = run_op OpReopen (mkEnv (e_storage e) d' (e_draws e)).
Proof.
  intros Hrf Hf Hc Hsame.
  destruct (Initialize_prepares (reopen (e_storage e) (e_disk e) (e_draws e))) as (d' & Hw & Hm & E); try done.
  { change (can_make (e_disk e) (filepath_Dir (s_BackupPath (e_storage e)))). by rewrite Hsame. }
  exists d'. split_and!; [exact Hw|by destruct Hm|]. cbn [run_op]. unfold modify, bind. cbv beta iota. rewrite E.
  cbn [e_storage e_disk e_draws]. by rewrite (Initialize_there (reopen (e_storage e) d' (e_draws e))).
Qed.


(** ** A disk that fails *)

(** What a file holds, if it can be read at all. *)
Definition file_holds (e : env) (path : bytes) (m : table) : Prop :=
  exists b, d_files (e_disk e) !! path = Some b /\ holds (s_Key (e_storage e)) b m.

(** C37: one failing write loses nothing on disk: when one of the two writes of
    a [Set] fails, before it opened its file or after writing any part of it,
    the map is still in one of the two files, the new one in the file or the
    old one in the file or the backup; [Set] returns, reports a failure of the
    main write, ignores one of the backup, and a success means that the file
    holds the new map.  The map in memory is the new one either way. *)
Theorem Set_one_fault (e : env) (m : gmap bytes goval) (key : bytes) (v : goval) (old : table)
    (w1 w2 : option wfault) (rest : list (option wfault))
    (Hwf : wf_storage (e_storage e)) (Hm : store e = Some m)
    (Hdirs : dir_exists (e_disk e) (filepath_Dir (s_Path (e_storage e))) = true)
    (Hbeside : filepath_Dir (s_BackupPath (e_storage e)) = filepath_Dir (s_Path (e_storage e)))
    (Hold : file_holds e (s_Path (e_storage e)) old)
    (Hsave : store_saves (Some (<[key := v]> m)))
    (Hreads : d_rfaults (e_disk e) = []) (Hfaults : d_faults (e_disk e) = w1 :: w2 :: rest) (Hone : w1 = None \/ w2 = None) :
  exists r e', Set_ key v e = (r, e') /\ store e' = Some (<[key := v]> m) /\
    r = match w2 with None => Ok tt | Some f => Err (wf_err f) end /\
    (r = Ok tt -> file_holds e' (s_Path (e_storage e)) (Some (json_image <$> <[key := v]> m))) /\
    (file_holds e' (s_Path (e_storage e)) (Some (json_image <$> <[key := v]> m)) \/
     file_holds e' (s_BackupPath (e_storage e)) old).
Proof.
  destruct Hwf as [Hk Hp]. destruct Hold as (b & Hb & Hold). unfold Set_, assign, bind at 1. rewrite Hm.
  set (e0 := set_store (Some (<[key := v]> m)) e).
  destruct (save_blob e0 Hk Hsave) as (blob & -> & Hh). unfold backup, get, bind at 1, bind at 1. cbv beta iota zeta.
  cbn [e_disk e_storage e_draws e0 set_store s_Path s_BackupPath]. rewrite Hb.
  unfold bind at 1. rewrite try_read_works by done. cbn [e_disk]. rewrite Hb. change (default [] (Some b)) with b.
  unfold ignore, catch, bind, on_disk, ret. cbn [e_disk e_storage e_draws].
  assert (forall path data d, d_dirs d = d_dirs (e_disk e) -> filepath_Dir path = filepath_Dir (s_Path (e_storage e)) ->
    os_WriteFile path data d = match d_faults d with
      | Some f :: ws => (Err (wf_err f), mkDisk (match wf_kept f with Some n => <[path := take n data]> (d_files d) | None => d_files d end)
                           (d_dirs d) (d_barred d) (d_rfaults d) ws)
      | None :: ws => (Ok tt, mkDisk (<[path := data]> (d_files d)) (d_dirs d) (d_barred d) (d_rfaults d) ws)
      | [] => (Ok tt, mkDisk (<[path := data]> (d_files d)) (d_dirs d) (d_barred d) (d_rfaults d) [])
      end) as Hwrite.
  { intros path data d Hd Hpath. unfold os_WriteFile. rewrite Hpath. unfold dir_exists in *. by rewrite Hd, Hdirs. }
  rewrite Hwrite, Hfaults by done.
  assert (forall fs, file_holds (mkEnv (e_storage e0) (mkDisk (<[s_Path (e_storage e) := blob]> fs) (d_dirs (e_disk e))
    (d_barred (e_disk e)) [] rest) (S (e_draws e))) (s_Path (e_storage e)) (Some (json_image <$> <[key := v]> m))) as Hnew.
  { intros fs. exists blob. split; [apply lookup_insert_eq|exact Hh]. }
  destruct w2 as [f|].
  - destruct Hone as [-> | ?]; [|done]. cbn beta iota. rewrite Hwrite by done. cbn [d_faults d_files]. eexists _, _.
    split; [reflexivity|]. split_and!; [done|done|done|]. right. exists b. split; [|done]. cbn [e_disk d_files].
    destruct (wf_kept f); rewrite ?lookup_insert_ne by done; apply lookup_insert_eq.
  - destruct w1 as [f|]; cbn beta iota; rewrite Hwrite by done; cbn [d_faults d_files]; eexists _, _;
      (split; [reflexivity|]); split_and!; try done; try (intros _); try left; apply Hnew.
Qed.
End implementation.

(** ** Witnesses *)

(** A session: two values, a restart, an undo, a read, and a value that has no
    JSON text. *)
Definition demo_ops : list op :=
  [OpSet (str "a") (VString (str "1")); OpSet (str "a") (VString (str "2")); OpReopen; OpGetString (str "a");
   OpRestore; OpGetString (str "a"); OpDelete (str "b"); OpGet (str "b"); OpSet (str "c") (VOther 0); OpGet (str "c");
   OpSet (str "a") VNil; OpReopen; OpGetString (str "a")].

(** A storage in a directory that does not exist yet. *)
Definition new_storage : Storage :=
  mkStorage (str "app/data/db.bin") (str "app/data/db.backup.bin")
    (default [] (match hex_DecodeString defaultKey with inl k => Some k | _ => None end)) (Some ∅).

Definition demo_answers : list (outcome answer) :=
  [Ok Done; Ok Done; Ok Done; Ok Done; Ok (Text (str "2") true); Ok Done; Ok (Text (str "1") true); Ok Done; Ok (Value VNil);
   Err (Errorf "json: unsupported value" []); Ok (Value (VOther 0)); Err (Errorf "json: unsupported value" []);
   Ok Done; Ok (Text (str "1") true)].

Lemma demo_spec : fst (run_ops spec_op (OpReopen :: demo_ops) (mkPM (Some ∅) None None)) = demo_answers.
Proof. vm_compute. reflexivity. Qed.


(** The disk is full after five bytes of the file: the backup has the old map. *)
Lemma Set_one_fault_witness :
  let full := mkFault (Errorf "no space left on device" []) (Some 5%nat) in
  let e := mkEnv (e_storage demo_env1) (mkDisk (d_files (e_disk demo_env1)) ∅ ∅ [] [None; Some full]) 1 in
  exists e', Set_ (str "a") (VString (str "3")) e = (Err (wf_err full), e') /\
    (file_holds e' (str "db.bin") (Some (json_image <$> <[str "a" := VString (str "3")]> demo_map)) \/
     file_holds e' (str "db.backup.bin") (Some demo_map)).
Proof.
  intros full e. destruct demo_env1_file as (blob & E & Hh). unfold e. clear e. rewrite E. cbn [e_storage e_disk d_files].
  destruct (Set_one_fault (mkEnv (mkStorage (str "db.bin") (str "db.backup.bin") (replicate 16 Byte.x01) (Some demo_map))
    (mkDisk {[ str "db.bin" := blob ]} ∅ ∅ [] [None; Some full]) 1) demo_map (str "a") (VString (str "3")) (Some demo_map)
    None (Some full) []) as (r & e' & E' & _ & -> & _ & Hd).
  - exact demo_wf.
  - reflexivity.
  - reflexivity.
  - reflexivity.
  - exists blob. split; [apply lookup_singleton_eq|exact Hh].
  - demo_saves.
  - reflexivity.
  - reflexivity.
  - left. reflexivity.
  - exists e'. split; [exact E'|exact Hd].
Defined.
