(* ===== verification/Migrations.v ===== *)
(** * Migrations: embedded SQL migrations for PostgreSQL

    Models [database/postgres/postgres.go]: reading and ordering the migration
    files and applying those that are missing, each in a transaction, under an
    advisory lock.  The server is a parameter: what a migration's SQL does to
    the data, which calls fail, and which connection of the pool serves a
    call.  The migrations' own SQL does not touch [schema_migrations]. *)

From Stdlib Require Import Sorting.Sorted.
From S2P Require Import Prelude Bytes GoStrings Paths Encoding.

Local Open Scope Z_scope.

(** ** Migrations *)

Record migration := mkMig {
  mg_version : Z;
  mg_name : bytes;
  mg_path : bytes;
  mg_sql : bytes;
  mg_checksum : bytes;
}.

Definition checksumSQL (sql : bytes) : bytes := hex (sha256 sql).

Definition parseMigrationVersion (name : bytes) : Z + error :=
  match Cut name (str "_") with
  | None | Some ([], _) =>
      inr (Errorf "postgres: migration %q must start with a numeric prefix followed by underscore" [AQuote name])
  | Some (prefix, _) =>
      match ParseInt prefix 10 with
      | Some version =>
          if version <=? 0 then inr (Errorf "postgres: migration %q has invalid numeric prefix" [AQuote name])
          else inl version
      | None => inr (Errorf "postgres: migration %q has invalid numeric prefix" [AQuote name])
      end
  end.

Definition checkAppliedMigration (m : migration) (appliedName appliedChecksum : bytes) : option error :=
  if bool_decide (appliedChecksum = mg_checksum m) then None
  else Some (Errorf "postgres: migration checksum mismatch for version %d (%s): applied checksum %s differs from embedded checksum %s"
               [AInt (mg_version m); AStr appliedName; AStr appliedChecksum; AStr (mg_checksum m)]).

(** *** Sorting in place *)

(** The inner loop: [k] is [j + 1], the hole that [current] moves down. *)
Fixpoint shift_down (k : nat) (current : migration) (ms : list migration) : list migration :=
  match k with
  | O => <[0%nat := current]> ms
  | S j =>
      match ms !! j with
      | Some mj => if mg_version current <? mg_version mj
                   then shift_down j current (<[S j := mj]> ms) else <[S j := current]> ms
      | None => ms
      end
  end.

(** The outer loop, from index [i]. *)
Fixpoint sort_from (n i : nat) (ms : list migration) : list migration :=
  match n with
  | O => ms
  | S n =>
      match ms !! i with
      | Some current => sort_from n (S i) (shift_down i current ms)
      | None => ms
      end
  end.

Definition sortMigrations (ms : list migration) : list migration := sort_from (length ms - 1) 1 ms.

(** *** Reading *)

(** An [fs.FS]: the entries of a directory with whether they are directories,
    and the contents of files. *)
Record FS := mkFS {
  fs_ReadDir : bytes -> list (bytes * bool) + error;
  fs_ReadFile : bytes -> bytes + error;
}.
Definition fs_ErrNotExist : error := Sentinel "file does not exist".

(** [errors.Is]. *)
Fixpoint errors_Is (err target : error) : bool :=
  bool_decide (err = target) || match err with Wrapf _ _ inner => errors_Is inner target | _ => false end.

Fixpoint read_entries (fsys : FS) (dir : bytes) (entries : list (bytes * bool)) (seen : gmap Z bytes)
    (out : list migration) : list migration + error :=
  match entries with
  | [] => inl out
  | (name, isDir) :: entries =>
      if isDir || negb (HasSuffix name (str ".sql")) then read_entries fsys dir entries seen out
      else
        match parseMigrationVersion name with
        | inr err => inr err
        | inl version =>
            match seen !! version with
            | Some existing =>
                inr (Errorf "postgres: duplicate migration version %d in %q and %q" [AInt version; AQuote existing; AQuote name])
            | None =>
                let migrationPath := path_Join dir name in
                match fs_ReadFile fsys migrationPath with
                | inr err => inr (Wrapf "postgres: read migration %q: %w" [AQuote migrationPath] err)
                | inl sql =>
                    read_entries fsys dir entries (<[version := name]> seen)
                      (out ++ [mkMig version name migrationPath sql (checksumSQL sql)])
                end
            end
        end
  end.

Definition readMigrations (fsys : FS) (dir : bytes) : list migration + error :=
  match fs_ReadDir fsys dir with
  | inr err =>
      if errors_Is err fs_ErrNotExist
      then inr (Wrapf "postgres: migrations directory %q does not exist: %w" [AQuote dir] err)
      else inr (Wrapf "postgres: read migrations directory %q: %w" [AQuote dir] err)
  | inl entries =>
      match read_entries fsys dir entries ∅ [] with
      | inl out => inl (sortMigrations out)
      | inr err => inr err
      end
  end.

(** ** The server *)

(** The rows of [schema_migrations], when the table exists, and the data. *)
Record database (D : Type) := mkDb { db_rows : option (gmap Z (bytes * bytes)); db_data : D }.
Arguments mkDb {D}.
Arguments db_rows {D}.
Arguments db_data {D}.

(** What is not ours: the effect of SQL, the failures of calls, whether a
    commit whose call failed took effect, the connection of the pool that
    serves a call. *)
Class Postgres (D : Type) := {
  run_sql : bytes -> D -> D + error;
  call_fault : nat -> option error;
  commit_lost : nat -> bool;
  session : nat -> nat;
}.

(** The database, the calls made so far and the sessions that hold the
    advisory lock, once for each time they took it. *)
Record server (D : Type) := mkServer { sv_db : database D; sv_calls : nat; sv_locks : list nat }.
Arguments mkServer {D}.
Arguments sv_db {D}.
Arguments sv_calls {D}.
Arguments sv_locks {D}.

Section migrate.
Context `{Postgres D}.
Implicit Types w : server D.

Definition wrapf {A} (format : string) (args : list fmtarg) (m : GoM (server D) A) : GoM (server D) A :=
  catch m (fun err => fail (Wrapf format args err)).

(** A call to the server: its index, or the failure of it. *)
Definition call : GoM (server D) nat := fun w =>
  let w' := mkServer (sv_db w) (S (sv_calls w)) (sv_locks w) in
  match call_fault (sv_calls w) with
  | None => (Ok (sv_calls w), w')
  | Some e => (Err e, w')
  end.

Definition set_db (db : database D) : GoM (server D) unit :=
  modify (fun w => mkServer db (sv_calls w) (sv_locks w)).
Definition set_locks (l : list nat) : GoM (server D) unit :=
  modify (fun w => mkServer (sv_db w) (sv_calls w) l).

Definition create_table : GoM (server D) unit :=
  call ;;
  do w <- get;
  match db_rows (sv_db w) with
  | Some _ => ret tt
  | None => set_db (mkDb (Some ∅) (db_data (sv_db w)))
  end.

(** [pg_advisory_lock] waits while another session holds the lock. *)
Definition acquire : GoM (server D) unit :=
  do i <- call;
  do w <- get;
  if existsb (fun s => negb (s =? session i)%nat) (sv_locks w) then (fun w => (Diverge, w))
  else set_locks (session i :: sv_locks w).

Fixpoint remove_one (s : nat) (l : list nat) : list nat :=
  match l with
  | [] => []
  | x :: l => if (x =? s)%nat then l else x :: remove_one s l
  end.

(** [pg_advisory_unlock] releases a lock of the session that serves it. *)
Definition release : GoM (server D) unit :=
  do i <- call;
  do w <- get;
  set_locks (remove_one (session i) (sv_locks w)).

(** [INSERT INTO schema_migrations] in a transaction on [db]. *)
Definition record_row (m : migration) (db : database D) : database D + error :=
  match db_rows db with
  | Some rows =>
      match rows !! mg_version m with
      | Some _ => inr (Errorf "duplicate key value violates unique constraint" [])
      | None => inl (mkDb (Some (<[mg_version m := (mg_name m, mg_checksum m)]> rows)) (db_data db))
      end
  | None => inr (Errorf "relation does not exist" [])
  end.

Definition lift {A} (r : A + error) : GoM (server D) A :=
  match r with inl a => ret a | inr e => fail e end.

Definition commit (db : database D) : GoM (server D) unit := fun w =>
  match call w with
  | (Ok _, w') => set_db db w'
  | (Err e, w') => if commit_lost (sv_calls w) then (Err e, snd (set_db db w')) else (Err e, w')
  | (Panic, w') => (Panic, w')
  | (Diverge, w') => (Diverge, w')
  end.

(** The transaction works on its own copy; every early return rolls it back. *)
Definition applyMigration (m : migration) : GoM (server D) unit :=
  wrapf "postgres: begin migration %s: %w" [AStr (mg_name m)] call ;;
  do w <- get;
  do data <- wrapf "postgres: execute migration %s: %w" [AStr (mg_name m)]
               (call ;; lift (run_sql (mg_sql m) (db_data (sv_db w))));
  do db <- wrapf "postgres: record migration %s: %w" [AStr (mg_name m)]
             (call ;; lift (record_row m (mkDb (db_rows (sv_db w)) data)));
  wrapf "postgres: commit migration %s: %w" [AStr (mg_name m)] (commit db).

(** [SELECT name, checksum]: the row, if there is one. *)
Definition query_row (version : Z) : GoM (server D) (option (bytes * bytes)) :=
  call ;;
  do w <- get;
  match db_rows (sv_db w) with
  | Some rows => ret (rows !! version)
  | None => fail (Errorf "relation does not exist" [])
  end.

Fixpoint migrate_all (parsed : list migration) : GoM (server D) unit :=
  match parsed with
  | [] => ret tt
  | m :: parsed =>
      do row <- wrapf "postgres: check migration %d: %w" [AInt (mg_version m)] (query_row (mg_version m));
      match row with
      | Some (appliedName, appliedChecksum) =>
          match checkAppliedMigration m appliedName appliedChecksum with
          | Some err => fail err
          | None => migrate_all parsed
          end
      | None => applyMigration m ;; migrate_all parsed
      end
  end.

(** The pool is the way to the server; a nil one, which is refused before
    anything else, leads to none and has no state here. *)
Definition Migrate (fsys : option FS) (migrationsDir : bytes) : GoM (server D) unit :=
  match fsys with
  | None => fail (Errorf "postgres: migrations filesystem is nil" [])
  | Some fsys =>
      let dir := if bool_decide (migrationsDir = []) then str "migrations" else migrationsDir in
      wrapf "postgres: create schema_migrations table: %w" [] create_table ;;
      wrapf "postgres: acquire migration advisory lock: %w" [] acquire ;;
      deferred (ignore release)
        (match readMigrations fsys dir with
         | inr err => fail err
         | inl parsed => migrate_all parsed
         end)
  end.
End migrate.

(** ** Sorting *)

(** Insertion into a list that is sorted downwards. *)
Fixpoint insert_rev (c : migration) (l : list migration) : list migration :=
  match l with
  | [] => [c]
  | p :: l => if mg_version c <? mg_version p then p :: insert_rev c l else c :: p :: l
  end.

Lemma shift_down_insert l c x post :
  shift_down (length l) c (reverse l ++ x :: post) = reverse (insert_rev c l) ++ post.
Proof.
  revert x post. induction l as [|p l IH]; intros x post; [done|]. cbn [length shift_down insert_rev].
  rewrite reverse_cons, <- app_assoc. cbn [app].
  rewrite lookup_app_r by (by rewrite length_reverse). rewrite length_reverse, Nat.sub_diag. cbn [lookup list_lookup].
  assert (forall y, <[S (length l) := y]> (reverse l ++ p :: x :: post) = reverse l ++ p :: y :: post) as Hi.
  { intros y. rewrite insert_app_r_alt by (rewrite length_reverse; lia). rewrite length_reverse.
    by replace (S (length l) - length l)%nat with 1%nat by lia. }
  rewrite !Hi. destruct (mg_version c <? mg_version p).
  - rewrite IH. by rewrite reverse_cons, <- app_assoc.
  - by rewrite !reverse_cons, <- !app_assoc.
Qed.

Lemma sort_from_insert post l :
  sort_from (length post) (length l) (reverse l ++ post) = reverse (foldl (fun l c => insert_rev c l) l post).
Proof.
  revert l. induction post as [|c post IH]; intros l; [by rewrite app_nil_r|]. cbn [length sort_from foldl].
  rewrite lookup_app_r by (by rewrite length_reverse). rewrite length_reverse, Nat.sub_diag. cbn [lookup list_lookup].
  rewrite shift_down_insert.
  replace (S (length l)) with (length (insert_rev c l)); [apply IH|].
  clear. induction l as [|p l IH]; [done|]. cbn. destruct (_ <? _); cbn; [by rewrite IH|done].
Qed.

Lemma sortMigrations_insert ms : sortMigrations ms = reverse (foldl (fun l c => insert_rev c l) [] ms).
Proof.
  unfold sortMigrations. destruct ms as [|m ms]; [done|]. cbn [length foldl insert_rev].
  rewrite Nat.sub_succ, Nat.sub_0_r. exact (sort_from_insert ms [m]).
Qed.

Definition later (a b : migration) : Prop := mg_version b <= mg_version a.
Definition earlier (a b : migration) : Prop := mg_version a <= mg_version b.

Lemma insert_rev_perm c l : insert_rev c l ≡ₚ c :: l.
Proof.
  induction l as [|p l IH]; [done|]. cbn. destruct (_ <? _); [|done]. rewrite IH. by constructor.
Qed.

Lemma insert_rev_sorted c l : StronglySorted later l -> StronglySorted later (insert_rev c l).
Proof.
  intros Hl. induction Hl as [|p l Hl IH Hp]; [by repeat constructor|]. cbn.
  destruct (Z.ltb_spec (mg_version c) (mg_version p)).
  - constructor; [done|]. rewrite insert_rev_perm. constructor; [unfold later; lia|done].
  - constructor; [by constructor|]. constructor; [unfold later; lia|].
    eapply Forall_impl; [exact Hp|]. unfold later. lia.
Qed.

Lemma StronglySorted_reverse l : StronglySorted later l -> StronglySorted earlier (reverse l).
Proof.
  induction 1 as [|a l Hl IH Ha]; [constructor|]. rewrite reverse_cons. apply StronglySorted_snoc; [done|].
  by apply Forall_reverse.
Qed.

(** The sort is a sort. *)
Lemma sortMigrations_spec ms : sortMigrations ms ≡ₚ ms /\ StronglySorted earlier (sortMigrations ms).
Proof.
  rewrite sortMigrations_insert.
  assert (forall l, StronglySorted later l ->
    foldl (fun l c => insert_rev c l) l ms ≡ₚ l ++ ms /\ StronglySorted later (foldl (fun l c => insert_rev c l) l ms)) as Hg.
  { induction ms as [|m ms IH]; intros l Hl; [by rewrite app_nil_r|]. cbn [foldl].
    destruct (IH (insert_rev m l)) as [Hp Hs]; [by apply insert_rev_sorted|]. split; [|done].
    rewrite Hp, insert_rev_perm. cbn. by rewrite Permutation_middle. }
  destruct (Hg []) as [Hp Hs]; [constructor|]. split; [by rewrite reverse_Permutation|].
  by apply StronglySorted_reverse.
Qed.

(** ** Reading the files *)

Section reading.
Context (fsys : FS) (dir : bytes).

(** The entries that are migration files. *)
Definition sql_files (entries : list (bytes * bool)) : list bytes :=
  fst <$> filter (fun e => negb (e.2 || negb (HasSuffix e.1 (str ".sql"))) = true) entries.

(** [m] is what the file with its name says. *)
Definition from_file (m : migration) : Prop :=
  parseMigrationVersion (mg_name m) = inl (mg_version m) /\ mg_path m = path_Join dir (mg_name m) /\
  fs_ReadFile fsys (mg_path m) = inl (mg_sql m) /\ mg_checksum m = checksumSQL (mg_sql m).

(** [ms] are the migrations of these files, of different versions, none of
    them seen before. *)
Definition migrations_of (entries : list (bytes * bool)) (seen : gmap Z bytes) (ms : list migration) : Prop :=
  mg_name <$> ms = sql_files entries /\ NoDup (mg_version <$> ms) /\ Forall from_file ms /\
  Forall (fun m => seen !! mg_version m = None) ms.

Lemma migrations_of_cons name entries seen version sql ms :
  HasSuffix name (str ".sql") = true -> parseMigrationVersion name = inl version -> seen !! version = None ->
  fs_ReadFile fsys (path_Join dir name) = inl sql ->
  migrations_of ((name, false) :: entries) seen ms <->
  exists ms', ms = mkMig version name (path_Join dir name) sql (checksumSQL sql) :: ms' /\
    migrations_of entries (<[version := name]> seen) ms'.
Proof.
  intros Hs Hv Hn Hf. unfold migrations_of, sql_files. rewrite filter_cons. cbn [fst snd]. rewrite Hs. cbn [orb negb].
  rewrite decide_True by done. cbn [fmap list_fmap fst]. split.
  - intros (Hnm & Hnd & Hff & Hse). destruct ms as [|[v n p q c] ms]; [done|]. cbn in *.
    injection Hnm as -> Hnm. apply NoDup_cons in Hnd as [Hnot Hnd].
    apply Forall_cons in Hff as [(H1 & H2 & H3 & H4) Hff]. apply Forall_cons in Hse as [_ Hse]. cbn in *.
    assert (v = version) as -> by congruence. assert (q = sql) as -> by congruence. subst p c.
    exists ms. split; [done|]. split_and!; try done. apply Forall_forall. intros m Hm.
    rewrite lookup_insert_ne; [by apply (proj1 (Forall_forall _ _) Hse)|].
    intros ->. apply Hnot, list_elem_of_fmap. by exists m.
  - intros (ms' & -> & Hnm & Hnd & Hff & Hse). cbn. split_and!; [by rewrite Hnm| | |].
    + constructor; [|done]. intros (m & E & Hm)%list_elem_of_fmap.
      pose proof (proj1 (Forall_forall _ _) Hse m Hm) as Hx. cbn in Hx. rewrite <- E, lookup_insert_eq in Hx. done.
    + by constructor.
    + constructor; [done|]. apply Forall_forall. intros m Hm.
      pose proof (proj1 (Forall_forall _ _) Hse m Hm) as Hx. cbn in Hx. by apply lookup_insert_None in Hx as [? _].
Qed.

Lemma read_entries_spec entries seen out :
  match read_entries fsys dir entries seen out with
  | inl r => exists ms, r = out ++ ms /\ migrations_of entries seen ms
  | inr _ => forall ms, ~ migrations_of entries seen ms
  end.
Proof.
  revert seen out. induction entries as [|[name isDir] entries IH]; intros seen out; cbn [read_entries].
  { exists []. rewrite app_nil_r. split; [done|]. by repeat split; constructor. }
  destruct (isDir || negb (HasSuffix name (str ".sql"))) eqn:Hskip.
  { assert (forall ms, migrations_of ((name, isDir) :: entries) seen ms <-> migrations_of entries seen ms) as Hsame.
    { intros ms. unfold migrations_of, sql_files. rewrite filter_cons. cbn [fst snd]. rewrite Hskip. done. }
    specialize (IH seen out). destruct (read_entries _ _ _ _ _) as [r|e].
    - destruct IH as (ms & -> & Hms). exists ms. by rewrite Hsame.
    - intros ms. by rewrite Hsame. }
  apply orb_false_iff in Hskip as [-> Hs]. apply negb_false_iff in Hs.
  assert (forall ms, migrations_of ((name, false) :: entries) seen ms -> exists m, mg_name m = name /\ from_file m /\
    seen !! mg_version m = None) as Hhead.
  { intros ms (Hnm & _ & Hff & Hse). unfold sql_files in Hnm. rewrite filter_cons in Hnm. cbn [fst snd] in Hnm.
    rewrite Hs in Hnm. cbn in Hnm. destruct ms as [|m ms]; [done|]. exists m. injection Hnm as Hm _.
    by apply Forall_cons in Hff as [? _]; apply Forall_cons in Hse as [? _]. }
  destruct (parseMigrationVersion name) as [version|e] eqn:Hv.
  2: { intros ms (m & <- & (Hx & _) & _)%Hhead. congruence. }
  destruct (seen !! version) as [existing|] eqn:Hseen.
  { intros ms (m & <- & (Hx & _) & Hy)%Hhead. congruence. }
  destruct (fs_ReadFile fsys (path_Join dir name)) as [sql|e] eqn:Hf.
  2: { intros ms (m & <- & (_ & Hx & Hy & _) & _)%Hhead. congruence. }
  specialize (IH (<[version := name]> seen) (out ++ [mkMig version name (path_Join dir name) sql (checksumSQL sql)])).
  destruct (read_entries _ _ _ _ _) as [r|e].
  - destruct IH as (ms & -> & Hms). eexists. rewrite <- app_assoc. split; [reflexivity|].
    apply (migrations_of_cons name entries seen version sql); try done. by exists ms.
  - intros ms Hms. apply (migrations_of_cons name entries seen version sql) in Hms as (ms' & _ & Hms); try done.
    by apply (IH ms').
Qed.

Definition strictly (a b : migration) : Prop := mg_version a < mg_version b.

Lemma sorted_strict ms : StronglySorted earlier ms -> NoDup (mg_version <$> ms) -> StronglySorted strictly ms.
Proof.
  induction 1 as [|m ms Hs IH Hm]; intros Hnd; [constructor|]. cbn in Hnd. apply NoDup_cons in Hnd as [Hnot Hnd].
  constructor; [by apply IH|]. apply Forall_forall. intros x Hx.
  pose proof (proj1 (Forall_forall _ _) Hm x Hx) as Hle. unfold earlier, strictly in *.
  assert (mg_version m <> mg_version x); [|lia]. intros E. apply Hnot. rewrite E. apply list_elem_of_fmap. by exists x.
Qed.

Lemma readMigrations_spec entries :
  fs_ReadDir fsys dir = inl entries ->
  match readMigrations fsys dir with
  | inl ms => StronglySorted strictly ms /\ exists ms0, ms ≡ₚ ms0 /\ migrations_of entries ∅ ms0
  | inr _ => forall ms, ~ migrations_of entries ∅ ms
  end.
Proof.
  intros Hdir. unfold readMigrations. rewrite Hdir. pose proof (read_entries_spec entries ∅ []) as Hr.
  destruct (read_entries _ _ _ _ _) as [out|e]; [|done]. destruct Hr as (ms & -> & Hms). cbn [app].
  destruct (sortMigrations_spec ms) as [Hp Hs]. split; [|by exists ms].
  apply sorted_strict; [done|]. rewrite Hp. apply Hms.
Qed.

(** C5: reading the migrations succeeds exactly when every migration file has
    a valid and unique version and can be read, and then gives one migration
    for each file, with its contents and checksum, in ascending version
    order. *)
Theorem readMigrations_correct (entries : list (bytes * bool)) (Hdir : fs_ReadDir fsys dir = inl entries) :
  match readMigrations fsys dir with
  | inl ms => StronglySorted strictly ms /\ exists ms0, ms ≡ₚ ms0 /\ migrations_of entries ∅ ms0
  | inr _ => forall ms, ~ migrations_of entries ∅ ms
  end.
Proof. by apply readMigrations_spec. Qed.
End reading.

Lemma readMigrations_sorted fsys dir ms : readMigrations fsys dir = inl ms -> StronglySorted strictly ms.
Proof.
  intros Er. destruct (fs_ReadDir fsys dir) as [entries|e] eqn:Ed.
  - pose proof (readMigrations_spec fsys dir entries Ed) as Hx. rewrite Er in Hx. apply Hx.
  - unfold readMigrations in Er. rewrite Ed in Er. by destruct (errors_Is _ _).
Qed.

(** ** Applying them *)

Section applying.
Context `{Postgres D}.
Implicit Types w : server D.

(** The database after these migrations, each with its row. *)
Inductive applied : list migration -> database D -> database D -> Prop :=
| applied_nil db : applied [] db db
| applied_cons m ms db data db1 db2 :
    run_sql (mg_sql m) (db_data db) = inl data ->
    record_row m (mkDb (db_rows db) data) = inl db1 ->
    applied ms db1 db2 -> applied (m :: ms) db db2.

Definition pending (rows : gmap Z (bytes * bytes)) (ms : list migration) : list migration :=
  filter (fun m => rows !! mg_version m = None) ms.

(** Every migration has its row, with the checksum it has now. *)
Definition recorded (rows : gmap Z (bytes * bytes)) (ms : list migration) : Prop :=
  Forall (fun m => exists name, rows !! mg_version m = Some (name, mg_checksum m)) ms.

Lemma call_spec w : exists r w', call w = (r, w') /\ sv_db w' = sv_db w /\ sv_locks w' = sv_locks w /\
  match r with Ok i => i = sv_calls w | Err _ => True | _ => False end.
Proof. unfold call. destruct (call_fault (sv_calls w)); by eexists _, _. Qed.

(** A migration is applied as a whole or not at all. *)
Lemma applyMigration_spec m w rows :
  db_rows (sv_db w) = Some rows -> rows !! mg_version m = None ->
  exists r w', applyMigration m w = (r, w') /\ sv_locks w' = sv_locks w /\ returned r /\
    (sv_db w' = sv_db w /\ (exists e, r = Err e) \/
     exists data, run_sql (mg_sql m) (db_data (sv_db w)) = inl data /\
       sv_db w' = mkDb (Some (<[mg_version m := (mg_name m, mg_checksum m)]> rows)) data).
Proof.
  intros Hr Hm. unfold applyMigration, wrapf, catch, bind, get, ret, fail.
  destruct (call_spec w) as ([i|e| |] & w1 & -> & Hd1 & Hl1 & Hi); try done.
  2: { eexists _, _. split; [reflexivity|]. split_and!; [done|done|]. left. eauto. }
  destruct (call_spec w1) as ([j|e| |] & w2 & -> & Hd2 & Hl2 & Hj); try done.
  2: { eexists _, _. split; [reflexivity|]. split_and!; [congruence|done|]. left. split; [congruence|eauto]. }
  rewrite Hd1, Hr. unfold lift, ret, fail. destruct (run_sql _ _) as [data|e] eqn:Ed.
  2: { eexists _, _. split; [reflexivity|]. split_and!; [congruence|done|]. left. split; [congruence|eauto]. }
  destruct (call_spec w2) as ([k|e| |] & w3 & -> & Hd3 & Hl3 & Hk); try done.
  2: { eexists _, _. split; [reflexivity|]. split_and!; [congruence|done|]. left. split; [congruence|eauto]. }
  unfold record_row. cbn [db_rows db_data]. rewrite Hm. unfold commit.
  destruct (call_spec w3) as ([l|e| |] & w4 & -> & Hd4 & Hl4 & Hc); try done.
  - eexists _, _. split; [reflexivity|]. split_and!; [cbn; congruence|done|]. right. by exists data.
  - destruct (commit_lost (sv_calls w3)); (eexists _, _; split; [reflexivity|]); (split_and!; [cbn; congruence|done|]).
    + right. by exists data.
    + left. split; [congruence|eauto].
Qed.

Lemma pending_insert m v rows ms :
  Forall (strictly m) ms -> pending (<[mg_version m := v]> rows) ms = pending rows ms.
Proof.
  intros Hs. unfold pending. induction Hs as [|x ms Hx _ IH]; [done|]. rewrite !filter_cons, IH.
  unfold strictly in Hx. by rewrite lookup_insert_ne by lia.
Qed.

Lemma migrate_all_spec ms w rows :
  StronglySorted strictly ms -> db_rows (sv_db w) = Some rows ->
  exists r w' don rows', migrate_all ms w = (r, w') /\ sv_locks w' = sv_locks w /\ returned r /\
    don `prefix_of` pending rows ms /\ applied don (sv_db w) (sv_db w') /\ db_rows (sv_db w') = Some rows' /\
    rows ⊆ rows' /\ (r = Ok tt -> don = pending rows ms /\ recorded rows' ms).
Proof.
  intros Hs. revert w rows. induction Hs as [|m ms Hs IH Hm]; intros w rows Hr; cbn [migrate_all].
  { exists (Ok tt), w, [], rows. split_and!; try done; [constructor|]. intros _. by split; [|constructor]. }
  unfold bind at 1, wrapf at 1, catch, query_row, bind at 1.
  destruct (call_spec w) as ([i|e| |] & w1 & -> & Hd1 & Hl1 & Hi); try done.
  2: { eexists _, w1, [], rows. split; [reflexivity|]. rewrite Hd1.
       split_and!; try done; [apply prefix_nil|constructor]. }
  unfold bind at 1, get, ret, fail. rewrite Hd1, Hr.
  destruct (rows !! mg_version m) as [[nm ck]|] eqn:Em.
  - destruct (checkAppliedMigration m nm ck) as [err|] eqn:Ec.
    { eexists _, w1, [], rows. split; [reflexivity|]. rewrite Hd1.
      split_and!; try done; [apply prefix_nil|constructor]. }
    destruct (IH w1 rows) as (r & w' & don & rows' & E & Hl & Hret & Hp & Ha & Hr' & Hsub & Hok); [congruence|].
    assert (pending rows (m :: ms) = pending rows ms) as Hpe.
    { unfold pending. rewrite filter_cons. by rewrite decide_False by (by rewrite Em). }
    exists r, w', don, rows'. rewrite Hpe, <- Hd1. split_and!; try done; [congruence|].
    intros Hok'. destruct (Hok Hok') as [-> Hrec]. split; [done|]. constructor; [|done].
    exists nm. unfold checkAppliedMigration in Ec. case_bool_decide; [|done]. subst ck.
    by apply (lookup_weaken rows).
  - assert (pending rows (m :: ms) = m :: pending rows ms) as Hpe.
    { unfold pending. rewrite filter_cons. by rewrite decide_True by done. }
    destruct (applyMigration_spec m w1 rows) as (r1 & w2 & E1 & Hl2 & Hret1 & Hcase); [congruence|done|].
    unfold bind. rewrite E1. rewrite Hpe. destruct Hcase as [[Hd2 [e ->]]|(data & Hdata & Hdb)].
    { eexists _, w2, [], rows. split; [reflexivity|]. rewrite Hd2, Hd1.
      split_and!; try done; [congruence|apply prefix_nil|constructor]. }
    assert (forall don db, applied don (sv_db w2) db -> applied (m :: don) (sv_db w) db) as Hfirst.
    { intros don db Hdon. eapply applied_cons; [rewrite <- Hd1; exact Hdata| |exact Hdon].
      rewrite Hdb. unfold record_row. cbn [db_rows db_data]. by rewrite Hr, Em. }
    assert (rows ⊆ <[mg_version m := (mg_name m, mg_checksum m)]> rows) as Hsub1 by (by apply insert_subseteq).
    destruct r1 as [[]|e| |]; try done.
    2: { eexists _, w2, [m], _. split; [reflexivity|]. rewrite Hdb at 2. split_and!; try done; [congruence| |].
         - by apply prefix_cons, prefix_nil.
         - apply Hfirst. constructor. }
    destruct (IH w2 (<[mg_version m := (mg_name m, mg_checksum m)]> rows))
      as (r & w' & don & rows' & E & Hl & Hret & Hp & Ha & Hr' & Hsub & Hok); [by rewrite Hdb|].
    rewrite pending_insert in Hp, Hok by done.
    exists r, w', (m :: don), rows'. split_and!; try done; [congruence|by apply prefix_cons|by apply Hfirst|by etrans|].
    intros Hok'. destruct (Hok Hok') as [-> Hrec]. split; [done|]. constructor; [|done].
    exists (mg_name m). apply (lookup_weaken _ _ _ _ (lookup_insert_eq rows _ _) Hsub).
Qed.

(** The database with its [schema_migrations] table. *)
Definition with_table (db : database D) : database D := mkDb (Some (default ∅ (db_rows db))) (db_data db).

Lemma create_table_spec w : exists r w', create_table w = (r, w') /\ sv_locks w' = sv_locks w /\
  match r with
  | Ok _ => sv_db w' = with_table (sv_db w)
  | Err _ => sv_db w' = sv_db w
  | _ => False
  end.
Proof.
  unfold create_table, bind. destruct (call_spec w) as ([i|e| |] & w1 & -> & Hd1 & Hl1 & Hi); try done;
    [|by eexists _, _].
  unfold get, set_db, modify, ret, with_table. rewrite Hd1.
  destruct (db_rows (sv_db w)) as [rows|] eqn:Er; (eexists _, _; split; [reflexivity|]); (split; [done|]).
  - rewrite Hd1. destruct (sv_db w); cbn in *. by subst.
  - done.
Qed.

Lemma release_spec w : exists r w', ignore release w = (r, w') /\ sv_db w' = sv_db w.
Proof.
  unfold ignore, release, catch, bind, get, set_locks, modify, ret.
  destruct (call_spec w) as ([i|e| |] & w1 & -> & Hd1 & Hl1 & Hi); try done; by eexists _, _.
Qed.

(** It waits only while a session holds the lock. *)
Lemma acquire_spec w : exists r w', acquire w = (r, w') /\ sv_db w' = sv_db w /\
  (returned r \/ r = Diverge /\ sv_locks w <> [] /\ sv_locks w' = sv_locks w).
Proof.
  unfold acquire, bind, get, set_locks, modify.
  destruct (call_spec w) as ([i|e| |] & w1 & -> & Hd1 & Hl1 & Hi); try done; [|eexists _, _; split_and!; by try left].
  rewrite Hl1. destruct (sv_locks w) as [|s l] eqn:El; cbn [existsb]; [eexists _, _; split_and!; by try left|].
  destruct (negb (s =? session i)%nat || _); (eexists _, _; split; [reflexivity|]); split; try done; [by right|by left].
Qed.

Definition chosen_dir (migrationsDir : bytes) : bytes :=
  if bool_decide (migrationsDir = []) then str "migrations" else migrationsDir.

(** What [Migrate] can come to: it waits for the lock, it fails before it
    applied anything, or it applied a part of the missing migrations. *)
Definition migrated (fsys : FS) (dir : bytes) (w w' : server D) (r : outcome unit) : Prop :=
  exists entries ms ms0 don rows',
    fs_ReadDir fsys dir = inl entries /\ migrations_of fsys dir entries ∅ ms0 /\
    readMigrations fsys dir = inl ms /\ ms ≡ₚ ms0 /\ StronglySorted strictly ms /\
    don `prefix_of` pending (default ∅ (db_rows (sv_db w))) ms /\
    applied don (with_table (sv_db w)) (sv_db w') /\ db_rows (sv_db w') = Some rows' /\
    (r = Ok tt -> don = pending (default ∅ (db_rows (sv_db w))) ms /\ recorded rows' ms).

Lemma Migrate_cases fsys dir w :
  exists r w', Migrate (Some fsys) dir w = (r, w') /\
    (r = Diverge /\ sv_locks w <> [] /\ sv_locks w' = sv_locks w /\ sv_db w' = with_table (sv_db w) \/
     (exists e, r = Err e) /\ (sv_db w' = sv_db w \/ sv_db w' = with_table (sv_db w)) \/
     returned r /\ migrated fsys (chosen_dir dir) w w' r).
Proof.
  unfold Migrate. cbv zeta. fold (chosen_dir dir). unfold bind at 1, wrapf at 1, catch at 1.
  destruct (create_table_spec w) as ([[]|e| |] & w1 & -> & Hl1 & Hd1); try done.
  2: { eexists _, w1. split; [reflexivity|]. right. left. split; [eauto|by left]. }
  unfold bind at 1, wrapf at 1, catch at 1.
  destruct (acquire_spec w1) as ([[]|e| |] & w2 & -> & Hd2 & [Hr2|(Hr2 & Hl2 & Hl3)]); try done.
  2: { eexists _, w2. split; [reflexivity|]. right. left. split; [eauto|right; congruence]. }
  2: { eexists _, w2. split; [reflexivity|]. left. split_and!; congruence. }
  unfold deferred. destruct (readMigrations fsys (chosen_dir dir)) as [ms|e] eqn:Er.
  2: { destruct (release_spec w2) as (r3 & w3 & E3 & Hd3). cbn [fail]. rewrite E3. eexists _, w3. split; [reflexivity|].
       right. left. cbn [snd]. split; [eauto|right; congruence]. }
  destruct (fs_ReadDir fsys (chosen_dir dir)) as [entries|e] eqn:Hdir.
  2: { unfold readMigrations in Er. rewrite Hdir in Er. by destruct (errors_Is _ _). }
  pose proof (readMigrations_spec fsys (chosen_dir dir) entries Hdir) as Hread. rewrite Er in Hread.
  destruct Hread as (Hs & ms0 & Hp0 & Hm0).
  destruct (migrate_all_spec ms w2 (default ∅ (db_rows (sv_db w))) Hs) as (r & w3 & don & rows' & -> & _ & Hret & Hp & Ha & Hr & _ & Hok).
  { by rewrite Hd2, Hd1. }
  destruct (release_spec w3) as (r4 & w4 & E4 & Hd4). rewrite E4. eexists r, w4. split; [reflexivity|]. right. right.
  split; [done|]. exists entries, ms, ms0, don, rows'. unfold migrated. rewrite Hd4, <- Hd1, <- Hd2. by split_and!.
Qed.

(** When nobody holds the lock. *)
Lemma Migrate_spec fsys dir w :
  sv_locks w = [] ->
  exists r w', Migrate (Some fsys) dir w = (r, w') /\ returned r /\
    ((sv_db w' = sv_db w \/ sv_db w' = with_table (sv_db w)) /\ (exists e, r = Err e) \/
     migrated fsys (chosen_dir dir) w w' r).
Proof.
  intros Hl. destruct (Migrate_cases fsys dir w) as (r & w' & E & [(_ & Hn & _)|[[[e ->] Hd]|[Hr Hm]]]); [done|..];
    exists r, w' || exists (Err e), w'; split_and!; try done; [left; eauto|by right].
Qed.

(** C3: [Migrate], whatever calls fail and whoever holds the lock: it waits
    only while a session holds the advisory lock, and then has applied nothing;
    else it returns.  It fails before it applied anything, or it works on [ms],
    the migrations of the files of its directory in ascending version order: it
    applies the missing ones in this order, each with its row or not at all,
    from the first on without leaving one out; when it succeeds all of them
    have been applied and every migration has a row with its checksum. *)
Theorem Migrate_correct (fsys : FS) (dir : bytes) (w : server D) :
  exists r w', Migrate (Some fsys) dir w = (r, w') /\
    (r = Diverge /\ sv_locks w <> [] /\ sv_locks w' = sv_locks w /\ sv_db w' = with_table (sv_db w) \/
     (exists e, r = Err e) /\ (sv_db w' = sv_db w \/ sv_db w' = with_table (sv_db w)) \/
     returned r /\ exists entries ms ms0 don rows',
       fs_ReadDir fsys (chosen_dir dir) = inl entries /\ migrations_of fsys (chosen_dir dir) entries ∅ ms0 /\
       readMigrations fsys (chosen_dir dir) = inl ms /\ ms ≡ₚ ms0 /\ StronglySorted strictly ms /\
       don `prefix_of` pending (default ∅ (db_rows (sv_db w))) ms /\
       applied don (with_table (sv_db w)) (sv_db w') /\ db_rows (sv_db w') = Some rows' /\
       (r = Ok tt -> don = pending (default ∅ (db_rows (sv_db w))) ms /\ recorded rows' ms)).
Proof. exact (Migrate_cases fsys dir w). Qed.

Lemma recorded_pending rows ms : recorded rows ms -> pending rows ms = [].
Proof.
  intros Hr. unfold pending. induction Hr as [|m ms [n Hm] _ IH]; [done|]. rewrite filter_cons, IH.
  by rewrite decide_False by (by rewrite Hm).
Qed.

(** Once [Migrate] has succeeded, running it again does not change the
    database. *)
Theorem Migrate_idempotent (fsys : FS) (dir : bytes) (w w1 w2 : server D)
    (Hfree : sv_locks w = [])
    (Hfirst : Migrate (Some fsys) dir w = (Ok tt, w1))
    (Hagain : sv_db w2 = sv_db w1) (Hfree2 : sv_locks w2 = []) :
  sv_db (snd (Migrate (Some fsys) dir w2)) = sv_db w1.
Proof.
  destruct (Migrate_spec fsys dir w Hfree) as (r & w' & E & _ & [[_ [e ->]]|Hc]); [congruence|].
  rewrite E in Hfirst. injection Hfirst as -> ->.
  destruct Hc as (es & ms & ms0 & don & rows & Hdir & _ & Hms & _ & _ & _ & _ & Hrows & Hok).
  destruct (Hok eq_refl) as [_ Hrec].
  assert (with_table (sv_db w2) = sv_db w1) as Ht.
  { rewrite Hagain. unfold with_table. rewrite Hrows. destruct (sv_db w1); cbn in *. by subst. }
  destruct (Migrate_spec fsys dir w2 Hfree2) as (r2 & w3 & -> & _ & [[[Hx|Hx] _]|Hc2]); cbn [snd];
    [congruence..|].
  destruct Hc2 as (es2 & ms2 & ms02 & don2 & rows2 & _ & _ & Hms2 & _ & _ & Hp & Ha & _ & _).
  assert (ms2 = ms) as -> by congruence.
  rewrite Hagain, Hrows in Hp. cbn [default] in Hp. rewrite recorded_pending in Hp by done.
  apply prefix_nil_inv in Hp as ->. rewrite Ht in Ha. by inversion Ha.
Qed.
End applying.

(** ** The lock *)

Section lock.
Context `{Postgres D}.

Lemma create_table_calls w w' : create_table w = (Ok tt, w') ->
  sv_calls w' = S (sv_calls w) /\ sv_locks w' = sv_locks w /\ is_Some (db_rows (sv_db w')).
Proof.
  unfold create_table, bind, call, get, set_db, modify, ret. destruct (call_fault (sv_calls w)); [done|].
  cbn [sv_db]. destruct (db_rows (sv_db w)) as [rows|] eqn:Er; intros [= <-]; cbn; rewrite ?Er; by eauto.
Qed.

Lemma create_table_up w : call_fault (sv_calls w) = None -> exists w', create_table w = (Ok tt, w').
Proof.
  intros Hf. unfold create_table, bind, call, get, set_db, modify, ret. rewrite Hf. cbn [sv_db].
  destruct (db_rows (sv_db w)); by eexists.
Qed.

Lemma acquire_ok w w' : acquire w = (Ok tt, w') ->
  sv_calls w' = S (sv_calls w) /\ sv_locks w' = session (sv_calls w) :: sv_locks w /\ sv_db w' = sv_db w.
Proof.
  unfold acquire, bind, call, get, set_locks, modify. destruct (call_fault (sv_calls w)); [done|].
  cbn [sv_locks]. destruct (existsb _ _); [done|]. by intros [= <-].
Qed.

(** A call that another session's lock keeps waiting. *)
Lemma acquire_waits w s l :
  sv_locks w = s :: l -> session (sv_calls w) <> s -> call_fault (sv_calls w) = None -> fst (acquire w) = Diverge.
Proof.
  intros Hl Hs Hf. unfold acquire, bind, call, get. rewrite Hf. cbn [sv_locks]. rewrite Hl. cbn [existsb].
  by rewrite (proj2 (Nat.eqb_neq _ _)) by done.
Qed.

Lemma remove_one_absent s s' : s <> s' -> remove_one s' [s] = [s].
Proof. intros Hs. cbn. by rewrite (proj2 (Nat.eqb_neq _ _)). Qed.

(** What a successful [Migrate] went through. *)
Lemma Migrate_ok fsys dir w w1 :
  Migrate (Some fsys) dir w = (Ok tt, w1) -> sv_locks w = [] ->
  exists w3, sv_locks w3 = [session (S (sv_calls w))] /\ w1 = snd (ignore release w3).
Proof.
  unfold Migrate. cbv zeta. fold (chosen_dir dir). unfold bind, wrapf, catch. intros E Hl.
  destruct (create_table w) as [[[]|e| |] w2] eqn:E2; try done. apply create_table_calls in E2 as (Hc2 & Hl2 & [rows Hr]).
  destruct (acquire w2) as [[[]|e| |] w3] eqn:E3; try done. apply acquire_ok in E3 as (_ & Hl3 & Hd3).
  unfold deferred in E. destruct (readMigrations fsys (chosen_dir dir)) as [ms|e] eqn:Er.
  2: { cbn [fail] in E. done. }
  pose proof (readMigrations_sorted _ _ _ Er) as Hs.
  destruct (migrate_all_spec ms w3 rows Hs) as (r & w4 & don & rows' & E4 & Hl4 & _); [congruence|].
  rewrite E4 in E. injection E as _ <-. exists w4. split; [|done]. rewrite Hl4, Hl3, Hl2, Hl, Hc2. done.
Qed.

(** The lock is taken and released on whatever connections of the pool
    serve the two calls.  When they differ a successful [Migrate] leaves the
    lock held, and the next [Migrate] that is served by another connection
    waits for ever. *)
Theorem migrate_lock_leaks (fsys : FS) (dir : bytes) (w w1 : server D)
    (Hfree : sv_locks w = []) (Hok : Migrate (Some fsys) dir w = (Ok tt, w1))
    (Hsess : session (S (sv_calls w)) <> session (pred (sv_calls w1)))
    (Hcalls : call_fault (pred (sv_calls w1)) = None)
    (Hnext : session (S (sv_calls w1)) <> session (S (sv_calls w)))
    (Hup : call_fault (sv_calls w1) = None /\ call_fault (S (sv_calls w1)) = None) :
  sv_locks w1 = [session (S (sv_calls w))] /\ fst (Migrate (Some fsys) dir w1) = Diverge.
Proof.
  destruct (Migrate_ok fsys dir w w1 Hok Hfree) as (w3 & Hl3 & Hw1).
  assert (sv_locks w1 = [session (S (sv_calls w))]) as Hl1.
  { assert (pred (sv_calls w1) = sv_calls w3) as Hp.
    { rewrite Hw1. unfold ignore, catch, release, bind, call. by destruct (call_fault (sv_calls w3)). }
    rewrite Hp in Hsess, Hcalls. rewrite Hw1. unfold ignore, catch, release, bind, call, get, set_locks, modify, ret.
    rewrite Hcalls. cbn [snd sv_locks]. rewrite Hl3. by apply remove_one_absent. }
  split; [done|]. unfold Migrate, bind, wrapf, catch. cbv zeta.
  destruct (create_table_up w1 (proj1 Hup)) as (w2 & E2). rewrite E2.
  apply create_table_calls in E2 as (Hc2 & Hl2 & _).
  pose proof (acquire_waits w2 (session (S (sv_calls w))) []) as Hwait.
  rewrite Hl2, Hc2 in Hwait. specialize (Hwait Hl1 Hnext (proj2 Hup)).
  by destruct (acquire w2) as [[[]|e| |] w4].
Qed.
End lock.

(** ** Witnesses *)

(** A server on which SQL is appended to a log, nothing fails, and the two
    connections of the pool take turns. *)
Definition demo_pg : Postgres (list bytes) := {|
  run_sql sql d := inl (d ++ [sql]);
  call_fault _ := None;
  commit_lost _ := false;
  session i := (i mod 2)%nat;
|}.

Definition demo_entries : list (bytes * bool) :=
  [(str "10_b.sql", false); (str "2_a.sql", false); (str "notes.txt", false); (str "old", true)].
Definition demo_fs : FS := mkFS (fun _ => inl demo_entries)
  (fun p => inl (if bool_decide (p = str "migrations/2_a.sql") then str "CREATE a" else str "CREATE b")).
Definition demo_server : server (list bytes) := mkServer (mkDb None []) 0 [].

Lemma readMigrations_correct_witness :
  match readMigrations demo_fs (str "migrations") with
  | inl ms => StronglySorted strictly ms /\
      exists ms0, ms ≡ₚ ms0 /\ migrations_of demo_fs (str "migrations") demo_entries ∅ ms0
  | inr _ => forall ms, ~ migrations_of demo_fs (str "migrations") demo_entries ∅ ms
  end.
Proof. apply (readMigrations_correct demo_fs (str "migrations") demo_entries eq_refl). Defined.

(** The server after one run. *)
Definition demo_after : server (list bytes) :=
  Eval vm_compute in snd (Migrate (H := demo_pg) (Some demo_fs) [] demo_server).
Lemma demo_run : Migrate (H := demo_pg) (Some demo_fs) [] demo_server = (Ok tt, demo_after).
Proof. vm_compute. reflexivity. Qed.

Lemma Migrate_idempotent_witness :
  sv_db (snd (Migrate (H := demo_pg) (Some demo_fs) [] (mkServer (sv_db demo_after) 0 []))) = sv_db demo_after.
Proof.
  apply (Migrate_idempotent (H := demo_pg) demo_fs [] demo_server demo_after
    (mkServer (sv_db demo_after) 0 []) eq_refl demo_run eq_refl eq_refl).
Defined.

Lemma migrate_lock_leaks_witness :
  sv_locks demo_after = [1%nat] /\ fst (Migrate (H := demo_pg) (Some demo_fs) [] demo_after) = Diverge.
Proof.
  apply (migrate_lock_leaks (H := demo_pg) demo_fs [] demo_server demo_after eq_refl demo_run);
    [discriminate|reflexivity|discriminate|by split].
Defined.
