(* ===== verification/MigrateShared.v ===== *)
(** * MigrateShared: several programs migrate one database

    Models what the advisory lock of [Migrate] ([database/postgres/postgres.go])
    is there for: programs that start at the same time on one server.  Each
    runs [Migrate] call by call ([mstep], on the operations of [Migrations]);
    between two calls of one the others may make theirs ([shared_step]).  A
    run of one program alone is the [Migrate] of [Migrations].  A connection
    stays open while it holds the lock, and a failed call takes no lock. *)

From stdpp Require Import relations.
From Stdlib Require Import Sorting.Sorted.
From S2P Require Import Prelude Bytes GoStrings Paths Encoding Migrations.

Local Open Scope Z_scope.

(** ** Calls of one program *)

(** Where a program is in [Migrate], at its next call.  The transaction has
    its own copy of the database from [MExec] on. *)
Inductive mpc (D : Type) :=
| MTable
| MLock
| MCheck (m : migration) (todo : list migration)
| MBegin (m : migration) (todo : list migration)
| MExec (m : migration) (todo : list migration) (tx : database D)
| MRecord (m : migration) (todo : list migration) (tx : database D)
| MCommit (m : migration) (todo : list migration) (tx : database D)
| MUnlock (r : outcome unit)
| MDone (r : outcome unit).
Arguments MTable {D}.
Arguments MLock {D}.
Arguments MCheck {D}.
Arguments MBegin {D}.
Arguments MExec {D}.
Arguments MRecord {D}.
Arguments MCommit {D}.
Arguments MUnlock {D}.
Arguments MDone {D}.

(** Between the two calls on the advisory lock. *)
Definition inside {D} (pc : mpc D) : bool :=
  match pc with MTable | MLock | MDone _ => false | _ => true end.

Definition finished {D} (pc : mpc D) : bool := match pc with MDone _ => true | _ => false end.

(** The head of the loop over the migrations. *)
Definition check_next {D} (todo : list migration) : mpc D :=
  match todo with
  | [] => MUnlock (Ok tt)
  | m :: todo => MCheck m todo
  end.

Section program.
Context `{Postgres D} (fsys : FS) (dir : bytes).
Implicit Types (w : server D) (pc : mpc D).

(** Where a call that returns leads, and one that fails. *)
Definition next {A} (m : GoM (server D) A) (k : A -> mpc D) (h : error -> mpc D) : GoM (server D) (mpc D) :=
  catch (do a <- m; ret (k a)) (fun err => ret (h err)).

(** One call. *)
Definition mstep (pc : mpc D) : GoM (server D) (mpc D) :=
  match pc with
  | MTable =>
      next (wrapf "postgres: create schema_migrations table: %w" [] create_table)
        (fun _ => MLock) (fun err => MDone (Err err))
  | MLock =>
      next (wrapf "postgres: acquire migration advisory lock: %w" [] acquire)
        (fun _ => match readMigrations fsys (chosen_dir dir) with
                  | inr err => MUnlock (Err err)
                  | inl parsed => check_next parsed
                  end)
        (fun err => MDone (Err err))
  | MCheck m todo =>
      next (wrapf "postgres: check migration %d: %w" [AInt (mg_version m)] (query_row (mg_version m)))
        (fun row => match row with
                    | Some (appliedName, appliedChecksum) =>
                        match checkAppliedMigration m appliedName appliedChecksum with
                        | Some err => MUnlock (Err err)
                        | None => check_next todo
                        end
                    | None => MBegin m todo
                    end)
        (fun err => MUnlock (Err err))
  | MBegin m todo =>
      next (wrapf "postgres: begin migration %s: %w" [AStr (mg_name m)] call ;; get)
        (fun w => MExec m todo (sv_db w)) (fun err => MUnlock (Err err))
  | MExec m todo tx =>
      next (wrapf "postgres: execute migration %s: %w" [AStr (mg_name m)] (call ;; lift (run_sql (mg_sql m) (db_data tx))))
        (fun data => MRecord m todo (mkDb (db_rows tx) data)) (fun err => MUnlock (Err err))
  | MRecord m todo tx =>
      next (wrapf "postgres: record migration %s: %w" [AStr (mg_name m)] (call ;; lift (record_row m tx)))
        (MCommit m todo) (fun err => MUnlock (Err err))
  | MCommit m todo tx =>
      next (wrapf "postgres: commit migration %s: %w" [AStr (mg_name m)] (commit tx))
        (fun _ => check_next todo) (fun err => MUnlock (Err err))
  | MUnlock r => next (ignore release) (fun _ => MDone r) (fun _ => MDone r)
  | MDone r => ret (MDone r)
  end.

(** Calls made one after the other, with nobody in between. *)
Definition solo (x y : server D * mpc D) : Prop :=
  finished x.2 = false /\ mstep x.2 x.1 = (Ok y.2, y.1).

(** A call of [m] in [Migrate] is the step of the program at that call. *)
Lemma solo_next {A} pc (m : GoM (server D) A) k h w r w' :
  finished pc = false -> mstep pc = next m k h -> m w = (r, w') ->
  match r with
  | Ok a => rtc solo (w, pc) (w', k a)
  | Err e => rtc solo (w, pc) (w', h e)
  | _ => True
  end.
Proof.
  intros Hf Hm E. assert (forall pc', next m k h w = (Ok pc', w') -> rtc solo (w, pc) (w', pc')) as Hs.
  { intros pc' Hn. apply rtc_once. split; [done|]. cbn [fst snd]. by rewrite Hm. }
  unfold next, catch, bind in Hs. rewrite E in Hs. destruct r; try done; by apply Hs.
Qed.

(** Where the program goes on after an operation that failed or not. *)
Definition leads (x : server D * mpc D) (r : outcome unit) (w' : server D) (pc' : mpc D) : Prop :=
  match r with
  | Ok _ => rtc solo x (w', pc')
  | Err e => rtc solo x (w', MUnlock (Err e))
  | _ => True
  end.

Lemma leads_trans x y r w' pc' : rtc solo x y -> leads y r w' pc' -> leads x r w' pc'.
Proof. intros Hx. destruct r; cbn; try done; intros Hy; by etrans. Qed.

Ltac next_call E :=
  match type of E with
  | bind ?m _ ?w = _ =>
      unfold bind at 1 in E; destruct (m w) as [[?a|?e| |] ?w1] eqn:?Em; cbn beta iota in E;
      try (injection E as <- <-; done)
  end.

Lemma applyMigration_solo m todo w r w' :
  applyMigration m w = (r, w') -> leads (w, MBegin m todo) r w' (check_next todo).
Proof.
  unfold applyMigration. intros E.
  destruct (wrapf "postgres: begin migration %s: %w" [AStr (mg_name m)] call w) as [r1 w1] eqn:E1.
  assert ((wrapf "postgres: begin migration %s: %w" [AStr (mg_name m)] call ;; get) w =
    match r1 with Ok _ => (Ok w1, w1) | Err e => (Err e, w1) | Panic => (Panic, w1) | Diverge => (Diverge, w1) end) as Eb.
  { unfold bind. rewrite E1. by destruct r1. }
  unfold bind at 1 in E. rewrite E1 in E. destruct r1 as [n|e1| |]; try (by injection E as <- <-).
  2: { injection E as <- <-. exact (solo_next (MBegin m todo) _ _ _ _ _ _ eq_refl eq_refl Eb). }
  eapply leads_trans; [exact (solo_next (MBegin m todo) _ _ _ _ _ _ eq_refl eq_refl Eb)|].
  unfold bind at 1, get in E. clear Eb E1 n.
  next_call E.
  2: { injection E as <- <-. exact (solo_next (MExec m todo (sv_db w1)) _ _ _ _ _ _ eq_refl eq_refl Em). }
  eapply leads_trans; [exact (solo_next (MExec m todo (sv_db w1)) _ _ _ _ _ _ eq_refl eq_refl Em)|].
  next_call E.
  2: { injection E as <- <-. exact (solo_next (MRecord m todo _) _ _ _ _ _ _ eq_refl eq_refl Em0). }
  eapply leads_trans; [exact (solo_next (MRecord m todo _) _ _ _ _ _ _ eq_refl eq_refl Em0)|].
  exact (solo_next (MCommit m todo _) _ _ _ _ _ _ eq_refl eq_refl E).
Qed.

Lemma migrate_all_solo ms w r w' :
  migrate_all ms w = (r, w') -> leads (w, check_next ms) r w' (MUnlock (Ok tt)).
Proof.
  revert w. induction ms as [|m ms IH]; intros w E; cbn [migrate_all] in E.
  { injection E as <- <-. apply rtc_refl. }
  next_call E.
  2: { injection E as <- <-. exact (solo_next (MCheck m ms) _ _ _ _ _ _ eq_refl eq_refl Em). }
  eapply leads_trans; [exact (solo_next (MCheck m ms) _ _ _ _ _ _ eq_refl eq_refl Em)|]. cbn beta.
  destruct a as [[nm ck]|].
  - destruct (checkAppliedMigration m nm ck); [injection E as <- <-; apply rtc_refl|]. by apply IH.
  - unfold bind in E. destruct (applyMigration m w1) as [r1 w2] eqn:E1. apply (applyMigration_solo m ms) in E1.
    destruct r1 as [[]|e| |]; try (by injection E as <- <-).
    eapply leads_trans; [exact E1|]. by apply IH.
Qed.

Lemma returned_wrapf {A} f args (m : GoM (server D) A) w : returned (fst (m w)) -> returned (fst (wrapf f args m w)).
Proof. unfold wrapf, catch. by destruct (m w) as [[]]. Qed.

Lemma returns_wrapf {A} f args (m : GoM (server D) A) : returns m -> returns (wrapf f args m).
Proof. intros Hm w. apply returned_wrapf, Hm. Qed.

Lemma returns_call : returns (call (D := D)).
Proof. intros w. unfold call. by destruct (call_fault _). Qed.

Lemma returns_lift {A} (r : A + error) : returns (lift (D := D) r).
Proof. by destruct r. Qed.

Lemma returns_commit db : returns (commit (D := D) db).
Proof. intros w. unfold commit, call. destruct (call_fault _); [by destruct (commit_lost _)|done]. Qed.
#[local] Hint Resolve returns_wrapf returns_call returns_lift returns_commit : go.

Lemma returns_create_table : returns (create_table (D := D)).
Proof. apply returns_bind; [auto with go|intros _]. apply returns_bind; [auto with go|intros w]. by destruct (db_rows _). Qed.

Lemma returns_query_row v : returns (query_row (D := D) v).
Proof. apply returns_bind; [auto with go|intros _]. apply returns_bind; [auto with go|intros w]. by destruct (db_rows _). Qed.

Lemma returns_applyMigration m : returns (applyMigration (D := D) m).
Proof. unfold applyMigration. auto 10 with go. Qed.
#[local] Hint Resolve returns_create_table returns_query_row returns_applyMigration : go.

Lemma returns_migrate_all ms : returns (migrate_all (D := D) ms).
Proof.
  induction ms as [|m ms IH]; cbn [migrate_all]; [apply returns_ret|].
  apply returns_bind; [auto with go|intros [[nm ck]|]; [|auto with go]]. destruct (checkAppliedMigration m nm ck); auto with go.
Qed.

Lemma acquire_no_panic w : fst (acquire w) <> Panic.
Proof.
  unfold acquire, bind, get. destruct (call_spec w) as ([] & w1 & -> & _ & _ & Hi); try done.
  cbn beta iota. by destruct (existsb _ _).
Qed.

(** What runs under the lock returns. *)
Definition locked_part : GoM (server D) unit :=
  match readMigrations fsys (chosen_dir dir) with
  | inr err => fail err
  | inl parsed => migrate_all parsed
  end.

Lemma locked_part_solo w r w' :
  deferred (ignore release) locked_part w = (r, w') ->
  returned r /\
  rtc solo (w, match readMigrations fsys (chosen_dir dir) with inr err => MUnlock (Err err) | inl ms => check_next ms end)
    (w', MDone r).
Proof.
  unfold deferred. destruct (locked_part w) as [r3 w3] eqn:E3. intros [= <- <-].
  destruct (ignore release w3) as [r4 w4] eqn:E4. cbn [snd].
  assert (forall r0, rtc solo (w3, MUnlock r0) (w4, MDone r0)) as Hu.
  { intros r0. pose proof (solo_next (MUnlock r0) _ _ _ _ _ _ eq_refl eq_refl E4) as Hu.
    destruct r4 as [[]| | |]; try done; unfold ignore, catch, bind, ret, release, bind, get in E4;
      destruct (call_spec w3) as ([] & w5 & E5 & _ & _ & Hi); rewrite E5 in E4; done. }
  unfold locked_part in E3. destruct (readMigrations fsys (chosen_dir dir)) as [ms|e].
  - pose proof (returns_migrate_all ms w) as Hr. rewrite E3 in Hr. split; [done|].
    apply migrate_all_solo in E3. destruct r3 as [[]|e| |]; try done; (etrans; [exact E3|apply Hu]).
  - injection E3 as <- <-. by split.
Qed.

(** Alone, the calls are [Migrate]: they end as it returns, and a program that
    waits in it waits for the lock. *)
Lemma Migrate_solo w r w' :
  Migrate (Some fsys) dir w = (r, w') ->
  match r with
  | Ok _ | Err _ => rtc solo (w, MTable) (w', MDone r)
  | Diverge => exists w1, rtc solo (w, MTable) (w1, MLock) /\ mstep MLock w1 = (Diverge, w')
  | Panic => False
  end.
Proof.
  unfold Migrate. cbv zeta. fold (chosen_dir dir). intros E.
  fold locked_part in E.
  pose proof (returns_wrapf "postgres: create schema_migrations table: %w" [] _ returns_create_table w) as Hc.
  next_call E; cbn [fst] in Hc; try done;
    pose proof (solo_next MTable _ _ _ _ _ _ eq_refl eq_refl Em) as Ht; [|by injection E as <- <-].
  pose proof (acquire_no_panic w1) as Hp. unfold bind in E. destruct (wrapf _ _ acquire w1) as [r2 w2] eqn:E2.
  pose proof (solo_next MLock _ _ _ _ _ _ eq_refl eq_refl E2) as Hl. destruct r2 as [[]|e| |].
  - destruct (locked_part_solo w2 r w' E) as [Hr Hd]. assert (rtc solo (w, MTable) (w', MDone r)); [|by destruct r].
    etrans; [exact Ht|]. by etrans.
  - injection E as <- <-. etrans; [exact Ht|exact Hl].
  - unfold wrapf, catch in E2. by destruct (acquire w1) as [[] ?].
  - injection E as <- <-. exists w1. split; [done|]. cbn [mstep]. unfold next, catch, bind. by rewrite E2.
Qed.

(** *** What a call does *)

Definition stopped (pc' : mpc D) : Prop := exists e, pc' = MUnlock (Err e).

Definition after_lock : mpc D :=
  match readMigrations fsys (chosen_dir dir) with inr err => MUnlock (Err err) | inl ms => check_next ms end.

(** The database, the locks and the next call. *)
Definition move (pc : mpc D) w (pc' : mpc D) w' : Prop :=
  match pc with
  | MTable => sv_locks w' = sv_locks w /\
      (sv_db w' = with_table (sv_db w) /\ pc' = MLock \/ sv_db w' = sv_db w /\ exists e, pc' = MDone (Err e))
  | MLock => sv_db w' = sv_db w /\
      (Forall (eq (session (sv_calls w))) (sv_locks w) /\ sv_locks w' = session (sv_calls w) :: sv_locks w /\
         pc' = after_lock \/
       sv_locks w' = sv_locks w /\ exists e, pc' = MDone (Err e))
  | MCheck m todo => sv_db w' = sv_db w /\ sv_locks w' = sv_locks w /\
      (stopped pc' \/ exists rows, db_rows (sv_db w) = Some rows /\
         (rows !! mg_version m = None /\ pc' = MBegin m todo \/
          (exists name, rows !! mg_version m = Some (name, mg_checksum m)) /\ pc' = check_next todo))
  | MBegin m todo => sv_db w' = sv_db w /\ sv_locks w' = sv_locks w /\ (stopped pc' \/ pc' = MExec m todo (sv_db w))
  | MExec m todo tx => sv_db w' = sv_db w /\ sv_locks w' = sv_locks w /\
      (stopped pc' \/ exists data, run_sql (mg_sql m) (db_data tx) = inl data /\ pc' = MRecord m todo (mkDb (db_rows tx) data))
  | MRecord m todo tx => sv_db w' = sv_db w /\ sv_locks w' = sv_locks w /\
      (stopped pc' \/ exists db, record_row m tx = inl db /\ pc' = MCommit m todo db)
  | MCommit m todo tx => sv_locks w' = sv_locks w /\
      (sv_db w' = tx /\ pc' = check_next todo \/ (sv_db w' = tx \/ sv_db w' = sv_db w) /\ stopped pc')
  | MUnlock r => sv_db w' = sv_db w /\ pc' = MDone r /\
      (sv_locks w' = remove_one (session (sv_calls w)) (sv_locks w) \/
       sv_locks w' = sv_locks w /\ call_fault (sv_calls w) <> None)
  | MDone r => w' = w /\ pc' = MDone r
  end.

Lemma next_inv {A} (m : GoM (server D) A) k h w pc' w' :
  next m k h w = (Ok pc', w') ->
  (exists a, m w = (Ok a, w') /\ pc' = k a) \/ (exists e, m w = (Err e, w') /\ pc' = h e).
Proof. unfold next, catch, bind, ret. destruct (m w) as [[a|e| |] w1]; intros [= <- <-]; eauto. Qed.

Lemma next_wrapf_inv {A} f args (m : GoM (server D) A) k h w pc' w' :
  next (wrapf f args m) k h w = (Ok pc', w') ->
  (exists a, m w = (Ok a, w') /\ pc' = k a) \/ (exists e e', m w = (Err e, w') /\ pc' = h e').
Proof.
  intros [(a & E & ->)|(e & E & ->)]%next_inv; unfold wrapf, catch, fail in E;
    destruct (m w) as [[]]; simplify_eq; eauto 6.
Qed.

Lemma call_lift_inv {A} (x : A + error) w r w' :
  (call ;; lift x) w = (r, w') ->
  sv_db w' = sv_db w /\ sv_locks w' = sv_locks w /\ (forall a, r = Ok a -> x = inl a).
Proof.
  unfold bind. destruct (call_spec w) as ([i|e| |] & w1 & -> & Hd & Hl & Hi); try done.
  - unfold lift. destruct x; intros [= <- <-]; split_and!; try done; congruence.
  - by intros [= <- <-].
Qed.

Lemma mstep_tx_move pc m todo w pc' w' :
  (pc = MBegin m todo \/ (exists tx, pc = MExec m todo tx) \/ (exists tx, pc = MRecord m todo tx)) ->
  mstep pc w = (Ok pc', w') -> move pc w pc' w'.
Proof.
  intros [->|[[tx ->]|[tx ->]]]; cbn [mstep move].
  - intros [(a & E & ->)|(e & E & ->)]%next_inv.
    + apply bind_inv_Ok in E as (i & w1 & E & [= <- <-]). unfold wrapf, catch in E.
      destruct (call_spec w) as ([] & w2 & E2 & Hd & Hl & _); rewrite E2 in E; simplify_eq/=.
      split_and!; try done. right. by rewrite Hd.
    + unfold bind, wrapf, catch, get in E. destruct (call_spec w) as ([] & w2 & E2 & Hd & Hl & _); rewrite E2 in E;
        simplify_eq/=. split_and!; try done. left. by eexists.
  - intros [(a & (Hd & Hl & Ha)%call_lift_inv & ->)|(e & e' & (Hd & Hl & Ha)%call_lift_inv & ->)]%next_wrapf_inv;
      (split_and!; [done..|]); [right; eauto|left; by eexists].
  - intros [(a & (Hd & Hl & Ha)%call_lift_inv & ->)|(e & e' & (Hd & Hl & Ha)%call_lift_inv & ->)]%next_wrapf_inv;
      (split_and!; [done..|]); [right; eauto|left; by eexists].
Qed.

Lemma mstep_lock_move w pc' w' : mstep MLock w = (Ok pc', w') -> move MLock w pc' w'.
Proof.
  cbn [mstep move]. intros [([] & E & ->)|(e & e' & E & ->)]%next_wrapf_inv.
  - pose proof (acquire_ok w w' E) as (_ & Hl & Hd). split; [done|]. left. split_and!; try done.
    unfold acquire, bind, call, get in E. destruct (call_fault (sv_calls w)); [done|]. cbn [sv_locks] in E.
    destruct (existsb _ _) eqn:Ex; [done|]. apply Forall_forall. intros s Hs.
    destruct (decide (session (sv_calls w) = s)) as [E1|Hne]; [done|]. exfalso.
    assert (existsb (fun s => negb (s =? session (sv_calls w))%nat) (sv_locks w) = true); [|congruence].
    apply existsb_exists. exists s. split; [by apply list_elem_of_In|]. by apply negb_true_iff, Nat.eqb_neq.
  - unfold acquire, bind, get in E. destruct (call_spec w) as ([] & w2 & E2 & Hd & Hl & _); rewrite E2 in E; cbn beta iota in E.
    + by destruct (existsb _ _).
    + simplify_eq. split; [done|]. right. split; [done|]. by eexists.
    + done.
    + done.
Qed.

Lemma mstep_move pc w pc' w' : mstep pc w = (Ok pc', w') -> move pc w pc' w'.
Proof.
  destruct pc as [| |m todo|m todo|m todo tx|m todo tx|m todo tx|r|r].
  - cbn [mstep move]. destruct (create_table_spec w) as (r & w1 & E1 & Hl & Hc).
    intros [(a & E & ->)|(e & e' & E & ->)]%next_wrapf_inv; rewrite E1 in E; simplify_eq; split; try done;
      [by left|right; eauto].
  - apply mstep_lock_move.
  - cbn [mstep move].
    intros [(row & E & ->)|(e & e' & E & ->)]%next_wrapf_inv; unfold query_row, bind, get in E;
      destruct (call_spec w) as ([] & w1 & E1 & Hd & Hl & _); rewrite E1 in E; try done;
      cbn beta iota in E; try rewrite Hd in E.
    + destruct (db_rows (sv_db w)) as [rows|]; [|done]. injection E as <- <-. split_and!; try done.
      destruct (rows !! mg_version m) as [[nm ck]|] eqn:Er; [|right; exists rows; by eauto].
      unfold checkAppliedMigration. case_bool_decide; [|left; by eexists]. right. exists rows. split; [done|].
      right. subst ck. eauto.
    + destruct (db_rows (sv_db w)) as [rows|]; [done|]. injection E as <- <-. split_and!; try done. left. by eexists.
    + simplify_eq. split_and!; try done. left. by eexists.
  - apply (mstep_tx_move _ m todo). by left.
  - apply (mstep_tx_move _ m todo). eauto.
  - apply (mstep_tx_move _ m todo). eauto.
  - cbn [mstep move]. intros [(a & E & ->)|(e & e' & E & ->)]%next_wrapf_inv; unfold commit, set_db, modify in E;
      destruct (call_spec w) as ([] & w1 & E1 & Hd & Hl & _); rewrite E1 in E; try done.
    + injection E as _ <-. split; [done|]. by left.
    + by destruct (commit_lost _).
    + destruct (commit_lost _); simplify_eq/=; (split; [done|]); right; (split; [eauto|by eexists]).
  - cbn [mstep move]. intros E. assert (pc' = MDone r) as -> by (apply next_inv in E as [(? & _ & ->)|(? & _ & ->)]; done).
    unfold next, ignore, release, catch, bind, call, get, set_locks, modify, ret in E.
    destruct (call_fault (sv_calls w)) eqn:Ef; injection E as <-; cbn; rewrite ?Ef; eauto.
  - by intros [= <- <-].
Qed.

(** *** What a program knows of the database *)

(** All its migrations before [todo] have their rows. *)
Definition reached (db : database D) (todo : list migration) : Prop :=
  exists ms pre rows, readMigrations fsys (chosen_dir dir) = inl ms /\ ms = pre ++ todo /\
    db_rows db = Some rows /\ recorded rows pre.

Definition missing (db : database D) (m : migration) : Prop :=
  exists rows, db_rows db = Some rows /\ rows !! mg_version m = None.

(** What holds of the database at each call. *)
Definition pc_ok (db : database D) (pc : mpc D) : Prop :=
  match pc with
  | MTable => True
  | MLock => is_Some (db_rows db)
  | MCheck m todo => reached db (m :: todo)
  | MBegin m todo => reached db (m :: todo) /\ missing db m
  | MExec m todo tx => reached db (m :: todo) /\ missing db m /\ tx = db
  | MRecord m todo tx => reached db (m :: todo) /\ missing db m /\
      db_rows tx = db_rows db /\ run_sql (mg_sql m) (db_data db) = inl (db_data tx)
  | MCommit m todo tx => reached db (m :: todo) /\ missing db m /\
      exists data, run_sql (mg_sql m) (db_data db) = inl data /\ record_row m (mkDb (db_rows db) data) = inl tx
  | MUnlock r | MDone r => r = Ok tt -> reached db []
  end.

Lemma reached_some db todo : reached db todo -> is_Some (db_rows db).
Proof. intros (ms & pre & rows & _ & _ & -> & _). by eexists. Qed.

Lemma with_table_some (db : database D) : is_Some (db_rows db) -> with_table db = db.
Proof. intros [rows Hr]. unfold with_table. rewrite Hr. destruct db; cbn in *. by subst. Qed.

Lemma check_next_ok db todo : reached db todo -> pc_ok db (check_next todo).
Proof. intros Hr. destruct todo; cbn; auto. Qed.

Lemma recorded_weaken rows rows' ms : rows ⊆ rows' -> recorded rows ms -> recorded rows' ms.
Proof. intros Hs Hr. eapply Forall_impl; [exact Hr|]. intros m [n Hn]. exists n. by eapply lookup_weaken. Qed.

Lemma reached_next db rows m todo name :
  reached db (m :: todo) -> db_rows db = Some rows -> rows !! mg_version m = Some (name, mg_checksum m) ->
  reached db todo.
Proof.
  intros (ms & pre & rows0 & Hms & -> & Hr & Hrec) Hr0 Hm. exists (pre ++ m :: todo), (pre ++ [m]), rows0.
  rewrite <- app_assoc. split_and!; try done. apply Forall_app. split; [done|]. assert (rows0 = rows) as -> by congruence.
  constructor; [by exists name|constructor].
Qed.

(** A row more. *)
Definition grows (db db' : database D) : Prop :=
  forall rows, db_rows db = Some rows -> exists rows', db_rows db' = Some rows' /\ rows ⊆ rows'.

Lemma reached_grows db db' todo : grows db db' -> reached db todo -> reached db' todo.
Proof.
  intros Hg (ms & pre & rows & Hms & E & Hr & Hrec). destruct (Hg rows Hr) as (rows' & Hr' & Hs).
  exists ms, pre, rows'. split_and!; try done. by eapply recorded_weaken.
Qed.

Lemma record_grows m db data tx :
  record_row m (mkDb (db_rows db) data) = inl tx ->
  exists rows, db_rows db = Some rows /\ rows !! mg_version m = None /\
    tx = mkDb (Some (<[mg_version m := (mg_name m, mg_checksum m)]> rows)) data /\ grows db tx.
Proof.
  unfold record_row. cbn [db_rows db_data]. destruct (db_rows db) as [rows|] eqn:Hr; [|done].
  destruct (rows !! mg_version m) eqn:Hm; [done|]. intros [= <-]. exists rows. split_and!; try done.
  intros rows0 Hr0. eexists. split; [reflexivity|]. assert (rows0 = rows) as -> by congruence. by apply insert_subseteq.
Qed.

(** Another program's row does not matter outside the lock. *)
Lemma pc_ok_grows db db' pc : inside pc = false -> grows db db' -> pc_ok db pc -> pc_ok db' pc.
Proof.
  intros Hi Hg. destruct pc; try done; cbn.
  - intros [rows Hr]. destruct (Hg rows Hr) as (rows' & -> & _). by eexists.
  - intros Hr ->. apply (reached_grows db); auto.
Qed.

Lemma pc_ok_table db pc : pc_ok db pc -> pc_ok (with_table db) pc.
Proof.
  intros Hok. assert (is_Some (db_rows db) \/ db_rows db = None) as [Hs|Hn] by (destruct (db_rows db); eauto).
  { by rewrite with_table_some. }
  assert (~ is_Some (db_rows db)) as Hns by (intros [? ?]; congruence).
  assert (forall todo, ~ reached db todo) as Hno by (intros todo Hr; by eapply Hns, reached_some).
  destruct pc; cbn in *; naive_solver.
Qed.

(** The row of a program's own commit. *)
Lemma commit_reached db m todo tx data :
  reached db (m :: todo) -> record_row m (mkDb (db_rows db) data) = inl tx -> reached tx todo.
Proof.
  intros Hre Ht. destruct (record_grows _ _ _ _ Ht) as (rows & Hr & Hm & -> & Hg).
  eapply (reached_next _ _ m); [by eapply reached_grows|reflexivity|]. apply lookup_insert_eq.
Qed.

Lemma stopped_ok db pc : stopped pc -> pc_ok db pc.
Proof. by intros [e ->]. Qed.

(** A program's own calls. *)
Lemma pc_ok_step pc w pc' w' : pc_ok (sv_db w) pc -> mstep pc w = (Ok pc', w') -> pc_ok (sv_db w') pc'.
Proof.
  intros Hok Hm%mstep_move.
  destruct pc as [| |m todo|m todo|m todo tx|m todo tx|m todo tx|r|r]; cbn [move] in Hm.
  - destruct Hm as (_ & [(-> & ->)|(_ & e & ->)]); cbn; by eauto.
  - destruct Hm as (-> & [(_ & _ & ->)|(_ & e & ->)]); [|done]. unfold after_lock.
    destruct (readMigrations fsys (chosen_dir dir)) as [ms|e] eqn:Er; [|done]. apply check_next_ok.
    destruct Hok as [rows Hr]. exists ms, [], rows. split_and!; try done. constructor.
  - destruct Hm as (-> & _ & [?|(rows & Hr & [(Hn & ->)|((name & Hn) & ->)])]); [by apply stopped_ok| |].
    + split; [done|]. by exists rows.
    + apply check_next_ok. by eapply reached_next.
  - destruct Hm as (-> & _ & [?| ->]); [by apply stopped_ok|]. destruct Hok. by split_and!.
  - destruct Hm as (-> & _ & [?|(data & Hd & ->)]); [by apply stopped_ok|]. destruct Hok as (? & ? & ->). by split_and!.
  - destruct Hm as (-> & _ & [?|(db & Hd & ->)]); [by apply stopped_ok|]. destruct Hok as (? & ? & Hr & Hs). split_and!; try done.
    exists (db_data tx). split; [done|]. rewrite <- Hr. by destruct tx.
  - destruct Hm as (_ & [(-> & ->)|(_ & ?)]); [|by apply stopped_ok]. destruct Hok as (Hre & _ & data & _ & Hd).
    apply check_next_ok. by eapply commit_reached.
  - by destruct Hm as (-> & -> & _).
  - by destruct Hm as (-> & ->).
Qed.

(** The calls that change the database. *)
Lemma mstep_db pc w pc' w' : pc_ok (sv_db w) pc -> mstep pc w = (Ok pc', w') ->
  sv_db w' = sv_db w \/ sv_db w' = with_table (sv_db w) \/
  inside pc = true /\ exists m todo data, reached (sv_db w) (m :: todo) /\
    run_sql (mg_sql m) (db_data (sv_db w)) = inl data /\
    record_row m (mkDb (db_rows (sv_db w)) data) = inl (sv_db w').
Proof.
  intros Hok Hm%mstep_move. destruct pc; cbn [move] in Hm; try (left; tauto).
  - destruct Hm as (_ & [(-> & ->)|(-> & _)]); auto.
  - destruct Hok as (Hre & _ & data & Hd & Ht). destruct Hm as (_ & [(-> & _)|([->| ->] & _)]); [..|by left]; right; right;
      (split; [done|]); by eexists _, _, _.
  - left. by destruct Hm as (-> & _).
Qed.
End program.

#[local] Hint Resolve returns_wrapf returns_call returns_lift returns_commit returns_create_table returns_query_row : go.

(** ** The programs of one server *)

(** The migrations of a program and the connections of its pool. *)
Record program := mkProgram { pr_fsys : FS; pr_dir : bytes; pr_pool : nat -> nat }.

Definition pr_migrations (pr : program) : list migration + error :=
  readMigrations (pr_fsys pr) (chosen_dir (pr_dir pr)).

Section shared.
Context `{Base : Postgres D}.
Implicit Types (w : server D) (st : server D * list (mpc D)).

(** The server through a program's pool. *)
Definition through (pr : program) : Postgres D := {|
  run_sql := run_sql;
  call_fault := call_fault;
  commit_lost := commit_lost;
  session := pr_pool pr;
|}.

Definition pstep (pr : program) : mpc D -> GoM (server D) (mpc D) :=
  mstep (H := through pr) (pr_fsys pr) (pr_dir pr).

(** A call of program [p]; there is none when it waits or has returned. *)
Definition shared_turn (ps : list program) (p : nat) st : option (server D * list (mpc D)) :=
  match ps !! p, snd st !! p with
  | Some pr, Some pc =>
      if finished pc then None
      else
        match pstep pr pc (fst st) with
        | (Ok pc', w') => Some (w', <[p := pc']> (snd st))
        | _ => None
        end
  | _, _ => None
  end.

Definition shared_step (ps : list program) st st' : Prop := exists p, shared_turn ps p st = Some st'.

Definition start (ps : list program) : list (mpc D) := (fun _ => MTable) <$> ps.

Lemma shared_turn_inv ps p st st' : shared_turn ps p st = Some st' ->
  exists pr pc pc' w', ps !! p = Some pr /\ snd st !! p = Some pc /\ finished pc = false /\
    pstep pr pc (fst st) = (Ok pc', w') /\ st' = (w', <[p := pc']> (snd st)).
Proof.
  unfold shared_turn. destruct (ps !! p) as [pr|]; [|done]. destruct (snd st !! p) as [pc|]; [|done].
  destruct (finished pc) eqn:Hf; [done|]. destruct (pstep pr pc (fst st)) as [[pc'| | |] w'] eqn:E; try done.
  intros [= <-]. by exists pr, pc, pc', w'.
Qed.

(** *** The order of the migrations *)

Lemma applied_snoc don m db db1 db2 data :
  applied don db db1 -> run_sql (mg_sql m) (db_data db1) = inl data ->
  record_row m (mkDb (db_rows db1) data) = inl db2 -> applied (don ++ [m]) db db2.
Proof.
  intros Ha Hd Hr. induction Ha as [db|m1 ms db data1 db' db'' Hd1 Hr1 Ha IH]; cbn.
  - eapply applied_cons; [exact Hd|exact Hr|constructor].
  - eapply applied_cons; [exact Hd1|exact Hr1|]. by apply IH.
Qed.

(** No version is applied twice. *)
Lemma applied_once don db db' rows : applied don db db' -> db_rows db = Some rows ->
  NoDup (mg_version <$> don) /\ Forall (fun m => rows !! mg_version m = None) don.
Proof.
  intros Ha. revert rows. induction Ha as [|m ms db data db1 db2 Hd Hr Ha IH]; intros rows Hrows.
  { split; constructor. }
  destruct (record_grows m db data db1 Hr) as (rows0 & Hr0 & Hm & -> & _). assert (rows0 = rows) as -> by congruence.
  destruct (IH _ eq_refl) as [Hnd Hnone]. rewrite Forall_forall in Hnone. split.
  - cbn. constructor; [|done]. intros (x & E & Hx)%list_elem_of_fmap. specialize (Hnone x Hx). cbn in Hnone.
    rewrite <- E, lookup_insert_eq in Hnone. done.
  - constructor; [done|]. apply Forall_forall. intros x Hx. specialize (Hnone x Hx). cbn in Hnone.
    by apply lookup_insert_None in Hnone as [? _].
Qed.

Lemma pending_app rows ms ms' : pending rows (ms ++ ms') = pending rows ms ++ pending rows ms'.
Proof. apply filter_app. Qed.

(** The first missing migration gets its row. *)
Lemma pending_commit rows pre m todo v :
  StronglySorted strictly (pre ++ m :: todo) -> recorded rows pre -> rows !! mg_version m = None ->
  pending rows (pre ++ m :: todo) = m :: pending (<[mg_version m := v]> rows) (pre ++ m :: todo).
Proof.
  intros Hs Hrec Hm.
  assert (recorded (<[mg_version m := v]> rows) pre) as Hrec'.
  { eapply recorded_weaken; [|exact Hrec]. by apply insert_subseteq. }
  rewrite !pending_app, (recorded_pending rows pre Hrec), (recorded_pending _ pre Hrec'). cbn [app].
  assert (Forall (strictly m) todo) as Hlt.
  { clear -Hs. induction pre as [|x pre IH]; cbn in Hs; inversion Hs; subst; auto. }
  transitivity (m :: pending (<[mg_version m := v]> rows) todo).
  - rewrite (pending_insert m v rows todo Hlt). unfold pending. rewrite filter_cons. by rewrite decide_True.
  - f_equal. unfold pending. rewrite filter_cons. by rewrite decide_False by (by rewrite lookup_insert_eq).
Qed.

(** *** One at a time, each migration once *)

Section exclusion.
Context (ps : list program) (owner : nat -> nat) (db0 : database D).
Context (Hpools : forall p pr i, ps !! p = Some pr -> owner (pr_pool pr i) = p).

Definition from_program (m : migration) : Prop :=
  exists p pr ms, ps !! p = Some pr /\ pr_migrations pr = inl ms /\ m ∈ ms.

(** All the programs that can read their migrations have these. *)
Definition common (ms : list migration) : Prop :=
  forall p pr ms', ps !! p = Some pr -> pr_migrations pr = inl ms' -> ms' = ms.

(** The migrations applied so far. *)
Definition progress (db : database D) : Prop :=
  exists don rows, applied don (with_table db0) db /\ Forall from_program don /\ db_rows db = Some rows /\
    forall ms, common ms -> don ++ pending rows ms = pending (default ∅ (db_rows db0)) ms.

(** The lock belongs to whoever is inside, and all of it to one session. *)
Record sinv st : Prop := {
  si_ok : forall p pr pc, ps !! p = Some pr -> snd st !! p = Some pc ->
    pc_ok (H := through pr) (pr_fsys pr) (pr_dir pr) (sv_db (fst st)) pc;
  si_held : forall p pc, snd st !! p = Some pc -> inside pc = true ->
    exists s, s ∈ sv_locks (fst st) /\ owner s = p;
  si_same : forall s s', s ∈ sv_locks (fst st) -> s' ∈ sv_locks (fst st) -> s = s';
  si_db : sv_db (fst st) = db0 \/ progress (sv_db (fst st));
}.

Lemma sinv_exclusive st p q pc pc' : sinv st ->
  snd st !! p = Some pc -> snd st !! q = Some pc' -> inside pc = true -> inside pc' = true -> p = q.
Proof.
  intros Hi Hp Hq Ip Iq. destruct (si_held st Hi p pc Hp Ip) as (s & Hs & <-).
  destruct (si_held st Hi q pc' Hq Iq) as (s' & Hs' & <-). f_equal. by apply (si_same st Hi).
Qed.

Lemma sinv_start w : sv_db w = db0 -> sv_locks w = [] -> sinv (w, start ps).
Proof.
  intros Hd Hl. split; cbn [fst snd].
  - intros p pr pc _ Hpc. unfold start in Hpc. rewrite list_lookup_fmap in Hpc.
    apply fmap_Some in Hpc as (? & _ & ->). done.
  - intros p pc Hpc. unfold start in Hpc. rewrite list_lookup_fmap in Hpc. by apply fmap_Some in Hpc as (? & _ & ->).
  - rewrite Hl. intros s s' Hs%elem_of_nil. done.
  - by left.
Qed.

Lemma progress_start : progress (with_table db0).
Proof.
  exists [], (default ∅ (db_rows db0)). split_and!; try done. constructor.
Qed.

Lemma progress_commit pr p db db' m todo data :
  ps !! p = Some pr -> progress db -> reached (pr_fsys pr) (pr_dir pr) db (m :: todo) ->
  run_sql (mg_sql m) (db_data db) = inl data -> record_row m (mkDb (db_rows db) data) = inl db' -> progress db'.
Proof.
  intros Hp (don & rows & Ha & Hf & Hr & Hpre) (ms & pre & rows0 & Hms & -> & Hr0 & Hrec) Hd Ht.
  assert (rows0 = rows) as -> by congruence.
  destruct (record_grows _ _ _ _ Ht) as (rows1 & Hr1 & Hm & Hdb' & _). assert (rows1 = rows) as -> by congruence.
  exists (don ++ [m]), (<[mg_version m := (mg_name m, mg_checksum m)]> rows). split_and!.
  - by eapply applied_snoc.
  - apply Forall_app. split; [done|]. constructor; [|constructor]. exists p, pr, (pre ++ m :: todo). split_and!; try done.
    set_solver.
  - by rewrite Hdb'.
  - intros ms Hc. rewrite <- (Hpre ms Hc), <- app_assoc. f_equal. rewrite <- (Hc p pr _ Hp Hms). cbn [app].
    symmetry. apply pending_commit; try done. by eapply readMigrations_sorted.
Qed.

Lemma progress_some db : progress db -> is_Some (db_rows db).
Proof. intros (don & rows & _ & _ & Hr & _). by eexists. Qed.

Lemma progress_table db : db = db0 \/ progress db -> progress (with_table db).
Proof.
  intros [->|Hp]; [apply progress_start|]. rewrite with_table_some; [done|]. by apply progress_some.
Qed.

(** The programs that did not make the call. *)
Lemma others_ok st p pr pc pc' w' : sinv st -> ps !! p = Some pr -> snd st !! p = Some pc ->
  pstep pr pc (fst st) = (Ok pc', w') ->
  forall q pr' pc1, q <> p -> ps !! q = Some pr' -> snd st !! q = Some pc1 ->
    pc_ok (H := through pr') (pr_fsys pr') (pr_dir pr') (sv_db w') pc1.
Proof.
  intros Hi Hpr Hpc E q pr' pc1 Hq Hpr' Hpc1. pose proof (si_ok st Hi p pr pc Hpr Hpc) as Hok.
  pose proof (si_ok st Hi q pr' pc1 Hpr' Hpc1) as Hok1.
  destruct (mstep_db (H := through pr) _ _ pc (fst st) pc' w' Hok E) as [->|[->|(Ip & m & todo & data & _ & _ & Ht)]];
    [done|by apply pc_ok_table|].
  destruct (record_grows _ _ _ _ Ht) as (rows & _ & _ & _ & Hg). eapply pc_ok_grows; [|exact Hg|done].
  destruct (inside pc1) eqn:I1; [|done]. by destruct (Hq (sinv_exclusive st q p pc1 pc Hi Hpc1 Hpc I1 Ip)).
Qed.

Lemma step_db st p pr pc pc' w' : sinv st -> ps !! p = Some pr -> snd st !! p = Some pc ->
  pstep pr pc (fst st) = (Ok pc', w') -> sv_db w' = db0 \/ progress (sv_db w').
Proof.
  intros Hi Hpr Hpc E. pose proof (si_ok st Hi p pr pc Hpr Hpc) as Hok. pose proof (si_db st Hi) as Hdb.
  destruct (mstep_db (H := through pr) _ _ pc (fst st) pc' w' Hok E) as [->|[->|(Ip & m & todo & data & Hre & Hd & Ht)]];
    [done|right; by apply progress_table|]. right.
  eapply (progress_commit pr p (sv_db (fst st))); try done.
  rewrite <- (with_table_some (sv_db (fst st))); [by apply progress_table|]. by eapply reached_some.
Qed.

Lemma remove_one_elem s x l : x ∈ remove_one s l -> x ∈ l.
Proof. induction l as [|y l IH]; cbn; [done|]. destruct (y =? s)%nat; set_solver. Qed.

(** What a call does to the locks. *)
Lemma mstep_locks pr pc w pc' w' : pstep pr pc w = (Ok pc', w') ->
  (sv_locks w' = sv_locks w /\ (inside pc' = true -> inside pc = true)) \/
  (exists i, Forall (eq (pr_pool pr i)) (sv_locks w) /\ sv_locks w' = pr_pool pr i :: sv_locks w /\ inside pc = false) \/
  (exists i, sv_locks w' = remove_one (pr_pool pr i) (sv_locks w) /\ inside pc = true /\ inside pc' = false).
Proof.
  intros E%(mstep_move (H := through pr)). destruct pc; cbn [move] in E.
  2: { destruct E as (_ & [(Hf & Hl & _)|(-> & e & ->)]); [|by left]. right. left. by exists (sv_calls w). }
  7: { destruct E as (_ & -> & [->|(-> & _)]); [|by left]. right. right. by exists (sv_calls w). }
  all: left; try (split; [tauto|done]).
  - destruct E as (-> & [(_ & ->)|(_ & e & ->)]); done.
  - by destruct E as (-> & ->).
Qed.

Lemma sinv_step st st' : sinv st -> shared_step ps st st' -> sinv st'.
Proof.
  intros Hi [p (pr & pc & pc' & w' & Hpr & Hpc & Hf & E & ->)%shared_turn_inv].
  pose proof (mstep_locks pr pc (fst st) pc' w' E) as Hl. split; cbn [fst snd].
  - intros q pr' pc1 Hq Hpc1. apply list_lookup_insert_Some in Hpc1 as [(<- & <- & _)|(Hne & Hpc1)].
    + assert (pr' = pr) as -> by congruence. eapply (pc_ok_step (H := through pr)); [|exact E]. by apply (si_ok st Hi p).
    + by apply (others_ok st p pr pc pc' w' Hi Hpr Hpc E q).
  - intros q pc1 Hpc1 I1. apply list_lookup_insert_Some in Hpc1 as [(<- & <- & _)|(Hne & Hpc1)].
    + destruct Hl as [(-> & Hin)|[(i & _ & -> & _)|(i & _ & _ & Hn)]]; [by eapply (si_held st Hi); eauto| |congruence].
      exists (pr_pool pr i). split; [set_solver|by apply Hpools].
    + destruct (si_held st Hi q pc1 Hpc1 I1) as (s & Hs & Ho).
      destruct Hl as [(-> & _)|[(i & _ & -> & _)|(i & _ & Ip & _)]]; [by exists s|exists s; split; [set_solver|done]|].
      by destruct (Hne (sinv_exclusive st p q pc pc1 Hi Hpc Hpc1 Ip I1)).
  - pose proof (si_same st Hi) as Hs. destruct Hl as [(-> & _)|[(i & Hall & -> & _)|(i & -> & _)]]; [done| |].
    + rewrite Forall_forall in Hall. intros s s' [->|Hs1]%elem_of_cons [->|Hs2]%elem_of_cons; auto. by symmetry; auto.
    + intros s s' ?%remove_one_elem ?%remove_one_elem. auto.
  - by eapply step_db.
Qed.

Lemma sinv_reach st st' : sinv st -> rtc (shared_step ps) st st' -> sinv st'.
Proof. intros Hi Hr. induction Hr; [done|]. eauto using sinv_step. Qed.
End exclusion.

(** C4: several programs run [Migrate] on one server at the same time, each
    on its own pool, with calls that interleave and fail in any way.  At most
    one of them is between taking and releasing the advisory lock.  At every
    moment the database is the first one with some of the programs'
    migrations applied, each with its row and no version twice; when the
    programs have the same migrations these are the first of the missing
    ones, in order.  Every migration of a program that has returned without
    error has its row and checksum. *)
Theorem shared_migrations_safe (ps : list program) (owner : nat -> nat) (w0 : server D)
    (st : server D * list (mpc D))
    (Hpools : forall p pr i, ps !! p = Some pr -> owner (pr_pool pr i) = p)
    (Hfree : sv_locks w0 = []) (Hreach : rtc (shared_step ps) (w0, start ps) st) :
  (forall p q pc pc', snd st !! p = Some pc -> snd st !! q = Some pc' ->
     inside pc = true -> inside pc' = true -> p = q) /\
  (sv_db (fst st) = sv_db w0 \/
   exists don rows, applied don (with_table (sv_db w0)) (sv_db (fst st)) /\ NoDup (mg_version <$> don) /\
     Forall (from_program ps) don /\ db_rows (sv_db (fst st)) = Some rows /\
     forall ms, common ps ms -> don ++ pending rows ms = pending (default ∅ (db_rows (sv_db w0))) ms) /\
  (forall p pr, ps !! p = Some pr -> snd st !! p = Some (MDone (Ok tt)) ->
     exists ms rows, pr_migrations pr = inl ms /\ db_rows (sv_db (fst st)) = Some rows /\ recorded rows ms).
Proof.
  pose proof (sinv_reach ps owner (sv_db w0) Hpools _ _ (sinv_start ps owner (sv_db w0) w0 eq_refl Hfree) Hreach) as Hi.
  split_and!.
  - intros p q pc pc'. by apply (sinv_exclusive ps owner (sv_db w0) st).
  - destruct (si_db _ _ _ _ Hi) as [?|(don & rows & Ha & Hf & Hr & Hc)]; [by left|]. right. exists don, rows.
    split_and!; try done. by eapply applied_once.
  - intros p pr Hp Hd. destruct (si_ok _ _ _ _ Hi p pr _ Hp Hd eq_refl) as (ms & pre & rows & Hms & E & Hr & Hrec).
    rewrite app_nil_r in E. subst pre. by exists ms, rows.
Qed.

(** *** A program alone *)

Lemma solo_shared pr x y : solo (H := through pr) (pr_fsys pr) (pr_dir pr) x y ->
  shared_step [pr] (x.1, [x.2]) (y.1, [y.2]).
Proof.
  intros [Hf E]. exists 0%nat. unfold shared_turn. cbn [lookup list_lookup snd]. rewrite Hf.
  unfold pstep. cbn [fst]. by rewrite E.
Qed.

(** The calls of a program that is alone on the server are its [Migrate]:
    they lead to the same result and leave the same server, and when [Migrate]
    never returns the program waits for the lock. *)
Theorem alone_is_Migrate (pr : program) (w w' : server D) (r : outcome unit)
    (Hrun : Migrate (H := through pr) (Some (pr_fsys pr)) (pr_dir pr) w = (r, w')) :
  match r with
  | Ok _ | Err _ => rtc (shared_step [pr]) (w, [MTable]) (w', [MDone r])
  | Diverge => exists w1, rtc (shared_step [pr]) (w, [MTable]) (w1, [MLock]) /\
      forall st', ~ shared_step [pr] (w1, [MLock]) st'
  | Panic => False
  end.
Proof.
  apply (Migrate_solo (H := through pr)) in Hrun.
  assert (forall x y, rtc (solo (H := through pr) (pr_fsys pr) (pr_dir pr)) x y ->
    rtc (shared_step [pr]) (x.1, [x.2]) (y.1, [y.2])) as Hs.
  { intros x y Hxy. apply (rtc_congruence (fun x => (x.1, [x.2])) (R := solo (H := through pr) (pr_fsys pr) (pr_dir pr)));
      [|done]. apply solo_shared. }
  destruct r as [[]|e| |]; [exact (Hs _ _ Hrun)|exact (Hs _ _ Hrun)|done|].
  destruct Hrun as (w1 & Hr & E). exists w1. split; [exact (Hs _ _ Hr)|].
  intros st' [p (pr' & pc & pc' & w2 & Hpr & Hpc & _ & E' & _)%shared_turn_inv].
  destruct p as [|p]; [|done]. injection Hpr as <-. injection Hpc as <-. cbn [fst] in E'. unfold pstep in E'. congruence.
Qed.

(** *** All of them return *)

(** The calls a program has still to make, at most. *)
Definition todo_calls (pr : program) : nat :=
  match pr_migrations pr with inl ms => 5 * length ms | inr _ => 0 end.
Definition calls_left (pr : program) (pc : mpc D) : nat :=
  match pc with
  | MTable => todo_calls pr + 3
  | MLock => todo_calls pr + 2
  | MCheck _ todo => 5 * length todo + 6
  | MBegin _ todo => 5 * length todo + 5
  | MExec _ todo _ => 5 * length todo + 4
  | MRecord _ todo _ => 5 * length todo + 3
  | MCommit _ todo _ => 5 * length todo + 2
  | MUnlock _ => 1
  | MDone _ => 0
  end.

Lemma calls_left_next pr todo : (calls_left pr (check_next todo) <= 5 * length todo + 1)%nat.
Proof. destruct todo; cbn; lia. Qed.

Lemma calls_left_step pr pc w pc' w' : finished pc = false ->
  pstep pr pc w = (Ok pc', w') -> (calls_left pr pc' < calls_left pr pc)%nat.
Proof.
  assert (forall e, calls_left pr (MDone (Err e)) = 0%nat) as Hd by done.
  assert (forall pc, stopped pc -> calls_left pr pc = 1%nat) as Hst by (by intros ? [? ->]).
  intros Hf E%(mstep_move (H := through pr)). destruct pc; cbn [move] in E; try done.
  - destruct E as (_ & [(_ & ->)|(_ & e & ->)]); cbn; lia.
  - destruct E as (_ & [(_ & _ & ->)|(_ & e & ->)]); [|cbn; lia]. unfold after_lock. cbn [calls_left].
    unfold todo_calls, pr_migrations. destruct (readMigrations _ _) as [ms|e]; [|cbn; lia].
    pose proof (calls_left_next pr ms). lia.
  - destruct E as (_ & _ & [Hs|(rows & _ & [(_ & ->)|(_ & ->)])]); [rewrite (Hst _ Hs)|..]; cbn [calls_left]; try lia.
    pose proof (calls_left_next pr todo). lia.
  - destruct E as (_ & _ & [Hs| ->]); [rewrite (Hst _ Hs)|]; cbn [calls_left]; lia.
  - destruct E as (_ & _ & [Hs|(x & _ & ->)]); [rewrite (Hst _ Hs)|]; cbn [calls_left]; lia.
  - destruct E as (_ & _ & [Hs|(x & _ & ->)]); [rewrite (Hst _ Hs)|]; cbn [calls_left]; lia.
  - destruct E as (_ & [(_ & ->)|(_ & Hs)]); [|rewrite (Hst _ Hs)]; cbn [calls_left]; try lia.
    pose proof (calls_left_next pr todo). lia.
  - destruct E as (_ & -> & _). cbn. lia.
Qed.

Definition all_left (ps : list program) (pcs : list (mpc D)) : nat := sum_list (zip_with calls_left ps pcs).

Lemma all_left_insert ps pcs p pr pc pc' :
  ps !! p = Some pr -> pcs !! p = Some pc ->
  (all_left ps (<[p := pc']> pcs) + calls_left pr pc = all_left ps pcs + calls_left pr pc')%nat.
Proof.
  unfold all_left. revert pcs p. induction ps as [|pr0 ps IH]; intros [|pc0 pcs] [|p] Hp Hpc; try done;
    cbn [insert list_insert zip_with sum_list_with id] in *.
  - simplify_eq/=. lia.
  - rewrite <- !Nat.add_assoc. f_equal. exact (IH pcs p Hp Hpc).
Qed.

Lemma all_left_run ps k st st' :
  nsteps (shared_step ps) k st st' -> (k + all_left ps (snd st') <= all_left ps (snd st))%nat.
Proof.
  intros Hn. induction Hn as [st|k st st1 st' [p Hs] _ IH]; [cbn; lia|].
  destruct (shared_turn_inv ps p st st1 Hs) as (pr & pc & pc' & w' & Hpr & Hpc & Hf & E & ->).
  pose proof (calls_left_step pr pc _ pc' w' Hf E). cbn [snd] in IH.
  pose proof (all_left_insert ps (snd st) p pr pc pc' Hpr Hpc). lia.
Qed.

(** The most calls they make together. *)
Definition most_calls (ps : list program) : nat := sum_list ((fun pr => todo_calls pr + 3)%nat <$> ps).

Lemma all_left_start ps : all_left ps (start ps) = most_calls ps.
Proof. unfold all_left, most_calls, start. induction ps as [|pr ps IH]; cbn in *; [done|]. by rewrite IH. Qed.

Section returning.
Context (ps : list program) (owner : nat -> nat) (w0 : server D).
Context (Hpools : forall p pr i, ps !! p = Some pr -> owner (pr_pool pr i) = p).
Context (Hone : forall p pr i, ps !! p = Some pr -> pr_pool pr i = pr_pool pr 0%nat).
Context (Hup : forall i, call_fault i = None).

(** The lock is free or held once, by the connection of a program inside. *)
Definition linv st : Prop :=
  sv_locks (fst st) = [] \/
  exists p pr pc, ps !! p = Some pr /\ snd st !! p = Some pc /\ inside pc = true /\
    sv_locks (fst st) = [pr_pool pr 0%nat].

Lemma inside_next todo : inside (check_next (D := D) todo) = true.
Proof. by destruct todo. Qed.

Lemma locks_up pr pc w pc' w' : finished pc = false -> pstep pr pc w = (Ok pc', w') ->
  (sv_locks w' = sv_locks w /\ inside pc' = inside pc) \/
  (exists i, Forall (eq (pr_pool pr i)) (sv_locks w) /\ sv_locks w' = pr_pool pr i :: sv_locks w /\
     inside pc = false /\ inside pc' = true) \/
  (exists i, sv_locks w' = remove_one (pr_pool pr i) (sv_locks w) /\ inside pc = true).
Proof.
  assert (forall pc, stopped (D := D) pc -> inside pc = true) as Hst by (by intros ? [? ->]).
  intros Hf E%(mstep_move (H := through pr)). destruct pc; cbn [move] in E; try done.
  - left. destruct E as (-> & [(_ & ->)|(_ & e & ->)]); done.
  - destruct E as (_ & [(Ha & Hl & ->)|(-> & e & ->)]); [|by left]. right. left. exists (sv_calls w). split_and!; try done.
    unfold after_lock. destruct (readMigrations _ _); [apply inside_next|done].
  - left. destruct E as (_ & -> & [Hs|(rows & _ & [(_ & ->)|(_ & ->)])]); auto using inside_next.
  - left. destruct E as (_ & -> & [Hs| ->]); auto.
  - left. destruct E as (_ & -> & [Hs|(x & _ & ->)]); auto.
  - left. destruct E as (_ & -> & [Hs|(x & _ & ->)]); auto.
  - left. destruct E as (-> & [(_ & ->)|(_ & Hs)]); auto using inside_next.
  - right. right. exists (sv_calls w). destruct E as (_ & _ & [->|(_ & Hx)]); [done|]. by destruct (Hx (Hup _)).
Qed.

Lemma linv_step st st' : linv st -> shared_step ps st st' -> linv st'.
Proof.
  intros Hl [p (pr & pc & pc' & w' & Hpr & Hpc & Hf & E & ->)%shared_turn_inv]. unfold linv. cbn [fst snd].
  pose proof (lookup_lt_Some _ _ _ Hpc) as Hlt.
  assert (forall q pr1 pc1, ps !! q = Some pr1 -> snd st !! q = Some pc1 -> inside pc1 = true ->
    sv_locks w' = [pr_pool pr1 0%nat] -> (q = p -> inside pc' = true) ->
    exists p0 pr0 pc0, ps !! p0 = Some pr0 /\ <[p := pc']> (snd st) !! p0 = Some pc0 /\ inside pc0 = true /\
      sv_locks w' = [pr_pool pr0 0%nat]) as Hkeep.
  { intros q pr1 pc1 Hq Hq1 I1 Hlq Hqp. destruct (decide (q = p)) as [->|Hne].
    - exists p, pr1, pc'. rewrite list_lookup_insert_eq by done. by split_and!; auto.
    - exists q, pr1, pc1. by rewrite list_lookup_insert_ne by done. }
  destruct (locks_up pr pc (fst st) pc' w' Hf E) as [(El & Ei)|[(i & Ha & El & Io & Ii)|(i & El & Ii)]].
  - rewrite El in *. destruct Hl as [Hl|(q & pr1 & pc1 & Hq & Hq1 & I1 & Hlq)]; [by left|]. right.
    apply (Hkeep q pr1 pc1); try done. intros ->. congruence.
  - right. destruct Hl as [Hl|(q & pr1 & pc1 & Hq & Hq1 & I1 & Hlq)].
    + exists p, pr, pc'. rewrite list_lookup_insert_eq by done. split_and!; try done. by rewrite El, Hl, (Hone p pr i Hpr).
    + exfalso. rewrite Hlq in Ha. apply Forall_cons in Ha as [Ha _].
      pose proof (Hpools p pr i Hpr) as Hop. pose proof (Hpools q pr1 0%nat Hq) as Hoq.
      assert (p = q) as -> by congruence. congruence.
  - destruct Hl as [Hl|(q & pr1 & pc1 & Hq & Hq1 & I1 & Hlq)]; [left; by rewrite El, Hl|].
    rewrite El, Hlq in *. cbn [remove_one]. destruct (Nat.eqb_spec (pr_pool pr1 0%nat) (pr_pool pr i)) as [Ec|Hc]; [by left|].
    right. cbn [remove_one] in Hkeep. rewrite (proj2 (Nat.eqb_neq _ _) Hc) in Hkeep. apply (Hkeep q pr1 pc1); try done.
    intros ->. exfalso. apply Hc. assert (pr1 = pr) as -> by congruence. symmetry. by apply (Hone p).
Qed.

(** Only the lock makes a program wait. *)
Lemma pstep_proceeds pr pc w : pc <> MLock \/ sv_locks w = [] -> exists pc' w', pstep pr pc w = (Ok pc', w').
Proof.
  assert (forall A (m : GoM (server D) A) k h, returned (fst (m w)) -> exists pc' w', next m k h w = (Ok pc', w')) as Hn.
  { intros A m k h. unfold next, catch, bind, ret. destruct (m w) as [[]]; try done; eauto. }
  assert (forall A (m : GoM (server D) A) k h, returns m -> exists pc' w', next m k h w = (Ok pc', w')) as Hr.
  { intros A m k h Hm. apply Hn, Hm. }
  intros Hc. unfold pstep. destruct pc; cbn [mstep].
  2: { destruct Hc as [|Hl]; [done|]. apply Hn, returned_wrapf.
       by destruct (acquire_spec (H := through pr) w) as (r & w' & -> & _ & [Hret|(_ & Hret & _)]). }
  7: { apply Hn. unfold ignore, release, catch, bind, get, set_locks, modify, ret.
       by destruct (call_spec (H := through pr) w) as ([] & w1 & -> & _ & _ & Hi). }
  7: by eexists _, _.
  all: apply Hr; auto 10 with go.
Qed.

Lemma turn_exists st p pr pc : ps !! p = Some pr -> snd st !! p = Some pc -> finished pc = false ->
  pc <> MLock \/ sv_locks (fst st) = [] -> exists st', shared_step ps st st'.
Proof.
  intros Hpr Hpc Hf Hc. destruct (pstep_proceeds pr pc (fst st) Hc) as (pc' & w' & E).
  eexists. exists p. unfold shared_turn. by rewrite Hpr, Hpc, Hf, E.
Qed.

(** A program that has not returned can go on, or another can. *)
Lemma no_deadlock st p pr pc : linv st -> ps !! p = Some pr -> snd st !! p = Some pc -> finished pc = false ->
  exists st', shared_step ps st st'.
Proof.
  intros [Hl|(q & pr1 & pc1 & Hq & Hq1 & I1 & _)] Hpr Hpc Hf.
  - eapply turn_exists; eauto.
  - apply (turn_exists st q pr1 pc1); try done; [by destruct pc1|]. left. by intros ->.
Qed.
End returning.

Lemma start_length ps st st' : rtc (shared_step ps) st st' -> length (snd st') = length (snd st).
Proof.
  induction 1 as [|st st1 st' [p (pr & pc & pc' & w' & _ & _ & _ & _ & ->)%shared_turn_inv] _ IH]; [done|].
  rewrite IH. cbn [snd]. apply length_insert.
Qed.

(** C21: when the calls do not fail and each program has one connection, all
    the programs that share the server return: together they make at most
    [most_calls] calls, whatever the interleaving, and as long as one of them
    has not returned a call can be made. *)
Theorem shared_migrations_return (ps : list program) (owner : nat -> nat) (w0 : server D)
    (Hpools : forall p pr i, ps !! p = Some pr -> owner (pr_pool pr i) = p)
    (Hone : forall p pr i, ps !! p = Some pr -> pr_pool pr i = pr_pool pr 0%nat)
    (Hup : forall i, call_fault i = None) (Hfree : sv_locks w0 = []) :
  (forall k st, nsteps (shared_step ps) k (w0, start ps) st -> (k <= most_calls ps)%nat) /\
  (forall st, rtc (shared_step ps) (w0, start ps) st -> (forall st', ~ shared_step ps st st') ->
     Forall (fun pc => finished pc = true) (snd st)).
Proof.
  split.
  - intros k st Hk%all_left_run. cbn [snd] in Hk. rewrite all_left_start in Hk. lia.
  - intros st Hr Hstuck. assert (linv ps st) as Hl.
    { assert (linv ps (w0, start ps)) as Hs by (by left). revert Hs Hr. generalize (w0, start ps). intros st0 Hs Hr.
      induction Hr; eauto using linv_step. }
    apply start_length in Hr. cbn [snd] in Hr. unfold start in Hr. rewrite length_fmap in Hr.
    apply Forall_lookup. intros p pc Hpc. destruct (finished pc) eqn:Hf; [done|]. exfalso.
    destruct (lookup_lt_is_Some_2 ps p) as [pr Hpr]; [rewrite <- Hr; by eapply lookup_lt_Some|].
    destruct (no_deadlock ps st p pr pc Hl Hpr Hpc Hf) as [st' Hst']. by apply (Hstuck st').
Qed.
End shared.

(** ** Schedules *)

(** The calls of a run, in order, by the program that makes each. *)
Fixpoint run_turns `{Postgres D} (ps : list program) (turns : list nat) (st : server D * list (mpc D))
    : option (server D * list (mpc D)) :=
  match turns with
  | [] => Some st
  | p :: turns => match shared_turn ps p st with Some st' => run_turns ps turns st' | None => None end
  end.

Lemma run_turns_rtc `{Postgres D} ps turns st st' : run_turns ps turns st = Some st' -> rtc (shared_step ps) st st'.
Proof.
  revert st. induction turns as [|p turns IH]; intros st; cbn [run_turns]; [by intros [= <-]; apply rtc_refl|].
  destruct (shared_turn ps p st) as [st1|] eqn:E; [|done]. intros Hr. eapply rtc_l; [by exists p|by apply IH].
Qed.

(** Two programs with the same migrations, each with one connection. *)
Definition demo_programs : list program :=
  [mkProgram demo_fs [] (fun _ => 0%nat); mkProgram demo_fs [] (fun _ => 1%nat)].

(** The first is in the middle of its first migration; the second has only
    made sure that the table exists, and waits. *)
Definition demo_turns : list nat := [1; 0; 0; 0; 0; 0]%nat.
Definition demo_mid : server (list bytes) * list (mpc (list bytes)) :=
  Eval vm_compute in default (demo_server, []) (run_turns (H := demo_pg) demo_programs demo_turns (demo_server, start demo_programs)).

Example demo_mid_waits :
  run_turns (H := demo_pg) demo_programs demo_turns (demo_server, start demo_programs) = Some demo_mid /\
  shared_turn (Base := demo_pg) demo_programs 1 demo_mid = None /\ inside <$> snd demo_mid = [true; false].
Proof. vm_compute. done. Qed.

(** Then each migration is applied once, by the first, and both succeed. *)
Example demo_both_finish :
  (fun st => (db_data (sv_db (fst st)), snd st, sv_locks (fst st))) <$>
    run_turns (H := demo_pg) demo_programs ([0; 0; 0; 0; 0; 0; 0; 0] ++ [1; 1; 1; 1])%nat demo_mid =
  Some ([str "CREATE a"; str "CREATE b"], [MDone (Ok tt); MDone (Ok tt)], []).
Proof. vm_compute. done. Qed.

Lemma demo_pools p pr i : demo_programs !! p = Some pr -> id (pr_pool pr i) = p.
Proof. destruct p as [|[|p]]; by intros [= <-]. Qed.

Lemma shared_migrations_safe_witness :
  (forall p q pc pc', snd demo_mid !! p = Some pc -> snd demo_mid !! q = Some pc' ->
     inside pc = true -> inside pc' = true -> p = q) /\
  (sv_db (fst demo_mid) = mkDb None [] \/
   exists don rows, applied (H := demo_pg) don (with_table (mkDb None [])) (sv_db (fst demo_mid)) /\
     NoDup (mg_version <$> don) /\ Forall (from_program demo_programs) don /\ db_rows (sv_db (fst demo_mid)) = Some rows /\
     forall ms, common demo_programs ms -> don ++ pending rows ms = pending ∅ ms) /\
  (forall p pr, demo_programs !! p = Some pr -> snd demo_mid !! p = Some (MDone (Ok tt)) ->
     exists ms rows, pr_migrations pr = inl ms /\ db_rows (sv_db (fst demo_mid)) = Some rows /\ recorded rows ms).
Proof.
  apply (shared_migrations_safe (Base := demo_pg) demo_programs id demo_server demo_mid demo_pools eq_refl
    (run_turns_rtc (H := demo_pg) demo_programs demo_turns _ _ (proj1 demo_mid_waits))).
Defined.

Lemma shared_migrations_return_witness :
  most_calls demo_programs = 26%nat /\
  (forall k st, nsteps (shared_step (Base := demo_pg) demo_programs) k (demo_server, start demo_programs) st -> (k <= 26)%nat) /\
  (forall st, rtc (shared_step (Base := demo_pg) demo_programs) (demo_server, start demo_programs) st ->
     (forall st', ~ shared_step (Base := demo_pg) demo_programs st st') -> Forall (fun pc => finished pc = true) (snd st)).
Proof.
  split; [vm_compute; reflexivity|].
  apply (shared_migrations_return (Base := demo_pg) demo_programs id demo_server demo_pools); try done.
  intros [|[|p]] pr i; by intros [= <-].
Defined.

Lemma alone_is_Migrate_witness :
  rtc (shared_step (Base := demo_pg) [mkProgram demo_fs [] (fun i => i mod 2)%nat])
    (demo_server, [MTable]) (demo_after, [MDone (Ok tt)]).
Proof.
  apply (alone_is_Migrate (Base := demo_pg) (mkProgram demo_fs [] (fun i => i mod 2)%nat) demo_server demo_after (Ok tt)).
  exact demo_run.
Defined.

(** *** Two calls on one pool *)

(** Two runs of [Migrate] on one pool whose calls the same connection serves:
    a session can take the advisory lock again, so both get it, both find
    the first migration missing and both begin it. *)
Definition same_pool : list program :=
  [mkProgram demo_fs [] (fun _ => 0%nat); mkProgram demo_fs [] (fun _ => 0%nat)].

Example same_pool_both_inside :
  exists w m todo, run_turns (H := demo_pg) same_pool [0; 1; 0; 1; 0; 1]%nat (demo_server, start same_pool) =
    Some (w, [MBegin m todo; MBegin m todo]) /\ sv_locks w = [0; 0]%nat.
Proof. eexists _, _, _. split; [vm_compute; reflexivity|reflexivity]. Qed.
