(* ===== verification/PgOpen.v ===== *)
(** * PgOpen: connecting to PostgreSQL

    Models [Open] and [EnsureDatabase] of [database/postgres/postgres.go] with
    the text they send: the connection string, a URL of [net/url], and the
    quoted name in [CREATE DATABASE].  The server is a set of named databases,
    each of them a server of [Migrations]; which calls fail, and what other
    clients do meanwhile, are parameters, as is [pgx]'s reader of connection
    strings. *)

From S2P Require Import Prelude Bytes GoStrings NetAddr Migrations.

Local Open Scope Z_scope.

(** ** Configuration *)

Record Config := mkConfig {
  pc_Host : bytes;
  pc_Port : Z;
  pc_User : bytes;
  pc_Password : bytes;
  pc_Database : bytes;
  pc_AdminDatabase : bytes;
  pc_SSLMode : bytes;
  pc_AutoCreateDatabase : bool;
  pc_AutoMigrate : bool;
  pc_MaxConns : Z;
  pc_MinConns : Z;
}.

Definition or_else (s fallback : bytes) : bytes := if bool_decide (s = []) then fallback else s.

Definition normalizeConfig (cfg : Config) : Config :=
  mkConfig (or_else (pc_Host cfg) (str "127.0.0.1")) (if pc_Port cfg =? 0 then 5432 else pc_Port cfg)
    (pc_User cfg) (pc_Password cfg) (pc_Database cfg)
    (or_else (pc_AdminDatabase cfg) (str "postgres")) (or_else (pc_SSLMode cfg) (str "disable"))
    (pc_AutoCreateDatabase cfg) (pc_AutoMigrate cfg) (pc_MaxConns cfg) (pc_MinConns cfg).

(** ** URLs *)

(** The parts of a URL that [net/url] escapes differently. *)
Inductive url_mode := encodePath | encodeHost | encodeZone | encodeUserPassword | encodeQueryComponent.

#[global] Instance url_mode_eq_dec : EqDecision url_mode.
Proof. solve_decision. Defined.

Definition byte_in (b : byte) (s : string) : bool := bool_decide (b ∈ str s).

Definition shouldEscape (c : byte) (mode : url_mode) : bool :=
  let x := b2z c in
  if is_lower x || is_upper x || is_digit x then false
  else if match mode with
          | encodeHost | encodeZone => byte_in c "!$&'()*+,;=:[]<>" || bool_decide (c = Byte.x22)
          | _ => false
          end then false
  else if byte_in c "-_.~" then false
  else if byte_in c "$&+,/:;=?@" then
    match mode with
    | encodePath => byte_in c "?"
    | encodeUserPassword => byte_in c "@/?:"
    | encodeQueryComponent | encodeHost | encodeZone => true
    end
  else true.

Definition upperhex (x : Z) : byte := nth (Z.to_nat x) (str "0123456789ABCDEF") Byte.x00.

Definition escape_byte (mode : url_mode) (c : byte) : bytes :=
  match mode, c with
  | encodeQueryComponent, Byte.x20 => [Byte.x2b]
  | _, _ =>
      if shouldEscape c mode
      then [Byte.x25; upperhex (Z.shiftr (b2z c) 4); upperhex (Z.land (b2z c) 15)]
      else [c]
  end.
Definition escape (s : bytes) (mode : url_mode) : bytes := concat (escape_byte mode <$> s).

Definition userinfo_String (username : bytes) (password : option bytes) : bytes :=
  escape username encodeUserPassword ++
  match password with Some p => colon :: escape p encodeUserPassword | None => [] end.

(** [u.String()] for a URL with a scheme, a host, a path from the root and a
    query. *)
Definition url_String (scheme : bytes) (user : option (bytes * option bytes)) (host path query : bytes) : bytes :=
  scheme ++ str "://" ++
  match user with Some (name, pw) => userinfo_String name pw ++ str "@" | None => [] end ++
  escape host encodeHost ++ escape path encodePath ++ str "?" ++ query.

Definition user_of (cfg : Config) : option (bytes * option bytes) :=
  if bool_decide (pc_User cfg = []) then None
  else Some (pc_User cfg, if bool_decide (pc_Password cfg = []) then None else Some (pc_Password cfg)).

Definition connString (cfg : Config) (database : bytes) : bytes :=
  url_String (str "postgres") (user_of cfg)
    (JoinHostPort (pc_Host cfg) (Itoa (pc_Port cfg)))
    (str "/" ++ database)
    (escape (str "sslmode") encodeQueryComponent ++ str "=" ++ escape (pc_SSLMode cfg) encodeQueryComponent).

Definition dquote : byte := Byte.x22.
Definition quoteIdent (name : bytes) : bytes := dquote :: ReplaceByte name dquote [dquote; dquote] ++ [dquote].

(** *** Reading them back *)

Definition unhex (c : byte) : option Z :=
  match digit_val c with Some x => if x <? 16 then Some x else None | None => None end.

(** What [unescape] lets through: in a host only bytes above ASCII and the per
    cent sign may be written with an escape, and no byte that needs one may
    stand for itself. *)
Definition escaped_ok (mode : url_mode) (v : Z) : bool :=
  match mode with
  | encodeHost => (128 <=? v) || (v =? 37)
  | encodeZone => (v =? 37) || (v =? 32) || negb (shouldEscape (z2b v) encodeHost)
  | _ => true
  end.
Definition literal_ok (mode : url_mode) (b : byte) : bool :=
  match mode with
  | encodeHost | encodeZone => (128 <=? b2z b) || negb (shouldEscape b mode)
  | _ => true
  end.

Definition is_query (mode : url_mode) : bool := match mode with encodeQueryComponent => true | _ => false end.

Fixpoint unescape (mode : url_mode) (s : bytes) : option bytes :=
  match s with
  | [] => Some []
  | Byte.x25 :: h :: l :: r =>
      match unhex h, unhex l with
      | Some x, Some y =>
          if escaped_ok mode (16 * x + y) then cons (z2b (16 * x + y)) <$> unescape mode r else None
      | _, _ => None
      end
  | Byte.x25 :: _ => None
  | b :: r =>
      if literal_ok mode b
      then cons (if is_query mode && bool_decide (b = Byte.x2b) then Byte.x20 else b) <$> unescape mode r
      else None
  end.

(** [url.URL], as far as a connection string has it. *)
Record url_parts := mkUrl {
  up_Scheme : bytes;
  up_User : option (bytes * option bytes);
  up_Host : bytes;
  up_Path : bytes;
  up_Query : list (bytes * bytes);
}.

(** A host in brackets may have a zone, which begins with an escaped per cent
    sign. *)
Definition parseHost (host : bytes) : option bytes :=
  if HasPrefix host (str "[") then
    i ← LastIndexByte host rbracket;
    if validOptionalPort (drop (S i) host) then
      match Index (take i host) (str "%25") with
      | Some zone =>
          host1 ← unescape encodeHost (take zone host);
          host2 ← unescape encodeZone (drop zone (take i host));
          host3 ← unescape encodeHost (drop i host);
          Some (host1 ++ host2 ++ host3)
      | None => unescape encodeHost host
      end
    else None
  else
    match LastIndexByte host colon with
    | Some i => if validOptionalPort (drop i host) then unescape encodeHost host else None
    | None => unescape encodeHost host
    end.

Definition validUserinfo (s : bytes) : bool :=
  forallb (fun b => let x := b2z b in
    is_lower x || is_upper x || is_digit x || byte_in b "-._:~!$&'()*+,;=%@") s.

Definition parseAuthority (s : bytes) : option (option (bytes * option bytes) * bytes) :=
  match LastIndexByte s Byte.x40 with
  | None => host ← parseHost s; Some (None, host)
  | Some i =>
      host ← parseHost (drop (S i) s);
      let userinfo := take i s in
      if validUserinfo userinfo then
        match Cut userinfo [colon] with
        | None => name ← unescape encodeUserPassword userinfo; Some (Some (name, None), host)
        | Some (name, pw) =>
            name ← unescape encodeUserPassword name;
            pw ← unescape encodeUserPassword pw;
            Some (Some (name, Some pw), host)
        end
      else None
  end.

(** [u.Query()]: pairs that are not well formed are left out. *)
Definition parse_pair (pair : bytes) : list (bytes * bytes) :=
  if bool_decide (pair = []) || bool_decide (Byte.x3b ∈ pair) then []
  else
    let '(key, value) := match Cut pair (str "=") with Some kv => kv | None => (pair, []) end in
    match unescape encodeQueryComponent key, unescape encodeQueryComponent value with
    | Some key, Some value => [(key, value)]
    | _, _ => []
    end.
Definition ParseQuery (query : bytes) : list (bytes * bytes) := mjoin (parse_pair <$> Split query (str "&")).

Definition ctl_byte (b : byte) : bool := (b2z b <? 32) || (b2z b =? 127).
Definition is_alpha (b : byte) : bool := is_lower (b2z b) || is_upper (b2z b).
Definition valid_scheme (s : bytes) : bool :=
  match s with
  | [] => false
  | b :: _ => is_alpha b && forallb (fun b => is_alpha b || is_digit (b2z b) || byte_in b "+-.") s
  end.

(** [url.Parse] for a URL with a scheme and an authority; [None] is an error or
    another form of URL. *)
Definition parse_url (s : bytes) : option url_parts :=
  let '(s, fragment) := match Cut s (str "#") with Some cut => cut | None => (s, []) end in
  if existsb ctl_byte s then None else
  '(scheme, s) ← Cut s [colon];
  if valid_scheme scheme then
    let '(s, query) := match Cut s (str "?") with Some cut => cut | None => (s, []) end in
    if HasPrefix s (str "//") then
      let s := drop 2 s in
      let i := default (length s) (Index s (str "/")) in
      '(user, host) ← parseAuthority (take i s);
      path ← unescape encodePath (drop i s);
      _ ← unescape encodePath fragment;
      Some (mkUrl ((fun b => z2b (ascii_lower (b2z b))) <$> scheme) user host path (ParseQuery query))
    else None
  else None.

(** What a client of the server takes from such a URL: one host and its port,
    the path without its leading slashes, the SSL mode. *)
Record conn_info := mkConn {
  ci_user : option bytes;
  ci_password : option bytes;
  ci_host : bytes;
  ci_port : Z;
  ci_database : bytes;
  ci_sslmode : bytes;
}.

Definition conn_of_url (u : url_parts) : option conn_info :=
  '(host, port) ← SplitHostPort (up_Host u);
  port ← Atoi port;
  match up_Query u with
  | [(key, mode)] =>
      if bool_decide (up_Scheme u = str "postgres") && bool_decide (key = str "sslmode") && negb (bool_decide (Byte.x2c ∈ host))
      then Some (mkConn (fst <$> up_User u) (up_User u ≫= snd) host port
             (drop_while (fun b => bool_decide (b = Byte.x2f)) (up_Path u)) mode)
      else None
  | _ => None
  end.

(** A quoted identifier of SQL and what follows it: a doubled quote stands for
    one. *)
Fixpoint read_quoted (s : bytes) : option (bytes * bytes) :=
  match s with
  | [] => None
  | b :: r =>
      if bool_decide (b = dquote) then
        match r with
        | b' :: r' =>
            if bool_decide (b' = dquote) then '(name, rest) ← read_quoted r'; Some (dquote :: name, rest)
            else Some ([], r)
        | [] => Some ([], [])
        end
      else '(name, rest) ← read_quoted r; Some (b :: name, rest)
  end.
Definition read_ident (s : bytes) : option (bytes * bytes) :=
  match s with
  | b :: r => if bool_decide (b = dquote) then read_quoted r else None
  | [] => None
  end.

Example connString_example :
  connString (mkConfig (str "::1") 5432 (str "me@home") (str "p:/?#[ ]%") [] [] (str "verify full") false false 0 0) (str "a b?c/d#e")
    = str "postgres://me%40home:p%3A%2F%3F%23%5B%20%5D%25@[::1]:5432/a%20b%3Fc/d%23e?sslmode=verify+full".
Proof. vm_compute. reflexivity. Qed.

(** A socket directory cannot be the host of a URL. *)
Example connString_socket_directory :
  parse_url (connString (mkConfig (str "/var/run/postgresql") 5432 [] [] [] [] (str "disable") false false 0 0) (str "db")) = None.
Proof. vm_compute. reflexivity. Qed.

(** ** The server and its databases *)

(** A pool: what it connects to, its limits, whether it is open. *)
Record pool := mkPool { pl_conn : conn_info; pl_max : option Z; pl_min : option Z; pl_open : bool }.

(** The databases by name, the calls made so far, the connections to the admin
    database that are open, the pool once it exists. *)
Record cluster (D : Type) := mkCluster {
  cl_dbs : gmap bytes (server D);
  cl_calls : nat;
  cl_conns : nat;
  cl_pool : option pool;
}.
Arguments mkCluster {D}.
Arguments cl_dbs {D}.
Arguments cl_calls {D}.
Arguments cl_conns {D}.
Arguments cl_pool {D}.

(** What is not ours: [pgx]'s reader of connection strings, what other clients
    have done to the databases by the time of a call, the failures of calls,
    whether a [CREATE DATABASE] whose call failed took effect, and the contents
    of a new database. *)
Class PgCluster (D : Type) := {
  pgx_ParseConfig : bytes -> conn_info + error;
  pg_others : nat -> gmap bytes (server D) -> gmap bytes (server D);
  pg_fault : nat -> option error;
  pg_lost : nat -> bool;
  pg_template : D;
}.

(** [CREATE DATABASE] and a quoted name. *)
Definition read_create (q : bytes) : option bytes :=
  let p := str "CREATE DATABASE " in
  if HasPrefix q p then
    '(name, rest) ← read_ident (drop (length p) q);
    if bool_decide (rest = []) then Some name else None
  else None.

Section cluster.
Context `{Postgres D} `{!PgCluster D}.
Implicit Types s : cluster D.

Definition wrapped {A} (format : string) (args : list fmtarg) (m : GoM (cluster D) A) : GoM (cluster D) A :=
  catch m (fun err => fail (Wrapf format args err)).

Definition pg_call : GoM (cluster D) unit := fun s =>
  let s' := mkCluster (pg_others (cl_calls s) (cl_dbs s)) (S (cl_calls s)) (cl_conns s) (cl_pool s) in
  match pg_fault (cl_calls s) with
  | None => (Ok tt, s')
  | Some e => (Err e, s')
  end.

Definition set_conns (n : nat) : GoM (cluster D) unit :=
  modify (fun s => mkCluster (cl_dbs s) (cl_calls s) n (cl_pool s)).
Definition set_pool (p : option pool) : GoM (cluster D) unit :=
  modify (fun s => mkCluster (cl_dbs s) (cl_calls s) (cl_conns s) p).
Definition set_dbs (dbs : gmap bytes (server D)) : GoM (cluster D) unit :=
  modify (fun s => mkCluster dbs (cl_calls s) (cl_conns s) (cl_pool s)).

(** A connection to the database that a connection string names. *)
Definition connects (database : bytes) : GoM (cluster D) unit :=
  pg_call ;;
  do s <- get;
  if bool_decide (is_Some (cl_dbs s !! database)) then ret tt
  else fail (Errorf "database %q does not exist" [AQuote database]).

Definition pgx_Connect (conn : bytes) : GoM (cluster D) unit :=
  match pgx_ParseConfig conn with
  | inr err => fail err
  | inl ci => connects (ci_database ci) ;; do s <- get; set_conns (S (cl_conns s))
  end.
Definition conn_Close : GoM (cluster D) unit := do s <- get; set_conns (pred (cl_conns s)).

(** [SELECT EXISTS ...  WHERE datname = $1] *)
Definition query_exists (database : bytes) : GoM (cluster D) bool :=
  pg_call ;;
  do s <- get;
  ret (bool_decide (is_Some (cl_dbs s !! database))).

Definition create_database (q : bytes) : GoM (cluster D) unit :=
  do s <- get;
  match read_create q with
  | None => fail (Errorf "syntax error" [])
  | Some name =>
      if bool_decide (is_Some (cl_dbs s !! name)) then fail (Errorf "database %q already exists" [AQuote name])
      else set_dbs (<[name := mkServer (mkDb None pg_template) 0 []]> (cl_dbs s))
  end.

Definition conn_Exec (q : bytes) : GoM (cluster D) unit := fun s =>
  match pg_call s with
  | (Ok _, s') => create_database q s'
  | (r, s') => (r, if pg_lost (cl_calls s) then snd (create_database q s') else s')
  end.

Definition EnsureDatabase (cfg : Config) : GoM (cluster D) unit :=
  let cfg := normalizeConfig cfg in
  let name := pc_Database cfg in
  if bool_decide (name = []) then fail (Errorf "postgres: database is required" [])
  else
    wrapped "postgres: connect to admin database %q: %w" [AQuote (pc_AdminDatabase cfg)]
      (pgx_Connect (connString cfg (pc_AdminDatabase cfg))) ;;
    deferred conn_Close
      (do found <- wrapped "postgres: check database %q: %w" [AQuote name] (query_exists name);
       if (found : bool) then ret tt
       else wrapped "postgres: create database %q: %w" [AQuote name]
              (conn_Exec (str "CREATE DATABASE " ++ quoteIdent name))).

(** [pgxpool.NewWithConfig] does not wait for a connection. *)
Definition NewWithConfig (ci : conn_info) (maxConns minConns : option Z) : GoM (cluster D) unit :=
  pg_call ;; set_pool (Some (mkPool ci maxConns minConns true)).
Definition pool_Ping (ci : conn_info) : GoM (cluster D) unit := connects (ci_database ci).
Definition pool_Close : GoM (cluster D) unit :=
  do s <- get;
  set_pool ((fun p => mkPool (pl_conn p) (pl_max p) (pl_min p) false) <$> cl_pool s).

(** [Migrate] on the database of the pool.  Other clients act before it and
    after it; programs that migrate at the same time are in [MigrateShared]. *)
Definition on_pool (ci : conn_info) (m : GoM (server D) unit) : GoM (cluster D) unit := fun s =>
  match cl_dbs s !! ci_database ci with
  | None => (Err (Errorf "database %q does not exist" [AQuote (ci_database ci)]), s)
  | Some sv => let '(r, sv') := m sv in (r, snd (set_dbs (<[ci_database ci := sv']> (cl_dbs s)) s))
  end.

Definition or_close {A} (m : GoM (cluster D) A) : GoM (cluster D) A :=
  catch m (fun err => pool_Close ;; fail err).

Definition positive (z : Z) : option Z := if 0 <? z then Some z else None.

Definition Open (cfg : Config) (migrations : option FS) (migrationsDir : bytes) : GoM (cluster D) conn_info :=
  let cfg := normalizeConfig cfg in
  let dir := if bool_decide (migrationsDir = []) then str "migrations" else migrationsDir in
  let name := pc_Database cfg in
  if bool_decide (name = []) then fail (Errorf "postgres: database is required" [])
  else
    (if pc_AutoCreateDatabase cfg then EnsureDatabase cfg else ret tt) ;;
    match pgx_ParseConfig (connString cfg name) with
    | inr err => fail (Wrapf "postgres: parse pool config: %w" [] err)
    | inl ci =>
        wrapped "postgres: connect to database %q: %w" [AQuote name]
          (NewWithConfig ci (positive (pc_MaxConns cfg)) (positive (pc_MinConns cfg))) ;;
        or_close (wrapped "postgres: ping database %q: %w" [AQuote name] (pool_Ping ci)) ;;
        (if pc_AutoMigrate cfg then or_close (on_pool ci (Migrate migrations dir)) else ret tt) ;;
        ret ci
    end.
End cluster.

(** ** Reading is the inverse of writing *)

Lemma unescape_byte mode c r :
  mode <> encodeHost -> mode <> encodeZone ->
  unescape mode (escape_byte mode c ++ r) = cons c <$> unescape mode r.
Proof. intros ??. destruct mode; try done; destruct c; reflexivity. Qed.

Lemma unescape_escape mode s :
  mode <> encodeHost -> mode <> encodeZone -> unescape mode (escape s mode) = Some s.
Proof.
  intros H1 H2. unfold escape. induction s as [|c s IH]; [done|]. rewrite fmap_cons. cbn [concat].
  by rewrite unescape_byte, IH.
Qed.

(** What a host is read as when nothing is refused. *)
Lemma unescape_host s : unescape encodePath (escape s encodeHost) = Some s.
Proof.
  unfold escape. induction s as [|c s IH]; [done|]. rewrite fmap_cons. cbn [concat].
  assert (forall r, unescape encodePath (escape_byte encodeHost c ++ r) = cons c <$> unescape encodePath r) as ->
    by (intros r; destruct c; reflexivity).
  by rewrite IH.
Qed.

(** One step of [unescape]: an escape, or a byte that stands for itself. *)
Lemma unescape_cases mode s t :
  unescape mode s = Some t ->
  s = [] /\ t = [] \/
  (exists h l x y r t', s = Byte.x25 :: h :: l :: r /\ unhex h = Some x /\ unhex l = Some y /\
     unescape mode r = Some t' /\ t = z2b (16 * x + y) :: t') \/
  (exists b r t', s = b :: r /\ b <> Byte.x25 /\ unescape mode r = Some t' /\
     t = (if is_query mode && bool_decide (b = Byte.x2b) then Byte.x20 else b) :: t').
Proof.
  intros E. destruct s as [|b s]; [left; by injection E as <-|]. right. destruct (decide (b = Byte.x25)) as [->|Hb].
  - left. destruct s as [|h [|l r]]; [done..|]. cbn in E.
    destruct (unhex h) as [x|] eqn:Eh; [|done]. destruct (unhex l) as [y|] eqn:El; [|done].
    destruct (escaped_ok mode _); [|done]. destruct (unescape mode r) as [t'|] eqn:Er; [|done].
    injection E as <-. by exists h, l, x, y, r, t'.
  - right. assert (unescape mode (b :: s) = if literal_ok mode b
      then cons (if is_query mode && bool_decide (b = Byte.x2b) then Byte.x20 else b) <$> unescape mode s else None) as Eb
      by (destruct b; done).
    rewrite Eb in E. destruct (literal_ok mode b); [|done]. destruct (unescape mode s) as [t'|] eqn:Er; [|done].
    injection E as <-. by exists b, s, t'.
Qed.

(** Texts that are read apart are read together, and a host that is accepted
    is read like a path. *)
Lemma unescape_app mode a b x y :
  is_query mode = false -> unescape mode a = Some x -> unescape encodePath b = Some y ->
  unescape encodePath (a ++ b) = Some (x ++ y).
Proof.
  intros Hq. remember (length a) as n eqn:Hn. revert a x Hn. induction (lt_wf n) as [n _ IH]. intros a x -> Ha Hb.
  apply unescape_cases in Ha as [[-> ->]|[(h & l & u & v & r & t & -> & Eh & El & Er & ->)|(c & r & t & -> & Hc & Er & ->)]].
  - done.
  - cbn [app unescape]. rewrite Eh, El. cbn [escaped_ok]. by erewrite (IH (length r)) by (done || cbn; lia).
  - rewrite Hq. cbn [andb app].
    assert (forall s, unescape encodePath (c :: s) = cons c <$> unescape encodePath s) as -> by (intros s; by destruct c).
    by erewrite (IH (length r)) by (done || cbn; lia).
Qed.

Lemma unescape_lenient mode s t :
  is_query mode = false -> unescape mode s = Some t -> unescape encodePath s = Some t.
Proof. intros Hq E. rewrite <- (app_nil_r s), <- (app_nil_r t). by eapply unescape_app. Qed.

(** The bytes that end a part of a URL do not appear in an escaped one. *)
Definition delimiters (mode : url_mode) : bytes :=
  match mode with
  | encodePath => str "#?"
  | encodeHost | encodeZone => str "#?/@"
  | encodeUserPassword => str "#?/@:"
  | encodeQueryComponent => str "#&;"
  end.

(** Nor do control characters. *)
Definition plain_in (mode : url_mode) (b : byte) : bool :=
  negb (bool_decide (b ∈ delimiters mode)) && negb (ctl_byte b).

Lemma escape_byte_plain mode c : forallb (plain_in mode) (escape_byte mode c) = true.
Proof. destruct mode, c; vm_compute; reflexivity. Qed.

Lemma escape_forallb mode s (p : byte -> bool) :
  (forall c, forallb p (escape_byte mode c) = true) -> forallb p (escape s mode) = true.
Proof.
  intros Hp. unfold escape. induction s as [|c s IH]; [done|]. rewrite fmap_cons. cbn [concat].
  by rewrite forallb_app, Hp, IH.
Qed.

Lemma escape_plain_in mode s b : b ∈ escape s mode -> plain_in mode b = true.
Proof.
  intros Hin. pose proof (escape_forallb mode s (plain_in mode) (escape_byte_plain mode)) as Hf.
  rewrite forallb_forall in Hf. by apply Hf, list_elem_of_In.
Qed.

Lemma escape_free mode s b : b ∈ delimiters mode -> b ∉ escape s mode.
Proof. intros Hb Hin. apply escape_plain_in in Hin. unfold plain_in in Hin. bools. done. Qed.

(** No control characters. *)
Definition printable (s : bytes) : Prop := existsb ctl_byte s = false.

Lemma printable_app s t : printable s -> printable t -> printable (s ++ t).
Proof. unfold printable. intros Hs Ht. by rewrite existsb_app, Hs, Ht. Qed.

Lemma escape_printable mode s : printable (escape s mode).
Proof.
  apply not_true_is_false. rewrite existsb_exists. intros (b & Hb & Hc). apply list_elem_of_In, escape_plain_in in Hb.
  unfold plain_in in Hb. rewrite Hc in Hb. by rewrite andb_false_r in Hb.
Qed.

(** *** Hosts *)

(** A host without brackets that a URL can carry as it is. *)
Definition host_plain (b : byte) : bool := negb (shouldEscape b encodeHost) && negb (byte_in b "[]").

Lemma unescape_plain s : forallb (fun b => negb (shouldEscape b encodeHost)) s = true ->
  escape s encodeHost = s /\ unescape encodeHost s = Some s.
Proof.
  intros Hs. unfold escape. induction s as [|c s IH]; [done|]. cbn [forallb] in Hs. apply andb_prop in Hs as [Hc Hs].
  destruct (IH Hs) as [IH1 IH2]. rewrite fmap_cons. cbn [concat]. rewrite IH1.
  destruct c; try (by vm_compute in Hc); (split; [done|]); cbn [unescape]; by rewrite IH2.
Qed.

Lemma host_plain_spec s : forallb host_plain s = true ->
  forallb (fun b => negb (shouldEscape b encodeHost)) s = true /\ (lbracket ∉ s) /\ (rbracket ∉ s).
Proof.
  intros Hs. rewrite forallb_forall in Hs. split.
  - apply forallb_forall. intros b Hb. apply Hs in Hb. unfold host_plain in Hb. by apply andb_prop in Hb as [].
  - split_and!; intros Hin; apply list_elem_of_In, Hs in Hin; vm_compute in Hin; done.
Qed.

(** A host that [parseHost] accepts is the one that was written. *)
Lemma parseHost_escape hp h : parseHost (escape hp encodeHost) = Some h -> h = hp.
Proof.
  pose proof (unescape_host hp) as Hl. generalize (escape hp encodeHost), Hl. clear Hl. intros s Hl.
  assert (forall t, unescape encodeHost s = Some t -> t = hp) as Hwhole.
  { intros t Et. apply unescape_lenient in Et; [congruence|done]. }
  unfold parseHost. case_match; [|repeat case_match; by auto].
  destruct (LastIndexByte s rbracket) as [i|] eqn:Ei; [|done]. cbn [mbind option_bind]. case_match; [|done].
  destruct (Index (take i s) (str "%25")) as [zone|] eqn:Ez; [|by auto].
  destruct (unescape encodeHost (take zone s)) as [h1|] eqn:E1; [|done].
  destruct (unescape encodeZone (drop zone (take i s))) as [h2|] eqn:E2; [|done].
  destruct (unescape encodeHost (drop i s)) as [h3|] eqn:E3; [|done]. cbn. intros [= <-].
  apply unescape_lenient in E3; [|done].
  assert (take zone s ++ drop zone (take i s) ++ drop i s = s) as Es.
  { apply Index_Some in Ez as (_ & Hz & _). rewrite length_take in Hz.
    replace (take zone s) with (take zone (take i s)) by (rewrite take_take; f_equal; lia).
    by rewrite app_assoc, take_drop, take_drop. }
  pose proof (unescape_app encodeZone _ _ _ _ eq_refl E2 E3) as E23.
  pose proof (unescape_app encodeHost _ _ _ _ eq_refl E1 E23) as E. rewrite Es in E. congruence.
Qed.

Lemma escape_join host port :
  forallb host_plain host = true -> Forall (fun c => is_digit (b2z c) = true) port ->
  forallb (fun b => negb (shouldEscape b encodeHost)) (JoinHostPort host port) = true.
Proof.
  intros Hh Hp. apply host_plain_spec in Hh as (Hh & _).
  assert (forallb (fun b => negb (shouldEscape b encodeHost)) port = true) as Hp'.
  { apply forallb_forall. intros b Hb. rewrite Forall_forall in Hp. apply list_elem_of_In, Hp in Hb.
    unfold shouldEscape. by rewrite Hb, !orb_true_r. }
  unfold JoinHostPort. case_if; cbn [forallb]; rewrite ?forallb_app; cbn [forallb]; by rewrite Hh, Hp'.
Qed.

Lemma parseHost_join host port :
  forallb host_plain host = true -> Forall (fun c => is_digit (b2z c) = true) port ->
  parseHost (escape (JoinHostPort host port) encodeHost) = Some (JoinHostPort host port).
Proof.
  intros Hh Hp. destruct (unescape_plain _ (escape_join host port Hh Hp)) as [-> Hu].
  apply host_plain_spec in Hh as (Hh & Hl & Hr).
  assert (validOptionalPort (colon :: port) = true) as Hv.
  { cbn. apply forallb_forall. intros b Hb. rewrite Forall_forall in Hp. by apply Hp, list_elem_of_In. }
  revert Hu. unfold JoinHostPort, parseHost. case_bool_decide as Hc; intros Hu.
  - change (HasPrefix (lbracket :: ?l) (str "[")) with (HasPrefix ([lbracket] ++ l) [lbracket]). rewrite HasPrefix_app.
    rewrite app_comm_cons in *. rewrite LastIndexByte_app by (apply not_elem_of_cons; split; [done|by apply digits_no]).
    cbn [mbind option_bind].
    replace (drop (S (length (lbracket :: host))) _) with (colon :: port).
    2: { change (rbracket :: colon :: port) with ([rbracket] ++ colon :: port). rewrite app_assoc.
         rewrite drop_app_length'; [done|]. rewrite length_app. cbn. lia. }
    rewrite Hv, take_app_length. destruct (Index (lbracket :: host) (str "%25")) as [z|] eqn:Ez; [exfalso|done].
    apply Index_split in Ez. assert (Byte.x25 ∈ lbracket :: host) as Hin by (rewrite Ez; set_solver).
    apply elem_of_cons in Hin as [?|Hin]; [done|]. rewrite forallb_forall in Hh. apply list_elem_of_In, Hh in Hin. done.
  - replace (HasPrefix _ (str "[")) with false.
    2: { symmetry. apply not_true_iff_false. intros [r E]%HasPrefix_true. destruct host as [|h host]; [done|].
         injection E as -> _. apply Hl. left. }
    rewrite LastIndexByte_app by (by apply digits_no). by rewrite drop_app_length, Hv.
Qed.

(** *** Connection strings *)

Definition user_part (user : option (bytes * option bytes)) : bytes :=
  match user with Some (name, pw) => userinfo_String name pw ++ str "@" | None => [] end.

Lemma userinfo_String_free b name pw :
  b ∈ str "#?/@" -> b ∉ userinfo_String name pw.
Proof.
  intros Hb. assert (b ∈ delimiters encodeUserPassword) by (cbn in *; set_solver).
  assert (b <> colon) by (intros ->; vm_compute in Hb; set_solver).
  unfold userinfo_String. rewrite not_elem_of_app. split; [by apply escape_free|].
  destruct pw; [|set_solver]. apply not_elem_of_cons. split; [done|by apply escape_free].
Qed.

Lemma userinfo_String_valid name pw : validUserinfo (userinfo_String name pw) = true.
Proof.
  assert (forall s, validUserinfo (escape s encodeUserPassword) = true) as Hv.
  { intros s. apply escape_forallb. intros c. destruct c; vm_compute; reflexivity. }
  unfold userinfo_String. unfold validUserinfo in *. rewrite forallb_app, Hv. destruct pw; [|done]. cbn. apply Hv.
Qed.

(** The user comes back, and the host as [parseHost] reads it. *)
Lemma parseAuthority_spec user hp :
  parseAuthority (user_part user ++ escape hp encodeHost) =
    (host ← parseHost (escape hp encodeHost); Some (user, host)).
Proof.
  assert (Byte.x40 ∉ escape hp encodeHost) as Hat by (apply escape_free; vm_compute; set_solver).
  assert (forall s, colon ∉ escape s encodeUserPassword) as Hc by (intros s; apply escape_free; vm_compute; set_solver).
  assert (forall s, unescape encodeUserPassword (escape s encodeUserPassword) = Some s) as Hu by (intros s; by apply unescape_escape).
  unfold parseAuthority, user_part. destruct user as [[name pw]|].
  - change (str "@") with [Byte.x40]. rewrite <- app_assoc. cbn [app]. rewrite LastIndexByte_app by done.
    rewrite take_app_length, userinfo_String_valid.
    replace (drop (S (length (userinfo_String name pw))) _) with (escape hp encodeHost).
    2: { change (Byte.x40 :: ?l) with ([Byte.x40] ++ l). rewrite app_assoc, drop_app_length'; [done|len]. }
    destruct (parseHost (escape hp encodeHost)); [|done]. cbn [mbind option_bind]. unfold userinfo_String. destruct pw as [pw|].
    + rewrite Cut_byte by done. by rewrite !Hu.
    + rewrite app_nil_r. unfold Cut. rewrite (proj2 (Index_byte_None _ _)) by done. by rewrite Hu.
  - cbn [app]. unfold LastIndexByte. by rewrite (proj2 (Index_byte_None _ _)) by (by rewrite elem_of_reverse).
Qed.

(** The parts of a connection string. *)
Definition hostport (cfg : Config) : bytes := JoinHostPort (pc_Host cfg) (Itoa (pc_Port cfg)).
Definition authority (cfg : Config) : bytes := user_part (user_of cfg) ++ escape (hostport cfg) encodeHost.
Definition before_query (cfg : Config) (database : bytes) : bytes :=
  str "//" ++ authority cfg ++ Byte.x2f :: escape database encodePath.
Definition query_part (cfg : Config) : bytes :=
  str "sslmode" ++ Byte.x3d :: escape (pc_SSLMode cfg) encodeQueryComponent.

Lemma connString_split cfg database :
  connString cfg database = str "postgres" ++ colon :: before_query cfg database ++ Byte.x3f :: query_part cfg.
Proof.
  unfold connString, url_String, before_query, authority. fold (user_part (user_of cfg)) (hostport cfg).
  change (escape (str "/" ++ database) encodePath) with (str "/" ++ escape database encodePath).
  change (escape (str "sslmode") encodeQueryComponent) with (str "sslmode").
  change (str "?") with [Byte.x3f]. rewrite <- !app_assoc. done.
Qed.

Lemma authority_free cfg b : b ∈ str "#?/" -> b ∉ authority cfg.
Proof.
  intros Hb. unfold authority. apply not_elem_of_app. split; [|apply escape_free; cbn in *; set_solver].
  unfold user_part. destruct (user_of cfg) as [[name pw]|]; [|set_solver]. apply not_elem_of_app. split.
  - apply userinfo_String_free. cbn in *. set_solver.
  - intros Hx. vm_compute in Hb, Hx. set_solver.
Qed.

Lemma before_query_free cfg database b : b ∈ str "#?" -> b ∉ before_query cfg database.
Proof.
  intros Hb. unfold before_query. rewrite !not_elem_of_app, not_elem_of_cons. split_and!.
  - intros Hx. vm_compute in Hb, Hx. set_solver.
  - apply authority_free. cbn in *. set_solver.
  - intros ->. vm_compute in Hb. set_solver.
  - by apply escape_free.
Qed.

Lemma connString_printable cfg database : printable (connString cfg database).
Proof.
  rewrite connString_split. unfold before_query, authority, query_part, user_part, userinfo_String.
  assert (forall b s, ctl_byte b = false -> printable s -> printable (b :: s)) as Hcons
    by (intros b s Hb Hs; unfold printable in *; cbn [existsb]; by rewrite Hb, Hs).
  repeat first [apply escape_printable | apply printable_app | apply Hcons; [done|] | case_match | done].
Qed.

Lemma connString_no_fragment cfg database : Byte.x23 ∉ connString cfg database.
Proof.
  rewrite connString_split. rewrite not_elem_of_app, not_elem_of_cons, not_elem_of_app, not_elem_of_cons. split_and!; try done.
  - vm_compute. set_solver.
  - apply before_query_free. vm_compute. set_solver.
  - apply not_elem_of_app. split; [|apply not_elem_of_cons; split; [done|apply escape_free]]; vm_compute; set_solver.
Qed.

Lemma Split_none s b : (b ∉ s) -> Split s [b] = [s].
Proof.
  intros Hs. unfold Split. destruct (length s); [done|]. cbn. unfold Cut. by rewrite (proj2 (Index_byte_None _ _)).
Qed.

Lemma ParseQuery_sslmode cfg : ParseQuery (query_part cfg) = [(str "sslmode", pc_SSLMode cfg)].
Proof.
  assert (forall b, b ∈ str "&;" -> b ∉ query_part cfg) as Hfree.
  { intros b Hb. unfold query_part. rewrite not_elem_of_app, not_elem_of_cons. split_and!.
    - intros Hx. vm_compute in Hb, Hx. set_solver.
    - intros ->. vm_compute in Hb. set_solver.
    - apply escape_free. cbn in *. set_solver. }
  unfold ParseQuery. change (str "&") with [Byte.x26]. rewrite Split_none by (apply Hfree; vm_compute; set_solver).
  cbn [fmap list_fmap mjoin list_join]. unfold parse_pair.
  rewrite (bool_decide_eq_false_2 (_ ∈ _)) by (apply Hfree; vm_compute; set_solver).
  rewrite bool_decide_eq_false_2 by done. cbn [orb]. unfold query_part. change (str "=") with [Byte.x3d].
  rewrite Cut_byte by (vm_compute; set_solver). change (unescape encodeQueryComponent (str "sslmode")) with (Some (str "sslmode")).
  by rewrite unescape_escape.
Qed.

Lemma parse_connString_host cfg database :
  parse_url (connString cfg database) =
    (host ← parseHost (escape (hostport cfg) encodeHost);
     Some (mkUrl (str "postgres") (user_of cfg) host (str "/" ++ database) [(str "sslmode", pc_SSLMode cfg)])).
Proof.
  unfold parse_url. unfold Cut at 1. change (str "#") with [Byte.x23].
  rewrite (proj2 (Index_byte_None _ _)) by apply connString_no_fragment.
  rewrite connString_printable, connString_split. rewrite Cut_byte by (vm_compute; set_solver).
  cbn [mbind option_bind]. cbv beta iota. change (valid_scheme (str "postgres")) with true. cbv iota.
  change (str "?") with [Byte.x3f]. rewrite Cut_byte by (apply before_query_free; vm_compute; set_solver). cbv beta iota.
  unfold before_query at 1. rewrite HasPrefix_app. cbv zeta.
  change (drop 2 (before_query cfg database)) with (drop 0 (authority cfg ++ Byte.x2f :: escape database encodePath)). rewrite drop_0.
  change (str "/") with [Byte.x2f]. rewrite Index_byte by (apply authority_free; vm_compute; set_solver). cbn [default from_option id].
  rewrite take_app_length, drop_app_length. unfold authority. rewrite parseAuthority_spec.
  destruct (parseHost _) as [h|]; [|done]. cbn [mbind option_bind]. cbv beta iota.
  change (unescape encodePath (Byte.x2f :: ?l)) with (cons Byte.x2f <$> unescape encodePath l).
  rewrite unescape_escape by done. by rewrite ParseQuery_sslmode.
Qed.

(** C22: a connection string says what the configuration says.  Whatever
    [url.Parse] reads in it is exactly what was configured: the user and the
    password, the address of host and port, the database and the SSL mode,
    whatever bytes any of them consists of, so that no field can change another
    or add parameters; an empty user leaves out the password too.  And it can
    be read whenever the port is not negative and the host has no brackets and
    no byte that a URL has to escape; its address then splits into this host
    and port. *)
Theorem connString_roundtrip (cfg : Config) (database : bytes) :
  (forall u, parse_url (connString cfg database) = Some u ->
    u = mkUrl (str "postgres")
          (if bool_decide (pc_User cfg = []) then None
           else Some (pc_User cfg, if bool_decide (pc_Password cfg = []) then None else Some (pc_Password cfg)))
          (JoinHostPort (pc_Host cfg) (Itoa (pc_Port cfg))) (str "/" ++ database) [(str "sslmode", pc_SSLMode cfg)]) /\
  (forallb host_plain (pc_Host cfg) = true -> 0 <= pc_Port cfg ->
    exists u, parse_url (connString cfg database) = Some u /\
      SplitHostPort (up_Host u) = Some (pc_Host cfg, Itoa (pc_Port cfg))).
Proof.
  rewrite parse_connString_host. split.
  - intros u. destruct (parseHost _) as [h|] eqn:Eh; [|done]. intros [= <-]. by rewrite (parseHost_escape _ _ Eh).
  - intros Hh Hp. pose proof (Itoa_digits _ Hp) as Hd. unfold hostport. rewrite parseHost_join by done. eexists. split; [reflexivity|].
    apply host_plain_spec in Hh as (_ & Hl & Hr). by apply SplitHostPort_Join.
Qed.

(** *** One host and its database *)

Lemma conn_of_connString (cfg : Config) (database : bytes) :
  forallb host_plain (pc_Host cfg) = true -> (Byte.x2c ∉ pc_Host cfg) -> 0 <= pc_Port cfg < 2 ^ 63 ->
  HasPrefix database (str "/") = false ->
  exists u, parse_url (connString cfg database) = Some u /\
    conn_of_url u = Some (mkConn (fst <$> user_of cfg) (user_of cfg ≫= snd) (pc_Host cfg) (pc_Port cfg) database (pc_SSLMode cfg)).
Proof.
  intros Hh Hcomma Hp Hdb. pose proof (Itoa_digits _ (proj1 Hp)) as Hd. rewrite parse_connString_host. unfold hostport.
  rewrite parseHost_join by done. eexists. split; [reflexivity|]. unfold conn_of_url. cbn [up_Host up_Query up_Scheme up_User up_Path].
  apply host_plain_spec in Hh as (_ & Hl & Hr). rewrite SplitHostPort_Join by done.
  cbn [mbind option_bind]. rewrite Atoi_Itoa by (unfold in_int64; lia). cbn [mbind option_bind].
  rewrite (bool_decide_eq_false_2 (_ ∈ _)) by done. rewrite !bool_decide_eq_true_2 by done. cbn [andb negb]. do 2 f_equal.
  destruct database as [|b db]; [done|]. cbn. rewrite bool_decide_eq_true_2 by done. rewrite bool_decide_eq_false_2; [done|]. by intros ->.
Qed.

(** *** Quoted identifiers *)

Lemma read_quoted_quote name rest :
  HasPrefix rest [dquote] = false ->
  read_quoted (ReplaceByte name dquote [dquote; dquote] ++ dquote :: rest) = Some (name, rest).
Proof.
  intros Hrest. unfold ReplaceByte. induction name as [|b name IH].
  - cbn. rewrite bool_decide_eq_true_2 by done. destruct rest as [|b r]; [done|]. rewrite bool_decide_eq_false_2; [done|]. intros ->.
    change (dquote :: r) with ([dquote] ++ r) in Hrest. by rewrite HasPrefix_app in Hrest.
  - rewrite fmap_cons. cbn [concat]. rewrite <- app_assoc. case_bool_decide as Hb.
    + subst b. cbn [app read_quoted]. rewrite !bool_decide_eq_true_2 by done. by rewrite IH.
    + cbn [app read_quoted]. rewrite bool_decide_eq_false_2 by done. by rewrite IH.
Qed.

(** A quoted name is one name: whatever bytes a database is called, the
    quoted form is read as exactly that name, and what follows it as it is, so
    that no name ends the identifier early. *)
Theorem quoteIdent_roundtrip (name rest : bytes) (Hrest : HasPrefix rest [dquote] = false) :
  read_ident (quoteIdent name ++ rest) = Some (name, rest).
Proof.
  unfold read_ident, quoteIdent. cbn [app]. rewrite bool_decide_eq_true_2 by done.
  rewrite <- app_assoc. by apply read_quoted_quote.
Qed.

(** ** Creating a database *)

Section ensure.
Context `{Postgres D} `{!PgCluster D}.
Implicit Types s : cluster D.

(** The state after a call of ours in which others did what they do. *)
Definition called s : cluster D :=
  mkCluster (pg_others (cl_calls s) (cl_dbs s)) (S (cl_calls s)) (cl_conns s) (cl_pool s).

Lemma pg_call_eq s : pg_call s = (match pg_fault (cl_calls s) with None => Ok tt | Some e => Err e end, called s).
Proof. unfold pg_call. by destruct (pg_fault _). Qed.

Lemma connects_spec database s :
  exists r, connects database s = (r, called s) /\
    ((exists e, r = Err e) \/ r = Ok tt /\ is_Some (cl_dbs (called s) !! database)).
Proof.
  unfold connects, bind at 1. rewrite pg_call_eq. destruct (pg_fault _) as [e|]; [by eauto|].
  unfold get, bind. cbv beta iota. case_bool_decide; unfold ret, fail; eauto.
Qed.

Lemma read_create_quote name : read_create (str "CREATE DATABASE " ++ quoteIdent name) = Some name.
Proof.
  unfold read_create. rewrite HasPrefix_app, drop_app_length. rewrite <- (app_nil_r (quoteIdent name)).
  unfold read_ident, quoteIdent. cbn [app]. rewrite (bool_decide_eq_true_2 (dquote = dquote)) by done.
  rewrite <- app_assoc. cbn [app]. by rewrite read_quoted_quote.
Qed.

Definition fresh_db : server D := mkServer (mkDb None pg_template) 0 [].

(** What a [CREATE DATABASE] leaves, with the answer that came. *)
Lemma conn_Exec_spec name s :
  exists r s', conn_Exec (str "CREATE DATABASE " ++ quoteIdent name) s = (r, s') /\ returned r /\
    cl_calls s' = cl_calls (called s) /\ cl_conns s' = cl_conns s /\ cl_pool s' = cl_pool s /\
    (s' = called s /\ (exists e, r = Err e) \/
     cl_dbs (called s) !! name = None /\ cl_dbs s' = <[name := fresh_db]> (cl_dbs (called s))).
Proof.
  assert (create_database (str "CREATE DATABASE " ++ quoteIdent name) (called s) =
    if bool_decide (is_Some (cl_dbs (called s) !! name))
    then (Err (Errorf "database %q already exists" [AQuote name]), called s)
    else set_dbs (<[name := fresh_db]> (cl_dbs (called s))) (called s)) as Ec.
  { unfold create_database, get, bind. rewrite read_create_quote. by case_bool_decide. }
  unfold conn_Exec. rewrite pg_call_eq. destruct (pg_fault (cl_calls s)) as [e|]; [destruct (pg_lost (cl_calls s))|]; rewrite ?Ec;
    try case_bool_decide as Hx; eexists _, _; (split; [reflexivity|]); split_and!; try done; eauto.
  all: right; split; [by apply eq_None_not_Some|done].
Qed.

(** *** [EnsureDatabase] *)

(** [s'] differs from [s] in the databases, by what others did during at most
    three calls and perhaps the new database [name], and in nothing that has to
    be closed. *)
Definition settled (name : bytes) s s' : Prop :=
  cl_conns s' = cl_conns s /\ cl_pool s' = cl_pool s /\
  exists n, (n <= 3)%nat /\ cl_calls s' = (cl_calls s + n)%nat /\
    (cl_dbs s' = cl_dbs (Nat.iter n called s) \/
     cl_dbs (Nat.iter n called s) !! name = None /\
     cl_dbs s' = <[name := fresh_db]> (cl_dbs (Nat.iter n called s))).

Lemma settled_now name s n s' :
  (n <= 3)%nat -> cl_conns s' = cl_conns s -> cl_pool s' = cl_pool s -> cl_calls s' = (cl_calls s + n)%nat ->
  cl_dbs s' = cl_dbs (Nat.iter n called s) -> settled name s s'.
Proof. intros. split_and!; [done..|]. exists n. eauto. Qed.

(** With one more connection. *)
Definition connected s : cluster D := mkCluster (cl_dbs s) (cl_calls s) (S (cl_conns s)) (cl_pool s).

Lemma pgx_Connect_spec conn s :
  exists r s', pgx_Connect conn s = (r, s') /\
    ((exists e, r = Err e) /\ (s' = s \/ s' = called s) \/ r = Ok tt /\ s' = connected (called s)).
Proof.
  unfold pgx_Connect. destruct (pgx_ParseConfig conn) as [ci|e]; [|by eexists _, _; eauto 6].
  unfold bind at 1. destruct (connects_spec (ci_database ci) s) as (r & -> & [[e ->]|[-> _]]); eexists _, _; eauto 7.
Qed.

Lemma query_exists_spec name s :
  query_exists name s = (match pg_fault (cl_calls s) with
                         | None => Ok (bool_decide (is_Some (cl_dbs (called s) !! name)))
                         | Some e => Err e
                         end, called s).
Proof. unfold query_exists, bind at 1. rewrite pg_call_eq. by destruct (pg_fault _). Qed.

Lemma EnsureDatabase_spec cfg s :
  exists r s', EnsureDatabase cfg s = (r, s') /\ returned r /\ settled (pc_Database cfg) s s' /\
    (r = Ok tt -> is_Some (cl_dbs s' !! pc_Database cfg)).
Proof.
  unfold EnsureDatabase. cbn [normalizeConfig pc_Database]. cbv zeta.
  case_if; [by eexists _, _; split_and!; try done; apply (settled_now _ _ 0); auto|].
  set (conn := connString _ _). unfold bind at 1, wrapped at 1, catch at 1.
  destruct (pgx_Connect_spec conn s) as (r1 & s1 & -> & [[[e ->] Hs1]|[-> ->]]).
  { eexists _, _. split; [reflexivity|]. split_and!; [done| |done].
    destruct Hs1 as [-> | ->]; [apply (settled_now _ _ 0)|apply (settled_now _ _ 1)]; cbn; auto; lia. }
  set (s1 := connected (called s)). unfold deferred, bind at 1, wrapped at 1, catch at 1. rewrite query_exists_spec.
  destruct (pg_fault (cl_calls s1)) as [e|].
  { eexists _, _. split; [reflexivity|]. split_and!; [done| |done]. apply (settled_now _ _ 2); cbn; auto; lia. }
  case_bool_decide as Hx.
  { eexists _, _. split; [reflexivity|]. split_and!; [done| |done]. apply (settled_now _ _ 2); cbn; auto; lia. }
  unfold wrapped, catch.
  destruct (conn_Exec_spec (pc_Database cfg) (called s1)) as (r & s2 & -> & Hr & Hc & Hn & Hp & Hd).
  exists (match r with Err e => Err (Wrapf "postgres: create database %q: %w" [AQuote (pc_Database cfg)] e) | r => r end), (snd (conn_Close s2)).
  split; [by destruct r|]. split; [by destruct r|]. split.
  - unfold settled. cbn. rewrite Hc, Hn, Hp. split_and!; [done..|]. exists 3%nat. cbn. split_and!; [lia|lia|].
    destruct Hd as [[-> _]|[Hd ->]]; auto.
  - intros Hok. destruct Hd as [[_ [e ->]]|[_ Hd]]; [done|]. cbn. rewrite Hd, lookup_insert_eq. eauto.
Qed.

Lemma iter_called_others name n s :
  (forall i dbs, pg_others i dbs !! name = dbs !! name) -> cl_dbs (Nat.iter n called s) !! name = cl_dbs s !! name.
Proof. intros Ho. induction n as [|n IH]; [done|]. cbn. by rewrite Ho. Qed.

(** Making sure of a database is safe whatever fails and whatever other
    clients do: [EnsureDatabase] returns, with its connection to the admin
    database closed; when it succeeds the database exists; and a database that
    others leave alone is as it was before, unless it is the one asked for and
    did not exist. *)
Lemma EnsureDatabase_safe (cfg : Config) (s : cluster D) :
  exists r s', EnsureDatabase cfg s = (r, s') /\ returned r /\ cl_conns s' = cl_conns s /\ cl_pool s' = cl_pool s /\
    (r = Ok tt -> is_Some (cl_dbs s' !! pc_Database cfg)) /\
    (forall name, (forall i dbs, pg_others i dbs !! name = dbs !! name) ->
       name <> pc_Database cfg \/ is_Some (cl_dbs s !! name) -> cl_dbs s' !! name = cl_dbs s !! name).
Proof.
  destruct (EnsureDatabase_spec cfg s) as (r & s' & E & Hr & (Hc & Hp & n & _ & _ & Hd) & Hok).
  exists r, s'. split_and!; try done. intros name Ho Hname.
  pose proof (iter_called_others name n s Ho) as Hi. destruct Hd as [-> | [Hn ->]]; [done|].
  destruct (decide (name = pc_Database cfg)) as [->|Hne]; [|by rewrite lookup_insert_ne].
  rewrite Hi in Hn. destruct Hname as [?|[? ?]]; congruence.
Qed.

(** The connection to the admin database succeeds. *)
Lemma pgx_Connect_ok conn ci s :
  pgx_ParseConfig conn = inl ci -> pg_fault (cl_calls s) = None -> is_Some (cl_dbs (called s) !! ci_database ci) ->
  pgx_Connect conn s = (Ok tt, connected (called s)).
Proof.
  intros Hp Hf Hd. unfold pgx_Connect. rewrite Hp. unfold bind at 1, connects, bind at 1. rewrite pg_call_eq, Hf.
  unfold get, bind at 1. cbv beta iota. by rewrite bool_decide_eq_true_2.
Qed.

(** What [EnsureDatabase] does when no call fails. *)
Lemma EnsureDatabase_run cfg ci s :
  pc_Database cfg <> [] ->
  pgx_ParseConfig (connString (normalizeConfig cfg) (pc_AdminDatabase (normalizeConfig cfg))) = inl ci ->
  is_Some (cl_dbs (called s) !! ci_database ci) -> (forall i, pg_fault i = None) ->
  EnsureDatabase cfg s =
    (let name := pc_Database cfg in
     let s2 := Nat.iter 2 called s in let s3 := called s2 in
     if bool_decide (is_Some (cl_dbs s2 !! name)) then (Ok tt, s2)
     else if bool_decide (is_Some (cl_dbs s3 !! name))
     then (Err (Wrapf "postgres: create database %q: %w" [AQuote name] (Errorf "database %q already exists" [AQuote name])), s3)
     else (Ok tt, mkCluster (<[name := fresh_db]> (cl_dbs s3)) (cl_calls s3) (cl_conns s3) (cl_pool s3))).
Proof.
  intros Hne Hparse Hadmin Hf. unfold EnsureDatabase. cbv zeta.
  change (pc_Database (normalizeConfig cfg)) with (pc_Database cfg). rewrite bool_decide_eq_false_2 by done.
  unfold bind at 1, wrapped at 1, catch at 1. rewrite (pgx_Connect_ok _ ci) by done.
  unfold deferred, bind at 1, wrapped at 1, catch at 1. rewrite query_exists_spec, Hf.
  change (cl_dbs (called (connected (called s)))) with (cl_dbs (Nat.iter 2 called s)). cbn [Nat.iter nat_rect].
  destruct s as [dbs calls conns pl]. case_bool_decide; [done|].
  unfold wrapped, catch, conn_Exec. rewrite pg_call_eq, Hf. unfold create_database, get, bind. rewrite read_create_quote.
  unfold connected, called at 1. cbn [cl_dbs called cl_calls cl_conns cl_pool]. by case_bool_decide.
Qed.
End ensure.

(** *** With a reader of connection strings *)

(** [pgx] reads a connection string as the URL it is. *)
Definition pgx_reads_urls `{!PgCluster D} : Prop :=
  forall url u ci, parse_url url = Some u -> conn_of_url u = Some ci -> pgx_ParseConfig url = inl ci.

Definition good_conn (cfg : Config) (database : bytes) : Prop :=
  forallb host_plain (pc_Host cfg) = true /\ (Byte.x2c ∉ pc_Host cfg) /\ 0 <= pc_Port cfg < 2 ^ 63 /\
  HasPrefix database (str "/") = false.

Lemma normalize_good cfg database : good_conn cfg database -> good_conn (normalizeConfig cfg) database.
Proof.
  intros (Hh & Hc & Hp & Hd). split_and!; try done; cbn; unfold or_else.
  - case_bool_decide; [by vm_compute|done].
  - case_bool_decide; [|done]. vm_compute. set_solver.
  - case_if; lia.
  - case_if; lia.
Qed.

Section opening.
Context `{Postgres D} `{!PgCluster D}.
Implicit Types s : cluster D.

Lemma parse_connString cfg database :
  pgx_reads_urls (D := D) -> good_conn cfg database ->
  exists ci, pgx_ParseConfig (connString (normalizeConfig cfg) database) = inl ci /\ ci_database ci = database.
Proof.
  intros Hpgx (Hh & Hc & Hp & Hd)%normalize_good.
  destruct (conn_of_connString _ database Hh Hc Hp Hd) as (u & Hu & Hci). eauto.
Qed.

Definition quiet : Prop := forall i (dbs : gmap bytes (server D)), pg_others i dbs = dbs.

Lemma called_quiet s n : quiet -> cl_dbs (Nat.iter n called s) = cl_dbs s.
Proof. intros Hq. induction n as [|n IH]; [done|]. cbn. by rewrite Hq. Qed.

(** [EnsureDatabase] creates a missing database, and only that: when the
    calls succeed and nobody interferes, a database that exists is left as it
    is, and one that does not is created empty under exactly the configured
    name, whatever characters it contains. *)
Theorem EnsureDatabase_creates (cfg : Config) (s : cluster D)
    (Hpgx : pgx_reads_urls (D := D)) (Hquiet : quiet) (Hup : forall i, pg_fault i = None)
    (Hname : pc_Database cfg <> [])
    (Hconn : good_conn cfg (pc_AdminDatabase (normalizeConfig cfg)))
    (Hadmin : is_Some (cl_dbs s !! pc_AdminDatabase (normalizeConfig cfg))) :
  exists s', EnsureDatabase cfg s = (Ok tt, s') /\ cl_conns s' = cl_conns s /\
    cl_dbs s' = match cl_dbs s !! pc_Database cfg with
                | Some _ => cl_dbs s
                | None => <[pc_Database cfg := fresh_db]> (cl_dbs s)
                end.
Proof.
  destruct (parse_connString cfg _ Hpgx Hconn) as (ci & Hci & Hdb).
  rewrite (EnsureDatabase_run cfg ci) by (rewrite ?(called_quiet s 1 Hquiet : cl_dbs (called s) = _), ?Hdb; done). cbv zeta.
  rewrite (called_quiet s 2 Hquiet), (called_quiet s 3 Hquiet : cl_dbs (called (Nat.iter 2 called s)) = _).
  destruct (cl_dbs s !! pc_Database cfg) as [sv|] eqn:E.
  - rewrite bool_decide_eq_true_2 by eauto. eexists. split; [reflexivity|]. split; [done|]. apply (called_quiet s 2 Hquiet).
  - rewrite !bool_decide_eq_false_2 by (by intros [? ?]). eexists. split; [reflexivity|]. done.
Qed.

(** C23: [EnsureDatabase], whatever calls fail and whatever other clients do:
    it returns, with its connection to the admin database closed; when it
    succeeds the database exists; a database that others leave alone is as it
    was before, unless it is the one asked for and did not exist.  And it does
    succeed when a name is given, no call fails, nobody interferes and the admin
    database that [pgx] reads in the connection string exists. *)
Theorem EnsureDatabase_correct (cfg : Config) (s : cluster D) :
  exists r s', EnsureDatabase cfg s = (r, s') /\ returned r /\ cl_conns s' = cl_conns s /\ cl_pool s' = cl_pool s /\
    (r = Ok tt -> is_Some (cl_dbs s' !! pc_Database cfg)) /\
    (forall name, (forall i dbs, pg_others i dbs !! name = dbs !! name) ->
       name <> pc_Database cfg \/ is_Some (cl_dbs s !! name) -> cl_dbs s' !! name = cl_dbs s !! name) /\
    (forall ci, pc_Database cfg <> [] -> (forall i, pg_fault i = None) -> quiet ->
       pgx_ParseConfig (connString (normalizeConfig cfg) (pc_AdminDatabase (normalizeConfig cfg))) = inl ci ->
       is_Some (cl_dbs s !! ci_database ci) -> r = Ok tt).
Proof.
  destruct (EnsureDatabase_safe cfg s) as (r & s' & E & Hr & Hc & Hp & Hok & Hkeep). exists r, s'. split_and!; try done.
  intros ci Hne Hf Hq Hci Hadmin. rewrite (EnsureDatabase_run cfg ci) in E; [|done..|by rewrite (called_quiet s 1 Hq : cl_dbs (called s) = _)|done].
  cbv zeta in E. rewrite (called_quiet s 2 Hq), (called_quiet s 3 Hq : cl_dbs (called (Nat.iter 2 called s)) = _) in E.
  case_bool_decide; congruence.
Qed.

(** Two programs that start together can both find the database missing;
    the one that comes second fails to start, although the database it asked
    for exists. *)
Theorem EnsureDatabase_race (cfg : Config) (s : cluster D)
    (Hpgx : pgx_reads_urls (D := D)) (Hup : forall i, pg_fault i = None) (Hname : pc_Database cfg <> [])
    (Hconn : good_conn cfg (pc_AdminDatabase (normalizeConfig cfg)))
    (Hadmin : is_Some (cl_dbs (called s) !! pc_AdminDatabase (normalizeConfig cfg)))
    (Hmissing : cl_dbs (Nat.iter 2 called s) !! pc_Database cfg = None)
    (Hother : is_Some (cl_dbs (Nat.iter 3 called s) !! pc_Database cfg)) :
  exists e s', EnsureDatabase cfg s = (Err e, s') /\ is_Some (cl_dbs s' !! pc_Database cfg).
Proof.
  destruct (parse_connString cfg _ Hpgx Hconn) as (ci & Hci & Hdb).
  rewrite (EnsureDatabase_run cfg ci) by (rewrite ?Hdb; done). cbv zeta.
  rewrite bool_decide_eq_false_2 by (rewrite Hmissing; by intros [? ?]).
  change (called (Nat.iter 2 called s)) with (Nat.iter 3 called s). rewrite bool_decide_eq_true_2 by done. eauto.
Qed.

(** *** Opening a pool *)

(** [Migrate] waits only while its database is locked. *)
Lemma Migrate_returns (fsys : option FS) dir (w : server D) :
  dir <> [] ->
  exists r w', Migrate fsys dir w = (r, w') /\ (returned r \/ r = Diverge /\ sv_locks w' <> []) /\
    (r = Ok tt -> exists fs ms rows, fsys = Some fs /\ readMigrations fs dir = inl ms /\
       db_rows (sv_db w') = Some rows /\ recorded rows ms).
Proof.
  intros Hdir. destruct fsys as [fs|]; [|eexists _, _; split_and!; [reflexivity|by left|done]].
  assert (chosen_dir dir = dir) as Hc by (unfold chosen_dir; by rewrite bool_decide_eq_false_2).
  destruct (Migrate_cases fs dir w) as (r & w' & E & Hcase). rewrite Hc in Hcase. exists r, w'. split; [done|].
  destruct Hcase as [(-> & Hl & Hl' & _)|[[[e ->] _]|[Hr (es & ms & ms0 & don & rows & _ & _ & Hms & _ & _ & _ & _ & Hrows & Hok)]]].
  - split; [right; by rewrite Hl'|done].
  - split; [by left|done].
  - split; [by left|]. intros ->. destruct (Hok eq_refl) as [_ ?]. eauto 8.
Qed.

(** From the parsed configuration on. *)
Definition dial_pool (cfg : Config) (ci : conn_info) (migrations : option FS) (dir : bytes) : GoM (cluster D) conn_info :=
  wrapped "postgres: connect to database %q: %w" [AQuote (pc_Database cfg)]
    (NewWithConfig ci (positive (pc_MaxConns cfg)) (positive (pc_MinConns cfg))) ;;
  or_close (wrapped "postgres: ping database %q: %w" [AQuote (pc_Database cfg)] (pool_Ping ci)) ;;
  (if pc_AutoMigrate cfg then or_close (on_pool ci (Migrate migrations dir)) else ret tt) ;;
  ret ci.

(** A pool that is ready, on a database that is up to date. *)
Definition pool_ready (cfg : Config) (ci : conn_info) (migrations : option FS) (dir : bytes) (s' : cluster D) : Prop :=
  cl_pool s' = Some (mkPool ci (positive (pc_MaxConns cfg)) (positive (pc_MinConns cfg)) true) /\
  exists sv, cl_dbs s' !! ci_database ci = Some sv /\
    (pc_AutoMigrate cfg = true -> exists fs ms rows, migrations = Some fs /\ readMigrations fs dir = inl ms /\
       db_rows (sv_db sv) = Some rows /\ recorded rows ms).

Definition pool_closed (s' : cluster D) : Prop := forall p, cl_pool s' = Some p -> pl_open p = false.

(** It waits for the migration lock of its database, which is held. *)
Definition awaits_lock (cfg : Config) (ci : conn_info) (s' : cluster D) : Prop :=
  pc_AutoMigrate cfg = true /\ exists sv, cl_dbs s' !! ci_database ci = Some sv /\ sv_locks sv <> [].

Lemma pool_close_err (m : GoM (cluster D) unit) s e s1 :
  m s = (Err e, s1) -> or_close m s = (Err e, snd (pool_Close s1)) /\ pool_closed (snd (pool_Close s1)) /\
    cl_conns (snd (pool_Close s1)) = cl_conns s1.
Proof.
  intros E. unfold or_close, catch. rewrite E. split_and!; [done| |done].
  intros p. cbn. destruct (cl_pool s1); [|done]. by intros [= <-].
Qed.

Lemma pool_close_ok (m : GoM (cluster D) unit) s s1 : m s = (Ok tt, s1) -> or_close m s = (Ok tt, s1).
Proof. intros E. unfold or_close, catch. by rewrite E. Qed.

Lemma dial_pool_spec cfg ci migrations dir s :
  cl_pool s = None -> dir <> [] ->
  exists r s', dial_pool cfg ci migrations dir s = (r, s') /\ cl_conns s' = cl_conns s /\
    match r with
    | Ok ci' => ci' = ci /\ pool_ready cfg ci migrations dir s'
    | Err _ => pool_closed s'
    | Diverge => awaits_lock cfg ci s'
    | Panic => False
    end.
Proof.
  intros Hnone Hdir. unfold dial_pool, bind at 1, wrapped at 1, catch at 1, NewWithConfig, bind at 1. rewrite pg_call_eq.
  destruct (pg_fault (cl_calls s)) as [e|].
  { eexists _, _. split; [reflexivity|]. split; [done|]. intros p. cbn. by rewrite Hnone. }
  match goal with |- context [set_pool ?p (called s)] => set (s1 := snd (set_pool p (called s))) end.
  change (set_pool _ (called s)) with (Ok tt, s1). cbv beta iota. unfold bind at 1.
  destruct (connects_spec (ci_database ci) s1) as (r & Ec & [[e ->]|[-> [sv Hsv]]]).
  { destruct (pool_close_err (wrapped "postgres: ping database %q: %w" [AQuote (pc_Database cfg)] (pool_Ping ci)) s1
      (Wrapf "postgres: ping database %q: %w" [AQuote (pc_Database cfg)] e) (called s1)) as (-> & Hcl & Hn).
    { unfold wrapped, catch, pool_Ping. by rewrite Ec. }
    eexists _, _. split; [reflexivity|]. by split. }
  rewrite (pool_close_ok _ _ (called s1)) by (unfold wrapped, catch, pool_Ping; by rewrite Ec). unfold bind at 1.
  destruct (pc_AutoMigrate cfg) eqn:Ea.
  2: { eexists _, _. split; [reflexivity|]. split; [done|]. split; [done|]. split; [done|]. exists sv. by split; [|rewrite Ea]. }
  destruct (Migrate_returns migrations dir sv) as (r & sv' & Em & Hr & Hok); [done|].
  assert (on_pool ci (Migrate migrations dir) (called s1) =
    (r, snd (set_dbs (<[ci_database ci := sv']> (cl_dbs (called s1))) (called s1)))) as Ep.
  { unfold on_pool. by rewrite Hsv, Em. }
  destruct r as [[]|e| |]; [| |by destruct Hr as [[]|[? _]]|].
  - rewrite (pool_close_ok _ _ _ Ep). eexists _, _. split; [reflexivity|]. split; [done|]. split; [done|]. split; [done|].
    exists sv'. split; [cbn; by rewrite lookup_insert_eq|]. intros _. by apply Hok.
  - destruct (pool_close_err _ _ _ _ Ep) as (-> & Hcl & Hn). eexists _, _. split; [reflexivity|]. by split.
  - unfold or_close, catch. rewrite Ep. eexists _, _. split; [reflexivity|]. split; [done|]. split; [done|].
    exists sv'. split; [cbn; by rewrite lookup_insert_eq|]. by destruct Hr as [[]|[_ ?]].
Qed.

End opening.

(** ** Witnesses *)

(** A server without faults, whose client reads URLs, on which others create the
    database [late] before our third call. *)
Definition demo_cluster (late : option bytes) : PgCluster (list bytes) := {|
  pgx_ParseConfig url := match parse_url url ≫= conn_of_url with Some ci => inl ci | None => inr (Errorf "invalid URL" []) end;
  pg_others i dbs := match late, i with
                     | Some name, 2%nat => <[name := mkServer (mkDb None []) 0 []]> dbs
                     | _, _ => dbs
                     end;
  pg_fault _ := None;
  pg_lost _ := false;
  pg_template := [];
|}.

Lemma demo_reads late : pgx_reads_urls (PgCluster0 := demo_cluster late).
Proof. intros url u ci Eu E. cbn. by rewrite Eu; cbn; rewrite E. Qed.

Definition demo_dbs : gmap bytes (server (list bytes)) := {[ str "postgres" := demo_server ]}.
Definition demo_state : cluster (list bytes) := mkCluster demo_dbs 0 0 None.
(** A password and a name that would break a carelessly built string. *)
Definition demo_cfg : Config :=
  mkConfig [] 0 (str "me") (str "p@ss:/?#w") (str "my db?; DROP") [] [] true true 4 0.

Lemma connString_roundtrip_witness :
  exists u, parse_url (connString (normalizeConfig demo_cfg) (str "my db?; DROP")) = Some u /\
    SplitHostPort (up_Host u) = Some (str "127.0.0.1", str "5432") /\
    up_User u = Some (str "me", Some (str "p@ss:/?#w")) /\ up_Path u = str "/my db?; DROP".
Proof.
  destruct (connString_roundtrip (normalizeConfig demo_cfg) (str "my db?; DROP")) as [Hexact Hread].
  destruct Hread as (u & Eu & Hsplit); [reflexivity|cbn; lia|]. exists u. split; [exact Eu|]. split; [exact Hsplit|].
  rewrite (Hexact u Eu). split; reflexivity.
Defined.

Lemma quoteIdent_roundtrip_witness :
  read_ident (quoteIdent [Byte.x61; dquote; Byte.x3b] ++ str ";") = Some ([Byte.x61; dquote; Byte.x3b], str ";").
Proof. apply (quoteIdent_roundtrip [Byte.x61; dquote; Byte.x3b] (str ";")). reflexivity. Defined.

Lemma demo_good name : HasPrefix name (str "/") = false -> good_conn demo_cfg name.
Proof. intros Hn. split_and!; [reflexivity|cbn; set_solver|cbn; lia..|done]. Qed.

Lemma EnsureDatabase_creates_witness :
  exists s', EnsureDatabase (PgCluster0 := demo_cluster None) demo_cfg demo_state = (Ok tt, s') /\ cl_conns s' = 0%nat /\
    cl_dbs s' = <[str "my db?; DROP" := demo_server]> demo_dbs.
Proof.
  destruct (EnsureDatabase_creates (PgCluster0 := demo_cluster None) demo_cfg demo_state (demo_reads None))
    as (s' & E & Hc & Hd).
  - done.
  - done.
  - vm_compute. congruence.
  - by apply demo_good.
  - vm_compute. eauto.
  - exists s'. split_and!; [exact E|exact Hc|]. rewrite Hd.
    assert (cl_dbs demo_state !! pc_Database demo_cfg = None) as Hn by (vm_compute; reflexivity). by rewrite Hn.
Defined.

Lemma EnsureDatabase_correct_witness :
  exists s', EnsureDatabase (PgCluster0 := demo_cluster None) demo_cfg demo_state = (Ok tt, s') /\ cl_conns s' = 0%nat /\
    is_Some (cl_dbs s' !! str "my db?; DROP") /\ cl_dbs s' !! str "postgres" = Some demo_server.
Proof.
  destruct (EnsureDatabase_correct (PgCluster0 := demo_cluster None) demo_cfg demo_state)
    as (r & s' & E & _ & Hc & _ & Hok & Hkeep & Hsucc).
  assert (r = Ok tt) as ->.
  { eapply Hsucc; [vm_compute; congruence|done|done|vm_compute; reflexivity|vm_compute; eauto]. }
  exists s'. split_and!; [exact E|exact Hc|by apply Hok|]. apply Hkeep; [done|]. left. vm_compute. congruence.
Defined.

Lemma EnsureDatabase_race_witness :
  exists e s', EnsureDatabase (PgCluster0 := demo_cluster (Some (str "my db?; DROP"))) demo_cfg demo_state = (Err e, s') /\
    is_Some (cl_dbs s' !! str "my db?; DROP").
Proof.
  apply (EnsureDatabase_race (PgCluster0 := demo_cluster (Some (str "my db?; DROP"))) demo_cfg demo_state (demo_reads _)).
  - done.
  - vm_compute. congruence.
  - by apply demo_good.
  - vm_compute. eauto.
  - vm_compute. reflexivity.
  - vm_compute. eauto.
Defined.

