(* ===== verification/Sql.v ===== *)
(** * Sql: dialects and the statements built with them

    Models [database/dialect.go], [sqlite.go], [postgres.go], [errors.go] and
    the query helpers of [base_engine.go]: identifiers, placeholders and the
    INSERT statements in their variants, and proves that a statement built
    from valid identifiers mentions exactly those and is otherwise fixed. *)

From S2P Require Import Prelude Bytes GoStrings.

Local Open Scope Z_scope.

Definition ErrEmptyDriver : error := Sentinel "database driver is empty".
Definition ErrEmptyDSN : error := Sentinel "database DSN is empty".
Definition ErrUnsupportedDriver : error := Sentinel "unsupported database driver".
Definition ErrInvalidIdentifier : error := Sentinel "invalid SQL identifier".

Definition DriverSQLite : bytes := str "sqlite".
Definition DriverPostgres : bytes := str "postgres".

(** The implementations of the [Dialect] interface. *)
Inductive Dialect := SQLiteDialect | PostgresDialect.

Definition dialectForDriver (driver : bytes) : Dialect + error :=
  if bool_decide (driver = DriverSQLite) then inl SQLiteDialect
  else if bool_decide (driver = DriverPostgres) then inl PostgresDialect
  else if bool_decide (driver = []) then inr ErrEmptyDriver
  else inr (Wrapf "%w: %s" [AStr driver] ErrUnsupportedDriver).

(** *** Methods of each dialect, and the call through the interface *)

Definition SQLite_DriverName : bytes := str "sqlite".
Definition Postgres_DriverName : bytes := str "postgres".
Definition DriverName (d : Dialect) : bytes :=
  match d with SQLiteDialect => SQLite_DriverName | PostgresDialect => Postgres_DriverName end.

Definition SQLite_SupportsMaintenance : bool := true.
Definition Postgres_SupportsMaintenance : bool := false.
Definition SupportsMaintenance (d : Dialect) : bool :=
  match d with SQLiteDialect => SQLite_SupportsMaintenance | PostgresDialect => Postgres_SupportsMaintenance end.

Definition SQLite_Placeholder (_ : Z) : bytes := str "?".
Definition Postgres_Placeholder (index : Z) : bytes := str "$" ++ Itoa index.
Definition Placeholder (d : Dialect) (index : Z) : bytes :=
  match d with SQLiteDialect => SQLite_Placeholder index | PostgresDialect => Postgres_Placeholder index end.

Definition placeholdersFor (d : Dialect) (n : nat) (startIndex : Z) : bytes :=
  Join ((fun i => Placeholder d (startIndex + Z.of_nat i)) <$> seq 0 n) (str ", ").
Definition placeholders (n : nat) : bytes := placeholdersFor SQLiteDialect n 1.

Definition SQLite_Placeholders (count : nat) (startIndex : Z) : bytes := placeholdersFor SQLiteDialect count startIndex.
Definition Postgres_Placeholders (count : nat) (startIndex : Z) : bytes := placeholdersFor PostgresDialect count startIndex.

(** The double quote. *)
Definition dq : byte := Byte.x22.

Section sql.
Context `{Unicode}.

Definition ident_rune (r : Z) : bool := (r =? 95) || uni_letter r || uni_digit r.

Definition validateIdentifier (name : bytes) : option error :=
  if bool_decide (name = []) then Some (Wrapf "%w: identifier is empty" [] ErrInvalidIdentifier)
  else if forallb ident_rune (runes name) then None
  else Some (Wrapf "%w: %q" [AQuote name] ErrInvalidIdentifier).

Fixpoint validateIdentifiers (names : list bytes) : option error :=
  match names with
  | [] => None
  | name :: names => match validateIdentifier name with Some err => Some err | None => validateIdentifiers names end
  end.

Definition quoteIdent (name : bytes) : bytes :=
  match validateIdentifier name with
  | Some _ => []
  | None => dq :: name ++ [dq]
  end.

Definition joinedQuotedIdents (names : list bytes) : bytes := Join (quoteIdent <$> names) (str ", ").

Definition insertSQL (d : Dialect) (verb table : bytes) (cols : list bytes) : bytes :=
  verb ++ str " INTO " ++ quoteIdent table ++ str " (" ++ joinedQuotedIdents cols ++ str ") VALUES (" ++
  placeholdersFor d (length cols) 1 ++ str ")".

Definition conflictTarget (conflictCols : list bytes) : bytes :=
  match conflictCols with
  | [] => []
  | _ => str "(" ++ joinedQuotedIdents conflictCols ++ str ")"
  end.

Definition updateAssignments (updateCols : list bytes) : bytes :=
  Join ((fun col => quoteIdent col ++ str " = EXCLUDED." ++ quoteIdent col) <$> updateCols) (str ", ").

(** Both dialects quote with [quoteIdent] and insert with [insertSQL]. *)
Definition SQLite_QuoteIdent (name : bytes) : bytes := quoteIdent name.
Definition Postgres_QuoteIdent (name : bytes) : bytes := quoteIdent name.

Definition SQLite_Insert (table : bytes) (cols : list bytes) : bytes := insertSQL SQLiteDialect (str "INSERT") table cols.
Definition Postgres_Insert (table : bytes) (cols : list bytes) : bytes := insertSQL PostgresDialect (str "INSERT") table cols.
Definition Insert (d : Dialect) (table : bytes) (cols : list bytes) : bytes :=
  match d with SQLiteDialect => SQLite_Insert table cols | PostgresDialect => Postgres_Insert table cols end.

Definition SQLite_Upsert (table : bytes) (cols conflictCols updateCols : list bytes) : bytes :=
  SQLite_Insert table cols ++ str " ON CONFLICT " ++ conflictTarget conflictCols ++ str " DO UPDATE SET " ++
  updateAssignments updateCols.
Definition Postgres_Upsert (table : bytes) (cols conflictCols updateCols : list bytes) : bytes :=
  Postgres_Insert table cols ++ str " ON CONFLICT " ++ conflictTarget conflictCols ++ str " DO UPDATE SET " ++
  updateAssignments updateCols.
Definition Upsert_sql (d : Dialect) (table : bytes) (cols conflictCols updateCols : list bytes) : bytes :=
  match d with
  | SQLiteDialect => SQLite_Upsert table cols conflictCols updateCols
  | PostgresDialect => Postgres_Upsert table cols conflictCols updateCols
  end.

Definition SQLite_InsertIgnore (table : bytes) (cols _ : list bytes) : bytes :=
  insertSQL SQLiteDialect (str "INSERT OR IGNORE") table cols.
Definition Postgres_InsertIgnore (table : bytes) (cols conflictCols : list bytes) : bytes :=
  let target := conflictTarget conflictCols in
  if bool_decide (target = []) then Postgres_Insert table cols ++ str " ON CONFLICT DO NOTHING"
  else Postgres_Insert table cols ++ str " ON CONFLICT " ++ target ++ str " DO NOTHING".
Definition InsertIgnore_sql (d : Dialect) (table : bytes) (cols conflictCols : list bytes) : bytes :=
  match d with
  | SQLiteDialect => SQLite_InsertIgnore table cols conflictCols
  | PostgresDialect => Postgres_InsertIgnore table cols conflictCols
  end.

Definition SQLite_InsertReplace (table : bytes) (cols _ : list bytes) : bytes :=
  insertSQL SQLiteDialect (str "INSERT OR REPLACE") table cols.
Definition Postgres_InsertReplace (table : bytes) (cols conflictCols : list bytes) : bytes :=
  Postgres_Upsert table cols conflictCols cols.
Definition InsertReplace_sql (d : Dialect) (table : bytes) (cols conflictCols : list bytes) : bytes :=
  match d with
  | SQLiteDialect => SQLite_InsertReplace table cols conflictCols
  | PostgresDialect => Postgres_InsertReplace table cols conflictCols
  end.

(** The two dialects upsert alike. *)
Lemma Insert_eq d table cols : Insert d table cols = insertSQL d (str "INSERT") table cols.
Proof. by destruct d. Qed.
Lemma Upsert_sql_eq d table cols conflictCols updateCols :
  Upsert_sql d table cols conflictCols updateCols =
  Insert d table cols ++ str " ON CONFLICT " ++ conflictTarget conflictCols ++ str " DO UPDATE SET " ++
  updateAssignments updateCols.
Proof. by destruct d. Qed.

Definition whereKeyFor (d : Dialect) (cols : list bytes) (startIndex : Z) : bytes :=
  Join (imap (fun i c => quoteIdent c ++ str " = " ++ Placeholder d (startIndex + Z.of_nat i)) cols) (str " AND ").

Definition whereKey (cols : list bytes) : bytes := whereKeyFor SQLiteDialect cols 1.

Definition selectColumns (cols : list bytes) : bytes :=
  match cols with [] => str "*" | _ => joinedQuotedIdents cols end.

Definition valid (name : bytes) : Prop := validateIdentifier name = None.

Lemma validateIdentifiers_spec names : validateIdentifiers names = None <-> Forall valid names.
Proof.
  induction names as [|n names IH]; [split; [constructor|done]|]. cbn. rewrite Forall_cons. unfold valid at 1.
  destruct (validateIdentifier n); [split; [done|naive_solver]|]. naive_solver.
Qed.

(** ** Identifiers have no quotes *)

(** An ASCII byte is a rune of its own wherever it is. *)
Lemma ascii_rune l b : b2z b < 128 -> b ∈ l -> b2z b ∈ runes l.
Proof.
  intros Hb. remember (length l) as n eqn:Hn. assert (length l <= n)%nat as Hl by lia. clear Hn. revert l Hl.
  induction n as [|n IH]; intros [|b0 t0] Hl Hin; try (by apply not_elem_of_nil in Hin); [cbn in Hl; lia|].
  assert (forall lo hi c, 128 <= lo -> rune_in lo hi c = true -> b <> c) as Hcont.
  { intros lo hi c Hlo Hc E. subst c. unfold rune_in in Hc. bools. lia. }
  assert (forall x, 128 <= lead3_lo x /\ 128 <= lead4_lo x) as Hlead.
  { intros x. unfold lead3_lo, lead4_lo. split; case_match; lia. }
  cbn [runes]. cbv zeta. destruct (Z.ltb_spec (b2z b0) 128) as [H0|H0].
  { apply elem_of_cons in Hin as [->|Hin]; [left|right; (apply IH; [cbn in *; lia|done])]. }
  assert (b <> b0) as Hne by (intros ->; lia). apply elem_of_cons in Hin as [?|Hin]; [done|].
  destruct t0 as [|b1 t1]; [right; (apply IH; [cbn in *; lia|done])|].
  destruct (_ && rune_in 128 191 b1) eqn:E1.
  { apply andb_prop in E1 as [_ E1]. apply elem_of_cons in Hin as [->|Hin]; [by destruct (Hcont 128 191 _ ltac:(lia) E1)|].
    right. (apply IH; [cbn in *; lia|done]). }
  destruct t1 as [|b2 t2]; [right; (apply IH; [cbn in *; lia|done])|].
  destruct (_ && rune_in 128 191 b2) eqn:E2.
  { apply andb_prop in E2 as [E2 E2']. apply andb_prop in E2 as [_ E2].
    apply elem_of_cons in Hin as [->|Hin]; [by destruct (Hcont _ _ _ (proj1 (Hlead _)) E2)|].
    apply elem_of_cons in Hin as [->|Hin]; [by destruct (Hcont 128 191 _ ltac:(lia) E2')|]. right. (apply IH; [cbn in *; lia|done]). }
  destruct t2 as [|b3 t3]; [right; (apply IH; [cbn in *; lia|done])|].
  destruct (_ && rune_in 128 191 b3) eqn:E3.
  { apply andb_prop in E3 as [E3 E3']. apply andb_prop in E3 as [E3 E3'']. apply andb_prop in E3 as [_ E3].
    apply elem_of_cons in Hin as [->|Hin]; [by destruct (Hcont _ _ _ (proj2 (Hlead _)) E3)|].
    apply elem_of_cons in Hin as [->|Hin]; [by destruct (Hcont 128 191 _ ltac:(lia) E3'')|].
    apply elem_of_cons in Hin as [->|Hin]; [by destruct (Hcont 128 191 _ ltac:(lia) E3')|]. right. (apply IH; [cbn in *; lia|done]). }
  right. apply IH; [cbn in *; lia|done].
Qed.

Lemma valid_no_quote name : valid name -> dq ∉ name.
Proof.
  unfold valid, validateIdentifier. case_bool_decide; [done|]. destruct (forallb _ _) eqn:Hf; [|done]. intros _ Hin.
  apply (ascii_rune name dq) in Hin; [|done]. rewrite forallb_forall in Hf.
  apply list_elem_of_In, Hf in Hin. unfold ident_rune in Hin.
  rewrite uni_letter_ascii, uni_digit_ascii in Hin by done. done.
Qed.

(** ** Statements are fixed up to their identifiers *)

(** How a database reads quoted identifiers: what is between the quotes, and
    the statement with that left out; [q] says whether a quote is open. *)
Fixpoint sql_names (q : bool) (cur : bytes) (s : bytes) : list bytes :=
  match s with
  | [] => []
  | b :: s =>
      if bool_decide (b = dq) then (if q then cur :: sql_names false [] s else sql_names true [] s)
      else if q then sql_names true (cur ++ [b]) s else sql_names false [] s
  end.
Fixpoint sql_skeleton (q : bool) (s : bytes) : bytes :=
  match s with
  | [] => []
  | b :: s =>
      if bool_decide (b = dq) then b :: sql_skeleton (negb q) s
      else if q then sql_skeleton true s else b :: sql_skeleton false s
  end.

(** A statement as text and identifiers. *)
Inductive token := Text (t : bytes) | Ident (n : bytes).
Definition token_text (t : token) : bytes := match t with Text t => t | Ident n => dq :: n ++ [dq] end.
Definition tokens_text (ts : list token) : bytes := concat (token_text <$> ts).
Definition token_ok (t : token) : Prop := match t with Text t | Ident t => dq ∉ t end.
Definition idents (ts : list token) : list bytes :=
  omap (fun t => match t with Ident n => Some n | Text _ => None end) ts.
Definition blank (t : token) : bytes := match t with Text t => t | Ident _ => [dq; dq] end.

Lemma skip_text t s : dq ∉ t -> sql_names false [] (t ++ s) = sql_names false [] s /\
  sql_skeleton false (t ++ s) = t ++ sql_skeleton false s.
Proof.
  induction t as [|b t IH]; intros Hd; [done|]. apply not_elem_of_cons in Hd as [Hb Hd]. cbn.
  rewrite bool_decide_eq_false_2 by done. destruct (IH Hd) as [-> ->]. done.
Qed.

Lemma skip_ident n s cur : dq ∉ n -> sql_names true cur (n ++ dq :: s) = (cur ++ n) :: sql_names false [] s /\
  sql_skeleton true (n ++ dq :: s) = dq :: sql_skeleton false s.
Proof.
  revert cur. induction n as [|b n IH]; intros cur Hd; [by rewrite app_nil_r|].
  apply not_elem_of_cons in Hd as [Hb Hd]. cbn. rewrite bool_decide_eq_false_2 by done.
  destruct (IH (cur ++ [b]) Hd) as [-> ->]. by rewrite <- app_assoc.
Qed.

Lemma tokens_read ts : Forall token_ok ts ->
  sql_names false [] (tokens_text ts) = idents ts /\ sql_skeleton false (tokens_text ts) = concat (blank <$> ts).
Proof.
  induction 1 as [|[t|n] ts Ht _ [IH1 IH2]]; [done| |]; unfold tokens_text in *; cbn [fmap list_fmap concat token_text].
  - destruct (skip_text t (concat (token_text <$> ts)) Ht) as [-> ->]. by rewrite IH1, IH2.
  - cbn [app]. rewrite <- app_assoc. cbn [app sql_names sql_skeleton]. rewrite bool_decide_eq_true_2 by done.
    destruct (skip_ident n (concat (token_text <$> ts)) [] Ht) as [E1 E2]. cbn [negb]. rewrite E1, E2, IH1, IH2. done.
Qed.

(** The tokens of a list of things separated by a text. *)
Fixpoint sep_tokens (sep : bytes) (l : list (list token)) : list token :=
  match l with
  | [] => []
  | [x] => x
  | x :: l => x ++ Text sep :: sep_tokens sep l
  end.

Lemma tokens_text_app a b : tokens_text (a ++ b) = tokens_text a ++ tokens_text b.
Proof. unfold tokens_text. by rewrite fmap_app, concat_app. Qed.

Lemma tokens_text_sep sep l : tokens_text (sep_tokens sep l) = Join (tokens_text <$> l) sep.
Proof.
  induction l as [|x l IH]; [done|]. destruct l as [|y l]; [done|].
  change (sep_tokens sep (x :: y :: l)) with (x ++ Text sep :: sep_tokens sep (y :: l)).
  rewrite tokens_text_app. unfold tokens_text at 2. cbn [fmap list_fmap concat token_text]. fold (tokens_text (sep_tokens sep (y :: l))).
  by rewrite IH.
Qed.

Definition ident_list (names : list bytes) : list token := sep_tokens (str ", ") ((fun n => [Ident n]) <$> names).
Definition assign_list (names : list bytes) : list token :=
  sep_tokens (str ", ") ((fun n => [Ident n; Text (str " = EXCLUDED."); Ident n]) <$> names).

(** The parts of an upsert. *)
Definition insert_tokens (d : Dialect) (table : bytes) (cols : list bytes) : list token :=
  Text (str "INSERT INTO ") :: Ident table :: Text (str " (") :: ident_list cols ++
  [Text (str ") VALUES (" ++ placeholdersFor d (length cols) 1 ++ str ")")].
Definition upsert_tokens (d : Dialect) (table : bytes) (cols conflictCols updateCols : list bytes) : list token :=
  insert_tokens d table cols ++
  Text (str " ON CONFLICT ") :: (match conflictCols with
    | [] => [] | _ => Text (str "(") :: ident_list conflictCols ++ [Text (str ")")] end) ++
  Text (str " DO UPDATE SET ") :: assign_list updateCols.

Lemma quoteIdent_valid n : valid n -> quoteIdent n = tokens_text [Ident n].
Proof. intros Hn. unfold quoteIdent. rewrite Hn. unfold tokens_text. cbn. by rewrite app_nil_r. Qed.

Lemma joined_idents names : Forall valid names -> joinedQuotedIdents names = tokens_text (ident_list names).
Proof.
  intros Hv. unfold joinedQuotedIdents, ident_list. rewrite tokens_text_sep, <- list_fmap_compose. f_equal.
  apply list_fmap_ext. intros i n Hn. apply quoteIdent_valid. by eapply Forall_lookup_1.
Qed.

Lemma assignments names : Forall valid names -> updateAssignments names = tokens_text (assign_list names).
Proof.
  intros Hv. unfold updateAssignments, assign_list. rewrite tokens_text_sep, <- list_fmap_compose. f_equal.
  apply list_fmap_ext. intros i n Hn. unfold compose. assert (valid n) as Hvn by (by eapply Forall_lookup_1).
  rewrite quoteIdent_valid by done. unfold tokens_text. cbn. by rewrite !app_nil_r, <- ?app_assoc.
Qed.

Lemma insert_text d table cols : valid table -> Forall valid cols ->
  Insert d table cols = tokens_text (insert_tokens d table cols).
Proof.
  intros Ht Hc. rewrite Insert_eq. unfold insertSQL, insert_tokens. rewrite joined_idents, quoteIdent_valid by done.
  change (Text (str "INSERT INTO ") :: Ident table :: Text (str " (") :: ident_list cols ++
    [Text (str ") VALUES (" ++ placeholdersFor d (length cols) 1 ++ str ")")]) with
    ([Text (str "INSERT INTO ")] ++ [Ident table] ++ [Text (str " (")] ++ ident_list cols ++
    [Text (str ") VALUES (" ++ placeholdersFor d (length cols) 1 ++ str ")")]).
  rewrite !tokens_text_app. unfold tokens_text at 3 5 7. cbn [fmap list_fmap concat token_text].
  rewrite !app_nil_r. done.
Qed.

Lemma upsert_text d table cols conflictCols updateCols :
  valid table -> Forall valid cols -> Forall valid conflictCols -> Forall valid updateCols ->
  Upsert_sql d table cols conflictCols updateCols = tokens_text (upsert_tokens d table cols conflictCols updateCols).
Proof.
  intros Ht Hc Hk Hu. rewrite Upsert_sql_eq. unfold upsert_tokens. rewrite insert_text, assignments by done.
  rewrite tokens_text_app. f_equal. set (ck := match conflictCols with [] => [] | _ => _ end).
  assert (conflictTarget conflictCols = tokens_text ck) as ->.
  { unfold conflictTarget, ck. destruct conflictCols as [|k ks]; [done|]. rewrite joined_idents by done.
    change (Text (str "(") :: ident_list (k :: ks) ++ [Text (str ")")]) with
      ([Text (str "(")] ++ ident_list (k :: ks) ++ [Text (str ")")]).
    rewrite !tokens_text_app. unfold tokens_text at 2 4. cbn [fmap list_fmap concat token_text]. by rewrite !app_nil_r. }
  change (Text (str " ON CONFLICT ") :: ck ++ Text (str " DO UPDATE SET ") :: assign_list updateCols) with
    ([Text (str " ON CONFLICT ")] ++ ck ++ [Text (str " DO UPDATE SET ")] ++ assign_list updateCols).
  rewrite !tokens_text_app. unfold tokens_text at 3 5. cbn [fmap list_fmap concat token_text]. by rewrite !app_nil_r.
Qed.

Lemma sep_tokens_Forall (P : token -> Prop) sep l : P (Text sep) -> Forall (Forall P) l -> Forall P (sep_tokens sep l).
Proof.
  intros Hs. induction 1 as [|x l Hx Hl IH]; [constructor|]. destruct l as [|y l]; [done|].
  change (sep_tokens sep (x :: y :: l)) with (x ++ Text sep :: sep_tokens sep (y :: l)).
  apply Forall_app. split; [done|]. by constructor.
Qed.

Lemma placeholders_no_quote d n i : dq ∉ placeholdersFor d n i.
Proof.
  assert (forall l : list bytes, Forall (fun x => dq ∉ x) l -> dq ∉ Join l (str ", ")) as HJ.
  { induction 1 as [|x l Hx Hl IH]; [by apply not_elem_of_nil|]. destruct l as [|y l]; [done|].
    change (Join (x :: y :: l) (str ", ")) with (x ++ str ", " ++ Join (y :: l) (str ", ")).
    intros [?|[Hin|?]%elem_of_app]%elem_of_app; try done. by apply (bool_decide_eq_true_2 _) in Hin. }
  unfold placeholdersFor. apply HJ. apply Forall_fmap, Forall_forall. intros j _. cbn. destruct d; cbn [Placeholder]; unfold SQLite_Placeholder, Postgres_Placeholder.
  - intros Hin. by apply (bool_decide_eq_true_2 _) in Hin.
  - intros [?|Hin]%elem_of_cons; [done|]. unfold Itoa in Hin. assert (forall n, 0 <= n -> dq ∉ print_nat n) as Hp.
    { intros n0 Hn0 Hd. apply (proj1 (Forall_forall _ _) (print_nat_digits n0 Hn0)) in Hd. done. }
    destruct (Z.ltb_spec (i + Z.of_nat j) 0); [apply elem_of_cons in Hin as [?|Hin]; [done|]|]; eapply Hp in Hin; lia || done.
Qed.

Lemma ident_list_ok names : Forall valid names -> Forall token_ok (ident_list names).
Proof.
  intros Hv. apply sep_tokens_Forall; [by apply (bool_decide_eq_false_1 _)|].
  apply Forall_fmap. eapply Forall_impl; [exact Hv|]. intros n Hn. constructor; [by apply valid_no_quote|constructor].
Qed.

Lemma upsert_tokens_ok d table cols conflictCols updateCols :
  valid table -> Forall valid cols -> Forall valid conflictCols -> Forall valid updateCols ->
  Forall token_ok (upsert_tokens d table cols conflictCols updateCols).
Proof.
  intros Ht Hc Hk Hu. unfold upsert_tokens, insert_tokens.
  assert (forall t : bytes, bool_decide (dq ∈ t) = false -> token_ok (Text t)) as Htext
    by (intros t; apply bool_decide_eq_false_1).
  assert (forall names, Forall valid names -> Forall token_ok (assign_list names)) as Hassign.
  { intros names Hn. apply sep_tokens_Forall; [by apply Htext|]. apply Forall_fmap.
    eapply Forall_impl; [exact Hn|]. intros n Hv. repeat constructor; first [by apply Htext|by apply valid_no_quote]. }
  assert (token_ok (Text (str ") VALUES (" ++ placeholdersFor d (length cols) 1 ++ str ")"))) as Hvals.
  { cbn [token_ok]. intros [Hin|[Hin|Hin]%elem_of_app]%elem_of_app; [|by apply placeholders_no_quote in Hin|];
      by apply (bool_decide_eq_true_2 _) in Hin. }
  repeat (rewrite Forall_app || rewrite Forall_cons). rewrite !Forall_nil.
  split_and!; try first [done|by apply Htext|by apply valid_no_quote|by apply ident_list_ok|by apply Hassign].
  destruct conflictCols; [constructor|]. constructor; [by apply Htext|]. apply Forall_app.
  split; [by apply ident_list_ok|]. constructor; [by apply Htext|constructor].
Qed.

(** The identifiers of the lists, and the lists without their identifiers. *)
Lemma idents_app a b : idents (a ++ b) = idents a ++ idents b.
Proof. unfold idents. apply omap_app. Qed.

Lemma idents_sep sep l : idents (sep_tokens sep l) = concat (idents <$> l).
Proof.
  induction l as [|x l IH]; [done|]. destruct l as [|y l]; [cbn; by rewrite app_nil_r|].
  change (sep_tokens sep (x :: y :: l)) with (x ++ [Text sep] ++ sep_tokens sep (y :: l)).
  rewrite !idents_app, IH. done.
Qed.

Lemma idents_list names : idents (ident_list names) = names.
Proof.
  unfold ident_list. rewrite idents_sep. induction names as [|n names IH]; [done|]. cbn in *. by rewrite IH.
Qed.

Lemma idents_assign names : idents (assign_list names) = concat ((fun n => [n; n]) <$> names).
Proof.
  unfold assign_list. rewrite idents_sep. induction names as [|n names IH]; [done|]. cbn in *. by rewrite IH.
Qed.

Lemma blank_sep sep (l l' : list (list token)) :
  Forall2 (fun a b => blank <$> a = blank <$> b) l l' -> blank <$> sep_tokens sep l = blank <$> sep_tokens sep l'.
Proof.
  induction 1 as [|x y l l' Hx Hl IH]; [done|]. destruct Hl as [|x2 y2 l l' Hx2 Hl]; [done|].
  change (sep_tokens sep (x :: x2 :: l)) with (x ++ Text sep :: sep_tokens sep (x2 :: l)).
  change (sep_tokens sep (y :: y2 :: l')) with (y ++ Text sep :: sep_tokens sep (y2 :: l')).
  rewrite !fmap_app, Hx. cbn [fmap list_fmap] in *. by rewrite IH.
Qed.

Lemma blank_lists (f : bytes -> list token) names :
  (forall a b, blank <$> f a = blank <$> f b) ->
  blank <$> sep_tokens (str ", ") (f <$> names) = blank <$> sep_tokens (str ", ") (f <$> replicate (length names) []).
Proof.
  intros Hf. apply blank_sep. induction names as [|n names IH]; [constructor|]. constructor; [apply Hf|exact IH].
Qed.

Lemma blank_upsert d table cols conflictCols updateCols :
  blank <$> upsert_tokens d table cols conflictCols updateCols =
  blank <$> upsert_tokens d [] (replicate (length cols) []) (replicate (length conflictCols) [])
    (replicate (length updateCols) []).
Proof.
  assert (forall names, blank <$> ident_list names = blank <$> ident_list (replicate (length names) [])) as Hi
    by (intros names; by apply (blank_lists (fun n => [Ident n]))).
  assert (forall names, blank <$> assign_list names = blank <$> assign_list (replicate (length names) [])) as Ha
    by (intros names; by apply (blank_lists (fun n => [Ident n; Text (str " = EXCLUDED."); Ident n]))).
  unfold upsert_tokens, insert_tokens. repeat (rewrite fmap_app || rewrite fmap_cons).
  rewrite (Hi cols), (Ha updateCols), !length_replicate. do 3 f_equal.
  destruct conflictCols as [|k ks]; [done|]. cbn [length replicate].
  repeat (rewrite fmap_app || rewrite fmap_cons). by rewrite (Hi (k :: ks)).
Qed.

Lemma upsert_read d table cols conflictCols updateCols :
  valid table -> Forall valid cols -> Forall valid conflictCols -> Forall valid updateCols ->
  let s := Upsert_sql d table cols conflictCols updateCols in
  sql_names false [] s = table :: cols ++ conflictCols ++ concat ((fun c => [c; c]) <$> updateCols) /\
  sql_skeleton false s = concat (blank <$> upsert_tokens d [] (replicate (length cols) [])
    (replicate (length conflictCols) []) (replicate (length updateCols) [])).
Proof.
  intros Htable Hcols Hconf Hupd. cbv zeta. rewrite upsert_text by done.
  destruct (tokens_read _ (upsert_tokens_ok d table cols conflictCols updateCols Htable Hcols Hconf Hupd)) as [-> ->].
  split; [|by rewrite blank_upsert]. unfold upsert_tokens, insert_tokens.
  set (ck := match conflictCols with [] => [] | _ => _ end).
  assert (idents ck = conflictCols) as Hck.
  { unfold ck. destruct conflictCols as [|k ks]; [done|].
    change (idents (Text (str "(") :: ident_list (k :: ks) ++ [Text (str ")")])) with
      (idents (ident_list (k :: ks) ++ [Text (str ")")])).
    rewrite idents_app, idents_list. apply app_nil_r. }
  set (vals := Text (str ") VALUES (" ++ _)). rewrite idents_app.
  change (idents (Text (str "INSERT INTO ") :: Ident table :: Text (str " (") :: ident_list cols ++ [vals]))
    with (table :: idents (ident_list cols ++ [vals])).
  change (idents (Text (str " ON CONFLICT ") :: ck ++ Text (str " DO UPDATE SET ") :: assign_list updateCols)) with
    (idents (ck ++ [Text (str " DO UPDATE SET ")] ++ assign_list updateCols)).
  rewrite !idents_app, idents_list, idents_assign, Hck. cbn. by rewrite app_nil_r.
Qed.

Lemma upsert_names d table cols conflictCols updateCols :
  valid table -> Forall valid cols -> Forall valid conflictCols -> Forall valid updateCols ->
  sql_names false [] (Upsert_sql d table cols conflictCols updateCols) =
    table :: cols ++ conflictCols ++ concat ((fun c => [c; c]) <$> updateCols).
Proof. intros. by apply upsert_read. Qed.

(** An upsert built from valid names is fixed up to them: the identifiers
    the database reads in it are exactly the table, the columns, the conflict
    columns and each updated column twice, in order, and the rest of the
    statement depends only on the dialect and the numbers of columns. *)
Theorem Upsert_sql_fixed (d : Dialect) (table : bytes) (cols conflictCols updateCols : list bytes)
    (Htable : valid table) (Hcols : Forall valid cols) (Hconf : Forall valid conflictCols)
    (Hupd : Forall valid updateCols) :
  let s := Upsert_sql d table cols conflictCols updateCols in
  sql_names false [] s = table :: cols ++ conflictCols ++ concat ((fun c => [c; c]) <$> updateCols) /\
  sql_skeleton false s = concat (blank <$> upsert_tokens d [] (replicate (length cols) [])
    (replicate (length conflictCols) []) (replicate (length updateCols) [])).
Proof. by apply upsert_read. Qed.
End sql.

(** ** Witnesses *)

Lemma Upsert_sql_fixed_witness :
  let s := Upsert_sql PostgresDialect (str "users") [str "id"; str "name"] [str "id"] [str "name"] in
  sql_names false [] s = [str "users"; str "id"; str "name"; str "id"; str "name"; str "name"] /\
  sql_skeleton false s = concat (blank <$> upsert_tokens PostgresDialect [] [[]; []] [[]] [[]]).
Proof.
  apply (Upsert_sql_fixed PostgresDialect (str "users") [str "id"; str "name"] [str "id"] [str "name"]);
    repeat constructor.
Defined.
