(* ===== verification/Engine.v ===== *)
(** * Engine: tables behind the generic engine

    Models [database/base_engine.go], [migration.go] and the parts of
    [engine.go] that have behaviour of their own.  The database and the
    entity's specification are parameters: what a statement does to the data,
    which calls fail, and the clock.  The statements that were sent are
    recorded. *)

From S2P Require Import Prelude Bytes GoStrings Sql.

Local Open Scope Z_scope.

(** [EngineSpec]. *)
Record EngineSpec (E K V Row : Type) := mkSpec {
  sp_Table : bytes;
  sp_Columns : list bytes;
  sp_Values : E -> list V;
  sp_ConflictColumns : list bytes;
  sp_FromRow : Row -> E + error;
  sp_KeyColumns : list bytes;
  sp_KeyArgs : K -> list V;
  sp_IntPrimaryKey : option bytes;
}.
Arguments mkSpec {E K V Row}.
Arguments sp_Table {E K V Row}.
Arguments sp_Columns {E K V Row}.
Arguments sp_Values {E K V Row}.
Arguments sp_ConflictColumns {E K V Row}.
Arguments sp_FromRow {E K V Row}.
Arguments sp_KeyColumns {E K V Row}.
Arguments sp_KeyArgs {E K V Row}.
Arguments sp_IntPrimaryKey {E K V Row}.

(** The table engine; [be_driver] and [be_dialect] are its database engine's. *)
Record BaseEngine (E K V Row : Type) := mkBase { be_driver : bytes; be_dialect : Dialect; be_spec : EngineSpec E K V Row }.
Arguments mkBase {E K V Row}.
Arguments be_driver {E K V Row}.
Arguments be_dialect {E K V Row}.
Arguments be_spec {E K V Row}.

Definition NewBaseEngine {E K V Row} (driver : bytes) (dialect : Dialect) (spec : EngineSpec E K V Row) : BaseEngine E K V Row :=
  mkBase driver dialect spec.

(** The methods [BaseEngine] has for an engine that embeds it to override; it
    has none for the columns and their values. *)
Definition base_defaults {E K V Row} (columns : list bytes) (values : E -> list V) : EngineSpec E K V Row :=
  mkSpec [] columns values [] (fun _ => inr (Errorf "FromRow not implemented" [])) [] (fun _ => []) None.

(** [InserType] and [PaginationMode]. *)
Definition InsertReplace : bytes := str "REPLACE".
Definition InsertIgnore : bytes := str "IGNORE".
Definition ModeUpsert : bytes := str "UPSERT".
Definition PaginationOffset : Z := 0.
Definition PaginationKeyset : Z := 1.

(** The database: the effect of a statement with arguments, the rows of a
    query and the error after them, an integer column, failures of calls,
    commits that took effect although their call failed, the clock. *)
Class SqlServer (D V Row : Type) := {
  sql_Exec : bytes -> list V -> D -> D + error;
  sql_Query : bytes -> list V -> D -> (list Row * option error) + error;
  sql_int : Row -> Z + error;
  v_int : Z -> V;
  sql_fault : nat -> option error;
  sql_lost : nat -> bool;
  clock : nat -> Z;
}.

(** The data, the calls made, the time of the last write, the statements
    sent. *)
Record engine (D : Type) := mkEngine {
  en_db : D;
  en_calls : nat;
  en_lastWrite : option Z;
  en_log : list bytes;
}.
Arguments mkEngine {D}.
Arguments en_db {D}.
Arguments en_calls {D}.
Arguments en_lastWrite {D}.
Arguments en_log {D}.

Definition ErrNoRows : error := Sentinel "sql: no rows in result set".

Section engine.
Context `{Unicode} {E K V Row D : Type} `{!SqlServer D V Row}.
Context (driver : bytes) (dialect : Dialect) (spec : EngineSpec E K V Row).
Implicit Types s : engine D.

(** *** Calls *)

Definition db_call : GoM (engine D) nat := fun s =>
  let s' := mkEngine (en_db s) (S (en_calls s)) (en_lastWrite s) (en_log s) in
  match sql_fault (en_calls s) with
  | None => (Ok (en_calls s), s')
  | Some e => (Err e, s')
  end.
Definition log_stmt (q : bytes) : GoM (engine D) unit :=
  modify (fun s => mkEngine (en_db s) (en_calls s) (en_lastWrite s) (en_log s ++ [q])).
Definition put_db (d : D) : GoM (engine D) unit :=
  modify (fun s => mkEngine d (en_calls s) (en_lastWrite s) (en_log s)).
Definition or_fail {A} (r : A + error) : GoM (engine D) A :=
  match r with inl a => ret a | inr e => fail e end.
Definition check (e : option error) : GoM (engine D) unit :=
  match e with None => ret tt | Some err => fail err end.

(** [db.Exec] and [db.Query]. *)
Definition db_Exec (q : bytes) (args : list V) : GoM (engine D) unit :=
  log_stmt q ;; db_call ;;
  do s <- get;
  do d <- or_fail (sql_Exec q args (en_db s));
  put_db d.
Definition db_Query (q : bytes) (args : list V) : GoM (engine D) (list Row * option error) :=
  log_stmt q ;; db_call ;;
  do s <- get;
  or_fail (sql_Query q args (en_db s)).
(** [db.QueryRow(...).Scan]. *)
Definition db_QueryInt (q : bytes) (args : list V) : GoM (engine D) Z :=
  do '(rows, err) <- db_Query q args;
  match rows with
  | row :: _ => or_fail (sql_int row)
  | [] => fail (default ErrNoRows err)
  end.

Definition notifyWrite : GoM (engine D) unit :=
  modify (fun s => mkEngine (en_db s) (en_calls s) (Some (clock (en_calls s))) (en_log s)).
Definition isWriteHot (cooldown now : Z) (s : engine D) : bool :=
  match en_lastWrite s with
  | None => false
  | Some t => now - t <? cooldown
  end.

(** *** Statements *)

Definition validateTableAndColumns (extraColumns : list bytes) : option error :=
  match validateIdentifier (sp_Table spec) with
  | Some err => Some err
  | None => validateIdentifiers (sp_Columns spec ++ extraColumns)
  end.

Definition insertQuery (mode : bytes) (updateColumns : list bytes) : bytes + error :=
  if bool_decide (mode = InsertIgnore)
  then inl (InsertIgnore_sql dialect (sp_Table spec) (sp_Columns spec) (sp_ConflictColumns spec))
  else if bool_decide (mode = InsertReplace) then
    if bool_decide (driver = DriverPostgres) && (length (sp_ConflictColumns spec) =? 0)%nat
    then inr (Errorf "postgres replace requires conflictColumns" [])
    else inl (InsertReplace_sql dialect (sp_Table spec) (sp_Columns spec) (sp_ConflictColumns spec))
  else if bool_decide (mode = ModeUpsert) then
    if (length (sp_ConflictColumns spec) =? 0)%nat then inr (Errorf "conflictColumns not defined" [])
    else inl (Upsert_sql dialect (sp_Table spec) (sp_Columns spec) (sp_ConflictColumns spec)
                (match updateColumns with [] => sp_Columns spec | _ => updateColumns end))
  else inl (Insert dialect (sp_Table spec) (sp_Columns spec)).

Definition check_count (vals : list V) : option error :=
  if (length vals =? length (sp_Columns spec))%nat then None
  else Some (Errorf "values count %d does not match columns count %d" [AInt (zlen vals); AInt (zlen (sp_Columns spec))]).

(** *** Writing *)

Definition Save (entity : E) (mode : bytes) : GoM (engine D) unit :=
  check (validateTableAndColumns []) ;;
  notifyWrite ;;
  check (check_count (sp_Values spec entity)) ;;
  do q <- or_fail (insertQuery mode []);
  db_Exec q (sp_Values spec entity).

(** The loop over the entities, in a transaction on [d]. *)
Fixpoint exec_rows (q : bytes) (entities : list E) (d : D) : GoM (engine D) D :=
  match entities with
  | [] => ret d
  | e :: entities =>
      check (check_count (sp_Values spec e)) ;;
      db_call ;;
      do d' <- or_fail (sql_Exec q (sp_Values spec e) d);
      exec_rows q entities d'
  end.

(** [tx.Commit]. *)
Definition tx_commit (d : D) : GoM (engine D) unit := fun s =>
  match db_call s with
  | (Ok _, s') => put_db d s'
  | (Err e, s') => if sql_lost (en_calls s) then (Err e, snd (put_db d s')) else (Err e, s')
  | (Panic, s') => (Panic, s')
  | (Diverge, s') => (Diverge, s')
  end.

(** One prepared statement for all entities, in one transaction. *)
Definition exec_batch (q : bytes) (entities : list E) : GoM (engine D) unit :=
  db_call ;;
  do s <- get;
  log_stmt q ;; db_call ;;
  do d <- exec_rows q entities (en_db s);
  tx_commit d.

Definition SaveBatch (entities : list E) (mode : bytes) : GoM (engine D) unit :=
  match entities with
  | [] => ret tt
  | _ =>
      check (validateTableAndColumns []) ;;
      notifyWrite ;;
      do q <- or_fail (insertQuery mode []);
      exec_batch q entities
  end.

(** The guards of the two upserts. *)
Definition upsert_guard (updateColumns : list bytes) : option error :=
  match validateTableAndColumns updateColumns with
  | Some err => Some err
  | None =>
      if (length (sp_ConflictColumns spec) =? 0)%nat then Some (Errorf "conflictColumns not defined" [])
      else if (length updateColumns =? 0)%nat then Some (Errorf "updateColumns not defined" [])
      else validateIdentifiers (sp_ConflictColumns spec)
  end.

Definition Upsert (entity : E) (updateColumns : list bytes) : GoM (engine D) unit :=
  check (upsert_guard updateColumns) ;;
  notifyWrite ;;
  check (check_count (sp_Values spec entity)) ;;
  db_Exec (Upsert_sql dialect (sp_Table spec) (sp_Columns spec) (sp_ConflictColumns spec) updateColumns)
    (sp_Values spec entity).

Definition UpsertBatch (entities : list E) (updateColumns : list bytes) : GoM (engine D) unit :=
  match entities with
  | [] => ret tt
  | _ =>
      check (upsert_guard updateColumns) ;;
      notifyWrite ;;
      exec_batch (Upsert_sql dialect (sp_Table spec) (sp_Columns spec) (sp_ConflictColumns spec) updateColumns)
        entities
  end.

Definition Delete_entity (key : K) : GoM (engine D) unit :=
  check (validateTableAndColumns (sp_KeyColumns spec)) ;;
  notifyWrite ;;
  db_Exec (str "DELETE FROM " ++ quoteIdent (sp_Table spec) ++ str " WHERE " ++
           whereKeyFor dialect (sp_KeyColumns spec) 1) (sp_KeyArgs spec key).

Definition DeleteAll : GoM (engine D) unit :=
  check (validateTableAndColumns []) ;;
  notifyWrite ;;
  db_Exec (str "DELETE FROM " ++ quoteIdent (sp_Table spec)) [].

(** *** Reading *)

(** The entity found, and the error of [FromRow] with it. *)
Definition Find (key : K) : GoM (engine D) (option E) :=
  check (validateTableAndColumns (sp_KeyColumns spec)) ;;
  do '(rows, err) <- db_Query (str "SELECT " ++ selectColumns (sp_Columns spec) ++ str " FROM " ++
      quoteIdent (sp_Table spec) ++ str " WHERE " ++ whereKeyFor dialect (sp_KeyColumns spec) 1 ++ str " LIMIT 1")
    (sp_KeyArgs spec key);
  match rows with
  | row :: _ => do e <- or_fail (sp_FromRow spec row); ret (Some e)
  | [] => check err ;; ret None
  end.

Fixpoint from_rows (rows : list Row) : list E + error :=
  match rows with
  | [] => inl []
  | row :: rows =>
      match sp_FromRow spec row with
      | inr err => inr err
      | inl e => match from_rows rows with inl es => inl (e :: es) | inr err => inr err end
      end
  end.

Definition read_all_rows (q : bytes) (args : list V) : GoM (engine D) (list E) :=
  do '(rows, err) <- db_Query q args;
  do es <- or_fail (from_rows rows);
  check err ;; ret es.

Definition Load (mode limit offset : Z) (lastID : option Z) : GoM (engine D) (list E) :=
  check (validateTableAndColumns []) ;;
  if mode =? PaginationOffset then
    read_all_rows (str "SELECT " ++ selectColumns (sp_Columns spec) ++ str " FROM " ++ quoteIdent (sp_Table spec) ++
        str " LIMIT " ++ Placeholder dialect 1 ++ str " OFFSET " ++ Placeholder dialect 2)
      [v_int limit; v_int offset]
  else if mode =? PaginationKeyset then
    match sp_IntPrimaryKey spec, lastID with
    | Some pk, Some lastID =>
        check (validateIdentifier pk) ;;
        read_all_rows ([Byte.x0a] ++ str "SELECT " ++ selectColumns (sp_Columns spec) ++ str " FROM " ++
            quoteIdent (sp_Table spec) ++ [Byte.x0a] ++ str "WHERE " ++ quoteIdent pk ++ str " > " ++
            Placeholder dialect 1 ++ [Byte.x0a] ++ str "ORDER BY " ++ quoteIdent pk ++ [Byte.x0a] ++ str "LIMIT " ++
            Placeholder dialect 2 ++ [Byte.x0a])
          [v_int lastID; v_int limit]
    | _, _ => fail (Errorf "keyset pagination not supported" [])
    end
  else fail (Errorf "invalid pagination mode" []).

Definition Count : GoM (engine D) Z :=
  check (validateTableAndColumns []) ;;
  db_QueryInt (str "SELECT COUNT(*) FROM " ++ quoteIdent (sp_Table spec)) [].

Definition IsEmptyFast : GoM (engine D) bool :=
  check (validateTableAndColumns []) ;;
  catch (db_QueryInt (str "SELECT 1 FROM " ++ quoteIdent (sp_Table spec) ++ str " LIMIT 1") [] ;; ret false)
    (fun err => if bool_decide (err = ErrNoRows) then ret true else fail err).

(** *** Migrations of the engine *)

Fixpoint exec_migrations (i : Z) (migrations : list bytes) (d : D) : GoM (engine D) D :=
  match migrations with
  | [] => ret d
  | m :: migrations =>
      do d' <- catch (db_call ;; or_fail (sql_Exec m [] d))
                 (fun err => fail (Wrapf "migration %d failed: %w" [AInt i] err));
      exec_migrations (i + 1) migrations d'
  end.

Definition Engine_Migrate (migrations : list bytes) : GoM (engine D) unit :=
  match migrations with
  | [] => ret tt
  | _ =>
      db_call ;;
      do s <- get;
      do d <- exec_migrations 0 migrations (en_db s);
      tx_commit d
  end.

(** ** A batch is written as a whole or not at all *)

(** The statement for each list of arguments in turn. *)
Fixpoint exec_all (q : bytes) (args : list (list V)) (d : D) : D + error :=
  match args with
  | [] => inl d
  | a :: args => match sql_Exec q a d with inl d' => exec_all q args d' | inr e => inr e end
  end.

Lemma db_call_spec s : exists r s', db_call s = (r, s') /\ en_db s' = en_db s /\ en_log s' = en_log s /\
  match r with Ok _ | Err _ => True | _ => False end.
Proof. unfold db_call. destruct (sql_fault (en_calls s)); by eexists _, _. Qed.

Lemma exec_rows_spec q entities d s :
  exists r s', exec_rows q entities d s = (r, s') /\ en_db s' = en_db s /\ en_log s' = en_log s /\
    match r with
    | Ok d' => exec_all q (sp_Values spec <$> entities) d = inl d' /\ Forall (fun e => check_count (sp_Values spec e) = None) entities
    | Err _ => True
    | _ => False
    end.
Proof.
  revert d s. induction entities as [|e entities IH]; intros d s; cbn [exec_rows].
  { eexists _, s. split; [reflexivity|]. split_and!; try done. }
  unfold bind, check. destruct (check_count (sp_Values spec e)) eqn:Ec; [by eexists _, _|]. unfold ret.
  destruct (db_call_spec s) as ([i|err| |] & s1 & -> & Hd & Hl & Hr); try done; [|by eexists _, _].
  unfold or_fail. cbn [fmap list_fmap exec_all]. destruct (sql_Exec q (sp_Values spec e) d) as [d'|err]; [|by eexists _, _].
  unfold ret. destruct (IH d' s1) as (r & s2 & E2 & Hd2 & Hl2 & Hr2). exists r, s2.
  split; [exact E2|]. split; [congruence|]. split; [congruence|].
  destruct r; try done. destruct Hr2 as [Hr2 Hc]. split; [exact Hr2|by constructor].
Qed.

Lemma tx_commit_spec d s : exists r s', tx_commit d s = (r, s') /\ returned r /\ en_log s' = en_log s /\
  (en_db s' = d \/ en_db s' = en_db s /\ exists e, r = Err e).
Proof.
  unfold tx_commit. destruct (db_call_spec s) as ([i|err| |] & s1 & -> & Hd & Hl & Hr); try done.
  - eexists _, _. split; [reflexivity|]. split_and!; [done|done|by left].
  - destruct (sql_lost (en_calls s)); (eexists _, _; split; [reflexivity|]); (split_and!; [done|done|]); [by left|].
    right. split; [done|eauto].
Qed.

Lemma exec_batch_spec q entities s :
  exists r s', exec_batch q entities s = (r, s') /\ returned r /\
    (en_db s' = en_db s /\ (exists e, r = Err e) \/ exec_all q (sp_Values spec <$> entities) (en_db s) = inl (en_db s')).
Proof.
  unfold exec_batch, bind, get, log_stmt, modify.
  destruct (db_call_spec s) as ([i|err| |] & s1 & -> & Hd1 & Hl1 & Hx); try done; [|eexists _, _; split; [reflexivity|]; eauto].
  set (s2 := mkEngine _ _ _ _).
  destruct (db_call_spec s2) as ([j|err| |] & s3 & -> & Hd3 & Hl3 & Hy); try done;
    [|eexists _, _; split; [reflexivity|]; split; [done|]; left; split; [rewrite Hd3; exact Hd1|eauto]].
  assert (en_db s3 = en_db s) as Hd by (rewrite Hd3; exact Hd1).
  destruct (exec_rows_spec q entities (en_db s1) s3) as ([d|err| |] & s4 & -> & Hd4 & _ & Hr); try done.
  2: { eexists _, _. split; [reflexivity|]. split; [done|]. left. split; [congruence|eauto]. }
  destruct Hr as [Hr _]. rewrite Hd1 in Hr.
  destruct (tx_commit_spec d s4) as (r & s5 & -> & Hret & _ & [Hc|[Hc He]]); (eexists _, _; split; [reflexivity|]);
    (split; [done|]).
  - right. by rewrite Hc.
  - left. split; [congruence|done].
Qed.

(** C26: [SaveBatch] returns whatever calls fail, and writes all entities or
    none: the data is unchanged, or it is the data after the statement has run
    for every entity in order.  When it reports success all are written. *)
Theorem SaveBatch_atomic (entities : list E) (mode : bytes) (s : engine D) :
  exists r s', SaveBatch entities mode s = (r, s') /\ returned r /\
    (en_db s' = en_db s /\ (r = Ok tt -> entities = []) \/
     exists q, insertQuery mode [] = inl q /\
       exec_all q (sp_Values spec <$> entities) (en_db s) = inl (en_db s')).
Proof.
  unfold SaveBatch. destruct entities as [|e entities]; [eexists _, _; split; [reflexivity|]; split; [done|by left]|].
  unfold bind, check. destruct (validateTableAndColumns []).
  { eexists _, _. split; [reflexivity|]. split; [done|]. by left. }
  unfold notifyWrite, modify, ret, or_fail. destruct (insertQuery mode []) as [q|err].
  2: { eexists _, _. split; [reflexivity|]. split; [done|]. by left. }
  set (s1 := mkEngine _ _ _ _). unfold ret. destruct (exec_batch_spec q (e :: entities) s1) as (r & s' & -> & Hr & Hc).
  eexists _, _. split; [reflexivity|]. split; [done|]. destruct Hc as [[Hd [err ->]]|Hc]; [by left|right].
  exists q. split; [done|]. exact Hc.
Qed.

(** C7: [Upsert] sends at most one statement, and only one whose identifiers,
    as the database reads them, are exactly the valid names it was given; with
    an invalid name it sends nothing and changes nothing. *)
Theorem Upsert_sends_valid (entity : E) (updateColumns : list bytes) (s : engine D) :
  let names := sp_Table spec :: sp_Columns spec ++ sp_ConflictColumns spec ++ updateColumns in
  let s' := snd (Upsert entity updateColumns s) in
  (en_log s' = en_log s /\ en_db s' = en_db s \/
   Forall valid names /\ exists q, en_log s' = en_log s ++ [q] /\
     sql_names false [] q = sp_Table spec :: sp_Columns spec ++ sp_ConflictColumns spec ++
       concat ((fun c => [c; c]) <$> updateColumns)) /\
  (~ Forall valid names -> en_log s' = en_log s /\ en_db s' = en_db s).
Proof.
  cbv zeta. unfold Upsert, bind at 1, check at 1. destruct (upsert_guard updateColumns) as [err|] eqn:Hg.
  { split; [by left|done]. }
  assert (valid (sp_Table spec) /\ Forall valid (sp_Columns spec) /\ Forall valid (sp_ConflictColumns spec) /\
    Forall valid updateColumns) as (Ht & Hc & Hk & Hu).
  { unfold upsert_guard, validateTableAndColumns in Hg.
    destruct (validateIdentifier (sp_Table spec)) eqn:Et; [done|].
    destruct (validateIdentifiers (sp_Columns spec ++ updateColumns)) eqn:Ec; [done|].
    apply validateIdentifiers_spec, Forall_app in Ec as [Hcols Hupd].
    destruct (length (sp_ConflictColumns spec) =? 0)%nat; [done|]. destruct (length updateColumns =? 0)%nat; [done|].
    by apply validateIdentifiers_spec in Hg. }
  assert (Forall valid (sp_Table spec :: sp_Columns spec ++ sp_ConflictColumns spec ++ updateColumns)) as Hall
    by (constructor; [done|]; by rewrite !Forall_app).
  split; [|done]. unfold ret, bind, notifyWrite, modify, check. destruct (check_count _) as [err|]; [by left|].
  right. split; [done|]. eexists. split.
  - unfold db_Exec, bind, log_stmt, modify, get, ret, or_fail, put_db. set (s2 := mkEngine _ _ _ _).
    destruct (db_call_spec s2) as ([i|e| |] & s3 & -> & _ & Hl & Hz); try done; [|exact Hl].
    destruct (sql_Exec _ _ _); exact Hl.
  - by apply upsert_names.
Qed.
End engine.

(** An engine that overrides none of them refuses every operation and sends
    nothing. *)
Section unoverridden.
Context `{Unicode} {E K V Row D : Type} `{!SqlServer D V Row}.

Lemma defaults_refuse (driver : bytes) (dialect : Dialect) (columns : list bytes) (values : E -> list V)
    (entity : E) (key : K) (mode : bytes) (s : engine D) :
  let b := NewBaseEngine driver dialect (base_defaults (K := K) (Row := Row) columns values) in
  let err := Wrapf "%w: identifier is empty" [] ErrInvalidIdentifier in
  Save (be_driver b) (be_dialect b) (be_spec b) entity mode s = (Err err, s) /\
  Find (be_dialect b) (be_spec b) key s = (Err err, s) /\
  Count (be_spec b) s = (Err err, s).
Proof. done. Qed.
End unoverridden.

(** ** Statements from files *)

(** The lines of a file; [buf] is the statement being collected. *)
Fixpoint scan_lines (lines : list bytes) (buf : bytes) (out : list bytes) : bytes * list bytes :=
  match lines with
  | [] => (buf, out)
  | line :: lines =>
      let line := TrimSpace line in
      if bool_decide (line = []) || HasPrefix line (str "--") then scan_lines lines buf out
      else
        let buf := buf ++ line ++ str " " in
        if HasSuffix line (str ";")
        then scan_lines lines [] (out ++ [TrimSpace (TrimSuffix buf (str ";"))])
        else scan_lines lines buf out
  end.

Fixpoint scan_files (read : bytes -> bytes + error) (paths : list bytes) (buf : bytes) (out : list bytes)
    : (bytes * list bytes) + error :=
  match paths with
  | [] => inl (buf, out)
  | p :: paths =>
      match read p with
      | inr err => inr err
      | inl data => let '(buf, out) := scan_lines (Split data [Byte.x0a]) buf out in scan_files read paths buf out
      end
  end.

Definition loadSQLFiles (read : bytes -> bytes + error) (paths : list bytes) : list bytes + error :=
  match scan_files read paths [] [] with
  | inr err => inr err
  | inl ([], out) => inl out
  | inl (buf, out) => inl (out ++ [TrimSpace buf])
  end.

(** A comment, two statements of which one spans lines, and an open one. *)
Example loadSQLFiles_example :
  loadSQLFiles (fun _ => inl (str "-- tables" ++ [Byte.x0a] ++ str "CREATE TABLE a (" ++ [Byte.x0a] ++ str "  x INT);" ++
      [Byte.x0a] ++ str "DROP b;" ++ [Byte.x0a] ++ str "SELECT 1")) [str "f"] =
  inl [str "CREATE TABLE a ( x INT);"; str "DROP b;"; str "SELECT 1"].
Proof. vm_compute. reflexivity. Qed.
