(* ===== verification/Database.v ===== *)
(** * Database: opening a database and keeping it tidy

    Models [Open], [Start], [Close] and the maintenance of
    [database/engine.go], [scheduler.go] and [Init] of the dialects, over the
    statements and the database of [Engine].  [database/sql]'s registry and
    [sql.Open], and [os.MkdirAll], are parameters.  A handle is open or closed;
    a call on a closed handle fails. *)

From Stdlib Require Import Floats.SpecFloat.
From S2P Require Import Prelude Bytes GoStrings Paths Sql Migrations Engine Json.

Local Open Scope Z_scope.

Record Config := mkConfig {
  cf_Driver : bytes;
  cf_DSN : bytes;
  cf_MaxOpenConns : Z;
  cf_MaxIdleConns : Z;
  cf_ConnMaxLifetime : Z;
  cf_AutoMigrate : bool;
  cf_Migrations : list bytes;
  cf_EnableMaintenance : bool;
}.

(** [sql.Drivers()], the error of [sql.Open], the error of [os.MkdirAll]. *)
Class SqlRuntime := {
  sql_Drivers : list bytes;
  sql_Open : bytes -> bytes -> option error;
  os_MkdirAll : bytes -> option error;
}.

(** The maintenance scheduler: whether its goroutine runs and whether its
    channel [stop] is closed. *)
Record DBMaintenanceScheduler := mkSched { sc_running : bool; sc_stop : bool }.

Definition NewDBMaintenanceScheduler : DBMaintenanceScheduler := mkSched false false.

(** The engine's database, the handle ([None] before it exists), the limits
    set on the pool, the directories made and the scheduler. *)
Record dbstate (D : Type) := mkDS {
  ds_engine : engine D;
  ds_handle : option bool;
  ds_limits : option Z * option Z * option Z;
  ds_dirs : list bytes;
  ds_scheduler : option DBMaintenanceScheduler;
}.
Arguments mkDS {D}.
Arguments ds_engine {D}.
Arguments ds_handle {D}.
Arguments ds_limits {D}.
Arguments ds_dirs {D}.
Arguments ds_scheduler {D}.

(** The fields of [DatabaseEngine] that do not change. *)
Record DatabaseEngine := mkDE { de_driver : bytes; de_dialect : Dialect; de_sqls : list bytes }.

Definition ErrDBClosed : error := Sentinel "sql: database is closed".

Section database.
Context `{Unicode} {V Row D : Type} `{!SqlServer D V Row} {Rt : SqlRuntime}.

(** *** Statements without arguments *)

Definition exec (q : bytes) : GoM (engine D) unit := db_Exec (Row := Row) (V := V) q [].

Fixpoint exec_stmts (qs : list bytes) : GoM (engine D) unit :=
  match qs with
  | [] => ret tt
  | q :: qs => exec q ;; exec_stmts qs
  end.

Definition init_stmts (d : Dialect) : list bytes :=
  match d with
  | SQLiteDialect =>
      [str "PRAGMA journal_mode = WAL;"; str "PRAGMA synchronous = NORMAL;"; str "PRAGMA foreign_keys = ON;"]
  | PostgresDialect => []
  end.
Definition Init (d : Dialect) : GoM (engine D) unit := exec_stmts (init_stmts d).

(** *** Opening *)

Definition set_handle (h : option bool) : GoM (dbstate D) unit :=
  modify (fun s => mkDS (ds_engine s) h (ds_limits s) (ds_dirs s) (ds_scheduler s)).
Definition set_limits (l : option Z * option Z * option Z) : GoM (dbstate D) unit :=
  modify (fun s => mkDS (ds_engine s) (ds_handle s) l (ds_dirs s) (ds_scheduler s)).
Definition set_scheduler (c : option DBMaintenanceScheduler) : GoM (dbstate D) unit :=
  modify (fun s => mkDS (ds_engine s) (ds_handle s) (ds_limits s) (ds_dirs s) c).

(** Calls on the handle, of which the first fails when it is closed; for code
    that begins with one. *)
Definition on_db {A} (m : GoM (engine D) A) : GoM (dbstate D) A := fun s =>
  match ds_handle s with
  | Some true =>
      let '(r, e) := m (ds_engine s) in
      (r, mkDS e (ds_handle s) (ds_limits s) (ds_dirs s) (ds_scheduler s))
  | _ => (Err ErrDBClosed, s)
  end.

Definition db_Close : GoM (dbstate D) unit := set_handle (Some false).

Definition isSQLDriverRegistered (name : bytes) : bool := existsb (fun r => bool_decide (r = name)) sql_Drivers.

Definition ensureSQLiteParentDir (dsn : bytes) : GoM (dbstate D) unit :=
  if bool_decide (dsn = str ":memory:") || HasPrefix dsn (str "file:") then ret tt
  else
    let parentDir := filepath_Dir dsn in
    if bool_decide (parentDir = str ".") || bool_decide (parentDir = []) then ret tt
    else match os_MkdirAll parentDir with
         | Some err => fail err
         | None => modify (fun s => mkDS (ds_engine s) (ds_handle s) (ds_limits s) (ds_dirs s ++ [parentDir]) (ds_scheduler s))
         end.

Definition positive (z : Z) : option Z := if 0 <? z then Some z else None.

(** An error after [sql.Open] closes the handle. *)
Definition or_close {A} (m : GoM (dbstate D) A) : GoM (dbstate D) A :=
  catch m (fun err => ignore db_Close ;; fail err).

(** [Start] of the scheduler: the goroutine runs. *)
Definition Scheduler_Start : GoM (dbstate D) unit :=
  set_scheduler (Some (mkSched true (sc_stop NewDBMaintenanceScheduler))).

Definition Open (config : Config) : GoM (dbstate D) DatabaseEngine :=
  if bool_decide (cf_Driver config = []) then fail ErrEmptyDriver
  else if bool_decide (TrimSpace (cf_DSN config) = []) then fail ErrEmptyDSN
  else
    match dialectForDriver (cf_Driver config) with
    | inr err => fail err
    | inl dialect =>
        (if bool_decide (cf_Driver config = DriverSQLite) then ensureSQLiteParentDir (cf_DSN config) else ret tt) ;;
        if negb (isSQLDriverRegistered (DriverName dialect))
        then fail (Errorf "database driver %q is not registered" [AQuote (DriverName dialect)])
        else
          match sql_Open (DriverName dialect) (cf_DSN config) with
          | Some err => fail err
          | None =>
              set_handle (Some true) ;;
              set_limits (positive (cf_MaxOpenConns config), positive (cf_MaxIdleConns config),
                          positive (cf_ConnMaxLifetime config)) ;;
              or_close (on_db (Init dialect)) ;;
              (if cf_AutoMigrate config
               then or_close (on_db (Engine_Migrate (V := V) (Row := Row) (cf_Migrations config))) else ret tt) ;;
              (if cf_EnableMaintenance config && SupportsMaintenance dialect
               then Scheduler_Start else ret tt) ;;
              ret (mkDE (cf_Driver config) dialect (cf_Migrations config))
          end
    end.

(** [read] reads a file. *)
Definition startWithPath (read : bytes -> bytes + error) (path : bytes) (sqlFiles table : list bytes)
    : GoM (dbstate D) DatabaseEngine :=
  let path := TrimSpace path in
  if bool_decide (path = []) then fail (Errorf "database path is empty" [])
  else
    do migrations <- (match sqlFiles, table with
                      | _ :: _, _ => match loadSQLFiles read sqlFiles with inl ms => ret ms | inr err => fail err end
                      | [], _ :: _ => ret table
                      | [], [] => fail (Errorf "no database migrations provided" [])
                      end);
    Open (mkConfig DriverSQLite path 0 0 0 true migrations true).

Definition Start (read : bytes -> bytes + error) (fileName : bytes) (sqlFiles table : list bytes) : GoM (dbstate D) DatabaseEngine :=
  startWithPath read (path_Join (str "database") fileName) sqlFiles table.
Definition StartAtPath (read : bytes -> bytes + error) (path : bytes) (sqlFiles table : list bytes) : GoM (dbstate D) DatabaseEngine :=
  startWithPath read path sqlFiles table.

(** [Stop]: closing a closed channel panics; the goroutine sees the close. *)
Definition Scheduler_Stop : GoM (dbstate D) unit :=
  do s <- get;
  match ds_scheduler s with
  | None => panic
  | Some c => if sc_stop c then panic else set_scheduler (Some (mkSched (sc_running c) true))
  end.

Definition Engine_Close : GoM (dbstate D) unit :=
  do s <- get;
  (match ds_scheduler s with Some _ => Scheduler_Stop | None => ret tt end) ;;
  db_Close.

(** [PingContext] reaches the database or fails. *)
Definition Engine_Ping : GoM (dbstate D) unit := on_db (db_call (V := V) (Row := Row) ;; ret tt).
Definition Driver_of (e : DatabaseEngine) : bytes := de_driver e.

(** *** Maintenance *)

Definition checkpoint (dialect : Dialect) (truncate : bool) : GoM (engine D) unit :=
  if negb (SupportsMaintenance dialect) then ret tt
  else if truncate then exec (str "PRAGMA wal_checkpoint(TRUNCATE);")
  else exec (str "PRAGMA wal_checkpoint(PASSIVE);").

Definition vacuum : GoM (engine D) unit :=
  exec (str "PRAGMA wal_checkpoint(TRUNCATE);") ;; exec (str "VACUUM;").

(** [float64(free) / float64(pageCount) >= threshold]. *)
Definition vacuum_due (free pageCount : Z) (threshold : float64) : bool :=
  SFleb threshold (SFdiv 53 1024 (float_of_int free) (float_of_int pageCount)).

Definition maybeVacuum (dialect : Dialect) (threshold : float64) : GoM (engine D) unit :=
  if negb (SupportsMaintenance dialect) then ret tt
  else
    do pageCount <- db_QueryInt (V := V) (Row := Row) (str "PRAGMA page_count;") [];
    do free <- db_QueryInt (V := V) (Row := Row) (str "PRAGMA freelist_count;") [];
    if pageCount =? 0 then ret tt
    else if vacuum_due free pageCount threshold then vacuum else ret tt.

(** 0.25 *)
Definition quarter : float64 := binary_normalize 53 1024 1 (-2) false.

Inductive tick := TickCheckpoint | TickTruncate | TickVacuum.

Definition cooldown : Z := 30 * 1000000000.

(** What the goroutine does when a ticker ticks at the time [now]. *)
Definition maintain (dialect : Dialect) (t : tick) (now : Z) : GoM (engine D) unit :=
  do s <- get;
  if isWriteHot cooldown now s then ret tt
  else ignore (match t with
               | TickCheckpoint => checkpoint dialect false
               | TickTruncate => checkpoint dialect true
               | TickVacuum => maybeVacuum dialect quarter
               end).

(** A tick on an engine that may have been closed: its statements then fail,
    and their errors are dropped. *)
Definition maintain_db (dialect : Dialect) (t : tick) (now : Z) : GoM (dbstate D) unit :=
  ignore (on_db (maintain dialect t now)).

(** The goroutine, [Close], and what others do: [others] is what becomes of the
    database when a call of theirs, or a transaction they have begun, goes on.
    [Close] does not keep a transaction from going on that was begun before. *)
Inductive maint_step (dialect : Dialect) (others : engine D -> engine D -> Prop) : dbstate D -> dbstate D -> Prop :=
| m_tick s c t now :
    ds_scheduler s = Some c -> sc_running c = true ->
    maint_step dialect others s (snd (maintain_db dialect t now s))
| m_stop s c :
    ds_scheduler s = Some c -> sc_running c = true -> sc_stop c = true ->
    maint_step dialect others s (snd (set_scheduler (Some (mkSched false true)) s))
| m_other s e :
    others (ds_engine s) e ->
    maint_step dialect others s (mkDS e (ds_handle s) (ds_limits s) (ds_dirs s) (ds_scheduler s))
| m_close s s' :
    Engine_Close s = (Ok tt, s') -> maint_step dialect others s s'.
End database.

(** ** What statements do *)

Section statements.
Context `{Unicode} {V Row D : Type} `{!SqlServer D V Row} {Rt : SqlRuntime}.

(** The database after these statements, in order. *)
Fixpoint run_stmts (qs : list bytes) (d : D) : D + error :=
  match qs with
  | [] => inl d
  | q :: qs => match sql_Exec (V := V) (Row := Row) q [] d with inl d' => run_stmts qs d' | inr err => inr err end
  end.

Lemma run_stmts_app qs1 qs2 d d1 : run_stmts qs1 d = inl d1 -> run_stmts (qs1 ++ qs2) d = run_stmts qs2 d1.
Proof.
  revert d. induction qs1 as [|q qs1 IH]; intros d; cbn; [by intros [= ->]|].
  destruct (sql_Exec q [] d); [apply IH|done].
Qed.

Lemma db_Exec_spec q args s :
  exists r s', db_Exec (V := V) (Row := Row) q args s = (r, s') /\ en_log s' = en_log s ++ [q] /\
    match r with
    | Ok _ => sql_Exec (V := V) (Row := Row) q args (en_db s) = inl (en_db s')
    | Err _ => en_db s' = en_db s
    | _ => False
    end.
Proof.
  unfold db_Exec, log_stmt, modify, get, bind at 1. cbv beta iota.
  destruct (db_call_spec (V := V) (Row := Row) (mkEngine (en_db s) (en_calls s) (en_lastWrite s) (en_log s ++ [q])))
    as ([i|e| |] & s1 & E & Hd & Hl & Hz); try done; unfold bind at 1; rewrite E.
  - cbn in Hd, Hl. unfold bind, or_fail, put_db, modify, ret, fail. rewrite Hd. destruct (sql_Exec q args (en_db s)) as [d|err] eqn:Es;
      eexists _, _; (split; [reflexivity|]); done.
  - eexists _, _. split; [reflexivity|]. done.
Qed.

Lemma exec_spec q s :
  exists r s', exec (V := V) (Row := Row) q s = (r, s') /\ en_log s' = en_log s ++ [q] /\
    match r with
    | Ok _ => sql_Exec (V := V) (Row := Row) q [] (en_db s) = inl (en_db s')
    | Err _ => en_db s' = en_db s
    | _ => False
    end.
Proof. apply db_Exec_spec. Qed.

Lemma exec_stmts_spec qs s :
  exists r s' k, exec_stmts (V := V) (Row := Row) qs s = (r, s') /\
    (k <= length qs)%nat /\ run_stmts (take k qs) (en_db s) = inl (en_db s') /\
    match r with
    | Ok _ => k = length qs /\ en_log s' = en_log s ++ qs
    | Err _ => True
    | _ => False
    end.
Proof.
  revert s. induction qs as [|q qs IH]; intros s; cbn [exec_stmts].
  { exists (Ok tt), s, 0%nat. cbn. rewrite app_nil_r. split_and!; try done. }
  destruct (exec_spec q s) as (r & s1 & E & Hl & Hr). unfold bind. rewrite E. destruct r as [[]|e| |]; try done.
  - destruct (IH s1) as (r & s2 & k & E2 & Hk & Hd & Hr2). rewrite E2. exists r, s2, (S k). cbn [length take run_stmts].
    rewrite Hr. split_and!; [done|lia|done|]. destruct r; try done. destruct Hr2 as [-> Hl2].
    split; [done|]. by rewrite Hl2, Hl, <- app_assoc.
  - exists (Err e), s1, 0%nat. cbn. rewrite Hr. split_and!; try done. lia.
Qed.

Lemma exec_migrations_spec i ms d s :
  exists r s', exec_migrations (V := V) (Row := Row) i ms d s = (r, s') /\ en_db s' = en_db s /\ en_log s' = en_log s /\
    match r with
    | Ok d' => run_stmts ms d = inl d'
    | Err _ => True
    | _ => False
    end.
Proof.
  revert i d s. induction ms as [|m ms IH]; intros i d s; cbn [exec_migrations run_stmts]; [by eexists _, _|].
  destruct (db_call_spec (V := V) (Row := Row) s) as ([j|e| |] & s1 & E & Hd & Hl & Hz); try done;
    unfold bind at 1, catch, bind at 1; rewrite E.
  - unfold or_fail. destruct (sql_Exec m [] d) as [d'|err]; unfold ret, fail; cbv beta iota.
    + destruct (IH (i + 1) d' s1) as (r & s2 & E2 & Hd2 & Hl2 & Hr). exists r, s2. split_and!; try done; congruence.
    + by eexists _, _.
  - by eexists _, _.
Qed.

(** The migrations of the engine are applied as a whole or not at all. *)
Lemma Engine_Migrate_spec ms s :
  exists r s', Engine_Migrate (V := V) (Row := Row) ms s = (r, s') /\ en_log s' = en_log s /\
    match r with
    | Ok _ => run_stmts ms (en_db s) = inl (en_db s')
    | Err _ => en_db s' = en_db s \/ run_stmts ms (en_db s) = inl (en_db s')
    | _ => False
    end.
Proof.
  unfold Engine_Migrate. destruct ms as [|m ms]; [by eexists _, _|].
  destruct (db_call_spec (V := V) (Row := Row) s) as ([j|e| |] & s1 & E & Hd & Hl & Hz); try done;
    unfold bind at 1; rewrite E; [|eexists _, _; split; [reflexivity|]; by split; [|left]].
  unfold get, bind at 1. cbv beta iota.
  destruct (exec_migrations_spec 0 (m :: ms) (en_db s1) s1) as (r & s2 & E2 & Hd2 & Hl2 & Hr).
  unfold bind at 1. rewrite E2. rewrite Hd in Hr. destruct r as [d|err| |]; try done.
  - destruct (tx_commit_spec (V := V) (Row := Row) d s2) as (r & s3 & E3 & Hret & Hl3 & Hd3). exists r, s3.
    rewrite E3. split; [done|]. split; [congruence|]. destruct r; try done.
    + by destruct Hd3 as [->|[_ [e ?]]].
    + destruct Hd3 as [->|[-> _]]; [by right|left; congruence].
  - exists (Err err), s2. split_and!; try done; [congruence|]. left. congruence.
Qed.
End statements.

(** ** Opening *)

Section open.
Context `{Unicode} {V Row D : Type} `{!SqlServer D V Row} {Rt : SqlRuntime}.

(** What an attempt to open leaves. *)
Definition migrations_of_config (config : Config) : list bytes :=
  if cf_AutoMigrate config then cf_Migrations config else [].

Definition opened_well (config : Config) (s s' : dbstate D) (e : DatabaseEngine) : Prop :=
  dialectForDriver (cf_Driver config) = inl (de_dialect e) /\ DriverName (de_dialect e) ∈ sql_Drivers /\
  ds_handle s' = Some true /\
  ds_scheduler s' = (if cf_EnableMaintenance config && SupportsMaintenance (de_dialect e)
                     then Some (mkSched true false) else None) /\
  en_log (ds_engine s') = en_log (ds_engine s) ++ init_stmts (de_dialect e) /\
  run_stmts (V := V) (Row := Row) (init_stmts (de_dialect e) ++ migrations_of_config config) (en_db (ds_engine s)) =
    inl (en_db (ds_engine s')).

Lemma or_close_err {A} (m : GoM (dbstate D) A) s err s' :
  m s = (Err err, s') -> or_close m s = (Err err, snd (db_Close s')).
Proof. intros E. unfold or_close, catch. by rewrite E. Qed.

Lemma or_close_ok {A} (m : GoM (dbstate D) A) s a s' : m s = (Ok a, s') -> or_close m s = (Ok a, s').
Proof. intros E. unfold or_close, catch. by rewrite E. Qed.

Lemma registered_elem name : isSQLDriverRegistered name = true -> name ∈ sql_Drivers.
Proof.
  unfold isSQLDriverRegistered. rewrite existsb_exists. intros (r & Hin & Hr). bools. subst.
  by apply list_elem_of_In.
Qed.

Lemma ensureSQLiteParentDir_spec dsn (s : dbstate D) :
  exists r s', ensureSQLiteParentDir dsn s = (r, s') /\ returned r /\ ds_engine s' = ds_engine s /\
    ds_handle s' = ds_handle s /\ ds_scheduler s' = ds_scheduler s.
Proof.
  unfold ensureSQLiteParentDir. case_if; [by eexists _, _|]. cbv zeta. case_if; [by eexists _, _|].
  destruct (os_MkdirAll _); by eexists _, _.
Qed.

(** From the opened handle on. *)
Lemma init_migrate_spec (dialect : Dialect) (config : Config) (s : dbstate D) :
  ds_handle s = Some true ->
  exists r s', (or_close (on_db (Init (V := V) (Row := Row) dialect)) ;;
      (if cf_AutoMigrate config
       then or_close (on_db (Engine_Migrate (V := V) (Row := Row) (cf_Migrations config))) else ret tt)) s = (r, s') /\
    ds_scheduler s' = ds_scheduler s /\
    match r with
    | Ok _ => ds_handle s' = Some true /\
        en_log (ds_engine s') = en_log (ds_engine s) ++ init_stmts dialect /\
        run_stmts (V := V) (Row := Row) (init_stmts dialect ++ migrations_of_config config) (en_db (ds_engine s)) =
          inl (en_db (ds_engine s'))
    | Err _ => ds_handle s' = Some false /\
        exists k, (k <= length (init_stmts dialect) \/ k = length (init_stmts dialect ++ migrations_of_config config))%nat /\
          run_stmts (V := V) (Row := Row) (take k (init_stmts dialect ++ migrations_of_config config)) (en_db (ds_engine s)) =
            inl (en_db (ds_engine s'))
    | _ => False
    end.
Proof.
  intros Hh. unfold bind at 1, Init.
  destruct (exec_stmts_spec (V := V) (Row := Row) (init_stmts dialect) (ds_engine s)) as (r & e1 & k & E & Hk & Hd & Hr).
  destruct r as [[]|err| |]; try done.
  2: { erewrite or_close_err by (unfold on_db; rewrite Hh, E; reflexivity). eexists _, _. split; [reflexivity|].
       split; [done|]. split; [done|]. exists k. split; [by left|]. cbn. by rewrite take_app_le. }
  destruct Hr as [-> Hl]. rewrite firstn_all in Hd.
  erewrite or_close_ok by (unfold on_db; rewrite Hh, E; reflexivity).
  unfold migrations_of_config. destruct (cf_AutoMigrate config).
  2: { eexists _, _. split; [reflexivity|]. split; [done|]. split; [done|]. rewrite app_nil_r. done. }
  destruct (Engine_Migrate_spec (V := V) (Row := Row) (cf_Migrations config) e1) as (r & e2 & E2 & Hl2 & Hr2).
  destruct r as [[]|err| |]; try done.
  - erewrite or_close_ok by (unfold on_db; cbn [ds_handle ds_engine]; rewrite ?Hh, E2; reflexivity).
    eexists _, _. split; [reflexivity|]. split; [done|]. split; [done|]. split; [cbn; congruence|].
    by rewrite (run_stmts_app _ _ _ _ Hd).
  - erewrite or_close_err by (unfold on_db; cbn [ds_handle ds_engine]; rewrite ?Hh, E2; reflexivity).
    eexists _, _. split; [reflexivity|]. split; [done|]. split; [done|]. destruct Hr2 as [Hr2|Hr2].
    + exists (length (init_stmts dialect)). split; [by left|]. rewrite take_app_length. cbn. congruence.
    + eexists. split; [by right|]. rewrite firstn_all, (run_stmts_app _ _ _ _ Hd). done.
Qed.

Lemma Open_returns (config : Config) (s : dbstate D)
    (Hnew : ds_handle s = None) (Hsched : ds_scheduler s = None) :
  exists r s', Open (V := V) (Row := Row) config s = (r, s') /\
    match r with
    | Ok e => opened_well config s s' e
    | Err _ => ds_handle s' <> Some true /\ ds_scheduler s' = None /\
        (en_db (ds_engine s') = en_db (ds_engine s) \/
         exists dialect k, dialectForDriver (cf_Driver config) = inl dialect /\
           (k <= length (init_stmts dialect) \/ k = length (init_stmts dialect ++ migrations_of_config config))%nat /\
           run_stmts (V := V) (Row := Row) (take k (init_stmts dialect ++ migrations_of_config config))
             (en_db (ds_engine s)) = inl (en_db (ds_engine s')))
    | _ => False
    end.
Proof.
  assert (forall err s1, ds_engine s1 = ds_engine s -> ds_handle s1 = None -> ds_scheduler s1 = None ->
    exists r s', (Err err : outcome DatabaseEngine, s1) = (r, s') /\ match r with Ok e => opened_well config s s' e
      | Err _ => ds_handle s' <> Some true /\ ds_scheduler s' = None /\
        (en_db (ds_engine s') = en_db (ds_engine s) \/ exists dialect k, dialectForDriver (cf_Driver config) = inl dialect /\
           (k <= length (init_stmts dialect) \/ k = length (init_stmts dialect ++ migrations_of_config config))%nat /\
           run_stmts (V := V) (Row := Row) (take k (init_stmts dialect ++ migrations_of_config config))
             (en_db (ds_engine s)) = inl (en_db (ds_engine s'))) | _ => False end) as Hfail.
  { intros err s1 E1 E2 E3. eexists _, _. split; [reflexivity|]. rewrite E1, E2. split_and!; [done|done|by left]. }
  unfold Open. case_if; [by apply Hfail|]. case_if; [by apply Hfail|].
  destruct (dialectForDriver (cf_Driver config)) as [dialect|err] eqn:Edial; [|by apply Hfail].
  assert (exists r1 s1, (if bool_decide (cf_Driver config = DriverSQLite) then ensureSQLiteParentDir (cf_DSN config) else ret tt) s
    = (r1, s1) /\ returned r1 /\ ds_engine s1 = ds_engine s /\ ds_handle s1 = ds_handle s /\ ds_scheduler s1 = ds_scheduler s)
    as (r1 & s1 & E1 & Hr1 & He1 & Hh1 & Hs1).
  { case_if; [apply ensureSQLiteParentDir_spec|by eexists _, _]. }
  unfold bind at 1. rewrite E1. destruct r1 as [[]|err| |]; try done; [|apply Hfail; congruence].
  case_if; [apply Hfail; congruence|]. destruct (sql_Open _ _); [apply Hfail; congruence|].
  unfold set_handle, set_limits, modify, bind at 1, bind at 1. cbv beta iota.
  match goal with |- context [bind (or_close (on_db (Init _))) _ ?s2] => set (s2' := s2) end.
  destruct (init_migrate_spec dialect config s2' eq_refl) as (r & s3 & E3 & Hs3 & Hr).
  match goal with |- context [bind ?m (fun _ => bind ?k ?h) s2'] =>
    pose proof (bind_assoc m (fun _ => k) h s2') as Ea end.
  rewrite <- Ea. clear Ea. unfold bind at 1. rewrite E3. destruct r as [[]|err| |]; try done.
  - destruct Hr as (Hh & Hl & Hd). eassert (exists s4, (if cf_EnableMaintenance config && SupportsMaintenance dialect
      then Scheduler_Start else ret tt) s3 = (Ok tt, s4) /\ ds_engine s4 = ds_engine s3 /\ ds_handle s4 = ds_handle s3 /\
      ds_scheduler s4 = (if cf_EnableMaintenance config && SupportsMaintenance dialect
        then Some (mkSched true false) else ds_scheduler s3)) as (s4 & E4 & He4 & Hh4 & Hs4).
    { destruct (cf_EnableMaintenance config && SupportsMaintenance dialect); by eexists. }
    unfold bind. rewrite E4. eexists _, _. split; [reflexivity|]. unfold opened_well. cbn [de_dialect].
    rewrite He4, Hh4, Hs4, Hl. split_and!; try done.
    + by apply registered_elem.
    + case_if; [done|]. rewrite Hs3. unfold s2'. cbn. congruence.
    + unfold s2'. cbn. by rewrite He1.
    + unfold s2' in Hd. cbn in Hd. by rewrite He1 in Hd.
  - destruct Hr as (Hh & k & Hk & Hd). eexists _, _. split; [reflexivity|]. rewrite Hh. split_and!; [done| |].
    + rewrite Hs3. unfold s2'. cbn. congruence.
    + right. exists dialect, k. split_and!; [done|done|]. unfold s2' in Hd. cbn in Hd. by rewrite He1 in Hd.
Qed.

(** C25: opening a database succeeds completely or leaves nothing open: whatever
    calls fail, [Open] returns, either an engine whose handle is open, whose
    dialect is the driver's and registered, on which the dialect's settings and
    then the migrations have run, and whose scheduler runs exactly when it was
    asked for and the dialect has maintenance, or an error with no handle open
    and no goroutine started; the migrations have then run completely, when
    only the answer to their commit was lost, or not at all. *)
Theorem Open_safe (config : Config) (s : dbstate D)
    (Hnew : ds_handle s = None) (Hsched : ds_scheduler s = None) :
  exists r s', Open (V := V) (Row := Row) config s = (r, s') /\
    match r with
    | Ok e => opened_well config s s' e
    | Err _ => ds_handle s' <> Some true /\ ds_scheduler s' = None /\
        (en_db (ds_engine s') = en_db (ds_engine s) \/
         exists dialect k, dialectForDriver (cf_Driver config) = inl dialect /\
           (k <= length (init_stmts dialect) \/ k = length (init_stmts dialect ++ migrations_of_config config))%nat /\
           run_stmts (V := V) (Row := Row) (take k (init_stmts dialect ++ migrations_of_config config))
             (en_db (ds_engine s)) = inl (en_db (ds_engine s')))
    | _ => False
    end.
Proof. by apply Open_returns. Qed.
End open.

(** ** Closing *)

Section close.
Context `{Unicode} {V Row D : Type} `{!SqlServer D V Row} {Rt : SqlRuntime}.

(** Closing an engine twice crashes the program when its maintenance is on:
    the first [Close] stops the scheduler and closes the handle, the second
    closes the scheduler's channel again, which panics; without maintenance a
    second [Close] is harmless. *)
Theorem Close_twice_panics (s : dbstate D) (c : DBMaintenanceScheduler)
    (Hsched : ds_scheduler s = Some c) (Hstop : sc_stop c = false) :
  exists s1 s2, Engine_Close s = (Ok tt, s1) /\ ds_handle s1 = Some false /\ Engine_Close s1 = (Panic, s2) /\
    let s0 := mkDS (ds_engine s) (ds_handle s) (ds_limits s) (ds_dirs s) None in
    exists s3, Engine_Close s0 = (Ok tt, s3) /\ Engine_Close s3 = (Ok tt, s3).
Proof.
  destruct c as [run stop], s as [e h l d sch]. cbn in *. subst. destruct run;
    eexists _, _; (split; [reflexivity|]); (split; [done|]); (split; [reflexivity|]); by eexists.
Qed.

(** A driver nobody registered cannot be opened: the module registers SQLite's
    only, so [DriverPostgres] fails unless the program brings a driver of that
    name. *)
Theorem Open_unregistered (config : Config) (s : dbstate D)
    (Hdriver : cf_Driver config = DriverPostgres) (Hdsn : TrimSpace (cf_DSN config) <> [])
    (Hreg : sql_Drivers = [str "sqlite"]) :
  Open (V := V) (Row := Row) config s =
    (Err (Errorf "database driver %q is not registered" [AQuote (str "postgres")]), s).
Proof.
  unfold Open. rewrite Hdriver. rewrite (bool_decide_eq_false_2 (TrimSpace _ = [])) by done.
  rewrite (bool_decide_eq_false_2 (DriverPostgres = [])) by done.
  change (dialectForDriver DriverPostgres) with (inl PostgresDialect : Dialect + error).
  rewrite (bool_decide_eq_false_2 (DriverPostgres = DriverSQLite)) by done. unfold bind, ret. cbv beta iota.
  unfold isSQLDriverRegistered. rewrite Hreg. done.
Qed.

(** *** Maintenance *)

(** The statements of a tick. *)
Definition maint_stmts (dialect : Dialect) (t : tick) : list bytes :=
  match dialect, t with
  | PostgresDialect, _ => []
  | SQLiteDialect, TickCheckpoint => [str "PRAGMA wal_checkpoint(PASSIVE);"]
  | SQLiteDialect, TickTruncate => [str "PRAGMA wal_checkpoint(TRUNCATE);"]
  | SQLiteDialect, TickVacuum =>
      [str "PRAGMA page_count;"; str "PRAGMA freelist_count;"; str "PRAGMA wal_checkpoint(TRUNCATE);"; str "VACUUM;"]
  end.

(** [m] returns and has sent the first statements of [qs]; when it fails, or
    when it may stop early, not all of them. *)
Definition sends (qs : list bytes) (m : GoM (engine D) unit) : Prop :=
  forall s, exists r s' k, m s = (r, s') /\ returned r /\ en_log s' = en_log s ++ take k qs /\
    en_lastWrite s' = en_lastWrite s.

Lemma db_call_lastWrite s : en_lastWrite (snd (db_call (V := V) (Row := Row) s)) = en_lastWrite s.
Proof. unfold db_call. by destruct (sql_fault (en_calls s)). Qed.

Lemma exec_sends q qs m : sends qs m -> sends (q :: qs) (exec (V := V) (Row := Row) q ;; m).
Proof.
  intros Hm s. destruct (exec_spec (V := V) (Row := Row) q s) as (r & s1 & E & Hl & Hr).
  assert (en_lastWrite s1 = en_lastWrite s) as Hw.
  { pose proof (db_call_lastWrite (mkEngine (en_db s) (en_calls s) (en_lastWrite s) (en_log s ++ [q]))) as Hc.
    unfold exec, db_Exec, log_stmt, modify, get, bind at 1, bind at 1 in E. cbv beta iota in E.
    destruct (db_call _) as [[i|e| |] s0] eqn:Ec; cbn in Hc; [|by injection E as <- <-..].
    unfold bind, or_fail, put_db, modify, ret, fail in E. destruct (sql_Exec q [] _); injection E as <- <-; done. }
  unfold bind. rewrite E. destruct r as [[]|e| |]; try done.
  - destruct (Hm s1) as (r & s2 & k & E2 & Hr2 & Hl2 & Hw2). exists r, s2, (S k). cbn [take].
    split_and!; try done; [|congruence]. by rewrite Hl2, Hl, <- app_assoc.
  - by exists (Err e), s1, 1%nat.
Qed.

Lemma ret_sends qs : sends qs (ret tt).
Proof. intros s. exists (Ok tt), s, 0%nat. cbn. by rewrite app_nil_r. Qed.

Lemma query_sends q qs (m : Z -> GoM (engine D) unit) :
  (forall z, sends qs (m z)) -> sends (q :: qs) (do z <- db_QueryInt (V := V) (Row := Row) q []; m z).
Proof.
  intros Hm s.
  assert (exists r s1, db_QueryInt (V := V) (Row := Row) q [] s = (r, s1) /\ returned r /\
    en_log s1 = en_log s ++ [q] /\ en_lastWrite s1 = en_lastWrite s) as (r & s1 & E & Hr & Hl & Hw).
  { unfold db_QueryInt, db_Query, log_stmt, modify, get, bind. cbv beta iota.
    pose proof (db_call_lastWrite (mkEngine (en_db s) (en_calls s) (en_lastWrite s) (en_log s ++ [q]))) as Hc.
    destruct (db_call_spec (V := V) (Row := Row) (mkEngine (en_db s) (en_calls s) (en_lastWrite s) (en_log s ++ [q])))
      as ([i|e| |] & s1 & E & _ & Hl & Hz); try done; rewrite E in Hc |- *; cbn in Hc, Hl.
    - unfold or_fail, ret, fail. destruct (sql_Query q [] (en_db s1)) as [[[|row rows] err]|e]; try (by eexists _, _).
      destruct (sql_int row); by eexists _, _.
    - by eexists _, _. }
  unfold bind. rewrite E. destruct r as [z|e| |]; try done.
  - destruct (Hm z s1) as (r & s2 & k & E2 & Hr2 & Hl2 & Hw2). exists r, s2, (S k). cbn [take].
    split_and!; try done; [|congruence]. by rewrite Hl2, Hl, <- app_assoc.
  - by exists (Err e), s1, 1%nat.
Qed.

Lemma exec_sends_1 q : sends [q] (exec (V := V) (Row := Row) q).
Proof.
  intros s. destruct (exec_sends q [] (ret tt) (ret_sends []) s) as (r & s' & k & E & Hr & Hl & Hw).
  unfold bind in E. destruct (exec q s) as [[[]|e| |] s1]; injection E as <- <-; eexists _, _, _; split_and!; done.
Qed.

(** Maintenance keeps out of the way: whatever fails, a tick returns; within
    thirty seconds of a write it does nothing at all, on PostgreSQL never; and
    otherwise it sends only the statements of its kind, in order, stopping at
    the first that fails, and is itself no write that would put off the next. *)
Theorem maintain_quiet (dialect : Dialect) (t : tick) (now : Z) (s : engine D) :
  exists s' k, maintain (V := V) (Row := Row) dialect t now s = (Ok tt, s') /\
    (isWriteHot cooldown now s = true -> s' = s) /\
    en_log s' = en_log s ++ take k (maint_stmts dialect t) /\ en_lastWrite s' = en_lastWrite s.
Proof.
  unfold maintain, get, bind at 1. cbv beta iota. destruct (isWriteHot cooldown now s) eqn:Hot.
  { exists s, 0%nat. cbn. by rewrite app_nil_r. }
  assert (sends (maint_stmts dialect t) (match t with TickCheckpoint => checkpoint (V := V) (Row := Row) dialect false
    | TickTruncate => checkpoint (V := V) (Row := Row) dialect true
    | TickVacuum => maybeVacuum (V := V) (Row := Row) dialect quarter end)) as Hs.
  { destruct dialect, t; cbn [maint_stmts]; unfold checkpoint, maybeVacuum, vacuum; cbn [SupportsMaintenance negb];
      try apply ret_sends; try apply exec_sends_1.
    apply query_sends. intros pages. apply query_sends. intros free. case_if; [apply ret_sends|].
    case_if; [|apply ret_sends]. apply exec_sends, exec_sends_1. }
  destruct (Hs s) as (r & s' & k & E & Hr & Hl & Hw). exists s', k. split_and!; [|done|done|done].
  unfold ignore, catch, bind. rewrite E. by destruct r.
Qed.

(** *** After a close *)

Lemma Engine_Close_ok (s s' : dbstate D) :
  Engine_Close s = (Ok tt, s') ->
  ds_handle s' = Some false /\ ds_engine s' = ds_engine s /\
  ds_scheduler s' = (fun c => mkSched (sc_running c) true) <$> ds_scheduler s /\
  (forall c, ds_scheduler s = Some c -> sc_stop c = false).
Proof.
  unfold Engine_Close, Scheduler_Stop, get, bind at 1. cbv beta iota.
  destruct (ds_scheduler s) as [[run []]|] eqn:E; unfold bind, panic, ret; rewrite ?E; cbn; try done.
  all: intros [= <-]; cbn; rewrite ?E; split_and!; try done. by intros c [= <-].
Qed.

(** What a closed engine keeps: its handle closed, its scheduler told to stop. *)
Definition closed (s : dbstate D) : Prop :=
  ds_handle s = Some false /\ (forall c, ds_scheduler s = Some c -> sc_stop c = true).

Lemma closed_tick dialect t now (s : dbstate D) :
  ds_handle s = Some false -> maintain_db (V := V) (Row := Row) dialect t now s = (Ok tt, s).
Proof. intros Hh. unfold maintain_db, ignore, catch, bind, on_db. by rewrite Hh. Qed.

Lemma closed_maint_step dialect others s s' :
  closed s -> maint_step (V := V) (Row := Row) dialect others s s' -> closed s'.
Proof.
  intros (Hh & Hc) Hst. destruct Hst as [s c t now Hs Hr|s c Hs Hr Hst|s e Ho|s s' Hcl].
  - by rewrite closed_tick.
  - split; cbn; [done|]. by intros ? [= <-].
  - done.
  - apply Engine_Close_ok in Hcl as (Hh' & He' & Hs' & Hf). split; [done|].
    intros c. rewrite Hs'. by destruct (ds_scheduler s); intros [= <-].
Qed.

(** After a [Close] that returned the maintenance goroutine sends nothing more,
    however many ticks were pending and whatever calls and transactions of
    others are still going on, and it can stop at once. *)
Lemma Close_silences (dialect : Dialect) (others : engine D -> engine D -> Prop) (s0 s1 s : dbstate D)
    (Hclose : Engine_Close s0 = (Ok tt, s1))
    (Hsteps : rtc (maint_step (V := V) (Row := Row) dialect others) s1 s) :
  ds_handle s = Some false /\
  (forall t now, maintain_db (V := V) (Row := Row) dialect t now s = (Ok tt, s)) /\
  (forall c, ds_scheduler s = Some c -> sc_running c = true ->
    exists s', maint_step (V := V) (Row := Row) dialect others s s' /\
      ds_scheduler s' = Some (mkSched false true) /\ ds_engine s' = ds_engine s).
Proof.
  assert (closed s1) as H1.
  { apply Engine_Close_ok in Hclose as (Hh & He & Hs & _). split; [done|].
    intros c. rewrite Hs. by destruct (ds_scheduler s0); intros [= <-]. }
  assert (closed s) as (Hh & Hc).
  { clear Hclose. induction Hsteps as [|x y z Hxy _ IH]; [done|]. apply IH, (closed_maint_step _ _ _ _ H1 Hxy). }
  split_and!; [done|intros t now; by apply closed_tick|].
  intros c Hs Hr. eexists. split; [by eapply m_stop; eauto|]. done.
Qed.
End close.

(** A quarter of the pages free is enough, less is not. *)
Example vacuum_due_examples :
  vacuum_due 25 100 quarter = true /\ vacuum_due 24 100 quarter = false /\
  vacuum_due 1073741824 4294967294 quarter = true /\ vacuum_due 1073741823 4294967294 quarter = false /\
  vacuum_due 0 1 quarter = false /\ vacuum_due 1 3 quarter = true.
Proof. vm_compute. done. Qed.

(** ** Witnesses *)

(** A database that is the list of its statements; the call with this index fails. *)
Definition demo_sql (faulty : option nat) : SqlServer (list bytes) unit unit := {|
  sql_Exec q _ d := inl (d ++ [q]);
  sql_Query _ _ _ := inl ([tt], None);
  sql_int _ := inl 1;
  v_int _ := tt;
  sql_fault i := if bool_decide (faulty = Some i) then Some (Errorf "disk I/O error" []) else None;
  sql_lost _ := false;
  clock _ := 0;
|}.
Definition demo_runtime : SqlRuntime := {|
  sql_Drivers := [str "sqlite"]; sql_Open _ _ := None; os_MkdirAll _ := None;
|}.
Definition demo_state : dbstate (list bytes) := mkDS (mkEngine [] 0 None []) None (None, None, None) [] None.
Definition demo_config : Config := mkConfig DriverSQLite (str "data/app.db") 4 0 0 true [str "CREATE TABLE t (x)"] true.

(** The third setting fails: the handle is closed again. *)
Lemma Open_safe_witness :
  exists r s', Open (SqlServer0 := demo_sql (Some 2%nat)) (Rt := demo_runtime) demo_config demo_state = (r, s') /\
    (exists err, r = Err err) /\ ds_handle s' <> Some true /\ ds_scheduler s' = None.
Proof.
  destruct (Open_safe (SqlServer0 := demo_sql (Some 2%nat)) (Rt := demo_runtime) demo_config demo_state
    eq_refl eq_refl) as (r & s' & E & Hr).
  exists r, s'. split; [exact E|]. vm_compute in E. injection E as <- <-. split; [by eexists|].
  destruct Hr as (Hh & Hs & _). done.
Defined.

Lemma Close_twice_panics_witness :
  let s := mkDS (mkEngine ([] : list bytes) 0 None []) (Some true) (None, None, None) [] (Some (mkSched true false)) in
  exists s1 s2, Engine_Close s = (Ok tt, s1) /\ ds_handle s1 = Some false /\ Engine_Close s1 = (Panic, s2) /\
    let s0 := mkDS (ds_engine s) (ds_handle s) (ds_limits s) (ds_dirs s) None in
    exists s3, Engine_Close s0 = (Ok tt, s3) /\ Engine_Close s3 = (Ok tt, s3).
Proof. intros s. apply (Close_twice_panics s (mkSched true false)); reflexivity. Defined.

Lemma Open_unregistered_witness :
  Open (SqlServer0 := demo_sql None) (Rt := demo_runtime)
    (mkConfig DriverPostgres (str "host=db") 0 0 0 false [] false) demo_state =
  (Err (Errorf "database driver %q is not registered" [AQuote (str "postgres")]), demo_state).
Proof.
  apply (Open_unregistered (SqlServer0 := demo_sql None) (Rt := demo_runtime)); [reflexivity| |reflexivity].
  vm_compute. congruence.
Defined.

Lemma maintain_quiet_witness :
  exists s' k, maintain (SqlServer0 := demo_sql None) SQLiteDialect TickVacuum 0 (mkEngine [] 0 None []) = (Ok tt, s') /\
    en_log s' = [] ++ take k (maint_stmts SQLiteDialect TickVacuum).
Proof.
  destruct (maintain_quiet (SqlServer0 := demo_sql None) SQLiteDialect TickVacuum 0 (mkEngine [] 0 None []))
    as (s' & k & E & _ & Hl & _).
  by exists s', k.
Defined.
