(* ===== verification/DbExamples.v ===== *)
(** * DbExamples: the programs that show the database packages

    Models [cmd/database_sqlite_example/main.go],
    [cmd/database_postgres_example/main.go] and
    [examples/postgres_auto_migrate/main.go] with its embedded migrations, as
    clients of [Database] and [PgOpen]. *)

From S2P Require Import Prelude Bytes GoStrings Paths Encoding Migrations PgOpen Sql Engine Database Console.

Local Open Scope Z_scope.

Definition lines_of (l : list string) : bytes := concat ((fun s => str s ++ [Byte.x0a]) <$> l).
Definition tabs (n : nat) : bytes := replicate n Byte.x09.

Section engines.
Context `{Unicode} {V Row D : Type} `{!SqlServer D V Row} {Rt : SqlRuntime}.
(** A string as an argument of a statement. *)
Context (v_text : bytes -> V).

(** ** [database_sqlite_example] *)

Definition create_items (idType : string) : bytes :=
  str "CREATE TABLE IF NOT EXISTS test_items (" ++ [Byte.x0a] ++ tabs 4 ++ str "id " ++ str idType ++ str "," ++ [Byte.x0a] ++
  tabs 4 ++ str "name TEXT NOT NULL" ++ [Byte.x0a] ++ tabs 3 ++ str ");".

Definition sqlite_config (dsn : bytes) : Database.Config :=
  Database.mkConfig DriverSQLite dsn 0 0 0 true [create_items "INTEGER PRIMARY KEY AUTOINCREMENT"] false.

Definition insert_sqlite : bytes := str "INSERT INTO test_items (name) VALUES (?)".

(** The deferred [Close] runs when [main] returns, not on [log.Fatal]. *)
Definition sqlite_main (tempDir : bytes) : GoM (console (dbstate D)) unit :=
  let dsn := path_Join tempDir (str "deskaone_sqlite_example.db") in
  run (Database.Open (V := V) (Row := Row) (sqlite_config dsn)) ;;
  run (Engine_Ping (V := V) (Row := Row)) ;;
  run (on_db (db_Exec (Row := Row) insert_sqlite [v_text (str "sqlite item")])) ;;
  Println (str "SQLite database ready at " ++ dsn) ;;
  run (ignore Engine_Close).

(** ** [database_postgres_example] *)

Definition postgres_config (dsn : bytes) : Database.Config :=
  Database.mkConfig DriverPostgres dsn 0 0 0 true [create_items "BIGSERIAL PRIMARY KEY"] false.

Definition insert_postgres : bytes := str "INSERT INTO test_items (name) VALUES ($1)".

(** [dsn] is the environment's [DESKAONE_POSTGRES_DSN]. *)
Definition postgres_main (dsn : bytes) : GoM (console (dbstate D)) unit :=
  if bool_decide (dsn = []) then fail (Errorf "DESKAONE_POSTGRES_DSN is not set" [])
  else
    run (Database.Open (V := V) (Row := Row) (postgres_config dsn)) ;;
    run (Engine_Ping (V := V) (Row := Row)) ;;
    run (on_db (db_Exec (Row := Row) insert_postgres [v_text (str "postgres item")])) ;;
    Println (str "Postgres database ready") ;;
    run (ignore Engine_Close).

Lemma Ping_spec (s : dbstate D) :
  ds_handle s = Some true ->
  exists r s', Engine_Ping (V := V) (Row := Row) s = (r, s') /\ returned r /\ ds_handle s' = Some true /\
    ds_scheduler s' = ds_scheduler s /\ en_db (ds_engine s') = en_db (ds_engine s).
Proof.
  intros Hh. unfold Engine_Ping, on_db. rewrite Hh.
  destruct (db_call_spec (V := V) (Row := Row) (ds_engine s)) as (r & e & E & Hd & _ & Hr).
  unfold bind. rewrite E. destruct r; try done; by eexists _, _.
Qed.

(** The SQLite example, started in a new process, ends normally only with its
    table created, its row inserted, the database closed and its message
    printed; whatever call fails, it ends with that error and prints nothing,
    and it never panics. *)
Theorem sqlite_example_runs (tempDir : bytes) (s : dbstate D)
    (Hnew : ds_handle s = None) (Hsched : ds_scheduler s = None) :
  exists r s', sqlite_main tempDir (mkCon s []) = (r, s') /\
    match r with
    | Ok _ => ds_handle (con_state s') = Some false /\
        con_lines s' = [str "SQLite database ready at " ++ path_Join tempDir (str "deskaone_sqlite_example.db")] /\
        exists d, run_stmts (V := V) (Row := Row) (init_stmts SQLiteDialect ++
            [create_items "INTEGER PRIMARY KEY AUTOINCREMENT"]) (en_db (ds_engine s)) = inl d /\
          sql_Exec (Row := Row) insert_sqlite [v_text (str "sqlite item")] d = inl (en_db (ds_engine (con_state s')))
    | Err _ => con_lines s' = []
    | _ => False
    end.
Proof.
  unfold sqlite_main. cbv zeta. set (dsn := path_Join _ _).
  destruct (Open_returns (V := V) (Row := Row) (sqlite_config dsn) s Hnew Hsched) as (r1 & s1 & E1 & Hr1).
  unfold bind at 1, run at 1. cbn [con_state con_lines]. rewrite E1.
  destruct r1 as [e|err| |]; try done; [|by eexists _, _].
  destruct Hr1 as ([= <-] & _ & Hh1 & Hs1 & _ & Hd1). cbn [cf_EnableMaintenance sqlite_config andb] in Hs1.
  destruct (Ping_spec s1 Hh1) as (r2 & s2 & E2 & Hr2 & Hh2 & Hs2 & Hd2).
  unfold bind at 1, run at 1. cbn [con_state con_lines]. rewrite E2. destruct r2 as [[]|err| |]; try done; [|by eexists _, _].
  destruct (db_Exec_spec (V := V) (Row := Row) insert_sqlite [v_text (str "sqlite item")] (ds_engine s2))
    as (r3 & e3 & E3 & _ & Hr3).
  unfold bind at 1, run at 1, on_db. cbn [con_state con_lines]. rewrite Hh2, E3.
  destruct r3 as [[]|err| |]; try done; [|by eexists _, _].
  unfold bind at 1, Println, modify. cbn [con_state con_lines app]. unfold run. cbn [con_state con_lines].
  unfold ignore, catch, Engine_Close, get, bind. cbn [ds_scheduler]. rewrite Hs2, Hs1.
  eexists _, _. split; [reflexivity|]. cbn [con_state con_lines ds_handle ds_engine]. split; [done|]. split; [done|].
  exists (en_db (ds_engine s1)). split; [exact Hd1|]. by rewrite <- Hd2.
Qed.

(** The PostgreSQL example cannot work as it is built: the module registers
    SQLite's driver only, so every run ends with an error before anything is
    opened. *)
Theorem postgres_example_fails (dsn : bytes) (s : dbstate D) (Hreg : sql_Drivers = [str "sqlite"]) :
  exists err, postgres_main dsn (mkCon s []) = (Err err, mkCon s []).
Proof.
  unfold postgres_main. case_bool_decide; [by eexists|].
  assert (exists err, Database.Open (V := V) (Row := Row) (postgres_config dsn) s = (Err err, s)) as [err E].
  { destruct (decide (TrimSpace dsn = [])) as [Hd|Hd].
    - unfold Database.Open, postgres_config. cbn [cf_Driver cf_DSN]. rewrite bool_decide_eq_false_2 by done.
      rewrite (bool_decide_eq_true_2 (TrimSpace dsn = [])) by done. by eexists.
    - eexists. by apply Open_unregistered. }
  exists err. unfold bind at 1, run at 1. cbn [con_state con_lines]. by rewrite E.
Qed.
End engines.

(** ** [postgres_auto_migrate] *)

(** The files under [migrations], as [embed] stores them. *)
Definition init_sql : bytes := lines_of
  ["CREATE TABLE IF NOT EXISTS private_keys_hex (";
   "    id BIGSERIAL PRIMARY KEY,";
   "    private_key_hex TEXT NOT NULL UNIQUE,";
   "    created_at TIMESTAMPTZ NOT NULL DEFAULT now()";
   ");";
   "";
   "CREATE TABLE IF NOT EXISTS scan_progress (";
   "    chain_id BIGINT PRIMARY KEY,";
   "    last_id BIGINT NOT NULL DEFAULT 0,";
   "    updated_at TIMESTAMPTZ NOT NULL DEFAULT now()";
   ");"]%string.
Definition add_indexes_sql : bytes := lines_of
  ["CREATE INDEX IF NOT EXISTS idx_private_keys_hex_created_at"; "ON private_keys_hex(created_at);"]%string.

Definition embedded : FS := mkFS
  (fun dir => if bool_decide (dir = str "migrations")
              then inl [(str "001_init.sql", false); (str "002_add_indexes.sql", false)] else inr fs_ErrNotExist)
  (fun path => if bool_decide (path = str "migrations/001_init.sql") then inl init_sql
               else if bool_decide (path = str "migrations/002_add_indexes.sql") then inl add_indexes_sql
               else inr fs_ErrNotExist).

Definition wolf_config : PgOpen.Config :=
  PgOpen.mkConfig (str "192.168.1.5") 5432 (str "deskaone") (str "change_me") (str "wolf") [] (str "disable") true true 0 0.

Section pools.
Context `{Unicode} {D : Type} `{!Postgres D} `{!PgCluster D}.

(** The message goes to the log. *)
Definition pg_main : GoM (console (cluster D)) unit :=
  run (PgOpen.Open wolf_config (Some embedded) (str "migrations")) ;;
  Println (str "database ready") ;;
  run pool_Close.
End pools.

(** The example's files are good migrations: read and sorted they are these
    two. *)
Lemma embedded_migrations :
  (fun m => (mg_version m, mg_sql m)) <$> (match readMigrations embedded (str "migrations") with inl ms => ms | inr _ => [] end) =
  [(1, init_sql); (2, add_indexes_sql)].
Proof. vm_compute. reflexivity. Qed.

(** On an empty server it creates the database [wolf], applies both files in
    order and closes its pool. *)
Example pg_example_runs :
  let '(r, s) := pg_main (Postgres0 := demo_pg) (PgCluster0 := demo_cluster None) (mkCon PgOpen.demo_state []) in
  r = Ok tt /\ con_lines s = [str "database ready"] /\ pl_open <$> cl_pool (con_state s) = Some false /\
  (fun sv => db_data (sv_db sv)) <$> cl_dbs (con_state s) !! str "wolf" = Some [init_sql; add_indexes_sql].
Proof. vm_compute. done. Qed.

(** ** Witnesses *)

Lemma sqlite_example_runs_witness :
  let '(r, s) := sqlite_main (SqlServer0 := demo_sql None) (Rt := demo_runtime) (fun _ => tt) (str "/tmp") (mkCon demo_state []) in
  r = Ok tt /\ con_lines s = [str "SQLite database ready at /tmp/deskaone_sqlite_example.db"].
Proof.
  destruct (sqlite_example_runs (SqlServer0 := demo_sql None) (Rt := demo_runtime) (fun _ => tt) (str "/tmp") demo_state
    eq_refl eq_refl) as (r & s & E & Hr).
  rewrite E. destruct r as [[]|e| |]; [|vm_compute in E; discriminate E|destruct Hr..]. split; [done|].
  destruct Hr as (_ & -> & _). reflexivity.
Defined.

Lemma postgres_example_fails_witness :
  exists err, postgres_main (SqlServer0 := demo_sql None) (Rt := demo_runtime) (fun _ => tt)
    (str "postgres://localhost/deskaone") (mkCon demo_state []) = (Err err, mkCon demo_state []).
Proof. by apply (postgres_example_fails (SqlServer0 := demo_sql None) (Rt := demo_runtime) (fun _ => tt)). Defined.
