(* ===== verification/Emitter.v ===== *)
(** * Emitter: the event emitter

    Models [emitter/emitter.go].  A handler is the caller's function, or the
    closure [Once] wraps around it, which reads the variable [id] when it is
    called.  Each critical section of the lock is one step; a concurrent run is
    a sequence of such steps of any number of calls in progress. *)

From S2P Require Import Prelude.

Section emitter.
Context {T : Type} `{Countable T} {F D X : Type}.

(** [HOnce evt v f]: the closure of [Once], with the variable [v] for [id]. *)
Inductive handler :=
| HPlain (f : F)
| HOnce (evt : T) (v : nat) (f : F).

(** The emitter, the [id] variables of the closures, and the calls made of the
    callers' functions. *)
Record EventEmitter := mkEm {
  em_handlers : gmap T (gmap N handler);
  em_nextID : N;
  em_vars : list N;
  em_log : list (F * D * X);
}.

Definition NewEventEmitter : EventEmitter := mkEm ∅ 0 [] [].

Definition set_handlers (hs : gmap T (gmap N handler)) (e : EventEmitter) : EventEmitter :=
  mkEm hs (em_nextID e) (em_vars e) (em_log e).

(** The handlers of an event; a missing inner map is nil, which is empty. *)
Definition handlers_of (e : EventEmitter) (evt : T) : gmap N handler := default ∅ (em_handlers e !! evt).

Definition On (evt : T) (h : handler) (e : EventEmitter) : N * EventEmitter :=
  let id := ((em_nextID e + 1) mod 2 ^ 64)%N in
  (id, mkEm (<[evt := <[id := h]> (handlers_of e evt)]> (em_handlers e)) id (em_vars e) (em_log e)).

Definition Off (evt : T) (id : N) (e : EventEmitter) : EventEmitter :=
  match em_handlers e !! evt with
  | Some m =>
      let m' := delete id m in
      set_handlers (if (size m' =? 0)%nat then delete evt (em_handlers e) else <[evt := m']> (em_handlers e)) e
  | None => e
  end.

(** [Once] up to the return of [On]: the closure is registered, [id] is 0. *)
Definition Once_register (evt : T) (f : F) (e : EventEmitter) : N * EventEmitter :=
  let v := length (em_vars e) in
  On evt (HOnce evt v f) (mkEm (em_handlers e) (em_nextID e) (em_vars e ++ [0%N]) (em_log e)).
(** The assignment to [id]. *)
Definition Once_assign (v : nat) (id : N) (e : EventEmitter) : EventEmitter :=
  mkEm (em_handlers e) (em_nextID e) (<[v := id]> (em_vars e)) (em_log e).

Definition Once (evt : T) (f : F) (e : EventEmitter) : N * EventEmitter :=
  let '(id, e') := Once_register evt f e in
  (id, Once_assign (length (em_vars e)) id e').

(** A call of the caller's function. *)
Definition invoke (f : F) (d : D) (x : X) (e : EventEmitter) : EventEmitter :=
  mkEm (em_handlers e) (em_nextID e) (em_vars e) (em_log e ++ [(f, d, x)]).

(** What a closure does before it calls the function. *)
Definition before (h : handler) (e : EventEmitter) : EventEmitter :=
  match h with
  | HPlain _ => e
  | HOnce evt v _ => Off evt (default 0%N (em_vars e !! v)) e
  end.
Definition fn (h : handler) : F := match h with HPlain f | HOnce _ _ f => f end.

Definition call_handler (d : D) (x : X) (e : EventEmitter) (h : handler) : EventEmitter :=
  invoke (fn h) d x (before h e).

(** The handlers [Emit] copies, in some order. *)
Definition snapshot (e : EventEmitter) (evt : T) (hs : list handler) : Prop :=
  hs ≡ₚ snd <$> map_to_list (handlers_of e evt).

(** [Emit] when nothing else runs meanwhile. *)
Definition Emit (hs : list handler) (d : D) (x : X) (e : EventEmitter) : EventEmitter :=
  foldl (call_handler d x) e hs.

(** ** One call at a time *)

(** The emitter between calls: no event without handlers, every identifier in
    use was handed out and belongs to one event, and the closure of a [Once]
    knows its own identifier.  [settled] is false while a [Once] is still to
    assign it. *)
Record wf (settled : bool) (e : EventEmitter) : Prop := {
  wf_nonempty evt : em_handlers e !! evt <> Some ∅;
  wf_ids evt id h : handlers_of e evt !! id = Some h -> (0 < id <= em_nextID e)%N;
  wf_one evt evt' id h h' : handlers_of e evt !! id = Some h -> handlers_of e evt' !! id = Some h' -> evt = evt';
  wf_once evt id evt' v f : handlers_of e evt !! id = Some (HOnce evt' v f) ->
    evt' = evt /\ (em_vars e !! v = Some id \/ settled = false /\ em_vars e !! v = Some 0%N);
}.

Lemma handlers_of_Off e evt id : handlers_of (Off evt id e) evt = delete id (handlers_of e evt).
Proof.
  unfold Off, handlers_of. destruct (em_handlers e !! evt) as [m|] eqn:E; cbn.
  - destruct (Nat.eqb_spec (size (delete id m)) 0) as [Hs|Hs].
    + rewrite lookup_delete_eq. cbn. by apply map_size_empty_inv in Hs.
    + by rewrite lookup_insert_eq.
  - by rewrite E, delete_empty.
Qed.

Lemma handlers_Off_ne e evt id evt' : evt' <> evt -> em_handlers (Off evt id e) !! evt' = em_handlers e !! evt'.
Proof.
  intros Hne. unfold Off. destruct (em_handlers e !! evt) as [m|]; [|done]. cbn.
  destruct (size (delete id m) =? 0)%nat; [by rewrite lookup_delete_ne|by rewrite lookup_insert_ne].
Qed.

Lemma Off_rest e evt id : em_nextID (Off evt id e) = em_nextID e /\ em_vars (Off evt id e) = em_vars e /\
  em_log (Off evt id e) = em_log e.
Proof. unfold Off. by destruct (em_handlers e !! evt). Qed.

Lemma handlers_of_Off_sub e evt id evt' i h :
  handlers_of (Off evt id e) evt' !! i = Some h -> handlers_of e evt' !! i = Some h.
Proof.
  destruct (decide (evt' = evt)) as [->|Hne].
  - rewrite handlers_of_Off. by intros [_ ?]%lookup_delete_Some.
  - unfold handlers_of. by rewrite handlers_Off_ne.
Qed.

Lemma wf_Off b e evt id : wf b e -> wf b (Off evt id e).
Proof.
  intros [H1 H2 H3 H4]. destruct (Off_rest e evt id) as (En & Ev & _). split.
  - intros evt'. destruct (decide (evt' = evt)) as [->|Hne]; [|by rewrite handlers_Off_ne].
    unfold Off. destruct (em_handlers e !! evt) as [m|] eqn:E; [|by rewrite E]. cbn.
    destruct (Nat.eqb_spec (size (delete id m)) 0) as [Hs|Hs]; [by rewrite lookup_delete_eq|].
    rewrite lookup_insert_eq. intros [= Hm]. apply Hs. by rewrite Hm.
  - intros evt' i h Hi%handlers_of_Off_sub. rewrite En. by eapply H2.
  - intros ????? Hi%handlers_of_Off_sub Hj%handlers_of_Off_sub. by eapply H3.
  - intros ????? Hi%handlers_of_Off_sub. rewrite Ev. by eapply H4.
Qed.

Lemma handlers_of_On e evt h evt' i g :
  (forall evt id h, handlers_of e evt !! id = Some h -> id <= em_nextID e)%N -> (em_nextID e < 2 ^ 64 - 1)%N ->
  handlers_of (snd (On evt h e)) evt' !! i = Some g ->
  (evt' = evt /\ i = (em_nextID e + 1)%N /\ g = h) \/ (i <> (em_nextID e + 1)%N /\ handlers_of e evt' !! i = Some g).
Proof.
  intros Hids Hn. unfold On, handlers_of at 1. rewrite N.mod_small by lia. cbn.
  destruct (decide (evt' = evt)) as [->|Hne].
  - rewrite lookup_insert_eq. cbn. intros [[-> ->]|[Hi Hg]]%lookup_insert_Some; [by left|by right].
  - rewrite lookup_insert_ne by done. intros Hg. right. split; [|done]. intros Ei.
    apply Hids in Hg. lia.
Qed.

Lemma wf_On b e evt h : (em_nextID e < 2 ^ 64 - 1)%N -> wf b e ->
  match h with
  | HPlain _ => True
  | HOnce evt' v _ => evt' = evt /\ b = false /\ em_vars e !! v = Some 0%N
  end -> wf b (snd (On evt h e)) /\ fst (On evt h e) = (em_nextID e + 1)%N.
Proof.
  intros Hn [H1 H2 H3 H4] Hh. split; [|unfold On; rewrite N.mod_small by lia; done].
  assert (forall evt' i g, handlers_of (snd (On evt h e)) evt' !! i = Some g ->
    (evt' = evt /\ i = (em_nextID e + 1)%N /\ g = h) \/ (i <> (em_nextID e + 1)%N /\ handlers_of e evt' !! i = Some g)) as Hcase.
  { intros evt' i g. apply handlers_of_On; [|done]. intros ??? Hx. by apply H2 in Hx as [_ ?]. }
  assert (em_nextID (snd (On evt h e)) = (em_nextID e + 1)%N) as En by (unfold On; rewrite N.mod_small by lia; done).
  split.
  - intros evt'. cbn. destruct (decide (evt' = evt)) as [->|Hne]; [|by rewrite lookup_insert_ne].
    rewrite lookup_insert_eq. intros [= Hm]. by apply insert_non_empty in Hm.
  - intros evt' i g Hi. apply Hcase in Hi as [(-> & -> & ->)|[_ Hi]]; rewrite En; [lia|].
    apply H2 in Hi. lia.
  - intros t1 t2 i g1 g2 Hi Hj. apply Hcase in Hi as [(E1 & F1 & _)|[Hni Hi]];
      apply Hcase in Hj as [(E2 & F2 & _)|[Hnj Hj]]; [congruence|congruence|congruence|]. by eapply H3.
  - intros t i t' v f Hi. apply Hcase in Hi as [(-> & -> & <-)|[_ Hi]]; cbn; [|by eapply H4].
    destruct Hh as (-> & -> & Hv). split; [done|]. by right.
Qed.

(** The identifiers of the closures among these handlers. *)
Definition once_ids (l : list (N * handler)) : list N :=
  omap (fun ih => match snd ih with HOnce _ _ _ => Some (fst ih) | HPlain _ => None end) l.

Lemma Emit_pairs l e evt d x :
  Forall (fun ih => match snd ih with
                    | HOnce evt' v _ => evt' = evt /\ em_vars e !! v = Some (fst ih)
                    | HPlain _ => True
                    end) l ->
  let e' := Emit (snd <$> l) d x e in
  em_log e' = em_log e ++ ((fun h => (fn h, d, x)) <$> (snd <$> l)) /\
  em_nextID e' = em_nextID e /\ em_vars e' = em_vars e /\
  (forall evt', evt' <> evt -> em_handlers e' !! evt' = em_handlers e !! evt') /\
  (forall id h, handlers_of e' evt !! id = Some h <-> handlers_of e evt !! id = Some h /\ id ∉ once_ids l).
Proof.
  revert e. induction l as [|[i h] l IH]; intros e Hl; cbv zeta.
  { cbn. rewrite app_nil_r. split_and!; try done. intros id h. split; [|tauto]. intros Hh. split; [done|].
    by apply not_elem_of_nil. }
  apply Forall_cons in Hl as [Hh Hl]. cbn [fmap list_fmap snd]. unfold Emit. cbn [foldl].
  assert (exists e1, call_handler d x e h = e1 /\ em_log e1 = em_log e ++ [(fn h, d, x)] /\
    em_nextID e1 = em_nextID e /\ em_vars e1 = em_vars e /\
    (forall evt', evt' <> evt -> em_handlers e1 !! evt' = em_handlers e !! evt') /\
    handlers_of e1 evt = match h with HPlain _ => handlers_of e evt | HOnce _ _ _ => delete i (handlers_of e evt) end)
    as (e1 & E1 & Hlog & Hnext & Hvars & Hother & Hevt).
  { eexists. split; [reflexivity|]. unfold call_handler. destruct h as [f|evt' v f]; [done|].
    cbn in Hh. destruct Hh as [-> Hv]. cbn [before]. rewrite Hv. cbn [default].
    destruct (Off_rest e evt i) as (En & Ev & El). unfold invoke. cbn. rewrite El.
    split_and!; try done; [intros; by apply handlers_Off_ne|]. apply (handlers_of_Off e evt i). }
  rewrite E1. destruct (IH e1) as (I1 & I2 & I3 & I4 & I5).
  { rewrite Hvars. done. }
  fold (Emit (snd <$> l) d x e1). split_and!.
  - rewrite I1, Hlog, <- app_assoc. done.
  - congruence.
  - congruence.
  - intros evt' Hne. rewrite I4, Hother; done.
  - intros id g. rewrite I5, Hevt. unfold once_ids. cbn [omap list_omap snd fst].
    destruct h as [f|evt' v f]; [done|]. rewrite lookup_delete_Some, not_elem_of_cons. naive_solver.
Qed.

(** C27: an [Emit] that runs by itself calls exactly the handlers registered
    for the event, each once, in some order; afterwards exactly those that were
    registered with [Once] are gone, and other events are as before. *)
Theorem Emit_correct (e : EventEmitter) (evt : T) (hs : list handler) (d : D) (x : X)
    (Hwf : wf true e) (Hsnap : snapshot e evt hs) :
  let e' := Emit hs d x e in
  em_log e' = em_log e ++ ((fun h => (fn h, d, x)) <$> hs) /\
  (forall id f, handlers_of e' evt !! id = Some (HPlain f) <-> handlers_of e evt !! id = Some (HPlain f)) /\
  (forall id evt' v f, handlers_of e' evt !! id <> Some (HOnce evt' v f)) /\
  (forall evt', evt' <> evt -> em_handlers e' !! evt' = em_handlers e !! evt').
Proof.
  cbv zeta. destruct (Permutation_map_inv _ _ Hsnap) as (l & -> & Hl).
  assert (forall i h, (i, h) ∈ l <-> handlers_of e evt !! i = Some h) as Hin.
  { intros i h. rewrite <- Hl. apply elem_of_map_to_list. }
  destruct (Emit_pairs l e evt d x) as (H1 & H2 & H3 & H4 & H5).
  { apply Forall_forall. intros [i h] Hi%Hin. cbn. destruct h as [f|evt' v f]; [done|].
    apply (wf_once _ _ Hwf) in Hi as [-> [?|[? _]]]; done. }
  assert (forall i, i ∈ once_ids l <-> exists evt' v f, handlers_of e evt !! i = Some (HOnce evt' v f)) as Honce.
  { intros i. unfold once_ids. rewrite list_elem_of_omap. split.
    - intros ([j h] & Hj%Hin & Hh). destruct h as [f|evt' v f]; [done|]. injection Hh as ->. eauto.
    - intros (evt' & v & f & Hi). exists (i, HOnce evt' v f). by rewrite Hin. }
  split_and!; [done| | |done].
  - intros id f. rewrite H5, Honce. split; [tauto|]. intros Hi. split; [done|].
    intros (evt' & v & g & Hg). congruence.
  - intros id evt' v f (Hi & Hnot)%H5. apply Hnot, Honce. eauto.
Qed.

(** ** Concurrent calls *)

(** An [Emit] in progress, or a goroutine of an [EmitAsync]: the handlers still
    to call, and the function a closure is about to call. *)
Record run := mkRun { r_todo : list handler; r_next : option F; r_data : D; r_extra : X }.

(** The emitter, the calls in progress, and the [Once] calls that have not
    assigned their variable yet. *)
Record system := mkSys { s_em : EventEmitter; s_runs : list run; s_assign : list (nat * N) }.

Inductive step : system -> system -> Prop :=
| step_On evt f e rs asg :
    (em_nextID e < 2 ^ 64 - 1)%N ->
    step (mkSys e rs asg) (mkSys (snd (On evt (HPlain f) e)) rs asg)
| step_Once_register evt f e rs asg :
    (em_nextID e < 2 ^ 64 - 1)%N ->
    step (mkSys e rs asg)
      (mkSys (snd (Once_register evt f e)) rs ((length (em_vars e), fst (Once_register evt f e)) :: asg))
| step_Once_assign v id e rs asg1 asg2 :
    step (mkSys e rs (asg1 ++ (v, id) :: asg2)) (mkSys (Once_assign v id e) rs (asg1 ++ asg2))
| step_Off evt id e rs asg : step (mkSys e rs asg) (mkSys (Off evt id e) rs asg)
| step_Emit evt hs d x e rs asg :
    snapshot e evt hs -> step (mkSys e rs asg) (mkSys e (mkRun hs None d x :: rs) asg)
| step_EmitAsync evt hs d x e rs asg :
    snapshot e evt hs ->
    step (mkSys e rs asg) (mkSys e (((fun h => mkRun [h] None d x) <$> hs) ++ rs) asg)
| step_before h hs d x e rs1 rs2 asg :
    step (mkSys e (rs1 ++ mkRun (h :: hs) None d x :: rs2) asg)
      (mkSys (before h e) (rs1 ++ mkRun hs (Some (fn h)) d x :: rs2) asg)
| step_invoke f hs d x e rs1 rs2 asg :
    step (mkSys e (rs1 ++ mkRun hs (Some f) d x :: rs2) asg)
      (mkSys (invoke f d x e) (rs1 ++ mkRun hs None d x :: rs2) asg).

Definition start : system := mkSys NewEventEmitter [] [].
Definition reachable : system -> Prop := rtc step start.

(** What holds in every reachable state.  The assignments outstanding are for
    different variables, and each is of the identifier of its closure. *)
Definition sys_inv (s : system) : Prop :=
  wf false (s_em s) /\
  Forall (fun vi => fst vi < length (em_vars (s_em s)))%nat (s_assign s) /\
  (forall evt id evt' v f i, handlers_of (s_em s) evt !! id = Some (HOnce evt' v f) ->
     (v, i) ∈ s_assign s -> i = id).

Lemma wf_same b e e' : em_handlers e' = em_handlers e -> em_nextID e' = em_nextID e -> em_vars e' = em_vars e ->
  wf b e -> wf b e'.
Proof.
  intros Eh En Ev [H1 H2 H3 H4]. split; unfold handlers_of in *; rewrite ?Eh, ?En, ?Ev; eauto.
Qed.

Lemma before_Off h e : before h e = e \/ exists evt id, before h e = Off evt id e.
Proof. destruct h as [f|evt v f]; [by left|right]. by eexists _, _. Qed.

Lemma sys_inv_Off evt id e rs rs' asg : sys_inv (mkSys e rs asg) -> sys_inv (mkSys (Off evt id e) rs' asg).
Proof.
  intros (Hwf & Hlen & Hasg). destruct (Off_rest e evt id) as (_ & Ev & _). split_and!; cbn in *.
  - by apply wf_Off.
  - by rewrite Ev.
  - intros ?????? Hi%handlers_of_Off_sub. by eapply Hasg.
Qed.

Lemma wf_vars b e vars : wf b e -> em_vars e `prefix_of` vars ->
  wf b (mkEm (em_handlers e) (em_nextID e) vars (em_log e)).
Proof.
  intros [H1 H2 H3 H4] Hp. split; try done. intros evt id evt' v f Hi. apply H4 in Hi as [-> Hv].
  split; [done|]. cbn. destruct Hv as [Hv|[-> Hv]]; [left|right; split; [done|]]; by eapply prefix_lookup_Some.
Qed.

Lemma sys_inv_Once_register evt f e rs asg :
  (em_nextID e < 2 ^ 64 - 1)%N -> sys_inv (mkSys e rs asg) ->
  sys_inv (mkSys (snd (Once_register evt f e)) rs ((length (em_vars e), fst (Once_register evt f e)) :: asg)).
Proof.
  intros Hn (Hwf & Hlen & Hasg). cbn [s_em s_assign] in *. unfold Once_register. cbv zeta.
  pose proof (wf_vars false e (em_vars e ++ [0%N]) Hwf (prefix_app_r _ _ _ (reflexivity _))) as Hwf0.
  set (e0 := mkEm _ _ (em_vars e ++ [0%N]) _) in *.
  destruct (wf_On false e0 evt (HOnce evt (length (em_vars e)) f) Hn Hwf0) as [Hwf1 Hid].
  { split_and!; [done|done|]. cbn. rewrite lookup_app_r, Nat.sub_diag by lia. done. }
  split; [exact Hwf1|]. split.
  - cbn [s_em s_assign]. change (em_vars (snd (On evt (HOnce evt (length (em_vars e)) f) e0))) with (em_vars e ++ [0%N]).
    rewrite length_app. constructor; [cbn; lia|].
    eapply Forall_impl; [exact Hlen|]. cbn. lia.
  - intros t id t' v g i Hi Hv. cbn [s_em s_assign] in *. rewrite Hid in Hv.
    apply handlers_of_On in Hi as [(-> & -> & E)|[Hne Hi]]; [| |intros ??? Hx; by apply (wf_ids _ _ Hwf) in Hx as [_ ?]|exact Hn].
    + injection E as -> -> ->. apply elem_of_cons in Hv as [[= ->]|Hv]; [done|].
      apply (proj1 (Forall_forall _ _) Hlen) in Hv. cbn in Hv. lia.
    + change (handlers_of e t !! id = Some (HOnce t' v g)) in Hi.
      apply elem_of_cons in Hv as [[= -> ->]|Hv]; [|by eapply Hasg].
      apply (wf_once _ _ Hwf) in Hi as [_ [Hv|[_ Hv]]]; apply lookup_lt_Some in Hv; lia.
Qed.

Lemma sys_inv_Once_assign v id e rs asg1 asg2 :
  sys_inv (mkSys e rs (asg1 ++ (v, id) :: asg2)) -> sys_inv (mkSys (Once_assign v id e) rs (asg1 ++ asg2)).
Proof.
  intros (Hwf & Hlen & Hasg). cbn [s_em s_assign] in *.
  assert (v < length (em_vars e))%nat as Hv.
  { apply Forall_app in Hlen as [_ [Hv _]%Forall_cons]. exact Hv. }
  split_and!; cbn [s_em s_assign].
  - destruct Hwf as [H1 H2 H3 H4]. split; try done. intros t i t' v' f Hi. pose proof (H4 _ _ _ _ _ Hi) as [-> Hc].
    split; [done|]. cbn. destruct (decide (v' = v)) as [->|Hne].
    + left. rewrite list_lookup_insert_eq by done. f_equal.
      apply (Hasg t i t v f id Hi). set_solver.
    + by rewrite list_lookup_insert_ne by done.
  - cbn. rewrite length_insert. apply Forall_app in Hlen as [Ha [_ Hb]%Forall_cons]. by apply Forall_app.
  - intros t i t' v' f j Hi Hj. apply (Hasg t i t' v' f j Hi). set_solver.
Qed.

(** C32: in every state that concurrent calls can reach no event is left with
    an empty table, every identifier in use was handed out, belongs to a single
    event, and removes the handler it was returned for: the variable a [Once]
    closure reads is either its own identifier or still zero. *)
Theorem emitter_invariant (s : system) (Hs : reachable s) : sys_inv s.
Proof.
  revert s Hs. apply (rtc_ind_r (R := step) sys_inv start).
  - split_and!; [|constructor|]; [split|]; intros *; unfold handlers_of; cbn; rewrite ?lookup_empty; done.
  - clear. intros s1 s2 _ Hstep Hinv. destruct Hstep.
    + pose proof Hinv as (Hwf & Hlen & Hasg). cbn [s_em s_assign] in *. split_and!; cbn [s_em s_assign].
      * by apply wf_On.
      * exact Hlen.
      * intros t id t' v g i Hi Hv. apply handlers_of_On in Hi as [(_ & _ & ?)|[_ Hi]];
          [done|by eapply Hasg|intros ??? Hx; by apply (wf_ids _ _ Hwf) in Hx as [_ ?]|done].
    + by apply sys_inv_Once_register.
    + by apply sys_inv_Once_assign.
    + by eapply sys_inv_Off.
    + exact Hinv.
    + exact Hinv.
    + destruct (before_Off h e) as [->|(evt & id & ->)]; [exact Hinv|by eapply sys_inv_Off].
    + destruct Hinv as (Hwf & Hlen & Hasg). split_and!; [|exact Hlen|exact Hasg]. by eapply wf_same, Hwf.
Qed.

(** A handler registered with [Once] can be called more than once: two
    concurrent [Emit]s both copy it before either of them removes it. *)
Theorem once_called_twice (evt : T) (f : F) (d : D) (x : X) :
  exists s, reachable s /\ em_log (s_em s) = [(f, d, x); (f, d, x)] /\ s_runs s = [mkRun [] None d x; mkRun [] None d x].
Proof.
  set (e1 := snd (Once evt f NewEventEmitter) : EventEmitter).
  assert (snapshot e1 evt [HOnce evt 0 f]) as Hsnap.
  { assert (handlers_of e1 evt = {[ 1%N := HOnce evt 0 f ]}) as E.
    { change (default ∅ ((<[evt := <[1%N := HOnce evt 0 f]> (default ∅ ((∅ : gmap T (gmap N handler)) !! evt))]>
        (∅ : gmap T (gmap N handler))) !! evt) = {[ 1%N := HOnce evt 0 f ]}).
      by rewrite lookup_insert_eq, lookup_empty. }
    unfold snapshot. by rewrite E, map_to_list_singleton. }
  eexists. split.
  - eapply rtc_l; [apply (step_Once_register evt f); done|].
    eapply rtc_l; [apply (step_Once_assign 0 1 _ _ [] [])|].
    eapply rtc_l; [apply (step_Emit evt [HOnce evt 0 f] d x); exact Hsnap|].
    eapply rtc_l; [apply (step_Emit evt [HOnce evt 0 f] d x); exact Hsnap|].
    eapply rtc_l; [apply (step_before (HOnce evt 0 f) [] d x e1 [] [_])|].
    eapply rtc_l; [apply (step_before (HOnce evt 0 f) [] d x _ [_] [])|].
    eapply rtc_l; [apply (step_invoke f [] d x _ [] [_])|].
    eapply rtc_l; [apply (step_invoke f [] d x _ [_] [])|]. apply rtc_refl.
  - split; [|done]. cbn [s_em invoke em_log before]. rewrite !(proj2 (proj2 (Off_rest _ _ _))). done.
Qed.
End emitter.

(** ** Witnesses *)

(** One plain handler and one [Once] handler on the same event. *)
Definition demo_emitter : EventEmitter (T := nat) (F := nat) (D := nat) (X := nat) :=
  snd (Once 7 200 (snd (On 7 (HPlain 100) NewEventEmitter))).

Lemma demo_emitter_wf : wf true demo_emitter.
Proof.
  assert (forall evt, handlers_of demo_emitter evt =
    if decide (evt = 7) then {[ 1%N := HPlain 100; 2%N := HOnce 7 0 200 ]} else ∅) as E.
  { intros evt. unfold handlers_of, demo_emitter. destruct (decide (evt = 7)) as [->|Hne]; [reflexivity|].
    cbn -[lookup insert]. unfold handlers_of. cbn -[lookup insert]. by rewrite !lookup_insert_ne by done. }
  assert (forall id h, ({[ 1%N := HPlain 100; 2%N := HOnce 7 0 200 ]} : gmap N (handler (T := nat) (F := nat))) !! id = Some h ->
    id = 1%N /\ h = HPlain 100 \/ id = 2%N /\ h = HOnce 7 0 200) as Hc.
  { intros id h [[<- <-]|[_ [<- <-]%lookup_singleton_Some]]%lookup_insert_Some; auto. }
  split.
  - intros evt Hm. pose proof (E evt) as Ee. unfold handlers_of in Ee. rewrite Hm in Ee. cbn in Ee.
    destruct (decide (evt = 7)) as [->|Hne]; [by symmetry in Ee; apply insert_non_empty in Ee|].
    revert Hm. unfold demo_emitter. cbn -[lookup insert]. unfold handlers_of. cbn -[lookup insert].
    by rewrite !lookup_insert_ne, lookup_empty by done.
  - intros evt id h. rewrite E. destruct (decide (evt = 7)); [|by rewrite lookup_empty].
    intros [[-> _]|[-> _]]%Hc; done.
  - intros t1 t2 id h1 h2. rewrite !E. destruct (decide (t1 = 7)), (decide (t2 = 7)); rewrite ?lookup_empty; congruence.
  - intros evt id evt' v f. rewrite E. destruct (decide (evt = 7)) as [->|]; [|by rewrite lookup_empty].
    intros [[_ ?]|[-> [= -> -> ->]]]%Hc; [done|]. split; [done|]. by left.
Qed.

Lemma Emit_correct_witness :
  let e' := Emit [HOnce 7 0 200; HPlain 100] 1 2 demo_emitter in
  em_log e' = [] ++ [(200, 1, 2); (100, 1, 2)] /\
  (forall id f, handlers_of e' 7 !! id = Some (HPlain f) <-> handlers_of demo_emitter 7 !! id = Some (HPlain f)) /\
  (forall id evt' v f, handlers_of e' 7 !! id <> Some (HOnce evt' v f)) /\
  (forall evt', evt' <> 7 -> em_handlers e' !! evt' = em_handlers demo_emitter !! evt').
Proof.
  apply (Emit_correct demo_emitter 7 [HOnce 7 0 200; HPlain 100] 1 2 demo_emitter_wf).
  unfold snapshot. vm_compute. reflexivity.
Defined.

Lemma emitter_invariant_witness :
  sys_inv (mkSys (snd (On 7 (HPlain 100) NewEventEmitter)) [] [] : system (T := nat) (F := nat) (D := nat) (X := nat)).
Proof.
  apply (emitter_invariant (mkSys (snd (On 7 (HPlain 100) NewEventEmitter)) [] [])).
  eapply rtc_l; [apply (step_On 7 100); done|]. apply rtc_refl.
Defined.
