(* ===== verification/Termcolor.v ===== *)
(** * Termcolor: text in colour

    Models [termcolor/termcolor.go]: the escape sequences put around a text
    when colours are enabled, and the clamping of palette codes.  Whether the
    output is a terminal and whether [NO_COLOR] is set are inputs.  The second
    half is the terminal's point of view: [strip] removes the SGR sequences
    from a text the way the regular expression of [logger/logger.go] does, and
    the colour functions are invisible to it. *)

From S2P Require Import Prelude Bytes GoStrings NetAddr.

Local Open Scope Z_scope.

Definition esc : byte := Byte.x1b.

(** [\x1b[...m] *)
Definition sgr (params : bytes) : bytes := esc :: str "[" ++ params ++ str "m".
Definition reset : bytes := sgr (str "0").

(** The package variable [Enabled]; the cache beside it is never read. *)
Definition detectEnabled (noColor isTerminal : bool) : bool := if noColor then false else isTerminal.
Definition SetEnabled (v : bool) : GoM bool unit := put v.

Definition wrap (Enabled : bool) (m open : bytes) : bytes :=
  if negb Enabled then m else open ++ m ++ reset.

Definition color (code : Z) (bg bold : bool) : bytes :=
  (if bold then sgr (str "1") else []) ++ (if bg then sgr (Itoa (code + 10)) else sgr (Itoa code)).

Record StyleOpt := mkStyle {
  Bold : bool; Italic : bool; Underline : bool; Dim : bool; Inverse : bool; Strike : bool;
}.

(** A slice of ints under [%d]: the numbers in brackets. *)
Definition print_ints (l : list Z) : bytes := str "[" ++ Join (Itoa <$> l) (str " ") ++ str "]".

Definition style_codes (o : StyleOpt) : list Z :=
  (if Bold o then [1] else []) ++ (if Italic o then [3] else []) ++ (if Underline o then [4] else []) ++
  (if Dim o then [2] else []) ++ (if Inverse o then [7] else []) ++ (if Strike o then [9] else []).

Section colours.
Context (Enabled : bool).

Definition Red (m : bytes) (bg bold : bool) : bytes := wrap Enabled m (color 31 bg bold).
Definition Green (m : bytes) (bg bold : bool) : bytes := wrap Enabled m (color 32 bg bold).
Definition Yellow (m : bytes) (bg bold : bool) : bytes := wrap Enabled m (color 33 bg bold).
Definition Blue (m : bytes) (bg bold : bool) : bytes := wrap Enabled m (color 34 bg bold).
Definition Magenta (m : bytes) (bg bold : bool) : bytes := wrap Enabled m (color 35 bg bold).
Definition Cyan (m : bytes) (bg bold : bool) : bytes := wrap Enabled m (color 36 bg bold).
Definition White (m : bytes) (bg bold : bool) : bytes := wrap Enabled m (color 37 bg bold).
Definition Gray (m : bytes) : bytes := wrap Enabled m (sgr (str "90")).

(** The palette code that is used. *)
Definition clamp (code : Z) : Z :=
  let code := if code <? 0 then 0 else code in
  if 255 <? code then 255 else code.

Definition XTerm (m : bytes) (code : Z) (bg bold : bool) : bytes :=
  if negb Enabled then m
  else
    (if bold then sgr (str "1") else []) ++
    (if bg then sgr (str "48;5;" ++ Itoa (clamp code)) else sgr (str "38;5;" ++ Itoa (clamp code))) ++
    m ++ reset.

Definition RGB (m : bytes) (r g b : Z) (bg bold : bool) : bytes :=
  if negb Enabled then m
  else
    let m := if bold then sgr (str "1") ++ m else m in
    let rgb := Itoa r ++ str ";" ++ Itoa g ++ str ";" ++ Itoa b in
    (if bg then sgr (str "48;2;" ++ rgb) else sgr (str "38;2;" ++ rgb)) ++ m ++ reset.

Definition Style (m : bytes) (o : StyleOpt) : bytes :=
  if negb Enabled then m
  else match style_codes o with
       | [] => m
       | codes => sgr (print_ints codes) ++ m ++ reset
       end.
End colours.

(** ** What a terminal shows *)

(** The class [[0-9;]]. *)
Definition sgr_param (b : byte) : bool := is_digit (b2z b) || bool_decide (b = Byte.x3b).

(** The text behind a match of [\x1b\[[0-9;]*m] at the front. *)
Definition ansi_match (l : bytes) : option bytes :=
  match l with
  | e :: b :: l =>
      if bool_decide (e = esc) && bool_decide (b = Byte.x5b) then
        match drop_while sgr_param l with
        | c :: rest => if bool_decide (c = Byte.x6d) then Some rest else None
        | [] => None
        end
      else None
  | _ => None
  end.

(** [ansiRE.ReplaceAllString(s, "")]; each round consumes a byte. *)
Fixpoint strip_fuel (fuel : nat) (l : bytes) : bytes :=
  match fuel, l with
  | S fuel, c :: l' =>
      match ansi_match l with
      | Some rest => strip_fuel fuel rest
      | None => c :: strip_fuel fuel l'
      end
  | _, _ => []
  end.
Definition strip (s : bytes) : bytes := strip_fuel (length s) s.

Lemma drop_while_length p l : (length (drop_while p l) <= length l)%nat.
Proof. induction l as [|b l IH]; cbn; [done|]. case_if; cbn in *; lia. Qed.

Lemma ansi_match_length l rest : ansi_match l = Some rest -> (length rest < length l)%nat.
Proof.
  unfold ansi_match. destruct l as [|e [|b l]]; try done. case_if; [|done].
  pose proof (drop_while_length sgr_param l) as Hd. destruct (drop_while sgr_param l); [done|].
  case_if; [|done]. intros [= <-]. cbn in *. lia.
Qed.

Lemma strip_fuel_enough f1 f2 l : (length l <= f1)%nat -> (length l <= f2)%nat -> strip_fuel f1 l = strip_fuel f2 l.
Proof.
  revert f2 l. induction f1 as [|f1 IH]; intros [|f2] [|c l] H1 H2; try done; cbn in H1, H2; try lia. cbn [strip_fuel].
  destruct (ansi_match (c :: l)) as [rest|] eqn:E.
  - apply ansi_match_length in E. cbn in E. apply IH; lia.
  - f_equal. apply IH; lia.
Qed.

(** One round of the replacement. *)
Lemma strip_cons c l :
  strip (c :: l) = match ansi_match (c :: l) with Some rest => strip rest | None => c :: strip l end.
Proof.
  unfold strip at 1. cbn [length strip_fuel]. destruct (ansi_match (c :: l)) as [rest|] eqn:E; [|done].
  apply ansi_match_length in E. cbn in E. apply strip_fuel_enough; lia.
Qed.

Lemma strip_plain c l : c <> esc -> strip (c :: l) = c :: strip l.
Proof.
  intros Hc. rewrite strip_cons. unfold ansi_match. destruct l; [done|]. by rewrite bool_decide_eq_false_2.
Qed.

Lemma drop_while_app p a c b :
  Forall (fun x => p x = true) a -> p c = false -> drop_while p (a ++ c :: b) = c :: b.
Proof. induction 1 as [|x a Hx _ IH]; intros Hc; cbn; [by rewrite Hc|by rewrite Hx, IH]. Qed.

(** A sequence with proper parameters vanishes. *)
Lemma strip_sgr params l : Forall (fun b => sgr_param b = true) params -> strip (sgr params ++ l) = strip l.
Proof.
  intros Hp. unfold sgr. change (str "[") with [Byte.x5b]. cbn [app]. rewrite strip_cons. unfold ansi_match.
  rewrite !bool_decide_eq_true_2 by done. cbn [andb]. rewrite <- app_assoc.
  change (str "m") with [Byte.x6d]. cbn [app]. rewrite drop_while_app by done. by rewrite bool_decide_eq_true_2.
Qed.

(** A byte that no match can contain behind its first byte. *)
Definition barrier (c : byte) : bool :=
  negb (sgr_param c) && negb (bool_decide (c = Byte.x5b)) && negb (bool_decide (c = Byte.x6d)).

Lemma drop_while_barrier c a b :
  sgr_param c = false -> exists d, drop_while sgr_param (a ++ c :: b) = d ++ c :: b /\ drop_while sgr_param a = d.
Proof.
  intros Hc. induction a as [|x a IH]; cbn; [rewrite Hc; by exists []|].
  case_if; [done|]. by exists (x :: a).
Qed.

(** No match crosses a barrier. *)
Lemma ansi_match_barrier x a c b :
  barrier c = true -> ansi_match ((x :: a) ++ c :: b) = (fun rest => rest ++ c :: b) <$> ansi_match (x :: a).
Proof.
  intros Hb. unfold barrier in Hb. bools. unfold ansi_match. destruct a as [|y a]; cbn [app].
  - rewrite (bool_decide_eq_false_2 (c = _)) by done. by rewrite andb_false_r.
  - case_if; [|done]. destruct (drop_while_barrier c a b) as (d & -> & ->); [done|].
    destruct d as [|z d]; cbn; [by rewrite bool_decide_eq_false_2|]. by case_if.
Qed.

Lemma strip_barrier a c b : barrier c = true -> strip (a ++ c :: b) = strip a ++ strip (c :: b).
Proof.
  intros Hb. remember (length a) as n eqn:En. revert a En. induction (lt_wf n) as [n _ IH]. intros [|x a] ->; [done|].
  rewrite (strip_cons x a). change ((x :: a) ++ c :: b) with (x :: (a ++ c :: b)) at 1. rewrite strip_cons.
  change (x :: a ++ c :: b) with ((x :: a) ++ c :: b). rewrite ansi_match_barrier by done.
  destruct (ansi_match (x :: a)) as [rest|] eqn:E; cbn [fmap option_fmap option_map].
  - apply ansi_match_length in E. by eapply IH.
  - cbn [app]. f_equal. eapply IH; [|done]. cbn. lia.
Qed.

(** Plain text stays. *)
Lemma strip_noesc a b : esc ∉ a -> strip (a ++ b) = a ++ strip b.
Proof.
  induction a as [|c a IH]; intros Ha; [done|]. apply not_elem_of_cons in Ha as [Hc Ha]. cbn [app].
  rewrite strip_plain by done. by rewrite IH.
Qed.

Lemma strip_plain_text a : esc ∉ a -> strip a = a.
Proof. intros Ha. rewrite <- (app_nil_r a) at 1. rewrite strip_noesc by done. apply app_nil_r. Qed.

Lemma strip_reset m : strip (m ++ reset) = strip m.
Proof.
  unfold reset, sgr. rewrite strip_barrier by done. change (esc :: str "[" ++ str "0" ++ str "m") with (sgr (str "0") ++ []).
  rewrite strip_sgr by (repeat constructor). by rewrite app_nil_r.
Qed.

Lemma digits_param l : Forall (fun b => is_digit (b2z b) = true) l -> Forall (fun b => sgr_param b = true) l.
Proof. intros H. eapply Forall_impl; [exact H|]. intros b Hb. unfold sgr_param. by rewrite Hb. Qed.

Lemma Itoa_param z : 0 <= z -> Forall (fun b => sgr_param b = true) (Itoa z).
Proof. intros Hz. by apply digits_param, Itoa_digits. Qed.

#[local] Hint Resolve Itoa_param Forall_app_2 : go.

Lemma strip_color code bg bold l : 0 <= code -> strip (color code bg bold ++ l) = strip l.
Proof.
  intros Hc. unfold color. rewrite <- app_assoc.
  assert (forall k, strip ((if bold then sgr (str "1") else []) ++ k) = strip k) as Hb.
  { intros k. destruct bold; [|done]. apply strip_sgr. by repeat constructor. }
  rewrite Hb. destruct bg; apply strip_sgr, Itoa_param; lia.
Qed.

Lemma strip_wrap en m code bg bold : 0 <= code -> strip (wrap en m (color code bg bold)) = strip m.
Proof. intros Hc. unfold wrap. destruct en; cbn [negb]; [|done]. rewrite strip_color by done. apply strip_reset. Qed.

(** Colours are invisible: for every text, code and setting, removing the
    escape sequences from a coloured text gives what removing them from the
    text gives, so columns can be counted behind any colour function. *)
Theorem colours_invisible (en : bool) (m : bytes) (code r g b : Z) (bg bold : bool)
    (Hr : 0 <= r) (Hg : 0 <= g) (Hb : 0 <= b) :
  Forall (fun f : bytes -> bool -> bool -> bytes => strip (f m bg bold) = strip m)
    [Red en; Green en; Yellow en; Blue en; Magenta en; Cyan en; White en; fun m _ _ => Gray en m;
     fun m => XTerm en m code; fun m => RGB en m r g b].
Proof.
  assert (forall k, strip ((if bold then sgr (str "1") else []) ++ k) = strip k) as Hbold.
  { intros k. destruct bold; [|done]. apply strip_sgr. by repeat constructor. }
  repeat constructor; try (by apply strip_wrap).
  - unfold Gray, wrap. destruct en; [|done]. cbn [negb]. rewrite strip_sgr by (by repeat constructor). apply strip_reset.
  - unfold XTerm. destruct en; [|done]. cbn [negb]. rewrite Hbold.
    assert (0 <= clamp code) as Hc by (unfold clamp; repeat case_if; lia).
    destruct bg; rewrite strip_sgr; try apply strip_reset; apply Forall_app_2; auto with go; by repeat constructor.
  - unfold RGB. destruct en; [|done]. cbn [negb]. cbv zeta.
    assert (Forall (fun b => sgr_param b = true) (Itoa r ++ str ";" ++ Itoa g ++ str ";" ++ Itoa b)) as Hrgb.
    { repeat apply Forall_app_2; auto with go; by repeat constructor. }
    assert (strip ((if bold then sgr (str "1") ++ m else m) ++ reset) = strip m) as Hm.
    { rewrite strip_reset. destruct bold; [|done]. by apply (Hbold m). }
    destruct bg; rewrite strip_sgr; try done; apply Forall_app_2; try done; by repeat constructor.
Qed.

Lemma colours_invisible_witness :
  Forall (fun f : bytes -> bool -> bool -> bytes => strip (f (str "warn") false true) = strip (str "warn"))
    [Red true; Green true; Yellow true; Blue true; Magenta true; Cyan true; White true; fun m _ _ => Gray true m;
     fun m => XTerm true m 300; fun m => RGB true m 1 2 3].
Proof. apply (colours_invisible true (str "warn") 300 1 2 3 false true); lia. Defined.

(** [Style] prints its codes as text: the slice of codes is formatted with
    its brackets, which makes the sequence malformed, so with colours enabled
    and any option set nothing is styled and the text shows the codes in front
    of the message. *)
Theorem Style_prints_codes (m : bytes) (o : StyleOpt) (Hcodes : style_codes o <> []) :
  strip (Style true m o) = sgr (print_ints (style_codes o)) ++ strip m.
Proof.
  unfold Style. cbn [negb]. destruct (style_codes o) as [|code codes] eqn:E; [done|]. rewrite <- E. clear Hcodes E code codes.
  rewrite <- (strip_reset m). generalize (m ++ reset). intros l. clear m.
  assert (exists t, sgr (print_ints (style_codes o)) = esc :: Byte.x5b :: Byte.x5b :: t /\ esc ∉ t) as (t & Et & Ht).
  { unfold sgr, print_ints, style_codes.
    exists (Join (Itoa <$> style_codes o) (str " ") ++ str "]" ++ str "m"). split; [change (str "[") with [Byte.x5b]; cbn [app]; by rewrite <- app_assoc|].
    unfold style_codes. destruct o as [[] [] [] [] [] []]; apply (bool_decide_eq_true_1 _); vm_compute; reflexivity. }
  rewrite Et. change ((esc :: Byte.x5b :: Byte.x5b :: t) ++ l) with (esc :: (Byte.x5b :: Byte.x5b :: t ++ l)).
  rewrite strip_cons. unfold ansi_match. rewrite !bool_decide_eq_true_2 by done. cbn [andb drop_while]. change (sgr_param Byte.x5b) with false. cbv iota.
  rewrite bool_decide_eq_false_2 by done. cbn [app]. do 1 f_equal.
  change (Byte.x5b :: Byte.x5b :: t ++ l) with ((Byte.x5b :: Byte.x5b :: t) ++ l).
  rewrite strip_noesc; [done|]. rewrite !not_elem_of_cons. by split_and!.
Qed.

Lemma Style_prints_codes_witness :
  strip (Style true (str "hi") (mkStyle true true false false false false)) =
    esc :: str "[[1 3]mhi".
Proof. apply (Style_prints_codes (str "hi") (mkStyle true true false false false false)). vm_compute. congruence. Defined.
