(* ===== verification/Logger.v ===== *)
(** * Logger: log lines, boxes, panels and headers on a terminal

    Models [logger/logger.go].  The terminal is the bytes written to it; the
    clock, the size of the terminal and whether colours are enabled are inputs.
    [strings.Repeat] with a negative count and a slice out of bounds panic, so
    drawing is in the monad.  [visibleLen] counts bytes behind [Termcolor.strip]. *)

From S2P Require Import Prelude Bytes GoStrings NetAddr Termcolor.

Local Open Scope Z_scope.

Record Logger := mkLogger {
  Name : bytes;
  UseEmoji : bool;
  ColorizeLevel : bool;
  ColorizeMessage : bool;
  IncludeNamePrefix : bool;
}.

Definition New (name : bytes) : Logger := mkLogger name true true false false.

Definition newline : bytes := [Byte.x0a].

Section log.
Context (Enabled : bool) (now : bytes).

Definition log_label (l : Logger) (level : bytes) : bytes :=
  if ColorizeLevel l then
    if bool_decide (level = str "ERROR") then Red Enabled level false true
    else if bool_decide (level = str "WARN") then Yellow Enabled level false true
    else if bool_decide (level = str "SUCCESS") then Green Enabled level false true
    else Cyan Enabled level false true
  else level.

(** What [log] writes at the time [now]. *)
Definition log (l : Logger) (level msg : bytes) : bytes :=
  let label := log_label l level in
  let namePrefix := if IncludeNamePrefix l then str "[" ++ Name l ++ str "] " else [] in
  let msg := if ColorizeMessage l then White Enabled msg false false else msg in
  let prefix := str "=> " ++ now ++ str " | " ++ label ++ str " | " in
  prefix ++ namePrefix ++ msg ++ newline.

Definition Info (l : Logger) (m : bytes) : bytes := log l (str "INFO   ") m.
Definition Warn (l : Logger) (m : bytes) : bytes := log l (str "WARN   ") m.
Definition Error (l : Logger) (m : bytes) : bytes := log l (str "ERROR  ") m.
Definition Success (l : Logger) (m : bytes) : bytes := log l (str "SUCCESS") m.

Definition ColorLog (line : bytes) : bytes :=
  if Contains line (str "ERROR") then Red Enabled line false true
  else if Contains line (str "WARN") then Yellow Enabled line false true
  else if Contains line (str "OK") then Green Enabled line false false
  else line.
End log.

Definition visibleLen (s : bytes) : Z := zlen (strip s).

(** [strings.Repeat]. *)
Definition RepeatZ {S} (s : bytes) (n : Z) : GoM S bytes :=
  if n <? 0 then panic else ret (Repeat s (Z.to_nat n)).

(** [s[:n]]. *)
Definition slice_to {S} (s : bytes) (n : Z) : GoM S bytes :=
  if (n <? 0) || (zlen s <? n) then panic else ret (take (Z.to_nat n) s).

Definition move_seq (row col : Z) : bytes := esc :: str "[" ++ Itoa row ++ str ";" ++ Itoa col ++ str "H".

Definition padRight {S} (s : bytes) (w : Z) : GoM S bytes :=
  let l := visibleLen s in
  if w <=? l then ret s
  else do pad <- RepeatZ (str " ") (w - l); ret (s ++ pad).

(** ** Boxes *)

(** The terminal. *)
Definition Print (b : bytes) : GoM bytes unit := modify (fun out => out ++ b).

Fixpoint box_rows (n : nat) (i x y w : Z) : GoM bytes unit :=
  match n with
  | O => ret tt
  | S n =>
      do fill <- RepeatZ (str " ") (w - 2);
      Print (move_seq (y + i) x ++ str "│" ++ fill ++ str "│") ;;
      box_rows n (i + 1) x y w
  end.

(** The body loop runs for [i] from 1 below [h - 1]. *)
Definition DrawBox (x y w h : Z) : GoM bytes unit :=
  Print (move_seq y x) ;;
  do top <- RepeatZ (str "─") (w - 2);
  Print (str "┌" ++ top ++ str "┐") ;;
  box_rows (Z.to_nat (h - 2)) 1 x y w ;;
  do bottom <- RepeatZ (str "─") (w - 2);
  Print (move_seq (y + h - 1) x ++ str "└" ++ bottom ++ str "┘").

Definition DrawLayout : GoM bytes unit :=
  Print (esc :: str "[2J") ;;
  let width := 60 in
  let height := 12 in
  let leftW := 18 in
  let rightW := width - leftW - 1 in
  DrawBox 1 1 leftW height ;;
  DrawBox (leftW + 2) 1 rightW height.

Definition WriteAt (x y : Z) (text : bytes) : GoM bytes unit := Print (move_seq y x ++ text).

Definition spinner_frames : list bytes :=
  [str "⠋"; str "⠙"; str "⠹"; str "⠸"; str "⠼"; str "⠴"; str "⠦"; str "⠧"; str "⠇"; str "⠏"].

(** [polls] is how often the loop finds [stop] open; an index out of range panics. *)
Fixpoint spin (polls : nat) (i x y : Z) : GoM bytes unit :=
  match polls with
  | O => ret tt
  | S polls =>
      match spinner_frames !! Z.to_nat (Z.rem i 10) with
      | Some frame => WriteAt x y frame ;; spin polls (i + 1) x y
      | None => panic
      end
  end.
Definition Spinner (polls : nat) (x y : Z) : GoM bytes unit := spin polls 0 x y.

(** ** Panels *)

Record Panel := mkPanel { X : Z; Y : Z; W : Z; H : Z; buffer : list bytes }.

(** A panel and the terminal. *)
Definition tty : Type := Panel * bytes.
Definition put_tty (b : bytes) : GoM tty unit := modify (fun s => (fst s, snd s ++ b)).
Definition set_buffer (l : list bytes) : GoM tty unit :=
  modify (fun s => (mkPanel (X (fst s)) (Y (fst s)) (W (fst s)) (H (fst s)) l, snd s)).

Fixpoint panel_rows (Enabled : bool) (n : nat) (i : Z) (p : Panel) : GoM tty unit :=
  match n with
  | O => ret tt
  | S n =>
      put_tty (move_seq (Y p + i) (X p)) ;;
      do fill <- RepeatZ (str " ") (W p - 2);
      put_tty (Gray Enabled (str "│") ++ fill ++ Gray Enabled (str "│")) ;;
      panel_rows Enabled n (i + 1) p
  end.

Definition Draw (Enabled : bool) : GoM tty unit :=
  do '(p, _) <- get;
  put_tty (move_seq (Y p) (X p)) ;;
  do top <- RepeatZ (str "─") (W p - 2);
  put_tty (Gray Enabled (str "┌" ++ top ++ str "┐")) ;;
  panel_rows Enabled (Z.to_nat (H p - 2)) 1 p ;;
  put_tty (move_seq (Y p + H p - 1) (X p)) ;;
  do bottom <- RepeatZ (str "─") (W p - 2);
  put_tty (Gray Enabled (str "└" ++ bottom ++ str "┘")).

(** One line, cut to the width and padded. *)
Definition put_line (line : bytes) (w : Z) : GoM tty unit :=
  do line <- (if w <? zlen line then slice_to line w else ret line);
  do padded <- padRight line w;
  put_tty padded.

Fixpoint redraw_rows (n : nat) (i : Z) : GoM tty unit :=
  match n with
  | O => ret tt
  | S n =>
      do '(p, _) <- get;
      put_tty (move_seq (Y p + 1 + i) (X p + 1)) ;;
      let line := if i <? zlen (buffer p) then default [] (buffer p !! Z.to_nat i) else [] in
      put_line line (W p - 2) ;;
      redraw_rows n (i + 1)
  end.

Definition redrawContent : GoM tty unit :=
  do '(p, _) <- get; redraw_rows (Z.to_nat (H p - 2)) 0.

Definition AppendLine (line : bytes) : GoM tty unit :=
  do '(p, _) <- get;
  let max := H p - 2 in
  let b := buffer p ++ [line] in
  (if max <? zlen b
   then if zlen b <? zlen b - max then panic else set_buffer (drop (Z.to_nat (zlen b - max)) b)
   else set_buffer b) ;;
  redrawContent.

Definition SetLine (row : Z) (text : bytes) : GoM tty unit :=
  do '(p, _) <- get;
  if (row <? 0) || (H p - 2 <=? row) then ret tt
  else put_tty (move_seq (Y p + 1 + row) (X p + 1)) ;; put_line text (W p - 2).

(** [RunTimeLog] for the ticks that come: the times as formatted. *)
Fixpoint RunTimeLog (ticks : list bytes) : GoM tty unit :=
  match ticks with
  | [] => ret tt
  | t :: ticks => AppendLine t ;; RunTimeLog ticks
  end.

(** [Layout] for a terminal of this size; without one the size is 0, 0. *)
Definition Layout (w h : Z) : Panel * Panel :=
  let leftW := Z.quot w 10 in
  let rightW := w - leftW - 1 in
  (mkPanel 1 1 leftW h [], mkPanel (leftW + 2) 1 rightW h []).

(** ** Headers *)

(** The width: the terminal's when there is one and its size is known. *)
Definition header_width (terminal : option Z) : Z := default 80 terminal.

Definition header_line {S} (width : Z) (line : bytes) : GoM S bytes :=
  let t := TrimSpace line in
  let pad := Z.max (Z.quot (width - visibleLen t) 2) 0 in
  do left <- RepeatZ (str " ") pad;
  padRight (left ++ t) width.

Fixpoint print_lines (width : Z) (lines : list bytes) : GoM bytes unit :=
  match lines with
  | [] => ret tt
  | line :: lines =>
      do l <- header_line width line;
      Print (l ++ newline) ;;
      print_lines width lines
  end.

Definition Header (terminal : option Z) (text : bytes) (bold : bool) : GoM bytes unit :=
  let width := header_width terminal in
  do borderLine <- RepeatZ (if bold then str "=" else str "-") width;
  Print (borderLine ++ newline) ;;
  print_lines width (Split (TrimSpace text) newline) ;;
  Print (borderLine ++ newline).

(** ** [WatchResize]

    Signals go into a channel that holds one; the goroutine takes it out and
    calls [on].  The label is the signal that comes in. *)
Inductive signal := SIGWINCH | SIGPIPE.
#[export] Instance signal_eq_dec : EqDecision signal.
Proof. solve_decision. Defined.

Record watcher := mkWatch { wt_full : bool; wt_calls : nat }.

(** What [signal.Notify] is asked for. *)
Definition subscribed (s : signal) : bool := bool_decide (s = SIGPIPE).

Inductive watch_step : list signal -> watcher -> watcher -> Prop :=
| watch_signal s w : watch_step [s] w (mkWatch (wt_full w || subscribed s) (wt_calls w))
| watch_call n : watch_step [] (mkWatch true n) (mkWatch false (S n)).

Inductive WatchResize : list signal -> watcher -> watcher -> Prop :=
| watch_nil w : WatchResize [] w w
| watch_more ss1 ss2 w1 w2 w3 : watch_step ss1 w1 w2 -> WatchResize ss2 w2 w3 -> WatchResize (ss1 ++ ss2) w1 w3.

Definition pipes (ss : list signal) : nat := length (filter (fun s => s = SIGPIPE) ss).

Lemma watch_bound ss w w' :
  WatchResize ss w w' ->
  (wt_calls w' + (if wt_full w' then 1 else 0) <= wt_calls w + (if wt_full w then 1 else 0) + pipes ss)%nat.
Proof.
  induction 1 as [w|ss1 ss2 w1 w2 w3 Hs _ IH]; [lia|]. unfold pipes in *. rewrite filter_app, length_app.
  destruct Hs as [s w|n]; cbn [wt_full wt_calls] in *; [|rewrite filter_nil; cbn; lia].
  destruct s; rewrite filter_cons, filter_nil;
    [change (subscribed SIGWINCH) with false in IH; rewrite decide_False by done
    |change (subscribed SIGPIPE) with true in IH; rewrite decide_True by done];
    destruct (wt_full w); cbn in *; lia.
Qed.

(** The callback runs at most once per broken pipe and never for a change of
    the terminal's size. *)
Theorem WatchResize_misses (ss : list signal) (w : watcher)
    (Hrun : WatchResize ss (mkWatch false 0) w) (Hsizes : Forall (fun s => s = SIGWINCH) ss) :
  wt_calls w = 0%nat.
Proof.
  pose proof (watch_bound _ _ _ Hrun) as Hb. cbn [wt_full wt_calls] in Hb.
  assert (pipes ss = 0%nat) as Hp.
  { unfold pipes. clear Hrun Hb. induction Hsizes as [|s ss -> _ IH]; [done|]. by rewrite filter_cons_False. }
  destruct (wt_full w); lia.
Qed.

(** ** Log lines *)

(** Texts that look alike can be exchanged between two barriers. *)
Lemma strip_between a c x y d b :
  barrier c = true -> c <> esc -> barrier d = true -> strip x = strip y ->
  strip (a ++ c :: (x ++ d :: b)) = strip (a ++ c :: (y ++ d :: b)).
Proof.
  intros Hc Hce Hd E. rewrite !(strip_barrier a), !(strip_plain c) by done.
  by rewrite (strip_barrier x), (strip_barrier y), E.
Qed.

Lemma log_label_strip en l level : strip (log_label en l level) = strip level.
Proof. unfold log_label. repeat case_if; try done; by apply strip_wrap. Qed.

(** The line without colours. *)
Definition plain_line (now : bytes) (l : Logger) (level msg : bytes) : bytes :=
  str "=> " ++ now ++ str " | " ++ level ++ str " | " ++
  (if IncludeNamePrefix l then str "[" ++ Name l ++ str "] " else []) ++ msg ++ newline.

(** Whatever is coloured, the text of a log line is the time, the level, the
    name when asked for and the message: on a terminal the line reads like the
    plain one, whatever escape sequences the name and the message contain. *)
Theorem log_visible (en : bool) (now : bytes) (l : Logger) (level msg : bytes) :
  strip (log en now l level msg) = strip (plain_line now l level msg).
Proof.
  set (np := if IncludeNamePrefix l then str "[" ++ Name l ++ str "] " else []).
  assert (forall label m, str "=> " ++ now ++ str " | " ++ label ++ str " | " ++ np ++ m ++ newline =
    (str "=> " ++ now ++ str " |") ++ Byte.x20 :: (label ++ Byte.x20 :: (str "| " ++ np ++ m ++ newline))) as E1.
  { intros label m. rewrite <- !app_assoc. done. }
  assert (exists q, forall label m, str "=> " ++ now ++ str " | " ++ label ++ str " | " ++ np ++ m ++ newline =
    (str "=> " ++ now ++ str " | " ++ label ++ str " |" ++ q) ++ Byte.x20 :: (m ++ Byte.x0a :: [])) as [q E2].
  { unfold np. destruct (IncludeNamePrefix l).
    - exists (str " [" ++ Name l ++ str "]"). intros label m. change (str " | ") with (str " |" ++ [Byte.x20]).
      change (str " [") with ([Byte.x20] ++ str "["). change (str "] ") with (str "]" ++ [Byte.x20]).
      rewrite <- !app_assoc. done.
    - exists []. intros label m. rewrite <- !app_assoc. done. }
  unfold plain_line, log. fold np. cbv zeta. rewrite <- !app_assoc.
  transitivity (strip (str "=> " ++ now ++ str " | " ++ level ++ str " | " ++ np ++
    (if ColorizeMessage l then White en msg false false else msg) ++ newline)).
  - rewrite !E1. apply strip_between; try done. apply log_label_strip.
  - rewrite !E2. apply strip_between; try done. destruct (ColorizeMessage l); [by apply strip_wrap|done].
Qed.

(** Errors and warnings do not get their colours: the levels [Error] and
    [Warn] log under are padded to seven letters, and no longer equal the names
    the colours are chosen by, so with a new logger they come out in the cyan of
    [Info]; only [Success], which needs no padding, has its own. *)
Theorem errors_are_cyan (now name m : bytes) :
  let line (level color : bytes) := str "=> " ++ now ++ str " | " ++ (color ++ level ++ reset) ++ str " | " ++ m ++ newline in
  let cyan := color 36 false true in
  Info true now (New name) m = line (str "INFO   ") cyan /\
  Warn true now (New name) m = line (str "WARN   ") cyan /\
  Error true now (New name) m = line (str "ERROR  ") cyan /\
  Success true now (New name) m = line (str "SUCCESS") (color 32 false true).
Proof.
  cbv zeta. unfold Info, Warn, Error, Success, log, log_label, New.
  cbn [ColorizeLevel IncludeNamePrefix ColorizeMessage]. decide_consts. cbv zeta.
  unfold Cyan, Green, wrap. cbn [negb]. rewrite <- !app_assoc. done.
Qed.

(** ** Panels *)

(** The last [n] of a list. *)
Definition lastn {A} (n : nat) (l : list A) : list A := drop (length l - n) l.

Lemma lastn_snoc {A} n (l : list A) x : lastn n (lastn n l ++ [x]) = lastn n (l ++ [x]).
Proof.
  unfold lastn. rewrite !length_app, length_drop. cbn [length].
  destruct (decide (n <= length l)%nat) as [Hle|Hgt].
  - replace (length l - (length l - n))%nat with n by lia.
    rewrite !skipn_app, length_drop, drop_drop.
    replace (n + 1 - n - (length l - (length l - n)))%nat with (1 - n)%nat by lia.
    replace (length l + 1 - n - length l)%nat with (1 - n)%nat by lia. do 2 f_equal. lia.
  - replace (length l - n)%nat with 0%nat by lia. rewrite drop_0. f_equal. lia.
Qed.

Lemma length_lastn {A} n (l : list A) : length (lastn n l) = Nat.min n (length l).
Proof. unfold lastn. rewrite length_drop. lia. Qed.

Lemma lastn_app {A} n (l k : list A) : lastn n (lastn n l ++ k) = lastn n (l ++ k).
Proof.
  induction k as [|x k IH] using rev_ind.
  - rewrite !app_nil_r. unfold lastn at 1. rewrite length_lastn. by replace (_ - n)%nat with 0%nat by lia.
  - rewrite !app_assoc, <- lastn_snoc, IH. apply lastn_snoc.
Qed.

(** A line as it is shown in [w] columns. *)
Definition shown (w : Z) (line : bytes) : bytes :=
  let line := if w <? zlen line then take (Z.to_nat w) line else line in
  line ++ Repeat (str " ") (Z.to_nat (w - visibleLen line)).

Lemma put_line_shown line w (s : tty) :
  0 <= w -> put_line line w s = (Ok tt, (fst s, snd s ++ shown w line)).
Proof.
  intros Hw. unfold put_line, shown. destruct (w <? zlen line) eqn:E; bools.
  - unfold slice_to. rewrite (proj2 (Z.ltb_ge w 0)), (proj2 (Z.ltb_ge (zlen line) w)) by lia. cbn [orb].
    unfold bind at 1, ret at 1. cbv beta iota. set (t := take (Z.to_nat w) line). unfold padRight, RepeatZ.
    destruct (w <=? visibleLen t) eqn:E2; bools.
    + replace (Z.to_nat (w - visibleLen t)) with 0%nat by lia. unfold Repeat. cbn. by rewrite app_nil_r.
    + rewrite (proj2 (Z.ltb_ge _ 0)) by lia. done.
  - unfold bind at 1, ret at 1. cbv beta iota. unfold padRight, RepeatZ.
    destruct (w <=? visibleLen line) eqn:E2; bools.
    + replace (Z.to_nat (w - visibleLen line)) with 0%nat by lia. unfold Repeat. cbn. by rewrite app_nil_r.
    + rewrite (proj2 (Z.ltb_ge _ 0)) by lia. done.
Qed.

(** The content rows of a panel, each behind the move to it. *)
Definition row_of (p : Panel) (i : nat) : bytes :=
  move_seq (Y p + 1 + Z.of_nat i) (X p + 1) ++ shown (W p - 2) (default [] (buffer p !! i)).
Definition content (p : Panel) : bytes := concat (row_of p <$> seq 0 (Z.to_nat (H p - 2))).

Lemma redraw_rows_content p n i out :
  2 <= W p -> redraw_rows n (Z.of_nat i) (p, out) = (Ok tt, (p, out ++ concat (row_of p <$> seq i n))).
Proof.
  intros HW. revert i out. induction n as [|n IH]; intros i out; cbn [redraw_rows seq fmap list_fmap concat].
  { by rewrite app_nil_r. }
  unfold get, bind at 1. cbv beta iota. unfold put_tty, modify, bind at 1. cbv beta iota zeta. cbn [fst snd].
  erewrite bind_Ok by (apply put_line_shown; lia). cbn [fst snd].
  replace (Z.of_nat i + 1) with (Z.of_nat (S i)) by lia. rewrite IH. do 2 f_equal. rewrite <- !app_assoc. f_equal.
  unfold row_of. rewrite <- app_assoc. do 3 f_equal. rewrite Nat2Z.id. unfold zlen.
  destruct (Z.of_nat i <? Z.of_nat (length (buffer p))) eqn:E; bools; [done|].
  rewrite lookup_ge_None_2 by lia. done.
Qed.

Definition with_buffer (p : Panel) (l : list bytes) : Panel := mkPanel (X p) (Y p) (W p) (H p) l.

Lemma AppendLine_spec line p out :
  2 <= W p -> 2 <= H p ->
  let p' := with_buffer p (lastn (Z.to_nat (H p - 2)) (buffer p ++ [line])) in
  AppendLine line (p, out) = (Ok tt, (p', out ++ content p')).
Proof.
  intros HW HH p'. unfold AppendLine, get, bind at 1. cbv beta iota zeta.
  assert ((if H p - 2 <? zlen (buffer p ++ [line])
    then if zlen (buffer p ++ [line]) <? zlen (buffer p ++ [line]) - (H p - 2) then panic
         else set_buffer (drop (Z.to_nat (zlen (buffer p ++ [line]) - (H p - 2))) (buffer p ++ [line]))
    else set_buffer (buffer p ++ [line])) (p, out) = (Ok tt, (p', out))) as E.
  { unfold p', with_buffer, lastn, set_buffer, modify. cbn [fst snd]. rewrite (proj2 (Z.ltb_ge (zlen _) (zlen _ - _))) by lia.
    unfold zlen. case_if; cbn [fst snd]; do 3 f_equal.
    - f_equal. lia.
    - replace (_ - _)%nat with 0%nat by lia. done. }
  rewrite (bind_Ok _ _ _ _ _ E). unfold redrawContent, get, bind. cbv beta iota.
  apply (redraw_rows_content p' (Z.to_nat (H p' - 2)) 0 out). done.
Qed.

(** What a panel shows after the lines [ls]. *)
Definition panel_after (p : Panel) (ls : list bytes) : Panel :=
  with_buffer p (lastn (Z.to_nat (H p - 2)) (buffer p ++ ls)).

Lemma Repeat_space n : Repeat (str " ") n = replicate n Byte.x20.
Proof. induction n as [|n IH]; [done|]. cbn. by rewrite <- IH. Qed.

Lemma spaces_plain n : esc ∉ replicate n Byte.x20.
Proof. intros Hin%elem_of_replicate_inv. done. Qed.

(** Spaces around a text count as themselves. *)
Lemma visible_spaces a line b :
  visibleLen (replicate a Byte.x20 ++ line ++ replicate b Byte.x20) = visibleLen line + Z.of_nat (a + b).
Proof.
  unfold visibleLen. rewrite strip_noesc by apply spaces_plain.
  assert (strip (line ++ replicate b Byte.x20) = strip line ++ replicate b Byte.x20) as ->.
  { destruct b as [|b]; cbn [replicate]; [by rewrite !app_nil_r|]. rewrite strip_barrier by done.
    by rewrite (strip_plain_text (_ :: _)) by apply (spaces_plain (S b)). }
  rewrite !zlen_app. unfold zlen. rewrite !length_replicate. lia.
Qed.

Lemma visible_le line : visibleLen line <= zlen line.
Proof.
  unfold visibleLen, strip. assert (forall n l, (length (strip_fuel n l) <= length l)%nat) as Hn.
  { induction n as [|n IH]; intros [|c l]; cbn [strip_fuel length]; try lia.
    destruct (ansi_match (c :: l)) as [rest|] eqn:E; cbn [length].
    - apply ansi_match_length in E. specialize (IH rest). cbn in E. lia.
    - specialize (IH l). lia. }
  unfold zlen. specialize (Hn (length line) line). lia.
Qed.

(** A row without escape sequences fills its columns exactly. *)
Lemma shown_width w line : 0 <= w -> esc ∉ line -> visibleLen (shown w line) = w.
Proof.
  intros Hw Hl. unfold shown. cbv zeta. rewrite Repeat_space.
  set (t := if w <? zlen line then take (Z.to_nat w) line else line).
  assert ((esc ∉ t) /\ zlen t <= w) as [Ht Hlen].
  { unfold t. case_if; [|split; [done|lia]]. split; [|unfold zlen in *; rewrite length_take; lia].
    intros Hin. apply Hl. rewrite <- (take_drop (Z.to_nat w) line). apply elem_of_app. by left. }
  pose proof (visible_spaces 0 t (Z.to_nat (w - visibleLen t))) as Hv. cbn [replicate app] in Hv. rewrite Hv.
  unfold visibleLen. rewrite (strip_plain_text t) by done. lia.
Qed.

(** C38: a panel is a window on the last lines: appending any lines to a panel
    of at least two rows and two columns does not panic and keeps no more than
    its content rows, [H - 2] of them; the last call draws each row in its place
    with the lines that were appended last, in order, cut to [W - 2] bytes and
    padded.  A row whose line has no escape sequence is then [W - 2] wide,
    counted in bytes as the code counts. *)
Theorem AppendLine_window (p : Panel) (out : bytes) (ls : list bytes) (line : bytes)
    (HW : 2 <= W p) (HH : 2 <= H p) (Hbuf : (length (buffer p) <= Z.to_nat (H p - 2))%nat) :
  exists out',
    (RunTimeLog ls ;; AppendLine line) (p, out) =
      (Ok tt, (panel_after p (ls ++ [line]), out' ++ content (panel_after p (ls ++ [line])))) /\
    (length (buffer (panel_after p (ls ++ [line]))) <= Z.to_nat (H p - 2))%nat /\
    forall i, (esc ∉ default [] (buffer (panel_after p (ls ++ [line])) !! i)) ->
      visibleLen (shown (W p - 2) (default [] (buffer (panel_after p (ls ++ [line])) !! i))) = W p - 2.
Proof.
  assert (exists out', RunTimeLog ls (p, out) = (Ok tt, (panel_after p ls, out'))) as [out' E].
  { clear line. revert p out HW HH Hbuf. induction ls as [|t ls IH]; intros p out HW HH Hbuf.
    - exists out. unfold panel_after. rewrite app_nil_r. unfold lastn.
      replace (_ - _)%nat with 0%nat by lia. rewrite drop_0. by destruct p.
    - cbn [RunTimeLog]. rewrite (bind_Ok _ _ _ _ _ (AppendLine_spec t p out HW HH)).
      set (p' := with_buffer p _). destruct (IH p' (out ++ content p')) as [out' E]; [done|done| |].
      { unfold p'. cbn. rewrite length_lastn. lia. }
      exists out'. rewrite E. assert (panel_after p' ls = panel_after p (t :: ls)) as ->; [|done].
      unfold panel_after, p', with_buffer. cbn [X Y W H buffer]. f_equal.
      change (t :: ls) with ([t] ++ ls). rewrite (app_assoc (buffer p)). apply lastn_app. }
  exists out'. split_and!.
  - rewrite (bind_Ok _ _ _ _ _ E). etrans; [by apply AppendLine_spec|]. cbv zeta.
    assert (with_buffer (panel_after p ls) (lastn (Z.to_nat (H (panel_after p ls) - 2)) (buffer (panel_after p ls) ++ [line]))
      = panel_after p (ls ++ [line])) as ->; [|done].
    unfold panel_after, with_buffer. cbn [X Y W H buffer]. f_equal. by rewrite lastn_snoc, app_assoc.
  - cbn. rewrite length_lastn. lia.
  - intros i Hi. apply shown_width; [lia|done].
Qed.

Lemma AppendLine_window_witness :
  let p := mkPanel 1 1 10 4 [] in
  exists out', (RunTimeLog [str "one"; str "two"] ;; AppendLine (str "three and more")) (p, []) =
    (Ok tt, (mkPanel 1 1 10 4 [str "two"; str "three and more"],
             out' ++ content (mkPanel 1 1 10 4 [str "two"; str "three and more"]))).
Proof.
  intros p. destruct (AppendLine_window p [] [str "one"; str "two"] (str "three and more")) as (out' & E & _).
  - done.
  - done.
  - cbn. lia.
  - exists out'. exact E.
Defined.

(** A coloured line that fits is cut all the same: its escape sequences are
    counted as columns, so of a red line of exactly the panel's width the last
    nine characters are dropped and, worse, the sequence that ends the colour:
    everything drawn after it is red too. *)
Theorem coloured_line_cut (m : bytes) (w : Z)
    (Hplain : esc ∉ m) (Hfits : visibleLen (Red true m false true) = w) (Hw : 9 <= w) :
  shown w (Red true m false true) =
    color 31 false true ++ take (Z.to_nat (w - 9)) m ++ replicate 9 Byte.x20.
Proof.
  unfold Red in Hfits |- *. unfold visibleLen in Hfits. rewrite strip_wrap, strip_plain_text in Hfits by done.
  unfold wrap. cbn [negb]. set (open := color 31 false true). assert (length open = 9%nat) as Hk by done.
  unfold shown. rewrite Repeat_space. subst w.
  assert ((zlen m <? zlen (open ++ m ++ reset)) = true) as ->.
  { apply Z.ltb_lt. rewrite !zlen_app. unfold zlen. cbn. lia. }
  assert (take (Z.to_nat (zlen m)) (open ++ m ++ reset) = open ++ take (Z.to_nat (zlen m - 9)) m) as ->.
  { rewrite take_app, Hk, take_ge by (rewrite Hk; unfold zlen in *; lia). f_equal. rewrite take_app_le by (unfold zlen in *; lia).
    f_equal. unfold zlen in *. lia. }
  rewrite <- app_assoc. do 3 f_equal. unfold visibleLen, open. rewrite strip_color by done.
  rewrite strip_plain_text; [unfold zlen in *; rewrite length_take; lia|].
  intros Hin. apply Hplain. rewrite <- (take_drop (Z.to_nat (zlen m - 9)) m). apply elem_of_app. by left.
Qed.

Lemma coloured_line_cut_witness :
  shown 12 (Red true (str "disk is full") false true) =
    color 31 false true ++ str "dis" ++ replicate 9 Byte.x20.
Proof.
  apply (coloured_line_cut (str "disk is full") 12).
  - apply (bool_decide_unpack _). vm_compute. exact I.
  - vm_compute. reflexivity.
  - done.
Defined.

(** ** Layout *)

Lemma RepeatZ_ok {S} b n (s : S) : 0 <= n -> RepeatZ b n s = (Ok (Repeat b (Z.to_nat n)), s).
Proof. intros Hn. unfold RepeatZ. by rewrite (proj2 (Z.ltb_ge n 0)). Qed.

Lemma panel_rows_ok en n i p s : 2 <= W p -> exists out, panel_rows en n i p s = (Ok tt, (fst s, out)).
Proof.
  intros HW. revert i s. induction n as [|n IH]; intros i s; cbn [panel_rows]; [exists (snd s); by destruct s|].
  unfold put_tty at 1, modify, bind at 1. cbv beta iota. erewrite bind_Ok by (apply RepeatZ_ok; lia).
  unfold put_tty at 1, modify, bind at 1. cbv beta iota.
  match goal with |- context [panel_rows en n _ p ?s1] => destruct (IH (i + 1) s1) as [out E] end.
  exists out. rewrite E. done.
Qed.

Lemma Draw_ok en p out : 2 <= W p -> fst (Draw en (p, out)) = Ok tt.
Proof.
  intros HW. unfold Draw, get, bind at 1. cbv beta iota. unfold put_tty at 1, modify, bind at 1. cbv beta iota.
  erewrite bind_Ok by (apply RepeatZ_ok; lia). unfold put_tty at 1, modify, bind at 1. cbv beta iota.
  destruct (panel_rows_ok en (Z.to_nat (H p - 2)) 1 p
    (p, (out ++ move_seq (Y p) (X p)) ++ Gray en (str "┌" ++ Repeat (str "─") (Z.to_nat (W p - 2)) ++ str "┐"))) as [o E]; [done|].
  rewrite (bind_Ok _ _ _ _ _ E). unfold put_tty at 1, modify, bind at 1. cbv beta iota.
  by erewrite bind_Ok by (apply RepeatZ_ok; lia).
Qed.

Lemma Draw_narrow en p out : W p < 2 -> fst (Draw en (p, out)) = Panic.
Proof.
  intros HW. unfold Draw, get, bind at 1. cbv beta iota. unfold put_tty at 1, modify, bind at 1. cbv beta iota.
  unfold RepeatZ, bind at 1. by rewrite (proj2 (Z.ltb_lt _ _)) by lia.
Qed.

(** On a terminal of at least twenty columns the two panels of [Layout] lie
    side by side with one column between them, reach the last column, and can
    be drawn; on a narrower one, and without a terminal, whose size is then
    zero, drawing the left panel panics. *)
Theorem Layout_correct (en : bool) (out : bytes) (w h : Z) :
  let '(lp, rp) := Layout w h in
  if 20 <=? w then
    X lp = 1 /\ X rp = X lp + W lp + 1 /\ X rp + W rp - 1 = w /\
    fst (Draw en (lp, out)) = Ok tt /\ fst (Draw en (rp, out)) = Ok tt
  else fst (Draw en (lp, out)) = Panic.
Proof.
  unfold Layout. destruct (20 <=? w) eqn:E; bools.
  - assert (2 <= Z.quot w 10 <= w - 3).
    { rewrite Z.quot_div_nonneg by lia. pose proof (Z.div_mod w 10). pose proof (Z.mod_pos_bound w 10). lia. }
    cbn [X W]. split_and!; try lia; apply Draw_ok; cbn [W]; lia.
  - apply Draw_narrow. cbn [W]. assert (Z.quot w 10 <= Z.quot 19 10) by (apply Z.quot_le_mono; lia).
    change (Z.quot 19 10) with 1 in *. lia.
Qed.

(** ** Headers *)

(** A line centred in the width; one that does not fit is left alone. *)
Definition centred (width : Z) (t : bytes) : bytes :=
  if visibleLen t <=? width then
    let left := (width - visibleLen t) / 2 in
    replicate (Z.to_nat left) Byte.x20 ++ t ++ replicate (Z.to_nat (width - visibleLen t - left)) Byte.x20
  else t.

Lemma header_line_centred {S} width line (s : S) :
  header_line width line s = (Ok (centred width (TrimSpace line)), s).
Proof.
  unfold header_line, centred. cbv zeta. set (t := TrimSpace line).
  erewrite bind_Ok by (apply RepeatZ_ok; lia). rewrite Repeat_space. unfold padRight.
  pose proof (visible_spaces (Z.to_nat (Z.max (Z.quot (width - visibleLen t) 2) 0)) t 0) as Hv.
  cbn [replicate] in Hv. rewrite app_nil_r in Hv. rewrite Hv.
  destruct (visibleLen t <=? width) eqn:E; bools.
  - rewrite Z.quot_div_nonneg, Z.max_l in * by (try apply Z.div_pos; lia).
    pose proof (Z.div_mod (width - visibleLen t) 2). pose proof (Z.mod_pos_bound (width - visibleLen t) 2).
    set (left := (width - visibleLen t) / 2) in *. rewrite Nat.add_0_r, Z2Nat.id by lia.
    destruct (width <=? visibleLen t + left) eqn:E2; bools.
    + replace left with 0 by lia. replace (width - visibleLen t - 0) with 0 by lia. cbn. by rewrite app_nil_r.
    + erewrite bind_Ok by (apply RepeatZ_ok; lia). rewrite Repeat_space, <- app_assoc.
      by replace (width - (visibleLen t + left)) with (width - visibleLen t - left) by lia.
  - assert (Z.quot (width - visibleLen t) 2 <= 0) by (apply (Z.quot_le_mono _ 0 2); lia).
    rewrite Z.max_r in * by lia. cbn [Z.to_nat replicate app]. by rewrite (proj2 (Z.leb_le _ _)) by lia.
Qed.

Lemma centred_width width t : visibleLen t <= width -> visibleLen (centred width t) = width.
Proof.
  intros Hw. unfold centred. rewrite (proj2 (Z.leb_le _ _)) by done. cbv zeta. rewrite visible_spaces.
  pose proof (Z.div_mod (width - visibleLen t) 2). pose proof (Z.mod_pos_bound (width - visibleLen t) 2). lia.
Qed.

Lemma print_lines_centred width lines out :
  print_lines width lines out = (Ok tt, out ++ concat ((fun line => centred width (TrimSpace line) ++ newline) <$> lines)).
Proof.
  revert out. induction lines as [|line lines IH]; intros out; cbn [print_lines fmap list_fmap concat].
  - by rewrite app_nil_r.
  - rewrite (bind_Ok _ _ _ _ _ (header_line_centred width line out)). unfold Print, modify, bind. cbv beta iota.
    rewrite IH. by rewrite <- app_assoc.
Qed.

(** A header is its lines between two borders: on any terminal each line of
    the text is trimmed and centred, so that every line that fits takes exactly
    the width, as many spaces left of it as right of it or one fewer, whatever
    colours it contains. *)
Theorem Header_correct (terminal : option Z) (text : bytes) (bold : bool) (out : bytes)
    (Hwidth : 0 <= header_width terminal) :
  let width := header_width terminal in
  let border := Repeat (if bold then str "=" else str "-") (Z.to_nat width) ++ newline in
  Header terminal text bold out =
    (Ok tt, out ++ border ++
       concat ((fun line => centred width (TrimSpace line) ++ newline) <$> Split (TrimSpace text) newline) ++ border) /\
  forall t, visibleLen t <= width -> visibleLen (centred width t) = width.
Proof.
  cbv zeta. split; [|apply centred_width]. unfold Header. cbv zeta. erewrite bind_Ok by (by apply RepeatZ_ok).
  unfold Print at 1, modify, bind at 1. cbv beta iota. rewrite (bind_Ok _ _ _ _ _ (print_lines_centred _ _ _)).
  unfold Print, modify. by rewrite <- !app_assoc.
Qed.

Lemma Header_correct_witness :
  Header (Some 9) (str " one ") true [] =
    (Ok tt, str "=========" ++ newline ++ str "   one   " ++ newline ++ str "=========" ++ newline).
Proof. apply (Header_correct (Some 9) (str " one ") true []). done. Defined.
