(* ===== verification/Debouncer.v ===== *)
(** * Debouncer: one run of the action per burst of calls

    Models [debouncer/debouncer.go] over a model of [time.AfterFunc]: a timer
    waits until its time has come and then runs the action, once, at that time
    or later; [Stop] keeps a waiting timer from running and does nothing to one
    that has run.  [Call] holds the mutex for its whole body and is one step;
    timers and the clock move on their own. *)

From S2P Require Import Prelude.

Local Open Scope Z_scope.

(** A timer made by [time.AfterFunc]. *)
Inductive timer :=
| Waiting (deadline : Z)
| Stopped
| Ran.

Definition timer_Stop (t : timer) : timer := match t with Waiting _ => Stopped | t => t end.

(** Calls and runs of the action, with their times.  A run is dated by the
    moment its timer fires: the action has a goroutine of its own, which later
    calls can overlap. *)
Inductive event := Called (t : Z) | Acted (t : Z).

Record debouncer := mkDebouncer {
  d_delay : Z;
  d_timer : option nat;
  d_timers : list timer;
  d_now : Z;
  d_trace : list event;
}.

(** [d_timers] are all timers ever made; [d_timer] is the field [timer]. *)
Definition NewDebouncer (delay now : Z) : debouncer := mkDebouncer delay None [] now [].

Definition Call (d : debouncer) : debouncer :=
  let timers := match d_timer d with
                | Some i => alter timer_Stop i (d_timers d)
                | None => d_timers d
                end in
  mkDebouncer (d_delay d) (Some (length timers)) (timers ++ [Waiting (d_now d + d_delay d)]) (d_now d)
    (d_trace d ++ [Called (d_now d)]).

Inductive debounce_step : debouncer -> debouncer -> Prop :=
| step_call d : debounce_step d (Call d)
| step_clock delay cur ts now now' tr :
    now <= now' -> debounce_step (mkDebouncer delay cur ts now tr) (mkDebouncer delay cur ts now' tr)
| step_fire delay cur ts now tr i deadline :
    ts !! i = Some (Waiting deadline) -> deadline <= now ->
    debounce_step (mkDebouncer delay cur ts now tr) (mkDebouncer delay cur (<[i := Ran]> ts) now (tr ++ [Acted now])).

(** ** The specification

    The abstract debouncer remembers the time of a call that has not been
    answered yet: a call replaces it, a run answers it, no sooner than the
    delay after it. *)
Definition spec_event (delay : Z) (pending : option Z) (e : event) : option (option Z) :=
  match e, pending with
  | Called t, _ => Some (Some t)
  | Acted t, Some t0 => if t0 + delay <=? t then Some None else None
  | Acted _, None => None
  end.

Definition spec_trace (delay : Z) (tr : list event) : option (option Z) :=
  foldl (fun s e => s ≫= fun p => spec_event delay p e) (Some None) tr.

#[local] Arguments spec_trace : simpl never.

Lemma spec_trace_snoc delay tr e : spec_trace delay (tr ++ [e]) = spec_trace delay tr ≫= fun p => spec_event delay p e.
Proof. unfold spec_trace. by rewrite foldl_app. Qed.

(** The abstract state of a debouncer: only the current timer can be waiting. *)
Definition abs_inv (d : debouncer) (pending : option Z) : Prop :=
  spec_trace (d_delay d) (d_trace d) = Some pending /\
  (forall i dl, d_timers d !! i = Some (Waiting dl) -> d_timer d = Some i /\ exists t, pending = Some t /\ dl = t + d_delay d) /\
  (forall t, pending = Some t -> t <= d_now d /\
     exists i, d_timer d = Some i /\ d_timers d !! i = Some (Waiting (t + d_delay d))) /\
  (forall i, d_timer d = Some i -> (i < length (d_timers d))%nat).

Lemma Call_inv d pending : abs_inv d pending -> abs_inv (Call d) (Some (d_now d)).
Proof.
  intros (Htr & Hw & Hp & Hi). unfold Call. set (ts := match d_timer d with Some _ => _ | None => _ end).
  assert (length ts = length (d_timers d)) as Hlen by (unfold ts; destruct (d_timer d); [apply length_alter|done]).
  assert (forall i dl, ts !! i <> Some (Waiting dl)) as Hno.
  { intros i dl Hl. unfold ts in Hl. destruct (d_timer d) as [j|] eqn:Ej.
    - destruct (decide (j = i)) as [->|Hne].
      + rewrite list_lookup_alter_eq in Hl. destruct (d_timers d !! i) as [[]|]; done.
      + rewrite list_lookup_alter_ne in Hl by done. destruct (Hw _ _ Hl) as [E _]. congruence.
    - by destruct (Hw _ _ Hl) as [E _]. }
  split_and!; cbn.
  - rewrite spec_trace_snoc, Htr. done.
  - intros i dl Hl. apply lookup_app_Some in Hl as [Hl|[Hge Hl]]; [by destruct (Hno i dl)|].
    destruct (i - length ts)%nat as [|k] eqn:E; [|done]. cbn in Hl. injection Hl as <-.
    split; [f_equal; lia|eauto].
  - intros t [= <-]. split; [lia|]. eexists. split; [done|]. by rewrite lookup_app_r, Nat.sub_diag.
  - intros i [= <-]. rewrite length_app. cbn. lia.
Qed.

Lemma debounce_step_inv d d' pending :
  debounce_step d d' -> abs_inv d pending -> exists pending', abs_inv d' pending'.
Proof.
  intros Hs Hinv. destruct Hs as [d|delay cur ts now now' tr Hle|delay cur ts now tr i dl Hl Hdue].
  - exists (Some (d_now d)). by eapply Call_inv.
  - exists pending. destruct Hinv as (Htr & Hw & Hp & Hi). split_and!; try done. cbn in *.
    intros t Ht. destruct (Hp t Ht) as [? ?]. split; [lia|done].
  - destruct Hinv as (Htr & Hw & Hp & Hi). cbn in *. destruct (Hw i dl Hl) as (-> & t & -> & ->).
    exists None. split_and!; cbn.
    + rewrite spec_trace_snoc, Htr. cbn. by rewrite (proj2 (Z.leb_le _ _)).
    + intros j dl Hj. destruct (decide (i = j)) as [->|Hne].
      * rewrite list_lookup_insert_eq in Hj by (by eapply lookup_lt_Some). done.
      * rewrite list_lookup_insert_ne in Hj by done. destruct (Hw j dl Hj) as [[= ->] _]. done.
    + done.
    + intros j. rewrite length_insert. apply Hi.
Qed.

Lemma debounce_run_inv d d' pending :
  rtc debounce_step d d' -> abs_inv d pending -> exists pending', abs_inv d' pending'.
Proof.
  intros Hrun. revert pending. induction Hrun as [d|d1 d2 d3 Hs _ IH]; intros p Hi; [eauto|].
  destruct (debounce_step_inv _ _ _ Hs Hi) as [p' Hi']. eauto.
Qed.

Lemma debounce_delay d d' : rtc debounce_step d d' -> d_delay d' = d_delay d.
Proof. induction 1 as [d|d1 d2 d3 Hs _ ->]; [done|]. by destruct Hs. Qed.

(** C34: the debouncer refines its specification: whatever the order of calls,
    clock and timers, the action runs only after a call that nothing has
    answered yet and no sooner than the delay after the latest call, so a burst
    of calls gives one run; and as soon as that time has come the run can
    happen. *)
Theorem Debouncer_refines (delay now : Z) (d : debouncer)
    (Hrun : rtc debounce_step (NewDebouncer delay now) d) :
  exists pending, spec_trace delay (d_trace d) = Some pending /\
    (forall t, pending = Some t -> t + delay <= d_now d ->
       exists d', debounce_step d d' /\ d_trace d' = d_trace d ++ [Acted (d_now d)]).
Proof.
  destruct (debounce_run_inv _ _ None Hrun) as [pending (Htr & _ & Hp & _)]; [by split_and!|].
  pose proof (debounce_delay _ _ Hrun) as Hd. cbn in Hd. rewrite Hd in *. exists pending. split; [done|].
  intros t Ht Hdue. destruct (Hp t Ht) as (_ & i & _ & Hl). destruct d as [dl cur ts nw tr]. cbn in *.
  eexists. split; [by eapply step_fire|done].
Qed.

Lemma Debouncer_refines_witness :
  let d := Call (mkDebouncer 10 (Some 0%nat) [Waiting 10] 7 [Called 0]) in
  exists pending, spec_trace 10 (d_trace d) = Some pending /\
    (forall t, pending = Some t -> t + 10 <= d_now d ->
       exists d', debounce_step d d' /\ d_trace d' = d_trace d ++ [Acted (d_now d)]).
Proof.
  intros d. apply (Debouncer_refines 10 0 d).
  eapply rtc_l; [apply step_call|]. eapply rtc_l; [apply (step_clock 10 (Some 0%nat) [Waiting 10] 0 7); lia|].
  apply rtc_once. apply step_call.
Defined.
